(* ===== verification/_CoqProject ===== *)
-Q . S2P
Prelude.v
Memory.v
DeepCopy.v
GoStrings.v
Effects.v
Base64.v
ObjectStore.v
Api.v
GoTime.v
Json.v
EncodingJson.v
Kube.v
Exec.v
Unstructured.v
Classify.v
Cli.v
Movers.v
ActionPhase.v
Backup.v
Restore.v
Cutover.v
Workloads.v
Usefulness.v
Probe.v
Dump.v
StoredDumps.v
Transform.v
Heal.v
Snapshots.v
Graph.v
Capsule.v
DestPins.v
Scratch.v
Secrets.v
Volsync.v
Postgres.v
Traffic.v
Export.v
Render.v
BlobStores.v
Sync.v
Clusters.v
Tokens.v
CloudAuth.v
Retry.v
Metrics.v
ActionFacts.v
ActionRun.v
PolicyController.v
OffHub.v
CutoverPass.v
ActionLife.v
ActionController.v
HubConcurrency.v
PairController.v
ActionMetrics.v
Setup.v
Main.v
Evidence.v
CutoverEvidence.v
PassEvidence.v
Liveness.v
PassLiveness.v
RestoreLiveness.v
CutoverLiveness.v
