(* ===== verification/Prelude.v ===== *)
(** * Portage: a verified model of the workload-mobility operator

    Portage (src/) is a Kubernetes operator that backs up, restores, replicates
    and cuts over the workloads of one cluster to another. A Policy says what is
    to be protected; an Action is one Backup, Restore, Replicate or Cutover; a
    ClusterPair names a source and a destination. Three reconcilers, called in
    any order and any number of times, read these objects from the hub cluster,
    act on the source and the destination, and write a status back. This library
    models the reconcilers and every package they call, in Gallina functions
    that follow the Go code, and proves what the code is meant to guarantee.

    ** How code becomes definitions

    A pure Go function is a Rocq function. A function that talks to a cluster, a
    store, a process or the network is a program of type [io ev A] (Effects.v):
    a finite tree of calls, whose branches are the answers. The calls are the
    type [ev] of Kube.v: typed and dynamic clients, exec, stores, HTTP, the clock,
    the environment, the hub. Nothing is assumed of an answer: [always m Q] says
    that [Q] holds of the log of calls and the result for EVERY answer of every
    call. Where a theorem needs a server with a memory it gives an environment
    with a state: StoredDumps.v (a store that keeps blobs), HubConcurrency.v (a
    hub with resource versions and other writers). [live] is the total version,
    for an environment that does its part (Liveness.v and the files after it): the
    program is never stuck. The packages with calls of their own have signatures of their own
    (Exec.v, Tokens.v, where goroutines take turns at a mutex, Memory.v, the heap
    the generated deep copies work on, and Main.v, the start of the process). Go errors are [err] (a reason
    errors.IsNotFound and its kin can see, and a text), results [res]; panics are
    calls that never answer. Loops over slices are [foldM] and, with an early
    return, [loopM], so every program ends; [for] loops of the source with a bound
    (updateWithRetry, RetryOnConflict) are recursion on that bound, and tree walks
    (transform) recurse on the depth of the tree, which their lemmas show to be
    enough. int64 products and durations wrap with [wrap64] where the code can
    overflow; resource counts are [Z]. Maps are [gmap], and [strmap] where nil and
    empty differ; unstructured objects are the [json] trees of Json.v, in which
    the order of keys is kept and irrelevant. Strings are bytes ([string]); names
    are taken to be ASCII where the code folds case.

    Code that is not the repository's is a parameter, a class or a call: client-go
    and the API servers ([ev]), retry.RetryOnConflict (class [Retry], Retry.v: a
    number of attempts, repeated on conflicts; [default_retry] is client-go's
    five), the unstructured converter ([Export.Converter], which may refuse a manifest:
    what [Restore_completes] asks of it is that it reads back what the export
    made), url.Parse, sha256 and the YAML reader ([Library], ActionFacts.v), the
    accessors of unstructured objects ([Unstructured]), the cloud SDKs and their
    answers ([Cloud], CloudAuth.v). JSON that is stored, the
    snapshot of the object graph, is bytes, written and read by the encoding/json
    of EncodingJson.v, where every number read into an [any] is a float64; the
    JSON of HTTP bodies and of the command line's output is its tree, or printed
    and read by a parameter.

    ** The files

    Foundations: Prelude (this file: notations, tactics, generic lemmas),
    GoStrings and GoTime (strings, strconv, fmt, time), Effects (programs and
    their logic), Base64, Json (unstructured trees), EncodingJson (their text:
    printer, parser, float64), Kube (objects, calls, rules for programs of a kind
    of call: [only], [reads_only]), Unstructured.

    Data and stores: Api (api/v1alpha1, as the reconcilers use it); Memory and
    DeepCopy (its structs with every field, and the generated deep copies, as
    programs over a heap of variables, arrays and maps); ObjectStore, StoredDumps and BlobStores
    (pkg/objectstore: credentials, URLs, keys; the interface [BlobStore] and the
    in-memory store; the S3 and directory stores, over a bucket and a file system
    that are interfaces too). Exec (pkg/kubeexec: the exec request and its
    stream), Metrics (pkg/metrics).

    Inventory and workloads: Classify (pkg/classify: catalogue, class of a pod
    owner, Walk), Workloads (pkg/workloads: readiness, scaling), Usefulness
    (pkg/usefulness), Probe (pkg/probe), Dump (pkg/dump).

    State machines: ActionPhase (pkg/actionphase), Backup (pkg/backup), Restore
    (pkg/restore), Cutover (pkg/cutover). Each [Advance] is the function of the
    source; a step relation says what a pass does with it and the theorems are
    about every reachable status.

    Objects on their way: Transform (pkg/transform), Heal (pkg/heal), Snapshots
    (pkg/snapshots), Graph, Sync, Capsule (pkg/clusterobjects), Export (pkg/export
    and pkg/apply), Render (pkg/render).

    Movers (interface [Mover], registry and webhook mover in Movers): Volsync,
    Secrets, DestPins, Scratch (pkg/movers/volsync, with rclone), Postgres
    (pkg/movers/postgres). Traffic: pkg/traffic.

    Clusters: Clusters (resolver, authentication), Tokens (the bearer transport
    and the token cache) and CloudAuth (EKS, GKE, AKS) for pkg/clusters.

    Reconcilers (internal/controller): PolicyController, PairController; the
    Action reconciler in ActionFacts (helpers and object graph), ActionRun
    (runBackup, runRestore, runReplicate, runCutover) and ActionController
    ([Reconcile]). Their specification and the composition theorems are in
    ActionLife (the abstract life of an Action), OffHub (an interface the movers
    and all components meet: none writes to the hub), CutoverPass, HubConcurrency,
    ActionMetrics (what a pass counts), Evidence and PassEvidence (the calls a
    success rests on), CutoverEvidence (those each stage of a cutover rests on),
    Liveness, PassLiveness, RestoreLiveness and CutoverLiveness (a Backup, a
    Restore and a Cutover complete, and what a cutover waits for).

    The programs: Setup (cmd/controller, SetupWithManager) builds the reconcilers
    of production and Main runs the process: schemes, manager, clients,
    controllers, probes; Cli (cmd/portage, internal/cli, internal/version) is the
    command tree and what it prints.

    ** What is shown

    The Action reconciler. [Reconcile_refines_life]: each status it writes is a
    step of the abstract machine of ActionLife, written onto an Action read in the
    same pass. [Reconcile_success_backed]: Succeeded is only written for what
    really succeeded; [Reconcile_evidence]: the pass that writes it has the dumps,
    the readiness and the probes in its own log. On a cluster that answers, one
    pass of the production reconciler completes a Backup and leaves a Policy to
    restore from ([Reconcile_backup_completes]), and three passes complete a
    Restore from such a Policy ([Restore_completes]); seven complete a Cutover to
    the other cluster of a pair ([Cutover_completes]), while some inventories keep
    one waiting for ever ([cutover_waits]). [Reconcile_counts]: a
    completion recorded is counted once. [Reconcile_over_untouched],
    [Reconcile_attempts]: finished Actions are left alone, and a pass ends after
    at most ten writes.
    [clusters_apart]: a remote destination is the one the resolver answered, never
    the source. [replay_dump_once]
    and [no_lost_replay]: a dump is replayed once, with any number of concurrent
    writers. [cutover_pass_acts]: what a cutover does to which cluster in which
    phase; [cutover_stages]: which calls let it leave one. [dump_roundtrip]: what is replayed is what was dumped, in any of the
    three stores. [production_wiring]: what these theorems assume of the injected
    clock and resolver holds of the reconcilers main builds; [main_serves]: what
    main does before it serves, and that any failure ends it; [one_queue]: each
    Action has one of the two queues.

    The machines. [restore_reachable_justified], [restore_succeeded_safe],
    [restore_finishes] (with good facts a Restore succeeds within three passes),
    [cutover_order], [CanSucceed_spec], [Healthy_exact].

    The other reconcilers. [policy_pass_writes], [rpoBackupName_window],
    [observe_judges]; [pair_pass_truthful].

    Data. [DeepCopy_apart]: a deep copy denotes the same value and shares no
    memory with the original.

    Components. What they write and when: [Replicate_pairs], [Replicate_standby],
    [EnsureSecrets_stable], [CopySecrets_same], [strip_deletes],
    [ExecIn_once], [RoundTrip_authorized], [Typed_applies],
    [Sync_namespaces_owned], [EnsurePVC_safe], [Render_contract] (what the
    Renderer interface promises and the renderers keep, and the pins its comment
    excludes and they do not). What they compute: [Walk_complete],
    [ListItems_exact], [Sync_settles], [Object_portable], [heal_PodSpec_spec],
    [Evaluate_useful], [Capture_useful], [probe_Run_evidence],
    [snapshot_roundtrip] (bytes to items and back, and what is lost),
    [ResticSecretName_valid], [Resolve_no_substitution],
    [cloud_config_verified], [printInventory_reads_back]. What their goroutines
    can do: [token_cache_safe] (over a cache whose model also records, for the
    statement only, what each goroutine fetched and when it read the clock),
    [token_cache_live].

    Where the model shows that the code does not do what it says, a lemma or an
    instance computed beside the component states it (for instance
    [Export.daemonset_skipped], [Volsync.one_claim_moved],
    [Classify.catalog_shadowing], [CloudAuth.two_schemes],
    [BlobStores.Dir_escapes]); [Render_contract], [rpoBackupName_window],
    [pair_pass_truthful], [Replicate_standby] and [snapshot_roundtrip] have such a
    case in their own statement.

    ** Not modelled

    controller-runtime (the manager, caches, work queues, leader election), cobra
    and client-go's executors and streams: library code, whose answers are
    arbitrary; the deep copies of apimachinery's own types are a class with laws
    ([Apimachinery], Memory.v). Log lines and registration with Prometheus.
    Outside Memory and DeepCopy values are immutable: where the code shares a
    mutable object between two uses the model threads it (the Action in ActionRun,
    the stored Action in HubConcurrency), and the one array written in place (the
    healer names in applyFacts of pkg/restore) is only shared by statuses of the
    same key, which get the same names. The mutex of the in-memory store is the
    atomicity of a step. The passes that are shown to complete are those of a
    Backup of dumped databases and of a Restore by Portage itself, under a Policy
    without a ClusterPair, and of a Cutover by the built-in movers; a Replicate
    never ends. Errors
    keep their text where the code writes it; library error texts are arbitrary
    (that of a snapshot that does not decode is a parameter). *)

From Stdlib Require Import ZArith Lia Sorting.Sorted.
From stdpp Require Export base list strings gmap option fin_maps.

(** ** Notations and tactics of the development *)

#[export] Set Warnings "-clear-no-such-hyp".

Declare Scope portage_scope.
Delimit Scope portage_scope with portage.
Open Scope portage_scope.

Create HintDb portage.

(** Split every conjunction of the goal and of the context. *)
Ltac split_all := repeat match goal with
  | H : _ /\ _ |- _ => destruct H
  | H : exists _, _ |- _ => destruct H
  | |- _ /\ _ => split
  end.

(** Case analysis on the first [if] or [match] scrutinee of the goal,
    keeping the equation. *)
Ltac case_if := match goal with
  | |- context [if ?b then _ else _] => destruct b eqn:?
  end.

Ltac case_if_in H := match type of H with
  | context [if ?b then _ else _] => destruct b eqn:?
  | context [match ?b with _ => _ end] => destruct b eqn:?
  end.

(** Membership of a constant in a literal list. *)
Ltac elem := solve [repeat first [apply list_elem_of_here | apply list_elem_of_further]].

(** Evaluate [bool_decide] on equations between distinct constructors. *)
Ltac decide_consts := repeat match goal with
  | |- context [bool_decide (?a = ?b)] =>
      first [rewrite (bool_decide_true (a = b)) by reflexivity
            |rewrite (bool_decide_false (a = b)) by discriminate]
  | H : context [bool_decide (?a = ?b)] |- _ =>
      first [rewrite (bool_decide_true (a = b)) in H by reflexivity
            |rewrite (bool_decide_false (a = b)) in H by discriminate]
  end.

(** Turn boolean facts into propositions. *)
Ltac boolify := repeat match goal with
  | H : (_ && _)%bool = true |- _ => apply andb_true_iff in H; destruct H
  | H : (_ || _)%bool = false |- _ => apply orb_false_iff in H; destruct H
  | H : negb _ = true |- _ => apply negb_true_iff in H
  | H : negb _ = false |- _ => apply negb_false_iff in H
  | H : bool_decide _ = true |- _ => apply bool_decide_eq_true in H
  | H : bool_decide _ = false |- _ => apply bool_decide_eq_false in H
  | H : String.eqb _ _ = true |- _ => apply String.eqb_eq in H
  | H : String.eqb _ _ = false |- _ => apply String.eqb_neq in H
  | H : Z.leb _ _ = true |- _ => apply Z.leb_le in H
  | H : Z.leb _ _ = false |- _ => apply Z.leb_gt in H
  | H : Z.ltb _ _ = true |- _ => apply Z.ltb_lt in H
  | H : Z.ltb _ _ = false |- _ => apply Z.ltb_ge in H
  | H : Z.eqb _ _ = true |- _ => apply Z.eqb_eq in H
  | H : Z.eqb _ _ = false |- _ => apply Z.eqb_neq in H
  end.

(** ** Machine integers *)

(** Go's int64 addition wraps around. *)
Definition wrap (bits : Z) (x : Z) : Z :=
  ((x + 2 ^ (bits - 1)) mod 2 ^ bits - 2 ^ (bits - 1))%Z.
Definition wrap64 : Z -> Z := wrap 64.
Definition wrap32 : Z -> Z := wrap 32.

Lemma wrap_small bits x :
  (0 < bits)%Z -> (- 2 ^ (bits - 1) <= x < 2 ^ (bits - 1))%Z -> wrap bits x = x.
Proof.
  intros Hb Hx. unfold wrap.
  assert (2 ^ bits = 2 * 2 ^ (bits - 1))%Z as E.
  { rewrite <- Z.pow_succ_r by lia. f_equal. lia. }
  rewrite Z.mod_small by lia. lia.
Qed.

Lemma wrap_range bits x :
  (0 < bits)%Z -> (- 2 ^ (bits - 1) <= wrap bits x < 2 ^ (bits - 1))%Z.
Proof.
  intros Hb. unfold wrap.
  assert (2 ^ bits = 2 * 2 ^ (bits - 1))%Z as E.
  { rewrite <- Z.pow_succ_r by lia. f_equal. lia. }
  assert (0 < 2 ^ (bits - 1))%Z by (apply Z.pow_pos_nonneg; lia).
  pose proof (Z.mod_pos_bound (x + 2 ^ (bits - 1)) (2 ^ bits)). lia.
Qed.

(** ** Go maps

    A Go map is a [gmap]; reading a missing key gives the zero value. A map
    whose nil-ness the code observes is an [option (gmap _ _)]. *)

Definition map_get {V} (zero : V) (m : gmap string V) (k : string) : V :=
  default zero (m !! k).

Definition nmap_get {V} (zero : V) (m : option (gmap string V)) (k : string) : V :=
  match m with Some m => map_get zero m k | None => zero end.

(** The index built by [for _, x := range xs { m[key x] = x }]: the last
    element with a key wins. *)
Definition index_by {A} (key : A -> string) (xs : list A) : gmap string A :=
  fold_left (fun m x => <[key x := x]> m) xs empty.

Lemma index_by_snoc {A} (key : A -> string) xs x :
  index_by key (xs ++ [x]) = <[key x := x]> (index_by key xs).
Proof. unfold index_by. by rewrite fold_left_app. Qed.

(** Characterisation of a lookup in [index_by]: the last occurrence. *)
Lemma index_by_lookup_Some {A} (key : A -> string) xs k a :
  index_by key xs !! k = Some a <->
  exists l1 l2, xs = l1 ++ a :: l2 /\ key a = k /\ Forall (fun b => key b <> k) l2.
Proof.
  induction xs as [|x xs IH] using rev_ind.
  - split.
    + cbn. intros H. by rewrite lookup_empty in H.
    + intros (l1 & l2 & H & _). by destruct l1.
  - rewrite index_by_snoc. destruct (decide (key x = k)) as [<-|Hne].
    + rewrite lookup_insert_eq. split.
      * intros [= <-]. exists xs, []. auto.
      * intros (l1 & l2 & E & Hk & Hl2).
        destruct l2 as [|y l2 _] using rev_ind.
        { apply app_inj_tail in E as [_ ->]. done. }
        rewrite app_comm_cons, app_assoc in E. apply app_inj_tail in E as [_ ->].
        apply Forall_app in Hl2 as [_ Hl2]. by apply Forall_inv in Hl2.
    + rewrite lookup_insert_ne by done. rewrite IH. split.
      * intros (l1 & l2 & -> & Hk & Hl2). exists l1, (l2 ++ [x]).
        rewrite <- app_assoc. split; [done|]. split; [done|].
        apply Forall_app. auto.
      * intros (l1 & l2 & E & Hk & Hl2).
        destruct l2 as [|y l2 _] using rev_ind.
        { apply app_inj_tail in E as [_ ->]. done. }
        rewrite app_comm_cons, app_assoc in E. apply app_inj_tail in E as [E1 ->].
        apply Forall_app in Hl2 as [Hl2 _]. eauto.
Qed.

Lemma index_by_lookup_None {A} (key : A -> string) xs k :
  index_by key xs !! k = None <-> Forall (fun a => key a <> k) xs.
Proof.
  induction xs as [|x xs IH] using rev_ind.
  - split; [done|]. intros _. apply lookup_empty.
  - rewrite index_by_snoc, lookup_insert_None, IH, Forall_app, Forall_singleton. tauto.
Qed.

(** ** Sorting

    [isort leb] is the stable insertion sort; [sort.SliceStable] with
    [less i j := negb (leb j i)] computes the same list. *)
Section isort.
  Context {A : Type} (leb : A -> A -> bool).

Fixpoint insert_by (x : A) (l : list A) : list A :=
    match l with
    | [] => [x]
    | y :: l' => if leb x y then x :: l else y :: insert_by x l'
    end.

Fixpoint isort (l : list A) : list A :=
    match l with
    | [] => []
    | x :: l' => insert_by x (isort l')
    end.

Lemma insert_by_Permutation x l : insert_by x l ≡ₚ x :: l.
  Proof.
    induction l as [|y l IH]; simpl; [done|]. case_if; [done|].
    rewrite IH. apply Permutation_swap.
  Qed.

Lemma isort_Permutation l : isort l ≡ₚ l.
  Proof. induction l as [|x l IH]; simpl; [done|]. by rewrite insert_by_Permutation, IH. Qed.

  Context (leb_total : forall x y, leb x y = true \/ leb y x = true).
  Context (leb_trans : forall x y z, leb x y = true -> leb y z = true -> leb x z = true).

Lemma insert_by_Sorted x l :
    StronglySorted leb l -> StronglySorted leb (insert_by x l).
  Proof.
    induction l as [|y l IH]; intros Hs; simpl; [repeat constructor|].
    inv Hs. case_if.
    - constructor; [constructor; auto|]. constructor; [by rewrite Heqb|].
      eapply Forall_impl; [done|]. intros z Hz; simpl in Hz.
      apply Is_true_eq_left, (leb_trans _ y); [done|by apply Is_true_eq_true].
    - constructor; [auto|].
      assert (leb y x = true) as Hyx by (destruct (leb_total x y); congruence).
      rewrite insert_by_Permutation. constructor; [by rewrite Hyx|done].
  Qed.

Lemma isort_Sorted l : StronglySorted leb (isort l).
  Proof. induction l; simpl; [constructor|]. by apply insert_by_Sorted. Qed.
End isort.
