(* ===== verification/Memory.v ===== *)
(** * Memory.v: Go's memory, as far as generated deep copies use it

    A heap maps locations to variables (a value, or the array behind a slice)
    and to maps of strings. Values are trees whose pointers, slices and maps are
    references into the heap; an address is a location and a path through the
    fields and indices of its variable, so that [&in.Status.Workloads[2]] is an
    address. Programs are partial functions of the heap: [None] is a panic (a nil
    dereference, an index out of range). The types are those the API uses:
    scalars, structs, pointers, slices, string maps and the types of
    apimachinery, which are library code and given by the class [Apimachinery].

    [read h t v] is the tree that the value [v] of type [t] denotes in [h], all
    references followed. The statements of controller-gen's deep copies are one
    definition each; [copies t g] says that [g in out] leaves in [out] a value
    that denotes what [in] denotes, in memory it allocated itself, and the rules
    below prove it for each statement and for the structs made of them. *)

From stdpp Require Import gmap fin_maps infinite.
From S2P Require Import Prelude.

(** ** Values, addresses, heaps *)

Abbreviation loc := positive.

Inductive step := Fld (f : string) | Idx (i : nat).

Record addr := Addr { base : loc; path : list step }.

(** A slice header: the array, the offset of its first element, its length. The
    capacity plays no part in what follows. *)
Record slice := Slice_ { s_array : addr; s_off : nat; s_len : nat }.

Inductive scalar := SString (s : string) | SBool (b : bool) | SInt (z : Z).

Inductive val :=
| VBasic (s : scalar)
| VStruct (fs : list (string * val))
| VArray (vs : list val)
| VPtr (p : option addr)
| VSlice (s : option slice)
| VMap (m : option loc).

Inductive obj := OVal (v : val) | OMap (m : gmap string string).

Abbreviation heap := (gmap loc obj).

Definition fld (a : addr) (f : string) : addr := Addr (base a) (path a ++ [Fld f]).
Definition item (s : slice) (i : nat) : addr :=
  Addr (base (s_array s)) (path (s_array s) ++ [Idx (s_off s + i)]).

(** ** Access by path *)

Fixpoint field_get (f : string) (fs : list (string * val)) : option val :=
  match fs with
  | [] => None
  | (g, v) :: fs => if String.eqb f g then Some v else field_get f fs
  end.

Fixpoint field_set (f : string) (w : val) (fs : list (string * val)) : list (string * val) :=
  match fs with
  | [] => []
  | (g, v) :: fs => if String.eqb f g then (g, w) :: fs else (g, v) :: field_set f w fs
  end.

Definition sub1 (s : step) (v : val) : option val :=
  match s, v with
  | Fld f, VStruct fs => field_get f fs
  | Idx i, VArray vs => vs !! i
  | _, _ => None
  end.

Definition upd1 (s : step) (w v : val) : val :=
  match s, v with
  | Fld f, VStruct fs => VStruct (field_set f w fs)
  | Idx i, VArray vs => VArray (<[i := w]> vs)
  | _, _ => v
  end.

Fixpoint sub (p : list step) (v : val) : option val :=
  match p with
  | [] => Some v
  | s :: p => sub1 s v ≫= sub p
  end.

(** The value with [w] at the path [p], when there is something there. *)
Fixpoint upd (p : list step) (w v : val) : option val :=
  match p with
  | [] => Some w
  | s :: p => u ← sub1 s v; u' ← upd p w u; Some (upd1 s u' v)
  end.

Definition load_at (h : heap) (a : addr) : option val :=
  match h !! base a with Some (OVal c) => sub (path a) c | _ => None end.

Lemma field_get_set_eq f w fs : is_Some (field_get f fs) -> field_get f (field_set f w fs) = Some w.
Proof.
  induction fs as [|[g v] fs IH]; simpl; [by intros [? [=]]|]. intros H.
  destruct (String.eqb f g) eqn:E; simpl; rewrite E; auto.
Qed.

Lemma field_set_set f w w' fs : field_set f w' (field_set f w fs) = field_set f w' fs.
Proof.
  induction fs as [|[g v] fs IH]; simpl; [done|].
  destruct (String.eqb f g) eqn:E; simpl; rewrite E; congruence.
Qed.

Lemma sub1_upd1 s w v : is_Some (sub1 s v) -> sub1 s (upd1 s w v) = Some w.
Proof.
  destruct s, v; simpl; try by intros [? [=]].
  - apply field_get_set_eq.
  - intros H%lookup_lt_is_Some. by rewrite list_lookup_insert_eq.
Qed.

Lemma upd1_upd1 s w w' v : upd1 s w' (upd1 s w v) = upd1 s w' v.
Proof.
  destruct s, v; simpl; try done; f_equal; [apply field_set_set|apply list_insert_insert_eq].
Qed.

Lemma sub_app p q v : sub (p ++ q) v = sub p v ≫= sub q.
Proof. revert v. induction p as [|s p IH]; intros v; simpl; [done|]. destruct (sub1 s v); simpl; auto. Qed.

Lemma upd_is_Some p w v u : sub p v = Some u -> is_Some (upd p w v).
Proof.
  revert v. induction p as [|s p IH]; intros v; simpl; [eauto|].
  destruct (sub1 s v) as [x|]; simpl; [|done]. intros [y E]%IH. rewrite E. simpl. eauto.
Qed.

Lemma sub_upd p w v v' : upd p w v = Some v' -> sub p v' = Some w.
Proof.
  revert v v'. induction p as [|s p IH]; intros v v'; simpl; [by intros [= ->]|].
  destruct (sub1 s v) as [x|] eqn:E; simpl; [|done].
  destruct (upd p w x) as [x'|] eqn:E'; simpl; [|done]. intros [= <-].
  rewrite sub1_upd1 by eauto. simpl. eauto.
Qed.

Lemma upd1_same s v w : sub1 s v = Some w -> upd1 s w v = v.
Proof.
  destruct s, v; simpl; try done; intros E; f_equal; [|by apply list_insert_id].
  induction fs as [|[g u] fs IH]; simpl in *; [done|].
  destruct (String.eqb f g); [congruence|]. by rewrite IH.
Qed.

Lemma upd_same p v w : sub p v = Some w -> upd p w v = Some v.
Proof.
  revert v. induction p as [|s p IH]; intros v; simpl; [congruence|].
  destruct (sub1 s v) as [x|] eqn:E; simpl; [|done]. intros Hx. rewrite (IH _ Hx). simpl.
  by rewrite upd1_same.
Qed.

(** Two writes below one another are one write of the outer value. *)
Lemma upd_app p q w v u u' v' v'' :
  upd p u v = Some v' -> upd q w u = Some u' -> upd p u' v = Some v'' ->
  upd (p ++ q) w v' = Some v''.
Proof.
  revert v v' v''. induction p as [|s p IH]; intros v v' v''; simpl.
  { by intros [= ->] -> [= ->]. }
  destruct (sub1 s v) as [x|] eqn:E; simpl; [|done].
  destruct (upd p u x) as [x1|] eqn:E1; simpl; [|done]. intros [= <-] Hq.
  destruct (upd p u' x) as [x2|] eqn:E2; simpl; [|done]. intros [= <-].
  rewrite sub1_upd1 by eauto. simpl. rewrite (IH x x1 x2) by done. simpl.
  by rewrite upd1_upd1.
Qed.


(** Of two writes at one path the second wins. *)
Lemma upd_upd p w w' v v' : upd p w v = Some v' -> upd p w' v' = upd p w' v.
Proof.
  revert v v'. induction p as [|s p IH]; intros v v'; simpl; [done|].
  destruct (sub1 s v) as [x|] eqn:E; simpl; [|done].
  destruct (upd p w x) as [x1|] eqn:E1; simpl; [|done]. intros [= <-].
  rewrite sub1_upd1 by eauto. simpl. rewrite (IH x x1) by done.
  destruct (upd p w' x); simpl; [by rewrite upd1_upd1|done].
Qed.

Lemma load_at_mono h h' a v : h ⊆ h' -> load_at h a = Some v -> load_at h' a = Some v.
Proof.
  unfold load_at. intros Hs. destruct (h !! base a) as [o|] eqn:E; [|done].
  by rewrite (lookup_weaken _ _ _ _ E Hs).
Qed.

Lemma load_at_fld h a f fs :
  load_at h a = Some (VStruct fs) -> load_at h (fld a f) = field_get f fs.
Proof.
  unfold load_at, fld. simpl. destruct (h !! base a) as [[c|]|]; try done.
  intros E. rewrite sub_app, E. simpl. by destruct (field_get f fs).
Qed.

Lemma load_at_elem h s i vs :
  load_at h (s_array s) = Some (VArray vs) -> load_at h (item s i) = vs !! (s_off s + i)%nat.
Proof.
  unfold load_at, item. simpl. destruct (h !! base (s_array s)) as [[c|]|]; try done.
  intros E. rewrite sub_app, E. simpl. by destruct (vs !! _).
Qed.

(** ** Types and what values denote *)

Inductive kind := KString | KBool | KInt32 | KInt64.

(** The types of k8s.io/apimachinery that the API embeds. *)
Inductive ext := TypeMeta | ObjectMeta | ListMeta | Time | Condition | LabelSelector.

Inductive ty :=
| Basic (k : kind)
| Ext (e : ext)
| Struct (fs : list (string * ty))
| Ptr (t : ty)
| Slice (t : ty)
| StrMap.

Inductive tree :=
| TBasic (s : scalar)
| TStruct (fs : list (string * tree))
| TNil
| TPtr (x : tree)
| TSlice (xs : list tree)
| TMap (m : gmap string string).

(** The induction principle that reaches the fields of a struct. *)
Section ty_ind'.
  Context (P : ty -> Prop)
    (HB : forall k, P (Basic k)) (HE : forall e, P (Ext e))
    (HS : forall fs, Forall (fun ft => P (snd ft)) fs -> P (Struct fs))
    (HP : forall t, P t -> P (Ptr t)) (HL : forall t, P t -> P (Slice t)) (HM : P StrMap).

Fixpoint ty_ind' (t : ty) : P t :=
    match t with
    | Basic k => HB k
    | Ext e => HE e
    | Struct fs => HS fs ((fix go fs : Forall (fun ft => P (snd ft)) fs :=
        match fs with
        | [] => Forall_nil_2 _
        | ft :: fs => Forall_cons_2 _ _ _ (ty_ind' (snd ft)) (go fs)
        end) fs)
    | Ptr t => HP t (ty_ind' t)
    | Slice t => HL t (ty_ind' t)
    | StrMap => HM
    end.
End ty_ind'.

Definition kind_of (k : kind) (s : scalar) : bool :=
  match k, s with
  | KString, SString _ | KBool, SBool _ | KInt32, SInt _ | KInt64, SInt _ => true
  | _, _ => false
  end.

Definition zero_scalar (k : kind) : scalar :=
  match k with KString => SString "" | KBool => SBool false | _ => SInt 0 end.

(** The programs: partial functions of the heap. *)
Definition M (A : Type) : Type := heap -> option (A * heap).

#[export] Instance M_ret : MRet M := fun A a H => Some (a, H).
#[export] Instance M_bind : MBind M := fun A B k m H =>
  match m H with Some (a, H') => k a H' | None => None end.

Definition panic {A} : M A := fun _ => None.

(** apimachinery: the values, zero values and deep copies of its types, what
    their values denote; and the order in which [range] visits a map, which Go
    leaves open. *)
Class Apimachinery := {
  ext_zero : ext -> val;
  ext_read : ext -> heap -> val -> option tree;
  ext_DeepCopyInto : ext -> addr -> addr -> M unit;
  Time_DeepCopy : option addr -> M (option addr);
  range_order : gmap string string -> list (string * string)
}.

Section memory.
  Context `{Apimachinery}.

(** The zero value of a type. *)
Fixpoint zero (t : ty) : val :=
    match t with
    | Basic k => VBasic (zero_scalar k)
    | Ext e => ext_zero e
    | Struct fs => VStruct (map (fun ft => (fst ft, zero (snd ft))) fs)
    | Ptr _ => VPtr None
    | Slice _ => VSlice None
    | StrMap => VMap None
    end.

(** The elements of a slice. *)
Definition slice_elems (h : heap) (s : slice) : option (list val) :=
    mapM (fun i => load_at h (item s i)) (seq 0 (s_len s)).

(** The tree a value of type [t] denotes: [None] when it is not of type [t] or a
    reference leads nowhere. *)
Fixpoint read (h : heap) (t : ty) (v : val) : option tree :=
    match t, v with
    | Basic k, VBasic s => if kind_of k s then Some (TBasic s) else None
    | Ext e, v => ext_read e h v
    | Struct fs, VStruct vs =>
        TStruct <$> (fix go fs vs : option (list (string * tree)) :=
          match fs, vs with
          | [], [] => Some []
          | (f, t) :: fs, (g, v) :: vs =>
              if String.eqb f g then x ← read h t v; xs ← go fs vs; Some ((f, x) :: xs) else None
          | _, _ => None
          end) fs vs
    | Ptr _, VPtr None | Slice _, VSlice None | StrMap, VMap None => Some TNil
    | Ptr t, VPtr (Some a) => v ← load_at h a; TPtr <$> read h t v
    | Slice t, VSlice (Some s) => vs ← slice_elems h s; TSlice <$> mapM (read h t) vs
    | StrMap, VMap (Some l) => match h !! l with Some (OMap m) => Some (TMap m) | _ => None end
    | _, _ => None
    end.

Fixpoint read_fields (h : heap) (fs : list (string * ty)) (vs : list (string * val))
      : option (list (string * tree)) :=
    match fs, vs with
    | [], [] => Some []
    | (f, t) :: fs, (g, v) :: vs =>
        if String.eqb f g then x ← read h t v; xs ← read_fields h fs vs; Some ((f, x) :: xs) else None
    | _, _ => None
    end.

Lemma read_Struct h fs vs : read h (Struct fs) (VStruct vs) = TStruct <$> read_fields h fs vs.
  Proof.
    simpl. f_equal. revert vs. induction fs as [|[f t] fs IH]; intros [|[g v] vs]; simpl; try done.
    destruct (String.eqb f g); [|done]. by rewrite IH.
  Qed.
End memory.

(** What the operator relies on: apimachinery's values denote what they denote
    in every larger memory, and a TypeMeta (two strings) needs no memory; and [range]
    visits every entry of a map once. *)
Class ReadLaws `{Apimachinery} : Prop := {
  ext_read_mono e h h' v x : h ⊆ h' -> ext_read e h v = Some x -> ext_read e h' v = Some x;
  TypeMeta_flat h v x : ext_read TypeMeta h v = Some x -> ext_read TypeMeta ∅ v = Some x;
  range_order_all m : range_order m ≡ₚ map_to_list m
}.

Section read_lemmas.
  Context {apim : Apimachinery} {laws : ReadLaws}.

Lemma slice_elems_mono h h' s vs :
    h ⊆ h' -> slice_elems h s = Some vs -> slice_elems h' s = Some vs.
  Proof.
    intros Hs. unfold slice_elems. rewrite !mapM_Some. intros HF.
    eapply Forall2_impl; [done|]. intros i v. by apply load_at_mono.
  Qed.

Lemma read_fields_mono h h' fs :
    Forall (fun ft => forall v x, read h (snd ft) v = Some x -> read h' (snd ft) v = Some x) fs ->
    forall vs xs, read_fields h fs vs = Some xs -> read_fields h' fs vs = Some xs.
  Proof.
    induction 1 as [|[f t] fs Hf _ IH]; intros [|[g v] vs] xs; simpl; try done.
    destruct (String.eqb f g); [|done].
    intros (x & Hx & (ys & Hys & [= <-])%bind_Some)%bind_Some.
    simpl in Hf. rewrite (Hf _ _ Hx). simpl. by rewrite (IH _ _ Hys).
  Qed.

(** A value denotes in a larger memory what it denotes in a part of it. *)
Lemma read_mono h h' t v x : h ⊆ h' -> read h t v = Some x -> read h' t v = Some x.
  Proof.
    intros Hs. revert v x. induction t as [k|e|fs IH|t IH|t IH|] using ty_ind'; intros v x.
    - done.
    - destruct v; simpl; by apply ext_read_mono.
    - destruct v as [|vs| | | |]; try done. rewrite !read_Struct.
      intros (xs & Hxs & ->)%fmap_Some. by rewrite (read_fields_mono h h' fs IH _ _ Hxs).
    - destruct v as [| | |[a|]| |]; try done. simpl.
      intros (u & Hu & (y & Hy & ->)%fmap_Some)%bind_Some.
      rewrite (load_at_mono _ _ _ _ Hs Hu). simpl. by rewrite (IH _ _ Hy).
    - destruct v as [| | | |[s|]|]; try done. simpl.
      intros (vs & Hvs & (ys & Hys & ->)%fmap_Some)%bind_Some.
      rewrite (slice_elems_mono _ _ _ _ Hs Hvs). simpl.
      apply fmap_Some. exists ys. split; [|done]. apply mapM_Some in Hys. apply mapM_Some.
      eapply Forall2_impl; [done|]. intros. by apply IH.
    - destruct v as [| | | | |[l|]]; try done. simpl.
      destruct (h !! l) as [o|] eqn:E; [|done]. by rewrite (lookup_weaken _ _ _ _ E Hs).
  Qed.

(** The types whose values have no references: [out.Spec = in.Spec] copies them. *)
Fixpoint flat (t : ty) : bool :=
    match t with
    | Basic _ => true
    | Ext TypeMeta => true
    | Struct fs => forallb (fun ft => flat (snd ft)) fs
    | _ => false
    end.

Lemma read_flat h t v x : flat t = true -> read h t v = Some x -> read ∅ t v = Some x.
  Proof.
    revert v x. induction t as [k|e|fs IH|t IH|t IH|] using ty_ind'; intros v x Hf; try done.
    - destruct e; try done. destruct v; simpl; apply TypeMeta_flat.
    - destruct v as [|vs| | | |]; try done. rewrite !read_Struct.
      intros (xs & Hxs & ->)%fmap_Some. simpl in Hf.
      rewrite (read_fields_mono h ∅ fs) with (xs := xs); [done| |done].
      rewrite forallb_forall in Hf. rewrite Forall_forall in IH |- *.
      intros ft Hin u y. apply IH; [done|]. apply Hf. by apply list_elem_of_In.
  Qed.

Lemma read_flat_any h h' t v x : flat t = true -> read h t v = Some x -> read h' t v = Some x.
  Proof. intros Hf Hx. eapply read_mono; [apply map_empty_subseteq|]. eapply read_flat; eauto. Qed.
End read_lemmas.

(** ** Statements *)

Section statements.
  Context `{Apimachinery}.

Definition load (a : addr) : M val :=
    fun H => match load_at H a with Some v => Some (v, H) | None => None end.

Definition store (a : addr) (w : val) : M unit :=
    fun H => match H !! base a with
             | Some (OVal c) =>
                 match upd (path a) w c with
                 | Some c' => Some (tt, <[base a := OVal c']> H)
                 | None => None
                 end
             | _ => None
             end.

Definition alloc (o : obj) : M loc :=
    fun H => let l := fresh (dom H) in Some (l, <[l := o]> H).

(** The pointer, the slice, the map held by a variable; a nil pointer panics. *)
Definition load_ptr (a : addr) : M addr :=
    v ← load a; match v with VPtr (Some p) => mret p | _ => panic end.

Definition load_slice (a : addr) : M slice :=
    v ← load a;
    match v with VSlice (Some s) => mret s | VSlice None => mret (Slice_ (Addr 1 []) 0 0) | _ => panic end.

Definition load_map (a : addr) : M (gmap string string) :=
    v ← load a;
    match v with
    | VMap (Some l) => fun H => match H !! l with Some (OMap m) => Some (m, H) | _ => None end
    | VMap None => mret ∅
    | _ => panic
    end.

(** [(⋆a)[k] = v] for a map: a nil map panics. *)
Definition map_set (a : addr) (k v : string) : M unit :=
    w ← load a;
    match w with
    | VMap (Some l) => fun H => match H !! l with
                                | Some (OMap m) => Some (tt, <[l := OMap (<[k := v]> m)]> H)
                                | _ => None
                                end
    | _ => panic
    end.

(** [&(⋆a)[i]]: an index out of range panics. *)
Definition index (a : addr) (i : nat) : M addr :=
    s ← load_slice a; if bool_decide (i < s_len s)%nat then mret (item s i) else panic.

Definition is_nil (v : val) : bool :=
    match v with VPtr None | VSlice None | VMap None => true | _ => false end.

(** [new(T)] *)
Definition new (t : ty) : M addr := l ← alloc (OVal (zero t)); mret (Addr l []).

(** [make([]T, n)] *)
Definition make_slice (t : ty) (n : nat) : M val :=
    l ← alloc (OVal (VArray (replicate n (zero t)))); mret (VSlice (Some (Slice_ (Addr l []) 0 n))).

(** [make(map[string]string)] *)
Definition make_map : M val := l ← alloc (OMap ∅); mret (VMap (Some l)).

(** [for i := range n { body i }] *)
Fixpoint range (i n : nat) (body : nat -> M unit) : M unit :=
    match n with O => mret tt | S n => body i;; range (S i) n body end.

Fixpoint range_list {A} (xs : list A) (body : A -> M unit) : M unit :=
    match xs with [] => mret tt | x :: xs => body x;; range_list xs body end.

(** [⋆out = ⋆in] *)
Definition assign (inp out : addr) : M unit := v ← load inp; store out v.

(** [if ⋆in != nil { body }] *)
Definition unless_nil (body : addr -> addr -> M unit) (inp out : addr) : M unit :=
    v ← load inp; if is_nil v then mret tt else body inp out.

(** [⋆out = new(T); ⋆⋆out = ⋆⋆in] *)
Definition new_assign (t : ty) (inp out : addr) : M unit :=
    p ← new t; store out (VPtr (Some p));;
    src ← load_ptr inp; dst ← load_ptr out; assign src dst.

(** [⋆out = new(T); (⋆in).DeepCopyInto(⋆out)] *)
Definition new_into (t : ty) (into : addr -> addr -> M unit) (inp out : addr) : M unit :=
    p ← new t; store out (VPtr (Some p));;
    src ← load_ptr inp; dst ← load_ptr out; into src dst.

(** [⋆out = (⋆in).DeepCopy()] *)
Definition deep_copy (dc : option addr -> M (option addr)) (inp out : addr) : M unit :=
    v ← load inp;
    match v with VPtr p => q ← dc p; store out (VPtr q) | _ => panic end.

Definition load_elems (s : slice) : M (list val) :=
    fun H => match slice_elems H s with Some vs => Some (vs, H) | None => None end.

(** [copy(⋆out, ⋆in)]: the elements are read before any is written. *)
Definition copy (inp out : addr) : M unit :=
    s ← load_slice inp; d ← load_slice out;
    vs ← load_elems s;
    range_list (zip (seq 0 (s_len d)) vs) (fun iv => store (item d (fst iv)) (snd iv)).

(** [⋆out = make([]T, len(⋆in)); copy(⋆out, ⋆in)] *)
Definition make_copy (t : ty) (inp out : addr) : M unit :=
    s ← load_slice inp; v ← make_slice t (s_len s); store out v;; copy inp out.

(** [⋆out = make([]T, len(⋆in)); for i := range ⋆in { (⋆in)[i].DeepCopyInto(&(⋆out)[i]) }] *)
Definition make_into (t : ty) (into : addr -> addr -> M unit) (inp out : addr) : M unit :=
    s ← load_slice inp; v ← make_slice t (s_len s); store out v;;
    n ← load_slice inp;
    range 0 (s_len n) (fun i => a ← index inp i; b ← index out i; into a b).

(** [⋆out = make(map[string]string, len(⋆in)); for key, val := range ⋆in { (⋆out)[key] = val }] *)
Definition make_strmap (inp out : addr) : M unit :=
    v ← make_map; store out v;;
    m ← load_map inp; range_list (range_order m) (fun kv => map_set out (fst kv) (snd kv)).

(** The body of a DeepCopyInto: [⋆out = ⋆in], then a statement per listed field. *)
Fixpoint fields (acts : list (string * (addr -> addr -> M unit))) (inp out : addr) : M unit :=
    match acts with
    | [] => mret tt
    | (f, a) :: acts => a (fld inp f) (fld out f);; fields acts inp out
    end.

Definition copy_struct (acts : list (string * (addr -> addr -> M unit))) (inp out : addr) : M unit :=
    assign inp out;; fields acts inp out.

(** DeepCopy: nil for nil, otherwise [out := new(T); in.DeepCopyInto(out); return out]. *)
Definition copy_ptr (t : ty) (into : addr -> addr -> M unit) (inp : option addr) : M (option addr) :=
    match inp with
    | None => mret None
    | Some inp => out ← new t; into inp out;; mret (Some out)
    end.

(** DeepCopyObject returns a runtime.Object: [None] is the nil interface and
    [Some (T, p)] the interface that holds the pointer [p] of type [⋆T], which is
    not nil even if [p] is. *)
Definition copy_object (name : string) (dc : option addr -> M (option addr)) (inp : option addr)
      : M (option (string * option addr)) :=
    c ← dc inp; match c with Some _ => mret (Some (name, c)) | None => mret None end.
End statements.

(** ** Rules *)

Definition runs {A} (m : M A) (H : heap) (Q : A -> heap -> Prop) : Prop :=
  exists a H', m H = Some (a, H') /\ Q a H'.

Lemma runs_ret {A} (a : A) H Q : Q a H -> runs (mret a) H Q.
Proof. intros HQ. by exists a, H. Qed.

Lemma runs_bind {A B} (m : M A) (k : A -> M B) H Q :
  runs m H (fun a H1 => runs (k a) H1 Q) -> runs (m ≫= k) H Q.
Proof.
  intros (a & H1 & E & b & H2 & E' & HQ). exists b, H2. split; [|done].
  unfold mbind, M_bind. by rewrite E.
Qed.

Lemma runs_mono {A} (m : M A) H (Q Q' : A -> heap -> Prop) :
  (forall a H', Q a H' -> Q' a H') -> runs m H Q -> runs m H Q'.
Proof. intros HQ (a & H' & E & Ha). exists a, H'. auto. Qed.

Lemma runs_load a H v Q : load_at H a = Some v -> Q v H -> runs (load a) H Q.
Proof. intros E HQ. exists v, H. split; [|done]. unfold load. by rewrite E. Qed.

Lemma runs_store a w H c c' Q :
  H !! base a = Some (OVal c) -> upd (path a) w c = Some c' ->
  Q tt (<[base a := OVal c']> H) -> runs (store a w) H Q.
Proof.
  intros E E' HQ. eexists tt, _. split; [|exact HQ]. unfold store. by rewrite E, E'.
Qed.

Lemma runs_alloc o H Q :
  (forall l, H !! l = None -> Q l (<[l := o]> H)) -> runs (alloc o) H Q.
Proof.
  intros HQ. exists (fresh (dom H)). eexists. split; [done|]. apply HQ.
  apply not_elem_of_dom, is_fresh.
Qed.

(** The memory after some work on the variable [out] of [H], which held [c]:
    the variable has [w] at the path of [out], all other variables of [H] are as
    they were, and [hn] is memory that [H] did not have. *)
Definition Prog (H : heap) (out : addr) (c w : val) (hn H1 : heap) : Prop :=
  exists c1, upd (path out) w c = Some c1 /\ H1 !! base out = Some (OVal c1) /\
    delete (base out) H ⊆ H1 /\ hn ⊆ H1 /\ hn ##ₘ H.

Lemma upd_sub p w v v' : upd p w v = Some v' -> is_Some (sub p v).
Proof.
  revert v v'. induction p as [|s p IH]; intros v v'; simpl; [by eauto|].
  destruct (sub1 s v) as [x|]; simpl; [|done].
  destruct (upd p w x) as [x'|] eqn:E; simpl; [|done]. intros _. by eapply IH.
Qed.

Section prog.
  Context (H : heap) (out : addr) (c : val) (Hout : H !! base out = Some (OVal c)).


Lemma Prog_store w c1 :
    upd (path out) w c = Some c1 -> Prog H out c w ∅ (<[base out := OVal c1]> H).
  Proof.
    intros E. exists c1. split_and!; [done|by rewrite lookup_insert_eq| |apply map_empty_subseteq|].
    - rewrite <- insert_delete_eq. apply insert_subseteq, lookup_delete_eq.
    - apply map_disjoint_empty_l.
  Qed.

Lemma Prog_source w hn H1 h0 :
    Prog H out c w hn H1 -> h0 ⊆ H -> h0 !! base out = None -> h0 ⊆ H1.
  Proof.
    intros (c1 & _ & _ & Hd & _) Hs Ho. etrans; [|done].
    rewrite <- (delete_id h0 (base out)) by done. by apply delete_mono.
  Qed.

Lemma Prog_dom w hn H1 l : Prog H out c w hn H1 -> is_Some (H !! l) -> is_Some (H1 !! l).
  Proof.
    intros (c1 & _ & E & Hd & _) [y Hy]. destruct (decide (l = base out)) as [->|Hne]; [by eauto|].
    exists y. eapply lookup_weaken; [|done]. by rewrite lookup_delete_ne.
  Qed.

Lemma Prog_hn_out w hn H1 : Prog H out c w hn H1 -> hn !! base out = None.
  Proof.
    intros (_ & _ & _ & _ & _ & Hd). destruct (hn !! base out) eqn:E; [|done].
    by destruct (map_disjoint_spec hn H) as [Hx _]; destruct (Hx Hd _ _ _ E Hout).
  Qed.
End prog.

Section rules.
  Context {apim : Apimachinery} {laws : ReadLaws}.

(** [out] holds a value of type [t] that denotes [x] in memory of its own. *)
Definition Copied (H : heap) (out : addr) (c : val) (t : ty) (x : tree) (H1 : heap) : Prop :=
    exists v hn, Prog H out c v hn H1 /\ read hn t v = Some x.

(** The input: [inp] holds [v], which denotes [x] in a part [h0] of the memory
    that the variable of [out] is not in. *)
Record Source (h0 H : heap) (inp out : addr) (t : ty) (v : val) (x : tree) (c : val) : Prop := {
    src_sub : h0 ⊆ H;
    src_apart : h0 !! base out = None;
    src_load : load_at h0 inp = Some v;
    src_read : read h0 t v = Some x;
    src_out : H !! base out = Some (OVal c)
  }.

(** [g in out] makes [out] a copy of [in], whatever [out] held. *)
Definition copies (t : ty) (g : addr -> addr -> M unit) : Prop :=
    forall h0 H inp out v x c old, Source h0 H inp out t v x c -> sub (path out) c = Some old ->
    runs (g inp out) H (fun _ => Copied H out c t x).

(** The same, when [out] already holds the value of [in] (after [⋆out = ⋆in]). *)
Definition copies_over (t : ty) (g : addr -> addr -> M unit) : Prop :=
    forall h0 H inp out v x c, Source h0 H inp out t v x c -> sub (path out) c = Some v ->
    runs (g inp out) H (fun _ => Copied H out c t x).

(** The same, when moreover the value is not nil. *)
Definition fills (t : ty) (g : addr -> addr -> M unit) : Prop :=
    forall h0 H inp out v x c, Source h0 H inp out t v x c -> sub (path out) c = Some v ->
    is_nil v = false -> runs (g inp out) H (fun _ => Copied H out c t x).

(** A DeepCopy: a new pointer to a copy; nothing that was there is written. *)
Definition deep_copies (t : ty) (dc : option addr -> M (option addr)) : Prop :=
    forall h0 H a v x, h0 ⊆ H -> load_at h0 a = Some v -> read h0 t v = Some x ->
    runs (dc (Some a)) H (fun q H1 => exists b hn, q = Some b /\ H ⊆ H1 /\ hn ⊆ H1 /\ hn ##ₘ H /\
      read hn (Ptr t) (VPtr (Some b)) = Some (TPtr x)).

(** Work on a part of [out], below the path [q]: the part becomes a copy, and
    what was copied before is kept. *)
Lemma Prog_step H out c w hn H1 q old c1 t x H2 :
    H !! base out = Some (OVal c) ->
    Prog H out c w hn H1 -> sub q w = Some old -> H1 !! base out = Some (OVal c1) ->
    Copied H1 (Addr (base out) (path out ++ q)) c1 t x H2 ->
    exists v w2 hn2, upd q v w = Some w2 /\ Prog H out c w2 hn2 H2 /\ hn ⊆ hn2 /\ read hn2 t v = Some x.
  Proof.
    intros Hout HP Hq Hc1 (v & hn' & (c2 & Hu & Hc2 & Hd & Hs & Hdisj) & Hread). simpl in *.
    pose proof HP as (c1' & Hu1 & Hc1' & Hd1 & Hs1 & Hdisj1).
    rewrite Hc1 in Hc1'. injection Hc1' as <-.
    destruct (upd_is_Some q v w old Hq) as [w2 Hw2].
    destruct (upd_sub _ _ _ _ Hu1) as [u0 Hu0].
    destruct (upd_is_Some _ w2 _ _ Hu0) as [c3 Hc3].
    pose proof (upd_app _ _ _ _ _ _ _ _ Hu1 Hw2 Hc3) as Hu2. rewrite Hu in Hu2. injection Hu2 as <-.
    exists v, w2, (hn ∪ hn'). split_and!; [done| |apply map_union_subseteq_l|].
    - exists c2. split_and!; [done|done| | |].
      + etrans; [|exact Hd]. rewrite <- (delete_delete_eq H). by apply delete_mono.
      + apply map_union_least; [|done]. etrans; [|exact Hd].
        rewrite <- (delete_id hn (base out)) by exact (Prog_hn_out H out c Hout _ _ _ HP). by apply delete_mono.
      + apply map_disjoint_union_l_2; [done|]. apply map_disjoint_dom in Hdisj. apply map_disjoint_dom.
        intros l Hl Hl'. apply (Hdisj l Hl). apply elem_of_dom. eapply Prog_dom; [done|].
        by apply elem_of_dom.
    - eapply read_mono; [|exact Hread]. apply map_union_subseteq_r.
      apply map_disjoint_dom in Hdisj. apply map_disjoint_dom. intros l Hl Hl'.
      apply (Hdisj l Hl'). eapply (subseteq_dom hn H1); done.
  Qed.

(** Work on a variable allocated for [out]. *)
Lemma Prog_alloc H out c r c1 l z cz w hn H2 :
    H !! base out = Some (OVal c) -> H !! l = None -> upd (path out) r c = Some c1 ->
    Prog (<[base out := OVal c1]> (<[l := z]> H)) (Addr l []) cz w hn H2 ->
    Prog H out c r (<[l := OVal w]> hn) H2.
  Proof.
    intros Hout Hl Hu (c2 & Hu2 & Hc2 & Hd & Hs & Hdisj). simpl in *. injection Hu2 as <-.
    assert (l <> base out) as Hne by congruence.
    assert (delete l (<[base out:=OVal c1]> (<[l:=z]> H)) = <[base out:=OVal c1]> H) as E.
    { rewrite delete_insert_ne, delete_insert_eq by done. f_equal. by apply delete_id. }
    rewrite E in Hd. apply map_disjoint_insert_r in Hdisj as [_ Hdisj].
    apply map_disjoint_insert_r in Hdisj as [_ Hdisj].
    exists c1. split_and!; [done| | | |].
    - eapply lookup_weaken; [|exact Hd]. apply lookup_insert_eq.
    - etrans; [|exact Hd]. rewrite <- insert_delete_eq. apply insert_subseteq, lookup_delete_eq.
    - by apply insert_subseteq_l.
    - by apply map_disjoint_insert_l_2.
  Qed.

Lemma Source_sub {h0 H inp out t v x c} : Source h0 H inp out t v x c -> h0 ⊆ H.
  Proof. by intros []. Qed.

(** The input is still there after work on [out]. *)
Lemma Source_load h0 H inp out t v x c w hn H1 :
    Source h0 H inp out t v x c -> Prog H out c w hn H1 -> load_at H1 inp = Some v.
  Proof. intros [] HP. eapply load_at_mono; [|done]. by eapply Prog_source. Qed.

Lemma copies_copies_over t g : copies t g -> copies_over t g.
  Proof. intros Hg h0 H inp out v x c Hsrc Hsub. by eapply Hg. Qed.

Lemma assign_runs h0 H inp out t v x c old :
    Source h0 H inp out t v x c -> sub (path out) c = Some old ->
    runs (assign inp out) H (fun _ => Prog H out c v ∅).
  Proof.
    intros Hsrc Hsub. destruct Hsrc. apply runs_bind. eapply runs_load; [by eapply load_at_mono|].
    destruct (upd_is_Some _ v _ _ Hsub) as [c1 Hc1]. eapply runs_store; [done..|].
    by apply Prog_store.
  Qed.

Lemma copies_assign t : flat t = true -> copies t assign.
  Proof.
    intros Hf h0 H inp out v x c old Hsrc Hsub.
    eapply runs_mono; [|by eapply assign_runs]. intros [] H1 HP. simpl in HP.
    exists v, ∅. split; [done|]. destruct Hsrc. by eapply read_flat.
  Qed.

Lemma read_nil h t v x :
    (forall e, t <> Ext e) -> is_nil v = true -> read h t v = Some x -> read ∅ t v = Some x.
  Proof. intros Ht. destruct t; try (by destruct (Ht e)); by destruct v as [| | |[]|[]|[]]. Qed.

(** [⋆out = ⋆in] was done and there is nothing more to do. *)
Lemma keep_runs h0 H inp out t v x c :
    Source h0 H inp out t v x c -> sub (path out) c = Some v -> read ∅ t v = Some x ->
    Copied H out c t x H.
  Proof.
    intros Hsrc Hsub Hread. exists v, ∅. split; [|done]. destruct Hsrc.
    exists c. split_and!; [by apply upd_same|done|apply delete_subseteq|apply map_empty_subseteq|].
    apply map_disjoint_empty_l.
  Qed.

Lemma copies_over_unless_nil t body :
    (forall e, t <> Ext e) -> fills t body -> copies_over t (unless_nil body).
  Proof.
    intros Ht Hb h0 H inp out v x c Hsrc Hsub. unfold unless_nil.
    apply runs_bind. eapply runs_load; [by destruct Hsrc; eapply load_at_mono|].
    destruct (is_nil v) eqn:Hn; [|by eapply Hb].
    apply runs_ret. eapply keep_runs; [done..|]. destruct Hsrc. by eapply read_nil.
  Qed.

(** [⋆out = r], where [r] refers to the new variable [l]: [out] and [l] are apart,
    and what was there is still there. *)
Lemma alloc_runs {A B} o (f : loc -> A) (g : A -> val) (k : A -> M B) h0 H inp out t v x c old Q :
    Source h0 H inp out t v x c -> sub (path out) c = Some old ->
    (forall l c1, H !! l = None -> upd (path out) (g (f l)) c = Some c1 ->
       runs (k (f l)) (<[base out := OVal c1]> (<[l := o]> H)) Q) ->
    runs (w ← (l ← alloc o; mret (f l)); store out (g w);; k w) H Q.
  Proof.
    intros [] Hsub HQ. apply runs_bind, runs_bind, runs_alloc. intros l Hl. apply runs_ret.
    destruct (upd_is_Some _ (g (f l)) _ _ Hsub) as [c1 Hc1].
    apply runs_bind. eapply runs_store; [rewrite lookup_insert_ne; [done|congruence]|done|].
    by apply HQ.
  Qed.

(** After [⋆out = r]: [in] is still there, and [out] holds [r]. *)
Lemma alloc_Source h0 H inp out t v x c c1 l o inp' t' v' x' :
    Source h0 H inp out t v x c -> H !! l = None ->
    load_at h0 inp' = Some v' -> read h0 t' v' = Some x' ->
    Source h0 (<[base out := OVal c1]> (<[l := OVal o]> H)) inp' (Addr l []) t' v' x' o.
  Proof.
    intros [] Hl Hv Hx. split; simpl; [| |done|done|].
    - apply insert_subseteq_r; [done|]. apply insert_subseteq_r; [|done].
      by eapply lookup_weaken_None.
    - by eapply lookup_weaken_None.
    - rewrite lookup_insert_ne by congruence. apply lookup_insert_eq.
  Qed.

Lemma alloc_load H out c r c1 l o :
    H !! base out = Some (OVal c) -> upd (path out) r c = Some c1 ->
    load_at (<[base out := OVal c1]> (<[l := o]> H)) out = Some r.
  Proof. intros Hout Hu. unfold load_at. rewrite lookup_insert_eq. by eapply sub_upd. Qed.

(** A pointer to a copy in memory of its own. *)
Lemma ptr_Copied H out c l z c1 t x H2 :
    H !! base out = Some (OVal c) -> H !! l = None ->
    upd (path out) (VPtr (Some (Addr l []))) c = Some c1 ->
    Copied (<[base out := OVal c1]> (<[l := OVal z]> H)) (Addr l []) z t x H2 ->
    Copied H out c (Ptr t) (TPtr x) H2.
  Proof.
    intros Hout Hl Hu (v & hn & HP & Hread).
    assert (hn !! l = None) as Hnl.
    { eapply (Prog_hn_out _ (Addr l [])); [|done]. simpl.
      rewrite lookup_insert_ne by congruence. apply lookup_insert_eq. }
    eexists _, _. split; [by eapply Prog_alloc|]. simpl.
    unfold load_at. simpl. rewrite lookup_insert_eq. simpl.
    rewrite (read_mono hn (<[l:=OVal v]> hn) t v x); [done|by apply insert_subseteq|done].
  Qed.

Lemma fills_new_into t g : copies t g -> fills (Ptr t) (new_into t g).
  Proof.
    intros Hg h0 H inp out v x c Hsrc Hsub Hn.
    destruct v as [| | |[a|]| |]; try by (destruct Hsrc; simpl in *).
    assert (exists u y, load_at h0 a = Some u /\ read h0 t u = Some y /\ x = TPtr y) as (u & y & Hu & Hy & ->).
    { destruct Hsrc. simpl in *. apply bind_Some in src_read0 as (u & Hu & (y & Hy & ->)%fmap_Some). eauto. }
    unfold new_into, new. eapply alloc_runs; [done..|]. intros l c1 Hl Hc1.
    pose proof (alloc_Source _ _ _ _ _ _ _ _ c1 l (zero t) a t u y Hsrc Hl Hu Hy) as Hsrc'.
    apply runs_bind, runs_bind. eapply runs_load.
    { eapply load_at_mono; [by eapply Source_sub|]. by destruct Hsrc. }
    apply runs_ret, runs_bind, runs_bind. eapply runs_load; [destruct Hsrc; by eapply alloc_load|].
    apply runs_ret. eapply runs_mono; [|by eapply Hg]. intros [] H2 HC. simpl in HC.
    destruct Hsrc. by eapply ptr_Copied.
  Qed.

Lemma fills_new_assign t : flat t = true -> fills (Ptr t) (new_assign t).
  Proof. intros Hf. by apply (fills_new_into t assign), copies_assign. Qed.

Lemma fills_deep_copy t dc : deep_copies t dc -> fills (Ptr t) (deep_copy dc).
  Proof.
    intros Hdc h0 H inp out v x c Hsrc Hsub Hn.
    destruct v as [| | |[a|]| |]; try by (destruct Hsrc; simpl in *).
    destruct Hsrc as [Hs Ho Hl Hr Hout]. simpl in Hr.
    apply bind_Some in Hr as (u & Hu & (y & Hy & ->)%fmap_Some).
    apply runs_bind. eapply runs_load; [by eapply load_at_mono|].
    apply runs_bind. eapply runs_mono; [|by eapply Hdc].
    intros q H1 (b & hn & -> & Hs1 & Hhn & Hd & Hread). simpl in Hd.
    destruct (upd_is_Some _ (VPtr (Some b)) _ _ Hsub) as [c1 Hc1].
    eapply runs_store; [by eapply lookup_weaken|done|].
    exists (VPtr (Some b)), hn. split; [|done]. exists c1.
    assert (hn !! base out = None) as Hno by (by eapply map_disjoint_Some_r).
    split_and!; [done|by rewrite lookup_insert_eq| | |done].
    - etrans; [by apply delete_mono|]. rewrite <- insert_delete_eq. apply insert_subseteq, lookup_delete_eq.
    - by apply insert_subseteq_r.
  Qed.

(** The elements of an array in memory of its own. *)
Lemma slice_elems_own l vs hn :
    slice_elems (<[l := OVal (VArray vs)]> hn) (Slice_ (Addr l []) 0 (length vs)) = Some vs.
  Proof.
    unfold slice_elems. simpl. apply mapM_Some. apply Forall2_lookup. intros i.
    destruct (vs !! i) as [v|] eqn:E.
    - rewrite lookup_seq_lt by (by eapply lookup_lt_Some). simpl. constructor.
      unfold load_at, item. simpl. rewrite lookup_insert_eq. simpl. by rewrite E.
    - rewrite lookup_seq_ge by (by apply lookup_ge_None). constructor.
  Qed.

Lemma slice_Copied H out c l z c1 t vs xs hn H2 :
    H !! base out = Some (OVal c) -> H !! l = None ->
    upd (path out) (VSlice (Some (Slice_ (Addr l []) 0 (length xs)))) c = Some c1 ->
    Prog (<[base out := OVal c1]> (<[l := OVal z]> H)) (Addr l []) z (VArray vs) hn H2 ->
    Forall2 (fun v x => read hn t v = Some x) vs xs ->
    Copied H out c (Slice t) (TSlice xs) H2.
  Proof.
    intros Hout Hl Hu HP Hread. pose proof (Forall2_length _ _ _ Hread) as Hlen.
    assert (hn !! l = None) as Hnl.
    { eapply (Prog_hn_out _ (Addr l [])); [|done]. simpl.
      rewrite lookup_insert_ne by congruence. apply lookup_insert_eq. }
    eexists _, _. split; [by eapply Prog_alloc|]. simpl.
    rewrite <- Hlen, slice_elems_own. simpl. apply fmap_Some. exists xs. split; [|done].
    apply mapM_Some. eapply Forall2_impl; [done|]. intros v x. apply read_mono. by apply insert_subseteq.
  Qed.

Lemma store_loop l vs : forall done i rest H,
    length done = i -> length rest = length vs ->
    H !! l = Some (OVal (VArray (done ++ rest))) ->
    runs (range_list (zip (seq i (length vs)) vs)
            (fun iv => store (item (Slice_ (Addr l []) 0 (i + length vs)) (fst iv)) (snd iv))) H
      (fun _ H1 => H1 = <[l := OVal (VArray (done ++ vs))]> H).
  Proof.
    induction vs as [|v vs IH]; intros done i rest H Hi Hr Hl.
    - destruct rest; [|done]. apply runs_ret. by rewrite insert_id.
    - destruct rest as [|r rest]; [done|]. injection Hr as Hr. simpl. apply runs_bind.
      eapply runs_store; [done| |]; simpl.
      { rewrite list_lookup_middle by (by rewrite Hi). simpl. done. }
      rewrite insert_app_r_alt by lia. rewrite Hi, Nat.sub_diag. simpl.
      eapply runs_mono; [|apply (IH (done ++ [v]) (S i) rest)].
      + intros [] H1 ->. by rewrite insert_insert_eq, <- app_assoc.
      + rewrite length_app. simpl. lia.
      + done.
      + by rewrite lookup_insert_eq, <- app_assoc.
  Qed.

Lemma load_slice_runs a H s Q :
    load_at H a = Some (VSlice (Some s)) -> Q s H -> runs (load_slice a) H Q.
  Proof. intros Hl HQ. apply runs_bind. eapply runs_load; [done|]. by apply runs_ret. Qed.

(** What [fills (Slice t)] starts from. *)
Lemma slice_source h0 H inp out t v x c :
    Source h0 H inp out (Slice t) v x c -> is_nil v = false ->
    exists s vs xs, v = VSlice (Some s) /\ x = TSlice xs /\ load_at H inp = Some (VSlice (Some s)) /\
      load_at h0 inp = Some (VSlice (Some s)) /\ slice_elems h0 s = Some vs /\
      Forall2 (fun v x => read h0 t v = Some x) vs xs /\ length vs = s_len s.
  Proof.
    intros [Hs Ho Hl Hr Hout] Hn. destruct v as [| | | |[s|]|]; try done. simpl in Hr.
    apply bind_Some in Hr as (vs & Hvs & (xs & Hxs & ->)%fmap_Some). apply mapM_Some in Hxs.
    exists s, vs, xs. split_and!; [done|done|by eapply load_at_mono|done|done|done|].
    pose proof Hvs as Hlen. apply mapM_Some, Forall2_length in Hlen. by rewrite length_seq in Hlen.
  Qed.

Lemma fills_make_copy t : flat t = true -> fills (Slice t) (make_copy t).
  Proof.
    intros Hf h0 H inp out v x c Hsrc Hsub Hn.
    destruct (slice_source _ _ _ _ _ _ _ _ Hsrc Hn) as (s & vs & xs & -> & -> & Hin & _ & Hvs & Hxs & Hlen).
    destruct Hsrc as [Hs Ho Hl Hr Hout]. unfold make_copy, make_slice.
    apply runs_bind. eapply load_slice_runs; [done|].
    eapply alloc_runs; [done..|]. intros l c1 Hnl Hc1.
    set (H1 := <[base out := OVal c1]> _).
    assert (h0 ⊆ H1) as Hs1.
    { apply insert_subseteq_r; [done|]. apply insert_subseteq_r; [by eapply lookup_weaken_None|done]. }
    assert (H1 !! l = Some (OVal (VArray (replicate (s_len s) (zero t))))) as Hl1.
    { unfold H1. rewrite lookup_insert_ne by congruence. apply lookup_insert_eq. }
    apply runs_bind. eapply load_slice_runs; [by eapply load_at_mono|].
    apply runs_bind. eapply load_slice_runs; [by eapply alloc_load|]. simpl.
    apply runs_bind. exists vs, H1. split.
    { unfold load_elems. by rewrite (slice_elems_mono h0 H1 s vs). }
    eapply runs_mono; [|rewrite <- Hlen; apply (store_loop l vs [] 0 (replicate (s_len s) (zero t)))]; [|done| |done].
    2: by rewrite length_replicate.
    intros [] H2 ->. simpl.
    eapply (slice_Copied H out c l (VArray (replicate (s_len s) (zero t))) c1 t vs xs ∅); [done|done| | |].
    - by rewrite <- (Forall2_length _ _ _ Hxs), Hlen.
    - by apply (Prog_store H1 (Addr l []) (VArray (replicate (s_len s) (zero t)))).
    - eapply Forall2_impl; [done|]. intros u y. by apply read_flat.
  Qed.

Lemma index_runs H a s i Q :
    load_at H a = Some (VSlice (Some s)) -> (i < s_len s)%nat -> Q (item s i) H -> runs (index a i) H Q.
  Proof.
    intros Hl Hi HQ. apply runs_bind. eapply load_slice_runs; [done|].
    rewrite bool_decide_true by done. by apply runs_ret.
  Qed.

Lemma slice_elems_lookup h s vs i v :
    slice_elems h s = Some vs -> vs !! i = Some v -> load_at h (item s i) = Some v.
  Proof.
    intros Hvs Hv. unfold slice_elems in Hvs. apply mapM_Some in Hvs.
    destruct (Forall2_lookup_r _ _ _ _ _ Hvs Hv) as (j & Hj & Hload).
    apply lookup_seq in Hj as [-> _]. done.
  Qed.

(** [for i := range ⋆in { (⋆in)[i].DeepCopyInto(&(⋆out)[i]) }] from index [i]: the
    elements before it are copied, the others are zero. *)
Section into_loop.
  Context (t : ty) (g : addr -> addr -> M unit) (Hg : copies t g).
  Context (h0 H : heap) (inp out : addr) (s : slice) (vs : list val) (l : loc) (z : val).
  Context (Hs : h0 ⊆ H) (Hl0 : h0 !! l = None) (Hne : base out <> l).
  Context (Hin : load_at h0 inp = Some (VSlice (Some s))) (Hvs : slice_elems h0 s = Some vs).
  Context (Hlen : length vs = s_len s).
  Context (Hout : load_at H out = Some (VSlice (Some (Slice_ (Addr l []) 0 (s_len s))))).
  Context (Hl : H !! l = Some (OVal z)).

Lemma into_step copied rest hn Hk v x :
    Prog H (Addr l []) z (VArray (copied ++ zero t :: rest)) hn Hk ->
    vs !! length copied = Some v -> read h0 t v = Some x ->
    runs (a ← index inp (length copied); b ← index out (length copied); g a b) Hk (fun _ H2 =>
      exists w hn', Prog H (Addr l []) z (VArray ((copied ++ [w]) ++ rest)) hn' H2 /\
        hn ⊆ hn' /\ read hn' t w = Some x).
  Proof.
    intros HP Hv Hx. pose proof (lookup_lt_Some _ _ _ Hv) as Hi. rewrite Hlen in Hi.
    pose proof (Prog_source _ _ _ _ _ _ _ HP Hs Hl0) as Hsk.
    pose proof HP as (ck & Hck & Hlk & Hdk & _). simpl in Hck, Hlk, Hdk. injection Hck as <-.
    apply runs_bind. eapply index_runs; [exact (load_at_mono _ _ _ _ Hsk Hin)|done|].
    apply runs_bind. apply (index_runs _ _ (Slice_ (Addr l []) 0 (s_len s))); [|exact Hi|].
    { eapply load_at_mono; [exact Hdk|]. unfold load_at in *. by rewrite lookup_delete_ne. }
    assert (sub [Idx (length copied)] (VArray (copied ++ zero t :: rest)) = Some (zero t)) as Hsub.
    { simpl. by rewrite list_lookup_middle. }
    eapply runs_mono; [|eapply (Hg h0 Hk _ (item (Slice_ (Addr l []) 0 (s_len s)) (length copied)) v x);
      [split; [done|done|by eapply slice_elems_lookup|done|exact Hlk]|exact Hsub]].
    intros [] H2 HC. simpl in HC.
    destruct (Prog_step H (Addr l []) z _ hn Hk [Idx (length copied)] (zero t) _ t x H2 Hl HP Hsub Hlk HC)
      as (w & w2 & hn2 & Hw2 & HP2 & Hhn & Hread).
    exists w, hn2. split_and!; [|done|done].
    simpl in Hw2. rewrite list_lookup_middle in Hw2 by done. simpl in Hw2. injection Hw2 as <-.
    rewrite insert_app_r_alt, Nat.sub_diag in HP2 by done. by rewrite <- app_assoc.
  Qed.

Lemma into_loop vs2 : forall vs1 xs1 xs2 copied hn Hk,
    vs = vs1 ++ vs2 -> length copied = length vs1 ->
    Forall2 (fun v x => read h0 t v = Some x) vs2 xs2 ->
    Forall2 (fun v x => read hn t v = Some x) copied xs1 ->
    Prog H (Addr l []) z (VArray (copied ++ replicate (length vs2) (zero t))) hn Hk ->
    runs (range (length copied) (length vs2) (fun i => a ← index inp i; b ← index out i; g a b)) Hk (fun _ H2 =>
      exists us hn', Prog H (Addr l []) z (VArray us) hn' H2 /\
        Forall2 (fun v x => read hn' t v = Some x) us (xs1 ++ xs2)).
  Proof.
    induction vs2 as [|v vs2 IH]; intros vs1 xs1 xs2 copied hn Hk Evs Hlc Hx2 Hx1 HP.
    - apply Forall2_nil_inv_l in Hx2 as ->. simpl in HP. rewrite app_nil_r in HP.
      apply runs_ret. exists copied, hn. by rewrite app_nil_r.
    - apply Forall2_cons_inv_l in Hx2 as (x & xs2' & Hx & Hx2 & ->). simpl.
      apply runs_bind. eapply runs_mono; [|eapply into_step; [exact HP| |exact Hx]].
      2: by rewrite Evs, Hlc, list_lookup_middle.
      intros [] H2 (w & hn2 & HP2 & Hhn & Hw). simpl.
      replace (S (length copied)) with (length (copied ++ [w])) by (rewrite length_app; simpl; lia).
      rewrite (cons_middle x xs1 xs2'), app_assoc. eapply (IH (vs1 ++ [v])); [| |done| |exact HP2].
      + by rewrite <- app_assoc.
      + rewrite !length_app. simpl. lia.
      + apply Forall2_app; [|by constructor].
        eapply Forall2_impl; [done|]. intros u y. by apply read_mono.
  Qed.
End into_loop.

Lemma fills_make_into t g : copies t g -> fills (Slice t) (make_into t g).
  Proof.
    intros Hg h0 H inp out v x c Hsrc Hsub Hn.
    destruct (slice_source _ _ _ _ _ _ _ _ Hsrc Hn) as (s & vs & xs & -> & -> & Hin & Hin0 & Hvs & Hxs & Hlen).
    destruct Hsrc as [Hs Ho Hl Hr Hout]. unfold make_into, make_slice.
    apply runs_bind. eapply load_slice_runs; [done|]. rewrite <- Hlen.
    eapply alloc_runs; [done..|]. intros l c1 Hnl Hc1.
    set (H1 := <[base out := OVal c1]> _).
    assert (base out <> l) as Hne by congruence.
    assert (h0 !! l = None) as Hl0 by (by eapply lookup_weaken_None).
    assert (h0 ⊆ H1) as Hs1.
    { apply insert_subseteq_r; [done|]. apply insert_subseteq_r; done. }
    assert (H1 !! l = Some (OVal (VArray (replicate (length vs) (zero t))))) as Hl1.
    { unfold H1. rewrite lookup_insert_ne by done. apply lookup_insert_eq. }
    apply runs_bind. eapply load_slice_runs; [by eapply load_at_mono|]. rewrite <- Hlen.
    eapply runs_mono; [|eapply (into_loop t g Hg h0 H1 inp out s vs l) with (vs1 := []) (copied := []) (xs1 := []) (hn := ∅)];
      try done.
    - intros [] H2 (us & hn & HP & Hread). simpl in Hread.
      eapply slice_Copied; [done|done| |exact HP|exact Hread].
      by rewrite <- (Forall2_length _ _ _ Hxs).
    - rewrite <- Hlen. by eapply alloc_load.
    - simpl. eexists. split_and!; [done|done| |apply map_empty_subseteq|apply map_disjoint_empty_l].
      apply delete_subseteq.
  Qed.

Lemma foldl_insert (kvs : list (string * string)) : forall m0 : gmap string string,
    NoDup kvs.*1 -> foldl (fun m kv => <[fst kv := snd kv]> m) m0 kvs = list_to_map kvs ∪ m0.
  Proof.
    induction kvs as [|[k v] kvs IH]; intros m0 Hn; simpl; [by rewrite (left_id_L ∅ (∪))|].
    apply NoDup_cons in Hn as [Hk Hn]. rewrite IH by done.
    rewrite <- insert_union_l, <- insert_union_r; [done|by apply not_elem_of_list_to_map_1].
  Qed.

Lemma map_loop H out l (Hne : base out <> l) kvs : forall m,
    load_at H out = Some (VMap (Some l)) -> H !! l = Some (OMap m) ->
    runs (range_list kvs (fun kv => map_set out (fst kv) (snd kv))) H
      (fun _ H1 => H1 = <[l := OMap (foldl (fun m kv => <[fst kv := snd kv]> m) m kvs)]> H).
  Proof.
    revert H. induction kvs as [|kv kvs IH]; intros H m Hout Hl.
    - apply runs_ret. simpl. by rewrite insert_id.
    - apply runs_bind, runs_bind. eapply runs_load; [done|].
      eexists tt, _. split; [by rewrite Hl|]. simpl.
      eapply runs_mono; [|apply (IH _ (<[fst kv := snd kv]> m))].
      + intros [] H1 ->. by rewrite insert_insert_eq.
      + unfold load_at in *. by rewrite lookup_insert_ne.
      + by rewrite lookup_insert_eq.
  Qed.

Lemma fills_make_strmap : fills StrMap make_strmap.
  Proof.
    intros h0 H inp out v x c Hsrc Hsub Hn.
    destruct v as [| | | | |[lm|]]; try by (destruct Hsrc; simpl in *).
    pose proof Hsrc as [Hs Ho Hl Hr Hout]. simpl in Hr.
    destruct (h0 !! lm) as [[|m]|] eqn:Em; try done. injection Hr as <-.
    unfold make_strmap, make_map. eapply alloc_runs; [done..|]. intros l c1 Hnl Hc1.
    set (H1 := <[base out := OVal c1]> _).
    assert (base out <> l) as Hne by congruence.
    assert (h0 ⊆ H1) as Hs1.
    { apply insert_subseteq_r; [done|]. apply insert_subseteq_r; [by eapply lookup_weaken_None|done]. }
    apply runs_bind, runs_bind. eapply runs_load; [by eapply load_at_mono|].
    exists m, H1. split; [by rewrite (lookup_weaken _ _ _ _ Em Hs1)|].
    eapply runs_mono; [|apply (map_loop H1 out l Hne _ ∅); [by eapply alloc_load|]].
    2: { unfold H1. rewrite lookup_insert_ne by done. apply lookup_insert_eq. }
    intros [] H2 ->. simpl.
    assert (NoDup (range_order m).*1) as Hnd by (rewrite range_order_all; apply NoDup_fst_map_to_list).
    rewrite foldl_insert by done. rewrite (right_id_L ∅ (∪)).
    rewrite (list_to_map_proper (range_order m) (map_to_list m)) by (done || apply range_order_all).
    rewrite list_to_map_to_list.
    exists (VMap (Some l)), {[l := OMap m]}. split; [|simpl; by rewrite lookup_singleton_eq].
    exists c1. unfold H1. split_and!; [done| | | |].
    - rewrite lookup_insert_ne by done. by rewrite lookup_insert_eq.
    - rewrite insert_insert_ne by done. rewrite insert_insert_eq.
      rewrite <- insert_delete_eq. etrans; [|apply insert_subseteq, lookup_delete_eq].
      rewrite delete_insert_ne by done. apply insert_subseteq. by rewrite lookup_delete_ne.
    - apply map_singleton_subseteq_l, lookup_insert_eq.
    - by apply map_disjoint_singleton_l_2.
  Qed.

(** The statements [acts] of a DeepCopyInto copy the fields [fs]: each field has
    its statement, in order, or no references. *)
Inductive covers : list (string * ty) -> list (string * (addr -> addr -> M unit)) -> Prop :=
  | covers_nil : covers [] []
  | covers_flat f t fs acts : flat t = true -> covers fs acts -> covers ((f, t) :: fs) acts
  | covers_act f t a fs acts : copies_over t a -> covers fs acts -> covers ((f, t) :: fs) ((f, a) :: acts).

Lemma field_get_mid f v pre vs : f ∉ pre.*1 -> field_get f (pre ++ (f, v) :: vs) = Some v.
  Proof.
    induction pre as [|[g u] pre IH]; simpl; [by rewrite String.eqb_refl|].
    intros [Hne Hin]%not_elem_of_cons. rewrite (proj2 (String.eqb_neq f g)) by done. auto.
  Qed.

Lemma field_set_mid f v w pre vs :
    f ∉ pre.*1 -> field_set f w (pre ++ (f, v) :: vs) = pre ++ (f, w) :: vs.
  Proof.
    induction pre as [|[g u] pre IH]; simpl; [by rewrite String.eqb_refl|].
    intros [Hne Hin]%not_elem_of_cons. rewrite (proj2 (String.eqb_neq f g)) by done. by rewrite IH.
  Qed.

Lemma read_fields_cons h f t fs vs xs :
    read_fields h ((f, t) :: fs) vs = Some xs ->
    exists v vs' x xs', vs = (f, v) :: vs' /\ xs = (f, x) :: xs' /\
      read h t v = Some x /\ read_fields h fs vs' = Some xs'.
  Proof.
    destruct vs as [|[g v] vs]; simpl; [done|]. destruct (String.eqb f g) eqn:E; [|done].
    apply String.eqb_eq in E as <-.
    intros (x & Hx & (xs' & Hxs & [= <-])%bind_Some)%bind_Some. eauto 10.
  Qed.

Lemma read_fields_cons_2 h f t fs v vs x xs :
    read h t v = Some x -> read_fields h fs vs = Some xs ->
    read_fields h ((f, t) :: fs) ((f, v) :: vs) = Some ((f, x) :: xs).
  Proof. intros Hx Hxs. simpl. by rewrite String.eqb_refl, Hx; simpl; rewrite Hxs. Qed.

Section fields_loop.
  Context (h0 H : heap) (inp out : addr) (c : val).
  Context (Hs : h0 ⊆ H) (Ho : h0 !! base out = None) (Hout : H !! base out = Some (OVal c)).

(** One statement. *)
Lemma field_step f t a preI preO v rest restI x hn H1 :
    copies_over t a -> f ∉ preI.*1 -> f ∉ preO.*1 ->
    load_at h0 inp = Some (VStruct (preI ++ (f, v) :: restI)) -> read h0 t v = Some x ->
    Prog H out c (VStruct (preO ++ (f, v) :: rest)) hn H1 ->
    runs (a (fld inp f) (fld out f)) H1 (fun _ H2 => exists w hn',
      Prog H out c (VStruct (preO ++ (f, w) :: rest)) hn' H2 /\ hn ⊆ hn' /\ read hn' t w = Some x).
  Proof.
    intros Ha HnI HnO Hin Hx HP.
    pose proof (Prog_source _ _ _ _ _ _ _ HP Hs Ho) as Hs1.
    pose proof HP as (c1 & Hc1 & Ho1 & _).
    assert (sub [Fld f] (VStruct (preO ++ (f, v) :: rest)) = Some v) as Hsub.
    { simpl. by rewrite field_get_mid. }
    eapply runs_mono; [|eapply (Ha h0 H1 (fld inp f) (fld out f) v x c1)].
    - intros [] H2 HC. simpl in HC.
      destruct (Prog_step H out c _ hn H1 [Fld f] v c1 t x H2 Hout HP Hsub Ho1 HC)
        as (w & w2 & hn2 & Hw2 & HP2 & Hhn & Hread).
      exists w, hn2. split_and!; [|done|done].
      simpl in Hw2. rewrite field_get_mid in Hw2 by done. simpl in Hw2. injection Hw2 as <-.
      by rewrite field_set_mid in HP2.
    - split; simpl; [done|done| |done|done]. by rewrite (load_at_fld _ _ _ _ Hin), field_get_mid.
    - simpl. rewrite sub_app, (sub_upd _ _ _ _ Hc1). simpl. by rewrite field_get_mid.
  Qed.

Lemma fields_loop fs acts : covers fs acts -> forall preI preO vs xs hn H1,
    preI.*1 = preO.*1 -> NoDup (preI.*1 ++ fs.*1) ->
    load_at h0 inp = Some (VStruct (preI ++ vs)) -> read_fields h0 fs vs = Some xs ->
    Prog H out c (VStruct (preO ++ vs)) hn H1 ->
    runs (fields acts inp out) H1 (fun _ H2 => exists vs' hn',
      Prog H out c (VStruct (preO ++ vs')) hn' H2 /\ hn ⊆ hn' /\ read_fields hn' fs vs' = Some xs).
  Proof.
    induction 1 as [|f t fs acts Hf Hcov IH|f t a fs acts Ha Hcov IH]; intros preI preO vs xs hn H1 Hpre Hnd Hin Hread HP.
    - apply runs_ret. exists vs, hn. destruct vs; [|done]. by injection Hread as <-.
    - apply read_fields_cons in Hread as (v & vs' & x & xs' & -> & -> & Hx & Hxs).
      eapply runs_mono; [|eapply (IH (preI ++ [(f, v)]) (preO ++ [(f, v)]) vs' xs' hn H1)].
      + intros [] H2 (us & hn' & HP2 & Hhn & Hus). exists ((f, v) :: us), hn'.
        rewrite <- app_assoc in HP2. split_and!; [done|done|].
        apply read_fields_cons_2; [by eapply read_flat_any|done].
      + rewrite !fmap_app. by rewrite Hpre.
      + rewrite fmap_app, <- app_assoc. done.
      + by rewrite <- app_assoc.
      + done.
      + by rewrite <- app_assoc.
    - apply read_fields_cons in Hread as (v & vs' & x & xs' & -> & -> & Hx & Hxs).
      assert (f ∉ preI.*1) as HnI.
      { intros Hf. apply NoDup_app in Hnd as (_ & Hd & _). by apply (Hd f Hf), list_elem_of_here. }
      simpl. apply runs_bind. eapply runs_mono; [|eapply field_step; [done|done| |done|done|done]]; [|by rewrite <- Hpre].
      intros [] H2 (w & hn2 & HP2 & Hhn & Hw). simpl.
      eapply runs_mono; [|eapply (IH (preI ++ [(f, v)]) (preO ++ [(f, w)]) vs' xs' hn2 H2)].
      + intros [] H3 (us & hn' & HP3 & Hhn' & Hus). exists ((f, w) :: us), hn'.
        rewrite <- app_assoc in HP3. split_and!; [done|by etrans|].
        apply read_fields_cons_2; [by eapply read_mono|done].
      + rewrite !fmap_app. by rewrite Hpre.
      + rewrite fmap_app, <- app_assoc. done.
      + by rewrite <- app_assoc.
      + done.
      + by rewrite <- app_assoc.
  Qed.
End fields_loop.

Lemma copies_struct fs acts : NoDup fs.*1 -> covers fs acts -> copies (Struct fs) (copy_struct acts).
  Proof.
    intros Hnd Hcov h0 H inp out v x c old Hsrc Hsub.
    apply runs_bind. eapply runs_mono; [|by eapply assign_runs].
    intros [] H1 HP. simpl in HP. pose proof Hsrc as [Hs Ho Hl Hr Hout].
    destruct v as [|vs| | | |]; try done. rewrite read_Struct in Hr.
    apply fmap_Some in Hr as (xs & Hxs & ->).
    eapply runs_mono; [|eapply (fields_loop h0 H inp out c Hs Ho Hout fs acts Hcov [] [] vs xs ∅ H1)]; try done.
    intros [] H2 (vs' & hn & HP2 & _ & Hread). exists (VStruct vs'), hn. split; [done|].
    rewrite read_Struct. by rewrite Hread.
  Qed.

Lemma deep_copies_ptr t g : copies t g -> deep_copies t (copy_ptr t g).
  Proof.
    intros Hg h0 H a v x Hs Hl Hx. unfold copy_ptr, new.
    apply runs_bind, runs_bind, runs_alloc. intros l Hnl. apply runs_ret.
    apply runs_bind. eapply runs_mono; [|eapply (Hg h0 _ a (Addr l []) v x (zero t) (zero t))].
    - intros [] H2 (w & hn & (c1 & Hc1 & Hl1 & Hd & Hhn & Hdisj) & Hread). simpl in *.
      injection Hc1 as <-. apply runs_ret. apply map_disjoint_insert_r in Hdisj as [Hnl2 Hdisj].
      exists (Addr l []), (<[l := OVal w]> hn). split_and!; [done| | | |].
      + by rewrite delete_insert_eq, delete_id in Hd.
      + by apply insert_subseteq_l.
      + by apply map_disjoint_insert_l_2.
      + unfold load_at. simpl. rewrite lookup_insert_eq. simpl.
        by rewrite (read_mono hn (<[l:=OVal w]> hn) t w x) by (done || by apply insert_subseteq).
    - split; simpl; [by apply insert_subseteq_r; [eapply lookup_weaken_None|]|by eapply lookup_weaken_None|done|done|].
      by rewrite lookup_insert_eq.
    - done.
  Qed.
End rules.

(** Apimachinery's own deep copies copy. *)
Class CopyLaws `{Apimachinery} : Prop := {
  ext_copies e : copies (Ext e) (ext_DeepCopyInto e);
  Time_copies : deep_copies (Ext Time) Time_DeepCopy
}.

Create HintDb deepcopy.
#[export] Hint Resolve ext_copies Time_copies fills_new_assign fills_new_into fills_deep_copy
  fills_make_copy fills_make_into fills_make_strmap copies_assign : deepcopy.
#[export] Hint Resolve copies_copies_over copies_over_unless_nil | 10 : deepcopy.
#[export] Hint Resolve covers_nil | 0 : deepcopy.
#[export] Hint Resolve covers_act | 1 : deepcopy.
#[export] Hint Resolve covers_flat | 2 : deepcopy.
#[export] Hint Extern 0 (_ <> _) => discriminate : deepcopy.
#[export] Hint Extern 0 (forall _, _ <> Ext _) => discriminate : deepcopy.
#[export] Hint Extern 0 (flat _ = true) => reflexivity : deepcopy.
