(* ===== verification/DeepCopy.v ===== *)
(** * DeepCopy.v: the generated deep copies (api/v1alpha1/zz_generated.deepcopy.go)

    The types of the API as Memory.v sees them, one definition per struct of
    policy_types.go, action_types.go, clusterpair_types.go and plugin_types.go,
    and for each its DeepCopyInto (the statements controller-gen wrote, in their
    order), its DeepCopy and, for the objects, its DeepCopyObject.

    [DeepCopy_apart]: what DeepCopy returns denotes what its argument denotes, and
    neither sees what is later written to the other. It fails when a field with
    references has no statement: a generated file that is older than the types. *)

From stdpp Require Import gmap fin_maps.
From S2P Require Import Prelude.
From S2P Require Import Memory.

(** ** The types *)

Definition WorkloadClass : ty := Basic KString.
Definition RendererKind : ty := Basic KString.
Definition PolicyPhase : ty := Basic KString.
Definition ActionType : ty := Basic KString.
Definition ActionPhase : ty := Basic KString.
Definition TransportType : ty := Basic KString.
Definition ClusterPairPhase : ty := Basic KString.
Definition PluginType : ty := Basic KString.

Definition TargetSelector : ty := Struct [
    ("Namespaces", Slice (Basic KString)); ("LabelSelector", Ptr (Ext LabelSelector))].

Definition BackupSpec : ty := Struct [
    ("Enabled", Basic KBool); ("RPO", Basic KString); ("RequireUseful", Basic KBool);
    ("Mover", Basic KString)].

Definition ReplicateSpec : ty := Struct [
    ("Enabled", Basic KBool); ("RPO", Basic KString); ("Mover", Basic KString)].

Definition RestoreSpec : ty := Struct [
    ("Auto", Basic KBool); ("NeverOverwriteNewer", Basic KBool); ("Mover", Basic KString)].

Definition CutoverSpec : ty := Struct [
    ("TrafficHook", Basic KString); ("HoldSource", Basic KString)].

Definition GitSource : ty := Struct [
    ("URL", Basic KString); ("Ref", Basic KString); ("Path", Basic KString)].

Definition RendererSpec : ty := Struct [
    ("Kind", RendererKind); ("WebhookURL", Basic KString); ("Git", Ptr GitSource)].

Definition ClusterObjectsSpec : ty := Struct [
    ("Enabled", Basic KBool); ("IncludeClusterScoped", Ptr (Basic KBool));
    ("ExcludeNamespaces", Slice (Basic KString)); ("ExcludeGVKs", Slice (Basic KString))].

Definition PolicySpec : ty := Struct [
    ("ClusterPair", Basic KString); ("Selector", TargetSelector); ("Backup", BackupSpec);
    ("Replicate", ReplicateSpec); ("Restore", RestoreSpec); ("Cutover", CutoverSpec);
    ("Renderer", RendererSpec); ("ClusterObjects", ClusterObjectsSpec); ("MoverOverrides", StrMap)].

Definition InventoryItem : ty := Struct [
    ("Namespace", Basic KString); ("Name", Basic KString); ("Kind", Basic KString);
    ("Class", WorkloadClass); ("Engine", Basic KString); ("PVCNames", Slice (Basic KString));
    ("Mover", Basic KString); ("Unclassified", Basic KBool)].

Definition ArtifactHealth : ty := Struct [
    ("Workload", Basic KString); ("Useful", Basic KBool); ("SizeBytes", Basic KInt64);
    ("ArtifactID", Basic KString); ("LastBackupTime", Ptr (Ext Time)); ("Message", Basic KString)].

Definition PolicyStatus : ty := Struct [
    ("Phase", PolicyPhase); ("Message", Basic KString); ("Inventory", Slice InventoryItem);
    ("Artifacts", Slice ArtifactHealth); ("BackupHealthy", Basic KBool);
    ("ReplicaLag", Basic KString); ("Conditions", Slice (Ext Condition));
    ("ObservedGeneration", Basic KInt64)].

Definition Policy : ty := Struct [
    ("TypeMeta", Ext TypeMeta); ("ObjectMeta", Ext ObjectMeta); ("Spec", PolicySpec);
    ("Status", PolicyStatus)].

Definition PolicyList : ty := Struct [
    ("TypeMeta", Ext TypeMeta); ("ListMeta", Ext ListMeta); ("Items", Slice Policy)].

Definition ActionSpec : ty := Struct [
    ("Type", ActionType); ("PolicyRef", Basic KString); ("FreezeTimeout", Basic KString);
    ("SnapshotID", Basic KString); ("DryRun", Basic KBool); ("Rollback", Basic KBool)].

Definition WorkloadActionStatus : ty := Struct [
    ("Name", Basic KString); ("Key", Basic KString); ("Class", WorkloadClass);
    ("Engine", Basic KString); ("Ready", Basic KBool); ("Probe", Basic KString);
    ("ProbeOK", Basic KBool); ("Message", Basic KString); ("Healed", Slice (Basic KString))].

Definition Attestation : ty := Struct [
    ("RecordedAt", Ext Time); ("Source", Basic KString); ("Workloads", Slice WorkloadActionStatus);
    ("ArtifactIDs", Slice (Basic KString))].

Definition ActionStatus : ty := Struct [
    ("Phase", ActionPhase); ("Message", Basic KString); ("Workloads", Slice WorkloadActionStatus);
    ("Attestation", Ptr Attestation); ("StartTime", Ptr (Ext Time));
    ("CompletionTime", Ptr (Ext Time)); ("Conditions", Slice (Ext Condition));
    ("ObservedGeneration", Basic KInt64)].

Definition Action : ty := Struct [
    ("TypeMeta", Ext TypeMeta); ("ObjectMeta", Ext ObjectMeta); ("Spec", ActionSpec);
    ("Status", ActionStatus)].

Definition ActionList : ty := Struct [
    ("TypeMeta", Ext TypeMeta); ("ListMeta", Ext ListMeta); ("Items", Slice Action)].

Definition SecretKeyRef : ty := Struct [
    ("Name", Basic KString); ("Key", Basic KString); ("Namespace", Basic KString)].

Definition AzureAuth : ty := Struct [
    ("ResourceID", Basic KString); ("TenantID", Basic KString); ("ClientID", Basic KString);
    ("ServerID", Basic KString); ("UsePrivateFQDN", Basic KBool);
    ("CredentialsSecret", Ptr SecretKeyRef)].

Definition AWSAuth : ty := Struct [
    ("ClusterName", Basic KString); ("Region", Basic KString); ("RoleARN", Basic KString);
    ("Endpoint", Basic KString); ("CredentialsSecret", Ptr SecretKeyRef)].

Definition GCPAuth : ty := Struct [
    ("Project", Basic KString); ("Location", Basic KString); ("Cluster", Basic KString);
    ("UsePrivateEndpoint", Basic KBool); ("CredentialsSecret", Ptr SecretKeyRef)].

Definition LocalSecretRef : ty := Struct [
    ("Name", Basic KString)].

Definition ObjectStoreRef : ty := Struct [
    ("URL", Basic KString); ("CredentialsSecret", Ptr LocalSecretRef); ("Region", Basic KString)].

Definition ClusterRef : ty := Struct [
    ("Name", Basic KString); ("Address", Basic KString); ("KubeconfigSecret", Ptr SecretKeyRef);
    ("Azure", Ptr AzureAuth); ("AWS", Ptr AWSAuth); ("GCP", Ptr GCPAuth);
    ("ObjectStore", Ptr ObjectStoreRef)].

Definition ClusterPairSpec : ty := Struct [
    ("Source", ClusterRef); ("Destination", ClusterRef); ("Transport", TransportType);
    ("StorageClassMap", StrMap); ("SnapshotClassMap", StrMap); ("RuntimeClassMap", StrMap)].

Definition ClusterPairStatus : ty := Struct [
    ("Phase", ClusterPairPhase); ("Message", Basic KString); ("SourceReachable", Basic KBool);
    ("DestinationReachable", Basic KBool); ("Conditions", Slice (Ext Condition));
    ("ObservedGeneration", Basic KInt64)].

Definition ClusterPair : ty := Struct [
    ("TypeMeta", Ext TypeMeta); ("ObjectMeta", Ext ObjectMeta); ("Spec", ClusterPairSpec);
    ("Status", ClusterPairStatus)].

Definition ClusterPairList : ty := Struct [
    ("TypeMeta", Ext TypeMeta); ("ListMeta", Ext ListMeta); ("Items", Slice ClusterPair)].

Definition PluginSpec : ty := Struct [
    ("Type", PluginType); ("WebhookURL", Basic KString); ("Classes", Slice WorkloadClass);
    ("Backup", Basic KBool); ("Restore", Basic KBool); ("Replicate", Basic KBool);
    ("TimeoutSeconds", Basic KInt32)].

Definition PluginStatus : ty := Struct [
    ("Ready", Basic KBool); ("Message", Basic KString); ("ObservedGeneration", Basic KInt64)].

Definition Plugin : ty := Struct [
    ("TypeMeta", Ext TypeMeta); ("ObjectMeta", Ext ObjectMeta); ("Spec", PluginSpec);
    ("Status", PluginStatus)].

Definition PluginList : ty := Struct [
    ("TypeMeta", Ext TypeMeta); ("ListMeta", Ext ListMeta); ("Items", Slice Plugin)].

(** ** The functions *)

Section deepcopy.
  Context {apim : Apimachinery}.

Definition TargetSelector_DeepCopyInto : addr -> addr -> M unit := copy_struct [
    ("Namespaces", unless_nil (make_copy (Basic KString)));
    ("LabelSelector", unless_nil (new_into (Ext LabelSelector) (ext_DeepCopyInto LabelSelector)))].
Definition TargetSelector_DeepCopy : option addr -> M (option addr) :=
  copy_ptr TargetSelector TargetSelector_DeepCopyInto.

Definition BackupSpec_DeepCopyInto : addr -> addr -> M unit := copy_struct [].
Definition BackupSpec_DeepCopy : option addr -> M (option addr) :=
  copy_ptr BackupSpec BackupSpec_DeepCopyInto.

Definition ReplicateSpec_DeepCopyInto : addr -> addr -> M unit := copy_struct [].
Definition ReplicateSpec_DeepCopy : option addr -> M (option addr) :=
  copy_ptr ReplicateSpec ReplicateSpec_DeepCopyInto.

Definition RestoreSpec_DeepCopyInto : addr -> addr -> M unit := copy_struct [].
Definition RestoreSpec_DeepCopy : option addr -> M (option addr) :=
  copy_ptr RestoreSpec RestoreSpec_DeepCopyInto.

Definition CutoverSpec_DeepCopyInto : addr -> addr -> M unit := copy_struct [].
Definition CutoverSpec_DeepCopy : option addr -> M (option addr) :=
  copy_ptr CutoverSpec CutoverSpec_DeepCopyInto.

Definition GitSource_DeepCopyInto : addr -> addr -> M unit := copy_struct [].
Definition GitSource_DeepCopy : option addr -> M (option addr) :=
  copy_ptr GitSource GitSource_DeepCopyInto.

Definition RendererSpec_DeepCopyInto : addr -> addr -> M unit := copy_struct [
    ("Git", unless_nil (new_assign GitSource))].
Definition RendererSpec_DeepCopy : option addr -> M (option addr) :=
  copy_ptr RendererSpec RendererSpec_DeepCopyInto.

Definition ClusterObjectsSpec_DeepCopyInto : addr -> addr -> M unit := copy_struct [
    ("IncludeClusterScoped", unless_nil (new_assign (Basic KBool)));
    ("ExcludeNamespaces", unless_nil (make_copy (Basic KString)));
    ("ExcludeGVKs", unless_nil (make_copy (Basic KString)))].
Definition ClusterObjectsSpec_DeepCopy : option addr -> M (option addr) :=
  copy_ptr ClusterObjectsSpec ClusterObjectsSpec_DeepCopyInto.

Definition PolicySpec_DeepCopyInto : addr -> addr -> M unit := copy_struct [
    ("Selector", TargetSelector_DeepCopyInto); ("Backup", assign); ("Replicate", assign);
    ("Restore", assign); ("Cutover", assign); ("Renderer", RendererSpec_DeepCopyInto);
    ("ClusterObjects", ClusterObjectsSpec_DeepCopyInto); ("MoverOverrides", unless_nil make_strmap)].
Definition PolicySpec_DeepCopy : option addr -> M (option addr) :=
  copy_ptr PolicySpec PolicySpec_DeepCopyInto.

Definition InventoryItem_DeepCopyInto : addr -> addr -> M unit := copy_struct [
    ("PVCNames", unless_nil (make_copy (Basic KString)))].
Definition InventoryItem_DeepCopy : option addr -> M (option addr) :=
  copy_ptr InventoryItem InventoryItem_DeepCopyInto.

Definition ArtifactHealth_DeepCopyInto : addr -> addr -> M unit := copy_struct [
    ("LastBackupTime", unless_nil (deep_copy Time_DeepCopy))].
Definition ArtifactHealth_DeepCopy : option addr -> M (option addr) :=
  copy_ptr ArtifactHealth ArtifactHealth_DeepCopyInto.

Definition PolicyStatus_DeepCopyInto : addr -> addr -> M unit := copy_struct [
    ("Inventory", unless_nil (make_into InventoryItem InventoryItem_DeepCopyInto));
    ("Artifacts", unless_nil (make_into ArtifactHealth ArtifactHealth_DeepCopyInto));
    ("Conditions", unless_nil (make_into (Ext Condition) (ext_DeepCopyInto Condition)))].
Definition PolicyStatus_DeepCopy : option addr -> M (option addr) :=
  copy_ptr PolicyStatus PolicyStatus_DeepCopyInto.

Definition Policy_DeepCopyInto : addr -> addr -> M unit := copy_struct [
    ("TypeMeta", assign); ("ObjectMeta", ext_DeepCopyInto ObjectMeta);
    ("Spec", PolicySpec_DeepCopyInto); ("Status", PolicyStatus_DeepCopyInto)].
Definition Policy_DeepCopy : option addr -> M (option addr) :=
  copy_ptr Policy Policy_DeepCopyInto.
Definition Policy_DeepCopyObject : option addr -> M (option (string * option addr)) :=
  copy_object "Policy" Policy_DeepCopy.

Definition PolicyList_DeepCopyInto : addr -> addr -> M unit := copy_struct [
    ("TypeMeta", assign); ("ListMeta", ext_DeepCopyInto ListMeta);
    ("Items", unless_nil (make_into Policy Policy_DeepCopyInto))].
Definition PolicyList_DeepCopy : option addr -> M (option addr) :=
  copy_ptr PolicyList PolicyList_DeepCopyInto.
Definition PolicyList_DeepCopyObject : option addr -> M (option (string * option addr)) :=
  copy_object "PolicyList" PolicyList_DeepCopy.

Definition ActionSpec_DeepCopyInto : addr -> addr -> M unit := copy_struct [].
Definition ActionSpec_DeepCopy : option addr -> M (option addr) :=
  copy_ptr ActionSpec ActionSpec_DeepCopyInto.

Definition WorkloadActionStatus_DeepCopyInto : addr -> addr -> M unit := copy_struct [
    ("Healed", unless_nil (make_copy (Basic KString)))].
Definition WorkloadActionStatus_DeepCopy : option addr -> M (option addr) :=
  copy_ptr WorkloadActionStatus WorkloadActionStatus_DeepCopyInto.

Definition Attestation_DeepCopyInto : addr -> addr -> M unit := copy_struct [
    ("RecordedAt", ext_DeepCopyInto Time);
    ("Workloads", unless_nil (make_into WorkloadActionStatus WorkloadActionStatus_DeepCopyInto));
    ("ArtifactIDs", unless_nil (make_copy (Basic KString)))].
Definition Attestation_DeepCopy : option addr -> M (option addr) :=
  copy_ptr Attestation Attestation_DeepCopyInto.

Definition ActionStatus_DeepCopyInto : addr -> addr -> M unit := copy_struct [
    ("Workloads", unless_nil (make_into WorkloadActionStatus WorkloadActionStatus_DeepCopyInto));
    ("Attestation", unless_nil (new_into Attestation Attestation_DeepCopyInto));
    ("StartTime", unless_nil (deep_copy Time_DeepCopy));
    ("CompletionTime", unless_nil (deep_copy Time_DeepCopy));
    ("Conditions", unless_nil (make_into (Ext Condition) (ext_DeepCopyInto Condition)))].
Definition ActionStatus_DeepCopy : option addr -> M (option addr) :=
  copy_ptr ActionStatus ActionStatus_DeepCopyInto.

Definition Action_DeepCopyInto : addr -> addr -> M unit := copy_struct [
    ("TypeMeta", assign); ("ObjectMeta", ext_DeepCopyInto ObjectMeta); ("Spec", assign);
    ("Status", ActionStatus_DeepCopyInto)].
Definition Action_DeepCopy : option addr -> M (option addr) :=
  copy_ptr Action Action_DeepCopyInto.
Definition Action_DeepCopyObject : option addr -> M (option (string * option addr)) :=
  copy_object "Action" Action_DeepCopy.

Definition ActionList_DeepCopyInto : addr -> addr -> M unit := copy_struct [
    ("TypeMeta", assign); ("ListMeta", ext_DeepCopyInto ListMeta);
    ("Items", unless_nil (make_into Action Action_DeepCopyInto))].
Definition ActionList_DeepCopy : option addr -> M (option addr) :=
  copy_ptr ActionList ActionList_DeepCopyInto.
Definition ActionList_DeepCopyObject : option addr -> M (option (string * option addr)) :=
  copy_object "ActionList" ActionList_DeepCopy.

Definition SecretKeyRef_DeepCopyInto : addr -> addr -> M unit := copy_struct [].
Definition SecretKeyRef_DeepCopy : option addr -> M (option addr) :=
  copy_ptr SecretKeyRef SecretKeyRef_DeepCopyInto.

Definition AzureAuth_DeepCopyInto : addr -> addr -> M unit := copy_struct [
    ("CredentialsSecret", unless_nil (new_assign SecretKeyRef))].
Definition AzureAuth_DeepCopy : option addr -> M (option addr) :=
  copy_ptr AzureAuth AzureAuth_DeepCopyInto.

Definition AWSAuth_DeepCopyInto : addr -> addr -> M unit := copy_struct [
    ("CredentialsSecret", unless_nil (new_assign SecretKeyRef))].
Definition AWSAuth_DeepCopy : option addr -> M (option addr) :=
  copy_ptr AWSAuth AWSAuth_DeepCopyInto.

Definition GCPAuth_DeepCopyInto : addr -> addr -> M unit := copy_struct [
    ("CredentialsSecret", unless_nil (new_assign SecretKeyRef))].
Definition GCPAuth_DeepCopy : option addr -> M (option addr) :=
  copy_ptr GCPAuth GCPAuth_DeepCopyInto.

Definition LocalSecretRef_DeepCopyInto : addr -> addr -> M unit := copy_struct [].
Definition LocalSecretRef_DeepCopy : option addr -> M (option addr) :=
  copy_ptr LocalSecretRef LocalSecretRef_DeepCopyInto.

Definition ObjectStoreRef_DeepCopyInto : addr -> addr -> M unit := copy_struct [
    ("CredentialsSecret", unless_nil (new_assign LocalSecretRef))].
Definition ObjectStoreRef_DeepCopy : option addr -> M (option addr) :=
  copy_ptr ObjectStoreRef ObjectStoreRef_DeepCopyInto.

Definition ClusterRef_DeepCopyInto : addr -> addr -> M unit := copy_struct [
    ("KubeconfigSecret", unless_nil (new_assign SecretKeyRef));
    ("Azure", unless_nil (new_into AzureAuth AzureAuth_DeepCopyInto));
    ("AWS", unless_nil (new_into AWSAuth AWSAuth_DeepCopyInto));
    ("GCP", unless_nil (new_into GCPAuth GCPAuth_DeepCopyInto));
    ("ObjectStore", unless_nil (new_into ObjectStoreRef ObjectStoreRef_DeepCopyInto))].
Definition ClusterRef_DeepCopy : option addr -> M (option addr) :=
  copy_ptr ClusterRef ClusterRef_DeepCopyInto.

Definition ClusterPairSpec_DeepCopyInto : addr -> addr -> M unit := copy_struct [
    ("Source", ClusterRef_DeepCopyInto); ("Destination", ClusterRef_DeepCopyInto);
    ("StorageClassMap", unless_nil make_strmap); ("SnapshotClassMap", unless_nil make_strmap);
    ("RuntimeClassMap", unless_nil make_strmap)].
Definition ClusterPairSpec_DeepCopy : option addr -> M (option addr) :=
  copy_ptr ClusterPairSpec ClusterPairSpec_DeepCopyInto.

Definition ClusterPairStatus_DeepCopyInto : addr -> addr -> M unit := copy_struct [
    ("Conditions", unless_nil (make_into (Ext Condition) (ext_DeepCopyInto Condition)))].
Definition ClusterPairStatus_DeepCopy : option addr -> M (option addr) :=
  copy_ptr ClusterPairStatus ClusterPairStatus_DeepCopyInto.

Definition ClusterPair_DeepCopyInto : addr -> addr -> M unit := copy_struct [
    ("TypeMeta", assign); ("ObjectMeta", ext_DeepCopyInto ObjectMeta);
    ("Spec", ClusterPairSpec_DeepCopyInto); ("Status", ClusterPairStatus_DeepCopyInto)].
Definition ClusterPair_DeepCopy : option addr -> M (option addr) :=
  copy_ptr ClusterPair ClusterPair_DeepCopyInto.
Definition ClusterPair_DeepCopyObject : option addr -> M (option (string * option addr)) :=
  copy_object "ClusterPair" ClusterPair_DeepCopy.

Definition ClusterPairList_DeepCopyInto : addr -> addr -> M unit := copy_struct [
    ("TypeMeta", assign); ("ListMeta", ext_DeepCopyInto ListMeta);
    ("Items", unless_nil (make_into ClusterPair ClusterPair_DeepCopyInto))].
Definition ClusterPairList_DeepCopy : option addr -> M (option addr) :=
  copy_ptr ClusterPairList ClusterPairList_DeepCopyInto.
Definition ClusterPairList_DeepCopyObject : option addr -> M (option (string * option addr)) :=
  copy_object "ClusterPairList" ClusterPairList_DeepCopy.

Definition PluginSpec_DeepCopyInto : addr -> addr -> M unit := copy_struct [
    ("Classes", unless_nil (make_copy WorkloadClass))].
Definition PluginSpec_DeepCopy : option addr -> M (option addr) :=
  copy_ptr PluginSpec PluginSpec_DeepCopyInto.

Definition PluginStatus_DeepCopyInto : addr -> addr -> M unit := copy_struct [].
Definition PluginStatus_DeepCopy : option addr -> M (option addr) :=
  copy_ptr PluginStatus PluginStatus_DeepCopyInto.

Definition Plugin_DeepCopyInto : addr -> addr -> M unit := copy_struct [
    ("TypeMeta", assign); ("ObjectMeta", ext_DeepCopyInto ObjectMeta);
    ("Spec", PluginSpec_DeepCopyInto); ("Status", assign)].
Definition Plugin_DeepCopy : option addr -> M (option addr) :=
  copy_ptr Plugin Plugin_DeepCopyInto.
Definition Plugin_DeepCopyObject : option addr -> M (option (string * option addr)) :=
  copy_object "Plugin" Plugin_DeepCopy.

Definition PluginList_DeepCopyInto : addr -> addr -> M unit := copy_struct [
    ("TypeMeta", assign); ("ListMeta", ext_DeepCopyInto ListMeta);
    ("Items", unless_nil (make_into Plugin Plugin_DeepCopyInto))].
Definition PluginList_DeepCopy : option addr -> M (option addr) :=
  copy_ptr PluginList PluginList_DeepCopyInto.
Definition PluginList_DeepCopyObject : option addr -> M (option (string * option addr)) :=
  copy_object "PluginList" PluginList_DeepCopy.

(** The types with their DeepCopy, and the objects with their DeepCopyObject. *)
Definition DeepCopy_methods : list (string * ty * (option addr -> M (option addr))) := [
    ("TargetSelector", TargetSelector, TargetSelector_DeepCopy);
    ("BackupSpec", BackupSpec, BackupSpec_DeepCopy);
    ("ReplicateSpec", ReplicateSpec, ReplicateSpec_DeepCopy);
    ("RestoreSpec", RestoreSpec, RestoreSpec_DeepCopy);
    ("CutoverSpec", CutoverSpec, CutoverSpec_DeepCopy);
    ("GitSource", GitSource, GitSource_DeepCopy);
    ("RendererSpec", RendererSpec, RendererSpec_DeepCopy);
    ("ClusterObjectsSpec", ClusterObjectsSpec, ClusterObjectsSpec_DeepCopy);
    ("PolicySpec", PolicySpec, PolicySpec_DeepCopy);
    ("InventoryItem", InventoryItem, InventoryItem_DeepCopy);
    ("ArtifactHealth", ArtifactHealth, ArtifactHealth_DeepCopy);
    ("PolicyStatus", PolicyStatus, PolicyStatus_DeepCopy); ("Policy", Policy, Policy_DeepCopy);
    ("PolicyList", PolicyList, PolicyList_DeepCopy);
    ("ActionSpec", ActionSpec, ActionSpec_DeepCopy);
    ("WorkloadActionStatus", WorkloadActionStatus, WorkloadActionStatus_DeepCopy);
    ("Attestation", Attestation, Attestation_DeepCopy);
    ("ActionStatus", ActionStatus, ActionStatus_DeepCopy); ("Action", Action, Action_DeepCopy);
    ("ActionList", ActionList, ActionList_DeepCopy);
    ("SecretKeyRef", SecretKeyRef, SecretKeyRef_DeepCopy);
    ("AzureAuth", AzureAuth, AzureAuth_DeepCopy); ("AWSAuth", AWSAuth, AWSAuth_DeepCopy);
    ("GCPAuth", GCPAuth, GCPAuth_DeepCopy);
    ("LocalSecretRef", LocalSecretRef, LocalSecretRef_DeepCopy);
    ("ObjectStoreRef", ObjectStoreRef, ObjectStoreRef_DeepCopy);
    ("ClusterRef", ClusterRef, ClusterRef_DeepCopy);
    ("ClusterPairSpec", ClusterPairSpec, ClusterPairSpec_DeepCopy);
    ("ClusterPairStatus", ClusterPairStatus, ClusterPairStatus_DeepCopy);
    ("ClusterPair", ClusterPair, ClusterPair_DeepCopy);
    ("ClusterPairList", ClusterPairList, ClusterPairList_DeepCopy);
    ("PluginSpec", PluginSpec, PluginSpec_DeepCopy);
    ("PluginStatus", PluginStatus, PluginStatus_DeepCopy); ("Plugin", Plugin, Plugin_DeepCopy);
    ("PluginList", PluginList, PluginList_DeepCopy)].

Definition DeepCopyObject_methods
    : list (string * (option addr -> M (option addr)) * (option addr -> M (option (string * option addr)))) := [
    ("Policy", Policy_DeepCopy, Policy_DeepCopyObject);
    ("PolicyList", PolicyList_DeepCopy, PolicyList_DeepCopyObject);
    ("Action", Action_DeepCopy, Action_DeepCopyObject);
    ("ActionList", ActionList_DeepCopy, ActionList_DeepCopyObject);
    ("ClusterPair", ClusterPair_DeepCopy, ClusterPair_DeepCopyObject);
    ("ClusterPairList", ClusterPairList_DeepCopy, ClusterPairList_DeepCopyObject);
    ("Plugin", Plugin_DeepCopy, Plugin_DeepCopyObject);
    ("PluginList", PluginList_DeepCopy, PluginList_DeepCopyObject)].
End deepcopy.

(** ** Every function copies *)

(** A struct's statements cover its fields. *)
Ltac solve_copies := apply copies_struct;
  [apply (bool_decide_unpack _); vm_compute; exact I|];
  repeat first [apply covers_nil
               |apply covers_act; [solve [auto 8 with deepcopy]|]
               |apply covers_flat; [reflexivity|]].

Section copies.
  Context {apim : Apimachinery} {laws : ReadLaws} {copy_laws : CopyLaws}.

Lemma TargetSelector_copies : copies TargetSelector TargetSelector_DeepCopyInto.
Proof. solve_copies. Qed.
#[local] Hint Resolve TargetSelector_copies : deepcopy.
Lemma BackupSpec_copies : copies BackupSpec BackupSpec_DeepCopyInto.
Proof. solve_copies. Qed.
#[local] Hint Resolve BackupSpec_copies : deepcopy.
Lemma ReplicateSpec_copies : copies ReplicateSpec ReplicateSpec_DeepCopyInto.
Proof. solve_copies. Qed.
#[local] Hint Resolve ReplicateSpec_copies : deepcopy.
Lemma RestoreSpec_copies : copies RestoreSpec RestoreSpec_DeepCopyInto.
Proof. solve_copies. Qed.
#[local] Hint Resolve RestoreSpec_copies : deepcopy.
Lemma CutoverSpec_copies : copies CutoverSpec CutoverSpec_DeepCopyInto.
Proof. solve_copies. Qed.
#[local] Hint Resolve CutoverSpec_copies : deepcopy.
Lemma GitSource_copies : copies GitSource GitSource_DeepCopyInto.
Proof. solve_copies. Qed.
#[local] Hint Resolve GitSource_copies : deepcopy.
Lemma RendererSpec_copies : copies RendererSpec RendererSpec_DeepCopyInto.
Proof. solve_copies. Qed.
#[local] Hint Resolve RendererSpec_copies : deepcopy.
Lemma ClusterObjectsSpec_copies : copies ClusterObjectsSpec ClusterObjectsSpec_DeepCopyInto.
Proof. solve_copies. Qed.
#[local] Hint Resolve ClusterObjectsSpec_copies : deepcopy.
Lemma PolicySpec_copies : copies PolicySpec PolicySpec_DeepCopyInto.
Proof. solve_copies. Qed.
#[local] Hint Resolve PolicySpec_copies : deepcopy.
Lemma InventoryItem_copies : copies InventoryItem InventoryItem_DeepCopyInto.
Proof. solve_copies. Qed.
#[local] Hint Resolve InventoryItem_copies : deepcopy.
Lemma ArtifactHealth_copies : copies ArtifactHealth ArtifactHealth_DeepCopyInto.
Proof. solve_copies. Qed.
#[local] Hint Resolve ArtifactHealth_copies : deepcopy.
Lemma PolicyStatus_copies : copies PolicyStatus PolicyStatus_DeepCopyInto.
Proof. solve_copies. Qed.
#[local] Hint Resolve PolicyStatus_copies : deepcopy.
Lemma Policy_copies : copies Policy Policy_DeepCopyInto.
Proof. solve_copies. Qed.
#[local] Hint Resolve Policy_copies : deepcopy.
Lemma PolicyList_copies : copies PolicyList PolicyList_DeepCopyInto.
Proof. solve_copies. Qed.
#[local] Hint Resolve PolicyList_copies : deepcopy.
Lemma ActionSpec_copies : copies ActionSpec ActionSpec_DeepCopyInto.
Proof. solve_copies. Qed.
#[local] Hint Resolve ActionSpec_copies : deepcopy.
Lemma WorkloadActionStatus_copies : copies WorkloadActionStatus WorkloadActionStatus_DeepCopyInto.
Proof. solve_copies. Qed.
#[local] Hint Resolve WorkloadActionStatus_copies : deepcopy.
Lemma Attestation_copies : copies Attestation Attestation_DeepCopyInto.
Proof. solve_copies. Qed.
#[local] Hint Resolve Attestation_copies : deepcopy.
Lemma ActionStatus_copies : copies ActionStatus ActionStatus_DeepCopyInto.
Proof. solve_copies. Qed.
#[local] Hint Resolve ActionStatus_copies : deepcopy.
Lemma Action_copies : copies Action Action_DeepCopyInto.
Proof. solve_copies. Qed.
#[local] Hint Resolve Action_copies : deepcopy.
Lemma ActionList_copies : copies ActionList ActionList_DeepCopyInto.
Proof. solve_copies. Qed.
#[local] Hint Resolve ActionList_copies : deepcopy.
Lemma SecretKeyRef_copies : copies SecretKeyRef SecretKeyRef_DeepCopyInto.
Proof. solve_copies. Qed.
#[local] Hint Resolve SecretKeyRef_copies : deepcopy.
Lemma AzureAuth_copies : copies AzureAuth AzureAuth_DeepCopyInto.
Proof. solve_copies. Qed.
#[local] Hint Resolve AzureAuth_copies : deepcopy.
Lemma AWSAuth_copies : copies AWSAuth AWSAuth_DeepCopyInto.
Proof. solve_copies. Qed.
#[local] Hint Resolve AWSAuth_copies : deepcopy.
Lemma GCPAuth_copies : copies GCPAuth GCPAuth_DeepCopyInto.
Proof. solve_copies. Qed.
#[local] Hint Resolve GCPAuth_copies : deepcopy.
Lemma LocalSecretRef_copies : copies LocalSecretRef LocalSecretRef_DeepCopyInto.
Proof. solve_copies. Qed.
#[local] Hint Resolve LocalSecretRef_copies : deepcopy.
Lemma ObjectStoreRef_copies : copies ObjectStoreRef ObjectStoreRef_DeepCopyInto.
Proof. solve_copies. Qed.
#[local] Hint Resolve ObjectStoreRef_copies : deepcopy.
Lemma ClusterRef_copies : copies ClusterRef ClusterRef_DeepCopyInto.
Proof. solve_copies. Qed.
#[local] Hint Resolve ClusterRef_copies : deepcopy.
Lemma ClusterPairSpec_copies : copies ClusterPairSpec ClusterPairSpec_DeepCopyInto.
Proof. solve_copies. Qed.
#[local] Hint Resolve ClusterPairSpec_copies : deepcopy.
Lemma ClusterPairStatus_copies : copies ClusterPairStatus ClusterPairStatus_DeepCopyInto.
Proof. solve_copies. Qed.
#[local] Hint Resolve ClusterPairStatus_copies : deepcopy.
Lemma ClusterPair_copies : copies ClusterPair ClusterPair_DeepCopyInto.
Proof. solve_copies. Qed.
#[local] Hint Resolve ClusterPair_copies : deepcopy.
Lemma ClusterPairList_copies : copies ClusterPairList ClusterPairList_DeepCopyInto.
Proof. solve_copies. Qed.
#[local] Hint Resolve ClusterPairList_copies : deepcopy.
Lemma PluginSpec_copies : copies PluginSpec PluginSpec_DeepCopyInto.
Proof. solve_copies. Qed.
#[local] Hint Resolve PluginSpec_copies : deepcopy.
Lemma PluginStatus_copies : copies PluginStatus PluginStatus_DeepCopyInto.
Proof. solve_copies. Qed.
#[local] Hint Resolve PluginStatus_copies : deepcopy.
Lemma Plugin_copies : copies Plugin Plugin_DeepCopyInto.
Proof. solve_copies. Qed.
#[local] Hint Resolve Plugin_copies : deepcopy.
Lemma PluginList_copies : copies PluginList PluginList_DeepCopyInto.
Proof. solve_copies. Qed.
#[local] Hint Resolve PluginList_copies : deepcopy.

Lemma DeepCopy_methods_copy :
  Forall (fun m => deep_copies (snd (fst m)) (snd m)) DeepCopy_methods.
Proof. repeat constructor; apply deep_copies_ptr; auto with deepcopy. Qed.
Lemma DeepCopyObject_methods_spec :
  Forall (fun m => exists t, (fst (fst m), t, snd (fst m)) ∈ DeepCopy_methods /\
                   snd m = copy_object (fst (fst m)) (snd (fst m))) DeepCopyObject_methods.
Proof. repeat constructor; eexists; (split; [|reflexivity]); elem. Qed.

Lemma DeepCopy_methods_ptr name t dc :
  (name, t, dc) ∈ DeepCopy_methods -> exists g, dc = copy_ptr t g.
Proof.
  assert (Forall (fun m => exists g, snd m = copy_ptr (snd (fst m)) g) DeepCopy_methods) as Hp
    by (repeat constructor; eexists; reflexivity).
  rewrite Forall_forall in Hp. intros Hin. apply (Hp _ Hin).
Qed.

(** What a DeepCopy allocated is not read through anything the caller had, and
    the other way round. *)
Lemma deep_copies_apart t dc H a v x :
  deep_copies t dc -> load_at H a = Some v -> read H t v = Some x ->
  exists b H1, dc (Some a) H = Some (Some b, H1) /\
    (forall H2, (forall l, H !! l = None -> H2 !! l = H1 !! l) ->
       read H2 (Ptr t) (VPtr (Some b)) = Some (TPtr x)) /\
    (forall H2, (forall l, is_Some (H !! l) -> H2 !! l = H1 !! l) ->
       read H2 (Ptr t) (VPtr (Some a)) = Some (TPtr x)).
Proof.
  intros Hdc Hl Hr.
  destruct (Hdc H H a v x (reflexivity H) Hl Hr) as (q & H1 & E & b & hn & -> & Hs & Hhn & Hd & Hread).
  exists b, H1. split; [done|]. split; intros H2 H2eq.
  - apply (read_mono hn); [|done]. apply map_subseteq_spec. intros l o Ho.
    rewrite H2eq; [by eapply lookup_weaken|]. by eapply map_disjoint_Some_l.
  - apply (read_mono H); [|by simpl; rewrite Hl; simpl; rewrite Hr]. apply map_subseteq_spec. intros l o Ho.
    rewrite H2eq by eauto. by eapply lookup_weaken.
Qed.

(** C18: every DeepCopy of the API types, called on nil, gives nil; called on a
    pointer to a value that denotes the tree [x], it does not panic and returns a
    new pointer, which denotes [x] too. The two are independent: the copy still
    denotes [x] in every later memory that agrees on what the call allocated,
    whatever was done to the memory the caller had; and the original still
    denotes [x] whatever is done to the copy. *)
Theorem DeepCopy_apart name t dc :
  (name, t, dc) ∈ DeepCopy_methods ->
  (forall H, dc None H = Some (None, H)) /\
  forall H a v x, load_at H a = Some v -> read H t v = Some x ->
  exists b H1, dc (Some a) H = Some (Some b, H1) /\
    (forall H2, (forall l, H !! l = None -> H2 !! l = H1 !! l) ->
       read H2 (Ptr t) (VPtr (Some b)) = Some (TPtr x)) /\
    (forall H2, (forall l, is_Some (H !! l) -> H2 !! l = H1 !! l) ->
       read H2 (Ptr t) (VPtr (Some a)) = Some (TPtr x)).
Proof.
  intros Hin. pose proof DeepCopy_methods_copy as Hc. rewrite Forall_forall in Hc.
  destruct (DeepCopy_methods_ptr _ _ _ Hin) as [g ->]. split; [done|]. intros H a v x Hl Hr.
  by apply (deep_copies_apart t _ H a v x (Hc _ Hin)).
Qed.

(** DeepCopyObject of a nil pointer is the nil interface, never an interface that
    holds a nil pointer; of an object it is the object's kind and its copy. *)
Lemma DeepCopyObject_typed name dc dco :
  (name, dc, dco) ∈ DeepCopyObject_methods ->
  (forall H, dco None H = Some (None, H)) /\
  forall H a b H1, dc (Some a) H = Some (Some b, H1) -> dco (Some a) H = Some (Some (name, Some b), H1).
Proof.
  intros Hin. pose proof DeepCopyObject_methods_spec as Hs. rewrite Forall_forall in Hs.
  destruct (Hs _ Hin) as (t & Hd & E). simpl in *. rewrite E.
  destruct (DeepCopy_methods_ptr _ _ _ Hd) as [g ->]. split; [done|]. intros H a b H1 Hc. unfold copy_object, mbind at 1, M_bind. by rewrite Hc.
Qed.
End copies.

(** ** An apimachinery to run them with *)

Module Concrete.

(** The types of apimachinery as structs of strings and labels, and their copies
    by the same statements. *)
Definition scalars : Apimachinery := {|
  ext_zero := fun _ => VBasic (SInt 0);
  ext_read := fun _ _ _ => None;
  ext_DeepCopyInto := fun _ _ _ => panic;
  Time_DeepCopy := fun _ => panic;
  range_order := map_to_list
|}.

Definition ext_fields (e : ext) : list (string * ty) :=
  match e with
  | TypeMeta => [("Kind", Basic KString); ("APIVersion", Basic KString)]
  | ObjectMeta => [("Name", Basic KString); ("Labels", StrMap)]
  | ListMeta => [("ResourceVersion", Basic KString)]
  | Time => [("seconds", Basic KInt64)]
  | Condition => [("Type", Basic KString); ("Status", Basic KString)]
  | LabelSelector => [("MatchLabels", StrMap)]
  end.

Definition ext_acts (e : ext) : list (string * (addr -> addr -> M unit)) :=
  match e with
  | ObjectMeta => [("Labels", unless_nil (@make_strmap scalars))]
  | LabelSelector => [("MatchLabels", unless_nil (@make_strmap scalars))]
  | _ => []
  end.

#[export] Instance concrete : Apimachinery := {|
  ext_zero := fun e => @zero scalars (Struct (ext_fields e));
  ext_read := fun e h v => @read scalars h (Struct (ext_fields e)) v;
  ext_DeepCopyInto := fun e => copy_struct (ext_acts e);
  Time_DeepCopy := @copy_ptr scalars (Struct (ext_fields Time)) (copy_struct []);
  range_order := map_to_list
|}.

Lemma scalars_laws : @ReadLaws scalars.
Proof. by split. Qed.

#[export] Instance concrete_laws : @ReadLaws concrete.
Proof.
  split; [| |done].
  - intros e h h' v x. apply (@read_mono scalars scalars_laws).
  - intros h v x. by apply (@read_flat scalars scalars_laws h (Struct (ext_fields TypeMeta))).
Qed.

Lemma concrete_copies e : @copies scalars (Struct (ext_fields e)) (copy_struct (ext_acts e)).
Proof.
  pose proof scalars_laws.
  destruct e; apply copies_struct; try (apply (bool_decide_unpack _); vm_compute; exact I);
    repeat first [apply covers_nil
                 |apply covers_act; [apply copies_over_unless_nil; [discriminate|apply fills_make_strmap]|]
                 |apply covers_flat; [reflexivity|]].
Qed.

#[export] Instance concrete_copy_laws : @CopyLaws concrete.
Proof.
  split.
  - intros e h0 H inp out v x c old [] Hsub.
    refine (concrete_copies e h0 H inp out v x c old _ Hsub). by split.
  - intros h0 H a v x Hs Hl Hr.
    exact (@deep_copies_ptr scalars scalars_laws _ _ (concrete_copies Time) h0 H a v x Hs Hl Hr).
Qed.

(** The status of an Action with a healed workload, an attestation and times. *)
Definition str (s : string) : val := VBasic (SString s).
Definition now : val := VStruct [("seconds", VBasic (SInt 7))].

Definition workload (name : string) (healed : val) : val := VStruct [
  ("Name", str name); ("Key", str "prod/db"); ("Class", str "SQLLogical"); ("Engine", str "postgres");
  ("Ready", VBasic (SBool true)); ("Probe", str "ok"); ("ProbeOK", VBasic (SBool true));
  ("Message", str ""); ("Healed", healed)].

Definition status : val := VStruct [
  ("Phase", str "Attesting"); ("Message", str ""); ("Workloads", VSlice (Some (Slice_ (Addr 2 []) 1 2)));
  ("Attestation", VPtr (Some (Addr 3 []))); ("StartTime", VPtr (Some (Addr 4 [])));
  ("CompletionTime", VPtr None); ("Conditions", VSlice None); ("ObservedGeneration", VBasic (SInt 1))].

Definition memory : heap := list_to_map [
  (1, OVal status);
  (2, OVal (VArray [workload "spare" (VSlice None); workload "db" (VSlice (Some (Slice_ (Addr 5 []) 0 1)));
                    workload "web" (VSlice None)]));
  (3, OVal (VStruct [("RecordedAt", now); ("Source", str "portage");
                     ("Workloads", VSlice (Some (Slice_ (Addr 2 []) 0 2))); ("ArtifactIDs", VSlice None)]));
  (4, OVal now);
  (5, OVal (VArray [str "owner"]))]%positive.

Definition workload_tree (name : string) (healed : tree) : tree := TStruct [
  ("Name", TBasic (SString name)); ("Key", TBasic (SString "prod/db")); ("Class", TBasic (SString "SQLLogical"));
  ("Engine", TBasic (SString "postgres")); ("Ready", TBasic (SBool true)); ("Probe", TBasic (SString "ok"));
  ("ProbeOK", TBasic (SBool true)); ("Message", TBasic (SString "")); ("Healed", healed)].

Definition db_tree : tree := workload_tree "db" (TSlice [TBasic (SString "owner")]).
Definition now_tree : tree := TStruct [("seconds", TBasic (SInt 7))].

Definition status_tree : tree := TStruct [
  ("Phase", TBasic (SString "Attesting")); ("Message", TBasic (SString ""));
  ("Workloads", TSlice [db_tree; workload_tree "web" TNil]);
  ("Attestation", TPtr (TStruct [("RecordedAt", now_tree); ("Source", TBasic (SString "portage"));
     ("Workloads", TSlice [workload_tree "spare" TNil; db_tree]); ("ArtifactIDs", TNil)]));
  ("StartTime", TPtr now_tree); ("CompletionTime", TNil); ("Conditions", TNil);
  ("ObservedGeneration", TBasic (SInt 1))].

Lemma DeepCopy_apart_witness :
  exists b H1, ActionStatus_DeepCopy (Some (Addr 1 [])) memory = Some (Some b, H1) /\
    (forall H2, (forall l, memory !! l = None -> H2 !! l = H1 !! l) ->
       read H2 (Ptr ActionStatus) (VPtr (Some b)) = Some (TPtr status_tree)) /\
    (forall H2, (forall l, is_Some (memory !! l) -> H2 !! l = H1 !! l) ->
       read H2 (Ptr ActionStatus) (VPtr (Some (Addr 1 []))) = Some (TPtr status_tree)).
Proof.
  apply (DeepCopy_apart "ActionStatus" ActionStatus ActionStatus_DeepCopy) with (v := status).
  - elem.
  - vm_compute. reflexivity.
  - vm_compute. reflexivity.
Defined.
End Concrete.
