(* ===== verification/GoStrings.v ===== *)
(** * The parts of Go's [strings], [strconv] and [fmt] the program uses

    A Go string is a sequence of bytes, so it is a [string] here. The case
    conversions are Go's on ASCII text, which is what Kubernetes names, labels,
    image references, group names and the program's own messages are; Go also
    folds non-ASCII letters, which these definitions leave alone. *)

From Stdlib Require Import ZArith Lia Ascii.
From S2P Require Import Prelude.

Local Open Scope Z_scope.

(** The double quote, for the messages Go prints with the [q] verb. *)
Definition dq : string := String (Ascii.ascii_of_nat 34) EmptyString.
Definition quoted (s : string) : string := dq +:+ s +:+ dq.
Definition newline : ascii := Ascii.ascii_of_nat 10.
Definition nl : string := String newline EmptyString.
Definition nul : string := String (Ascii.ascii_of_nat 0) EmptyString.

Definition str_len (s : string) : Z := Z.of_nat (String.length s).

(** strings.HasPrefix, strings.HasSuffix, strings.Contains. *)
Definition HasPrefix (s p : string) : bool := String.prefix p s.

Fixpoint HasSuffix (s suf : string) : bool :=
  String.eqb s suf ||
  match s with
  | EmptyString => false
  | String _ s' => HasSuffix s' suf
  end.

Fixpoint Contains (s sub : string) : bool :=
  String.prefix sub s ||
  match s with
  | EmptyString => false
  | String _ s' => Contains s' sub
  end.

(** strings.ToLower and strings.EqualFold, on ASCII. *)
Definition ascii_lower (c : ascii) : ascii :=
  let n := N_of_ascii c in
  if (65 <=? n)%N && (n <=? 90)%N then ascii_of_N (n + 32)%N else c.

Fixpoint ToLower (s : string) : string :=
  match s with
  | EmptyString => EmptyString
  | String c s' => String (ascii_lower c) (ToLower s')
  end.

Definition EqualFold (a b : string) : bool := String.eqb (ToLower a) (ToLower b).

(** s[:n] for n within the length. *)
Fixpoint take_str (n : nat) (s : string) : string :=
  match n, s with
  | S n', String c s' => String c (take_str n' s')
  | _, _ => EmptyString
  end.

Fixpoint drop_str (n : nat) (s : string) : string :=
  match n, s with
  | S n', String _ s' => drop_str n' s'
  | _, _ => s
  end.

(** [if len(n) > k { n = n[:k] }]. *)
Definition cap_len (k : nat) (s : string) : string :=
  if (k <? String.length s)%nat then take_str k s else s.

(** strings.Split with a one-byte separator: never empty. *)
Fixpoint Split (sep : ascii) (s : string) : list string :=
  match s with
  | EmptyString => [EmptyString]
  | String c s' =>
      if Ascii.eqb c sep then EmptyString :: Split sep s'
      else match Split sep s' with
           | w :: ws => String c w :: ws
           | [] => [String c EmptyString]
           end
  end.

(** strings.Join. *)
Fixpoint Join (sep : string) (ws : list string) : string :=
  match ws with
  | [] => EmptyString
  | [w] => w
  | w :: ws' => w +:+ sep +:+ Join sep ws'
  end.

(** strings.Cut with a one-byte separator. *)
Fixpoint Cut (sep : ascii) (s : string) : string * string * bool :=
  match s with
  | EmptyString => (EmptyString, EmptyString, false)
  | String c s' =>
      if Ascii.eqb c sep then (EmptyString, s', true)
      else let '(a, b, f) := Cut sep s' in (String c a, b, f)
  end.

(** strings.Index of a one-byte separator, -1 when absent. *)
Fixpoint IndexByte (s : string) (sep : ascii) : Z :=
  match s with
  | EmptyString => -1
  | String c s' =>
      if Ascii.eqb c sep then 0
      else let i := IndexByte s' sep in if i <? 0 then -1 else i + 1
  end.

(** strings.LastIndexByte, -1 when absent. *)
Fixpoint LastIndexByte (s : string) (sep : ascii) : Z :=
  match s with
  | EmptyString => -1
  | String c s' =>
      let i := LastIndexByte s' sep in
      if (0 <=? i)%Z then (i + 1)%Z else if Ascii.eqb c sep then 0%Z else (-1)%Z
  end.

Definition has_byte (s : string) (c : ascii) : bool := (0 <=? IndexByte s c)%Z.
(** [s[i:]] and [s[:i]] *)
Definition from (i : Z) (s : string) : string := drop_str (Z.to_nat i) s.
Definition upto (i : Z) (s : string) : string := take_str (Z.to_nat i) s.

(** strings.TrimLeft, TrimRight and Trim with a cutset; TrimSpace on ASCII. *)
Fixpoint TrimLeftFunc (f : ascii -> bool) (s : string) : string :=
  match s with
  | EmptyString => EmptyString
  | String c s' => if f c then TrimLeftFunc f s' else s
  end.

Fixpoint TrimRightFunc (f : ascii -> bool) (s : string) : string :=
  match s with
  | EmptyString => EmptyString
  | String c s' =>
      match TrimRightFunc f s' with
      | EmptyString => if f c then EmptyString else String c EmptyString
      | t => String c t
      end
  end.

Definition TrimFunc (f : ascii -> bool) (s : string) : string :=
  TrimRightFunc f (TrimLeftFunc f s).

Fixpoint in_cutset (cutset : string) (c : ascii) : bool :=
  match cutset with
  | EmptyString => false
  | String d cutset' => Ascii.eqb c d || in_cutset cutset' c
  end.

Definition is_space (c : ascii) : bool :=
  let n := N_of_ascii c in ((9 <=? n) && (n <=? 13))%N || (n =? 32)%N.

Definition TrimRight (s cutset : string) : string := TrimRightFunc (in_cutset cutset) s.
Definition Trim (s cutset : string) : string := TrimFunc (in_cutset cutset) s.
Definition TrimSpace (s : string) : string := TrimFunc is_space s.

(** strings.TrimPrefix and strings.TrimSuffix. *)
Definition TrimPrefix (s p : string) : string :=
  if HasPrefix s p then drop_str (String.length p) s else s.
Definition TrimSuffix (s suf : string) : string :=
  if HasSuffix s suf then take_str (String.length s - String.length suf) s else s.

(** strings.ReplaceAll of one byte by another. *)
Fixpoint ReplaceByte (s : string) (from to : ascii) : string :=
  match s with
  | EmptyString => EmptyString
  | String c s' => String (if Ascii.eqb c from then to else c) (ReplaceByte s' from to)
  end.

(** ** strconv *)

Definition digit (d : N) : ascii := ascii_of_N (48 + d)%N.
Definition digit_of (c : ascii) : option Z :=
  let n := N_of_ascii c in
  if (48 <=? n)%N && (n <=? 57)%N then Some (Z.of_N n - 48) else None.

(** Decimal digits of a natural number; [fuel] bounds the number of digits. *)
Fixpoint digits_fuel (fuel : nat) (n : N) (acc : string) : string :=
  match fuel with
  | O => acc
  | S fuel' =>
      let acc' := String (digit (n mod 10)) acc in
      if (n <? 10)%N then acc' else digits_fuel fuel' (n / 10)%N acc'
  end.

Definition Itoa_N (n : N) : string := digits_fuel (S (N.to_nat (N.log2 n))) n EmptyString.

(** strconv.Itoa and the [d] verb. *)
Definition Itoa (z : Z) : string :=
  if z <? 0 then String (ascii_of_N 45) (Itoa_N (Z.to_N (- z))) else Itoa_N (Z.to_N z).

(** fmt.Sprintf with the [s] and [q] verbs. *)
Fixpoint Sprintf (format : string) (args : list string) : string :=
  match format with
  | EmptyString => EmptyString
  | String c rest =>
      if Ascii.eqb c "%" then
        match rest, args with
        | String v rest', a :: args' =>
            if Ascii.eqb v "s" then a +:+ Sprintf rest' args'
            else if Ascii.eqb v "q" then quoted a +:+ Sprintf rest' args'
            else String c (Sprintf rest args)
        | _, _ => String c (Sprintf rest args)
        end
      else String c (Sprintf rest args)
  end.

(** hex.EncodeToString. *)
Definition hex_digit (n : N) : ascii := ascii_of_N (if (n <? 10)%N then 48 + n else 87 + n)%N.
Fixpoint EncodeToString (s : string) : string :=
  match s with
  | EmptyString => EmptyString
  | String c s' => let n := N_of_ascii c in
                   String (hex_digit (n / 16)%N) (String (hex_digit (n mod 16)%N) (EncodeToString s'))
  end.

Fixpoint parse_digits (acc : Z) (s : string) : option Z :=
  match s with
  | EmptyString => Some acc
  | String c s' =>
      match digit_of c with
      | Some d => parse_digits (acc * 10 + d) s'
      | None => None
      end
  end.

Definition parse_nat_str (s : string) : option Z :=
  match s with EmptyString => None | _ => parse_digits 0 s end.

Definition parse_signed (s : string) : option Z :=
  match s with
  | String c s' =>
      if Ascii.eqb c (ascii_of_N 45) then Z.opp <$> parse_nat_str s'
      else if Ascii.eqb c (ascii_of_N 43) then parse_nat_str s'
      else parse_nat_str s
  | EmptyString => None
  end.

(** strconv.ParseInt(s, 10, 64) and strconv.Atoi on a 64-bit platform: [None]
    is a syntax error or a value out of range. *)
Definition ParseInt64 (s : string) : option Z :=
  match parse_signed s with
  | Some z => if (- 2 ^ 63 <=? z) && (z <? 2 ^ 63) then Some z else None
  | None => None
  end.
Definition Atoi : string -> option Z := ParseInt64.

(** Go's string comparison operators are bytewise lexicographic. *)
Definition str_ltb (a b : string) : bool :=
  match String.compare a b with Lt => true | _ => false end.
Definition str_leb (a b : string) : bool := negb (str_ltb b a).

(** ** Lemmas *)

Lemma app_cons_str c s t : String c s +:+ t = String c (s +:+ t).
Proof. done. Qed.

Lemma app_nil_str t : EmptyString +:+ t = t.
Proof. done. Qed.

Lemma app_nil_r_str s : s +:+ EmptyString = s.
Proof. induction s as [|c s IH]; [done|]. by rewrite app_cons_str, IH. Qed.

Lemma app_assoc_str a b c : (a +:+ b) +:+ c = a +:+ b +:+ c.
Proof. induction a as [|x a IH]; [done|]. by rewrite !app_cons_str, IH. Qed.

Lemma length_app_str a b :
  String.length (a +:+ b) = (String.length a + String.length b)%nat.
Proof. induction a as [|x a IH]; [done|]. rewrite app_cons_str. simpl. lia. Qed.

Create Rewrite HintDb strings.
#[export] Hint Rewrite app_cons_str app_nil_str app_nil_r_str app_assoc_str
  length_app_str : strings.

Lemma app_inj_l_str a b c : a +:+ b = a +:+ c -> b = c.
Proof. induction a as [|x a IH]; [done|]. rewrite !app_cons_str. intros [=]; auto. Qed.

Lemma app_inj_len a b c d :
  String.length a = String.length c -> a +:+ b = c +:+ d -> a = c /\ b = d.
Proof.
  revert c. induction a as [|x a IH]; intros [|y c] HE; simpl in HE; try discriminate HE.
  - auto.
  - rewrite !app_cons_str. intros HS. injection HS as -> H2.
    injection HE as HE. destruct (IH c HE H2) as [-> ->]; auto.
Qed.

Lemma prefix_app p t : String.prefix p (p +:+ t) = true.
Proof.
  induction p as [|c p IH]; [by destruct t|]. rewrite app_cons_str. simpl.
  by destruct (ascii_dec c c).
Qed.

Lemma prefix_spec p s : String.prefix p s = true <-> exists t, s = p +:+ t.
Proof.
  split.
  - revert s. induction p as [|c p IH]; intros [|d s]; simpl; try discriminate;
      try (eexists; done).
    destruct (ascii_dec c d) as [->|]; [|discriminate]. intros H.
    destruct (IH s H) as [t ->]. by exists t.
  - intros [t ->]. apply prefix_app.
Qed.

Lemma HasPrefix_spec s p : HasPrefix s p = true <-> exists t, s = p +:+ t.
Proof. apply prefix_spec. Qed.

Lemma HasPrefix_app p t : HasPrefix (p +:+ t) p = true.
Proof. apply prefix_app. Qed.

Lemma HasSuffix_spec s suf : HasSuffix s suf = true <-> exists t, s = t +:+ suf.
Proof.
  split.
  - induction s as [|c s IH]; cbn [HasSuffix]; rewrite ?orb_false_r, ?orb_true_iff, String.eqb_eq.
    + intros <-. by exists EmptyString.
    + intros [<-|H]; [by exists EmptyString|]. destruct (IH H) as [t ->].
      by exists (String c t).
  - intros [t ->]. induction t as [|c t IH].
    + rewrite app_nil_str. destruct suf; cbn [HasSuffix]; by rewrite String.eqb_refl.
    + rewrite app_cons_str. cbn [HasSuffix]. rewrite IH. apply orb_true_r.
Qed.

Lemma HasSuffix_app t suf : HasSuffix (t +:+ suf) suf = true.
Proof. apply HasSuffix_spec. eauto. Qed.

Lemma Contains_spec s sub :
  Contains s sub = true <-> exists a b, s = a +:+ sub +:+ b.
Proof.
  split.
  - induction s as [|c s IH]; cbn [Contains]; rewrite ?orb_false_r, ?orb_true_iff.
    + intros [t H]%prefix_spec. exists EmptyString, t. by rewrite app_nil_str.
    + intros [[t H]%prefix_spec|H].
      * exists EmptyString, t. by rewrite app_nil_str.
      * destruct (IH H) as (a & b & ->). by exists (String c a), b.
  - intros (a & b & ->). induction a as [|c a IH].
    + rewrite app_nil_str. destruct (sub +:+ b) eqn:E; cbn [Contains]; rewrite <- E, prefix_app; done.
    + rewrite app_cons_str. cbn [Contains]. rewrite IH. apply orb_true_r.
Qed.

Lemma Contains_refl s : Contains s s = true.
Proof. apply Contains_spec. exists EmptyString, EmptyString. by rewrite app_nil_r_str. Qed.

Lemma Contains_app_l a s sub : Contains s sub = true -> Contains (a +:+ s) sub = true.
Proof.
  rewrite !Contains_spec. intros (x & y & ->). exists (a +:+ x), y. by rewrite app_assoc_str.
Qed.

Lemma Contains_app_r s b sub : Contains s sub = true -> Contains (s +:+ b) sub = true.
Proof.
  rewrite !Contains_spec. intros (x & y & ->). exists x, (y +:+ b).
  by rewrite !app_assoc_str.
Qed.

Lemma Contains_mid a s b : Contains (a +:+ s +:+ b) s = true.
Proof. apply Contains_spec. eauto. Qed.

Lemma HasPrefix_Contains s p : HasPrefix s p = true -> Contains s p = true.
Proof.
  intros [t ->]%HasPrefix_spec. apply Contains_app_r, Contains_refl.
Qed.

Lemma ascii_lower_idem c : ascii_lower (ascii_lower c) = ascii_lower c.
Proof. by destruct c as [[] [] [] [] [] [] [] []]. Qed.

Lemma ToLower_idem s : ToLower (ToLower s) = ToLower s.
Proof. induction s as [|c s IH]; simpl; [done|]. by rewrite ascii_lower_idem, IH. Qed.

Lemma ToLower_app a b : ToLower (a +:+ b) = ToLower a +:+ ToLower b.
Proof. induction a as [|c a IH]; [done|]. rewrite !app_cons_str. simpl. by rewrite IH. Qed.

Lemma Contains_ToLower s sub :
  Contains s sub = true -> Contains (ToLower s) (ToLower sub) = true.
Proof.
  rewrite !Contains_spec. intros (a & b & ->). rewrite !ToLower_app. eauto.
Qed.

Lemma EqualFold_refl s : EqualFold s s = true.
Proof. apply String.eqb_refl. Qed.

Lemma EqualFold_sym a b : EqualFold a b = EqualFold b a.
Proof. apply String.eqb_sym. Qed.

Lemma EqualFold_trans a b c :
  EqualFold a b = true -> EqualFold b c = true -> EqualFold a c = true.
Proof. unfold EqualFold. rewrite !String.eqb_eq. congruence. Qed.

Lemma length_take_str n s : String.length (take_str n s) = Nat.min n (String.length s).
Proof. revert s. induction n as [|n IH]; intros [|c s]; simpl; auto. Qed.

Lemma take_str_ge n s : (String.length s <= n)%nat -> take_str n s = s.
Proof.
  revert s. induction n as [|n IH]; intros [|c s]; simpl; intros H; auto; try lia.
  f_equal. apply IH. lia.
Qed.

Lemma take_str_app_le n a b :
  (n <= String.length a)%nat -> take_str n (a +:+ b) = take_str n a.
Proof.
  revert a. induction n as [|n IH]; intros [|c a]; simpl; intros H; auto; try lia.
  f_equal. apply IH. lia.
Qed.

Lemma length_cap_len k s : (String.length (cap_len k s) <= k)%nat.
Proof.
  unfold cap_len. destruct (Nat.ltb_spec k (String.length s)); [|lia].
  rewrite length_take_str. lia.
Qed.

Lemma cap_len_small k s : (String.length s <= k)%nat -> cap_len k s = s.
Proof. intros H. unfold cap_len. destruct (Nat.ltb_spec k (String.length s)); [lia|done]. Qed.

Lemma cap_len_app_long k a b :
  (k <= String.length a)%nat -> cap_len k (a +:+ b) = take_str k a.
Proof.
  intros H. unfold cap_len. rewrite length_app_str.
  destruct (Nat.ltb_spec k (String.length a + String.length b)).
  - by apply take_str_app_le.
  - assert (String.length b = 0)%nat as Hb by lia. destruct b; [|discriminate].
    rewrite app_nil_r_str. by rewrite take_str_ge by lia.
Qed.

(** *** Splitting *)

Lemma Split_nonempty sep s : Split sep s <> [].
Proof. destruct s as [|c s]; simpl; [done|]. case_if; [done|]. by case_match. Qed.

Lemma Split_no_sep sep s :
  in_cutset s sep = false -> Split sep s = [s].
Proof.
  induction s as [|c s IH]; simpl; [done|]. intros [H1 H2]%orb_false_iff.
  rewrite Ascii.eqb_sym in H1. by rewrite H1, (IH H2).
Qed.

(** Splitting [a ++ sep ++ b] splits the parts. *)
Lemma Split_app sep a b :
  Split sep (a +:+ String sep b) = Split sep a ++ Split sep b.
Proof.
  induction a as [|c a IH].
  - rewrite app_nil_str. simpl. by rewrite Ascii.eqb_refl.
  - rewrite app_cons_str. simpl. rewrite IH. case_if; [done|].
    pose proof (Split_nonempty sep a). by destruct (Split sep a).
Qed.

Lemma Cut_app sep a b :
  in_cutset a sep = false -> Cut sep (a +:+ String sep b) = (a, b, true).
Proof.
  induction a as [|c a IH]; cbn [in_cutset]; intros H.
  - rewrite app_nil_str. simpl. by rewrite Ascii.eqb_refl.
  - apply orb_false_iff in H as [H1 H2]. rewrite app_cons_str. simpl.
    rewrite Ascii.eqb_sym, H1. by rewrite (IH H2).
Qed.

Lemma in_cutset_app a b c : in_cutset (a +:+ b) c = in_cutset a c || in_cutset b c.
Proof.
  induction a as [|d a IH]; [done|]. rewrite app_cons_str. simpl.
  by rewrite IH, orb_assoc.
Qed.

(** Removing everything up to a separator the tails do not contain is
    injective. *)
Lemma app_sep_inj sep a b c d :
  in_cutset a sep = false -> in_cutset c sep = false ->
  a +:+ String sep b = c +:+ String sep d -> a = c /\ b = d.
Proof.
  intros Ha Hc H. pose proof (Cut_app sep a b Ha) as E1.
  rewrite H, (Cut_app sep c d Hc) in E1. by injection E1 as -> ->.
Qed.

(** *** Decimal printing and parsing *)

Lemma digit_of_digit d : (d < 10)%N -> digit_of (digit d) = Some (Z.of_N d).
Proof.
  intros H. assert (d ∈ [0;1;2;3;4;5;6;7;8;9]%N) as Hin.
  { rewrite !elem_of_cons. lia. }
  rewrite !elem_of_cons, elem_of_nil in Hin.
  by destruct Hin as [->|[->|[->|[->|[->|[->|[->|[->|[->|[->|[]]]]]]]]]]].
Qed.

Lemma parse_digits_fuel fuel n acc s :
  (n < 10 ^ N.of_nat fuel)%N -> (fuel <> 0)%nat ->
  exists k, 0 <= k /\
    parse_digits acc (digits_fuel fuel n s) = parse_digits (acc * 10 ^ k + Z.of_N n) s.
Proof.
  revert n s. induction fuel as [|fuel IH]; intros n s Hn Hf; [done|].
  cbn [digits_fuel]. destruct (N.ltb_spec n 10) as [Hlt|Hge].
  - exists 1. split; [lia|]. cbn [parse_digits].
    rewrite N.mod_small, digit_of_digit by done. f_equal.
  - destruct fuel as [|fuel].
    { rewrite N.pow_1_r in Hn. lia. }
    assert (n / 10 < 10 ^ N.of_nat (S fuel))%N as Hdiv.
    { apply N.Div0.div_lt_upper_bound. rewrite <- N.pow_succ_r'.
      by replace (N.succ (N.of_nat (S fuel))) with (N.of_nat (S (S fuel))) by lia. }
    destruct (IH (n / 10)%N (String (digit (n mod 10)) s) Hdiv ltac:(done)) as (k & Hk & E).
    exists (k + 1). split; [lia|]. rewrite E. cbn [parse_digits].
    rewrite digit_of_digit by (apply N.mod_lt; lia). f_equal.
    rewrite N2Z.inj_div, N2Z.inj_mod.
    rewrite Z.pow_add_r, Z.pow_1_r by lia.
    pose proof (Z.div_mod (Z.of_N n) (Z.of_N 10) ltac:(lia)). lia.
Qed.

Lemma digits_fuel_nonempty fuel n s : (fuel <> 0)%nat \/ s <> EmptyString ->
  digits_fuel fuel n s <> EmptyString.
Proof.
  revert n s. induction fuel as [|fuel IH]; simpl; intros n s Hne.
  { by destruct Hne. }
  case_if; [done|]. apply IH. by right.
Qed.

Lemma parse_Itoa_N n : parse_nat_str (Itoa_N n) = Some (Z.of_N n).
Proof.
  unfold Itoa_N, parse_nat_str.
  set (f := S (N.to_nat (N.log2 n))).
  assert (n < 10 ^ N.of_nat f)%N as Hn.
  { apply N.lt_le_trans with (2 ^ N.of_nat f)%N.
    - unfold f. replace (N.of_nat (S (N.to_nat (N.log2 n)))) with (N.succ (N.log2 n)) by lia.
      destruct (N.eq_dec n 0%N) as [->|]; [done|]. apply N.log2_spec. lia.
    - apply N.pow_le_mono_l. lia. }
  destruct (parse_digits_fuel f n 0 EmptyString Hn ltac:(done)) as (k & Hk & E).
  destruct (digits_fuel f n EmptyString) eqn:D.
  { by apply digits_fuel_nonempty in D; [|left]. }
  by rewrite E.
Qed.

Lemma Itoa_N_digits_only fuel n s c rest :
  digits_fuel (S fuel) n s = String c rest -> exists d, (d < 10)%N /\ c = digit d.
Proof.
  revert n s. induction fuel as [|fuel IH]; intros n s; cbn [digits_fuel].
  - assert (n mod 10 < 10)%N by (apply N.mod_lt; lia).
    case_if; intros [= <- <-]; eauto.
  - case_if; [intros [= <- <-]; exists (n mod 10)%N; split; [apply N.mod_lt; lia|done]|].
    intros H. eapply IH. exact H.
Qed.

Lemma parse_signed_Itoa z : parse_signed (Itoa z) = Some z.
Proof.
  unfold Itoa. destruct (Z.ltb_spec z 0).
  - cbn [parse_signed]. rewrite Ascii.eqb_refl, parse_Itoa_N. simpl. f_equal. lia.
  - destruct (Itoa_N (Z.to_N z)) eqn:E.
    { by apply digits_fuel_nonempty in E; [|left]. }
    destruct (Itoa_N_digits_only _ _ _ _ _ E) as (d & Hd & ->).
    cbn [parse_signed]. rewrite <- E, parse_Itoa_N, Z2N.id by lia.
    assert (d ∈ [0;1;2;3;4;5;6;7;8;9]%N) as Hin by (rewrite !elem_of_cons; lia).
    rewrite !elem_of_cons, elem_of_nil in Hin.
    by destruct Hin as [->|[->|[->|[->|[->|[->|[->|[->|[->|[->|[]]]]]]]]]]].
Qed.

(** strconv.Atoi inverts strconv.Itoa on every int. *)
Lemma Atoi_Itoa z : - 2 ^ 63 <= z < 2 ^ 63 -> Atoi (Itoa z) = Some z.
Proof.
  intros H. unfold Atoi, ParseInt64. rewrite parse_signed_Itoa.
  destruct (Z.leb_spec (- 2 ^ 63) z), (Z.ltb_spec z (2 ^ 63)); done || lia.
Qed.

Lemma Itoa_inj a b : Itoa a = Itoa b -> a = b.
Proof.
  intros H. pose proof (parse_signed_Itoa a) as E. rewrite H, parse_signed_Itoa in E.
  by injection E.
Qed.

(** *** String order *)

Lemma str_leb_refl s : str_leb s s = true.
Proof.
  unfold str_leb, str_ltb. destruct (String.compare s s) eqn:E; try done.
  pose proof (String.compare_antisym s s) as H. rewrite E in H. done.
Qed.

Lemma str_leb_compare a b : str_leb a b = true <-> String.compare a b <> Gt.
Proof.
  unfold str_leb, str_ltb. rewrite String.compare_antisym.
  destruct (String.compare a b); simpl; split; congruence.
Qed.

Lemma str_leb_total a b : str_leb a b = true \/ str_leb b a = true.
Proof.
  rewrite !str_leb_compare, (String.compare_antisym b a).
  destruct (String.compare a b); simpl; [left|left|right]; congruence.
Qed.

Lemma str_ltb_eq a b : str_leb a b = true -> str_leb b a = true -> a = b.
Proof.
  rewrite !str_leb_compare, (String.compare_antisym b a).
  destruct (String.compare a b) eqn:E; simpl; intros; try congruence.
  by apply String.compare_eq_iff.
Qed.

Lemma str_leb_leb a b : str_leb a b = String.leb a b.
Proof.
  unfold str_leb, str_ltb, String.leb. rewrite (String.compare_antisym a b).
  by destruct (String.compare b a).
Qed.

Lemma str_leb_trans a b c : str_leb a b = true -> str_leb b c = true -> str_leb a c = true.
Proof.
  rewrite !str_leb_leb. intros H1 H2.
  assert (String.le a c) as H; [|by apply Is_true_true].
  etrans; apply Is_true_true; eassumption.
Qed.

(** Sorting by one string key, then by [next]. *)
Section lex.
  Context {A : Type} (f : A -> string) (next : A -> A -> bool).

Definition lex_leb (a b : A) : bool :=
    if String.eqb (f a) (f b) then next a b else str_leb (f a) (f b).

  Context (next_total : forall a b, next a b = true \/ next b a = true).
  Context (next_trans : forall a b c, next a b = true -> next b c = true -> next a c = true).

Lemma lex_leb_total a b : lex_leb a b = true \/ lex_leb b a = true.
  Proof.
    unfold lex_leb. rewrite (String.eqb_sym (f b)).
    destruct (String.eqb_spec (f a) (f b)); [apply next_total|apply str_leb_total].
  Qed.

Lemma lex_leb_trans a b c : lex_leb a b = true -> lex_leb b c = true -> lex_leb a c = true.
  Proof.
    unfold lex_leb.
    destruct (String.eqb_spec (f a) (f b)) as [E1|N1], (String.eqb_spec (f b) (f c)) as [E2|N2],
      (String.eqb_spec (f a) (f c)) as [E3|N3]; try congruence.
    - apply next_trans.
    - intros H1 H2. destruct N1. apply str_ltb_eq; congruence.
    - apply str_leb_trans.
  Qed.
End lex.

(** ** Trimming *)

Lemma length_TrimRightFunc f s : (String.length (TrimRightFunc f s) <= String.length s)%nat.
Proof.
  induction s as [|c s IH]; cbn [TrimRightFunc String.length]; [lia|].
  destruct (TrimRightFunc f s); [case_if|]; cbn [String.length] in *; lia.
Qed.

(** What follows the cut does not matter. *)
Lemma take_str_app_ge n a b c :
  (n <= String.length a)%nat -> take_str n (a +:+ b) = take_str n (a +:+ c).
Proof. intros H. by rewrite !take_str_app_le. Qed.

(** ** Indexes *)

Lemma IndexByte_ge s c : (-1 <= IndexByte s c)%Z.
Proof.
  induction s as [|d s IH]; cbn [IndexByte]; [lia|]. case_if; [lia|].
  destruct (Z.ltb_spec (IndexByte s c) 0); lia.
Qed.

Lemma has_byte_cons d s c : has_byte (String d s) c = Ascii.eqb d c || has_byte s c.
Proof.
  unfold has_byte. cbn [IndexByte]. destruct (Ascii.eqb d c); [done|]. cbn [orb].
  destruct (Z.ltb_spec (IndexByte s c) 0), (Z.leb_spec 0 (IndexByte s c)); lia.
Qed.

Lemma has_byte_app a b c : has_byte (a +:+ b) c = has_byte a c || has_byte b c.
Proof.
  induction a as [|d a IH]; [done|].
  by rewrite app_cons_str, !has_byte_cons, IH, orb_assoc.
Qed.

Lemma LastIndexByte_absent s sep : has_byte s sep = false -> LastIndexByte s sep = (-1)%Z.
Proof.
  induction s as [|c s IH]; [done|]. rewrite has_byte_cons. intros H. boolify.
  cbn [LastIndexByte]. rewrite IH by done. by rewrite H.
Qed.

(** The last separator is the one before a rest without any. *)
Lemma LastIndexByte_app a b sep : has_byte b sep = false ->
  LastIndexByte (a +:+ String sep b) sep = str_len a.
Proof.
  intros Hb. induction a as [|c a IH]; [rewrite app_nil_str|rewrite app_cons_str]; cbn [LastIndexByte].
  - rewrite LastIndexByte_absent, Ascii.eqb_refl by done. done.
  - rewrite IH. unfold str_len. cbn [String.length]. destruct (Z.leb_spec 0 (Z.of_nat (String.length a))); lia.
Qed.

Lemma upto_app a b : upto (str_len a) (a +:+ b) = a.
Proof.
  unfold upto, str_len. rewrite Nat2Z.id. induction a as [|c a IH]; [by destruct b|].
  rewrite app_cons_str. cbn. by rewrite IH.
Qed.

Lemma from_app a c b : from (str_len a + 1) (a +:+ String c b) = b.
Proof.
  unfold from, str_len. rewrite Z2Nat.inj_add, Nat2Z.id by lia.
  replace (String.length a + Z.to_nat 1)%nat with (S (String.length a)) by lia.
  induction a as [|d a IH]; [by destruct b|]. rewrite app_cons_str. cbn. done.
Qed.

Lemma has_byte_prefix s c : has_byte s c = false -> HasPrefix s (String c EmptyString) = false.
Proof.
  destruct s as [|d s]; [done|]. rewrite has_byte_cons. intros H. boolify. unfold HasPrefix. cbn.
  destruct (ascii_dec c d) as [->|]; [|done]. by rewrite Ascii.eqb_refl in H.
Qed.

(** ** Strings of characters of one class *)

Fixpoint all_chars (p : ascii -> bool) (s : string) : bool :=
  match s with EmptyString => true | String c s' => p c && all_chars p s' end.

Lemma all_chars_app p a b : all_chars p (a +:+ b) = all_chars p a && all_chars p b.
Proof. induction a as [|c a IH]; [done|]. rewrite app_cons_str. cbn. by rewrite IH, andb_assoc. Qed.

Lemma all_chars_take p n s : all_chars p s = true -> all_chars p (take_str n s) = true.
Proof.
  revert n. induction s as [|c s IH]; intros [|n]; cbn; try done. intros [Hc Hs]%andb_true_iff.
  by rewrite Hc, IH.
Qed.

Lemma all_chars_TrimFunc p f s : all_chars p s = true -> all_chars p (TrimFunc f s) = true.
Proof.
  intros H. unfold TrimFunc. assert (all_chars p (TrimLeftFunc f s) = true) as Hl.
  { induction s as [|c s IH]; [done|]. cbn in *. apply andb_true_iff in H as [Hc Hs]. case_if; [by apply IH|].
    cbn. by rewrite Hc. }
  revert Hl. generalize (TrimLeftFunc f s). clear. intros s. induction s as [|c s IH]; [done|]. cbn.
  intros [Hc Hs]%andb_true_iff. specialize (IH Hs). destruct (TrimRightFunc f s) as [|d t]; [case_if; cbn; by rewrite ?Hc|].
  cbn [all_chars] in *. by rewrite Hc.
Qed.

(** What is trimmed on the right is empty or ends in a character outside the cutset. *)
Lemma TrimRightFunc_last f s : TrimRightFunc f s = EmptyString \/
  exists t c, TrimRightFunc f s = t +:+ String c EmptyString /\ f c = false.
Proof.
  induction s as [|c s IH]; [by left|]. cbn. destruct (TrimRightFunc f s) as [|d u].
  - destruct (f c) eqn:E; [by left|]. right. by exists EmptyString, c.
  - right. destruct IH as [?|(t & e & E & He)]; [done|]. exists (String c t), e. by rewrite E.
Qed.

Lemma TrimRight_last f s c : f c = false -> TrimRightFunc f (s +:+ String c EmptyString) = s +:+ String c EmptyString.
Proof.
  intros Hc. induction s as [|d s IH]; [rewrite app_nil_str; cbn [TrimRightFunc]; by rewrite Hc|].
  rewrite app_cons_str. cbn [TrimRightFunc]. rewrite IH. by destruct s.
Qed.

Lemma Trim_framed f a s c : f a = false -> f c = false ->
  TrimFunc f (String a s +:+ String c EmptyString) = String a s +:+ String c EmptyString.
Proof.
  intros Ha Hc. unfold TrimFunc. rewrite app_cons_str. cbn [TrimLeftFunc]. rewrite Ha, <- app_cons_str.
  by apply TrimRight_last.
Qed.

Lemma length_TrimFunc f s : (String.length (TrimFunc f s) <= String.length s)%nat.
Proof.
  unfold TrimFunc. etrans; [apply length_TrimRightFunc|]. induction s as [|c s IH]; [done|]. cbn. case_if; cbn; lia.
Qed.

(** ** Splitting and joining *)

Lemma Join_Split sep s : Join (String sep EmptyString) (Split sep s) = s.
Proof.
  induction s as [|c s IH]; [done|]. cbn [Split]. pose proof (Split_nonempty sep s) as Hn.
  destruct (Ascii.eqb_spec c sep) as [->|].
  - destruct (Split sep s) as [|w ws]; [done|]. cbn [Join] in *. by rewrite IH.
  - destruct (Split sep s) as [|w ws]; [done|]. destruct ws as [|w' ws]; cbn [Join] in *; by rewrite <- IH.
Qed.

Lemma Split_parts sep s x : x ∈ Split sep s -> in_cutset x sep = false.
Proof.
  revert x. induction s as [|c s IH]; intros x; cbn [Split].
  - by intros ->%list_elem_of_singleton.
  - pose proof (Split_nonempty sep s) as Hn. destruct (Ascii.eqb_spec c sep) as [->|Hc].
    + intros [->|H]%elem_of_cons; [done|by apply IH].
    + destruct (Split sep s) as [|w ws]; [done|]. intros [->|H]%elem_of_cons; [|apply IH; by right].
      cbn [in_cutset]. rewrite (IH w) by by left. rewrite orb_false_r. apply Ascii.eqb_neq. congruence.
Qed.
