(* ===== verification/Effects.v ===== *)
(** * Effectful code

    Everything the operator does to the outside world goes through clients it
    does not implement: the Kubernetes clients, exec, the object store, HTTP.
    A function that calls them is a program of type [io E A]: a finite tree
    whose nodes are the calls it makes and whose branches are the answers it
    may get. [E] is the signature of calls; nothing is assumed about what a
    call answers unless a theorem says so.

    [wp env m s Q] says that whatever answers the environment [env] allows,
    running [m] from the environment state [s] ends (every program does: the
    type is inductive) in a state and a result that satisfy [Q]. The
    environment used is [any_env], which may answer anything and whose state is
    the log of calls made so far; [run h] executes a program against the answers
    of a function [h]. *)

From S2P Require Import Prelude.

(** ** Go errors

    [errors.IsNotFound] and its relatives look through wrapping, so an error
    is the API reason at the bottom of the chain and the text. *)
Inductive reason :=
| NotFound | AlreadyExists | Conflict | Forbidden | MethodNotSupported
| NoMatch | OtherReason.

#[export] Instance reason_eq_dec : EqDecision reason.
Proof. solve_decision. Defined.

Record err := mkErr { err_reason : reason; err_msg : string }.

#[export] Instance err_eq_dec : EqDecision err.
Proof. solve_decision. Defined.

(** [fmt.Errorf] with no wrapped error. *)
Definition errorf (msg : string) : err := mkErr OtherReason msg.
(** [fmt.Errorf(pre + w + post, err)] where [w] is the wrapping verb: the
    reason is kept. *)
Definition wrapf (pre : string) (e : err) : err :=
  mkErr (err_reason e) (pre +:+ err_msg e).
Definition wrapf_post (e : err) (post : string) : err :=
  mkErr (err_reason e) (err_msg e +:+ post).

Definition has_reason (r : reason) (e : option err) : bool :=
  match e with Some e => bool_decide (err_reason e = r) | None => false end.

Abbreviation IsNotFound := (has_reason NotFound).
Abbreviation IsAlreadyExists := (has_reason AlreadyExists).
Abbreviation IsConflict := (has_reason Conflict).
Abbreviation IsForbidden := (has_reason Forbidden).
Abbreviation IsMethodNotSupported := (has_reason MethodNotSupported).

(** The result of a call that returns a value or an error. *)
Inductive res (A : Type) : Type :=
| Ok (a : A)
| Err (e : err).
Arguments Ok {A} a.
Arguments Err {A} e.

Definition err_of {A} (r : res A) : option err :=
  match r with Ok _ => None | Err e => Some e end.

Definition res_map {A B} (f : A -> B) (r : res A) : res B :=
  match r with Ok a => Ok (f a) | Err e => Err e end.

Definition ok_of {A} (r : res A) : option A :=
  match r with Ok a => Some a | Err _ => None end.

(** ** Programs *)

Inductive io (E : Type -> Type) (A : Type) : Type :=
| Ret (a : A)
| Call {X : Type} (e : E X) (k : X -> io E A).
Arguments Ret {E A} a.
Arguments Call {E A X} e k.

Fixpoint bind {E A B} (m : io E A) (f : A -> io E B) : io E B :=
  match m with
  | Ret a => f a
  | Call e k => Call e (fun x => bind (k x) f)
  end.

Definition trigger {E X} (e : E X) : io E X := Call e Ret.

Declare Scope io_scope.
Delimit Scope io_scope with io.
Notation "'let*' x := m 'in' k" := (bind m (fun x => k))
  (at level 10, x name, m at level 200, k at level 200) : io_scope.
Notation "'let*' ' p := m 'in' k" := (bind m (fun y => match y with p => k end))
  (at level 10, p pattern, m at level 200, k at level 200) : io_scope.
Notation "m ;;; k" := (bind m (fun _ => k))
  (at level 100, right associativity) : io_scope.
Open Scope io_scope.

(** [if err := m; err != nil { return err }] before [k]. *)
Definition check {E} (m : io E (option err)) (k : io E (option err)) : io E (option err) :=
  let* e := m in match e with Some e => Ret (Some e) | None => k end.
Notation "m ;;? k" := (check m k) (at level 100, right associativity) : io_scope.

(** [fmt.Errorf(pre+": %w", err)] around the error of [m]. *)
Definition wrapping {E} (pre : string) (m : io E (option err)) : io E (option err) :=
  let* e := m in Ret (option_map (wrapf pre) e).

(** [for _, x := range xs]: the loop state is threaded through the bodies. *)
Fixpoint foldM {E A S} (f : S -> A -> io E S) (s : S) (xs : list A) : io E S :=
  match xs with
  | [] => Ret s
  | x :: xs' => let* s' := f s x in foldM f s' xs'
  end.

(** A loop that can return early: [inr] stops it. *)
Fixpoint loopM {E A S R} (f : S -> A -> io E (S + R)) (s : S) (xs : list A)
  : io E (S + R) :=
  match xs with
  | [] => Ret (inl s)
  | x :: xs' =>
      let* r := f s x in
      match r with
      | inl s' => loopM f s' xs'
      | inr r => Ret (inr r)
      end
  end.

(** ** Running against an environment *)

Section wp.
  Context {E : Type -> Type} {S : Type}.
  Context (env : forall X, S -> E X -> X -> S -> Prop).

Fixpoint wp {A} (m : io E A) (s : S) (Q : S -> A -> Prop) : Prop :=
    match m with
    | Ret a => Q s a
    | Call e k => forall x s', env _ s e x s' -> wp (k x) s' Q
    end.

Lemma wp_bind {A B} (m : io E A) (f : A -> io E B) s Q :
    wp (bind m f) s Q <-> wp m s (fun s' a => wp (f a) s' Q).
  Proof.
    revert s. induction m as [a|X e k IH]; intros s; simpl; [done|].
    split; intros H x s' Hx; specialize (H x s' Hx); by apply IH.
  Qed.

Lemma wp_mono {A} (m : io E A) s (P Q : S -> A -> Prop) :
    wp m s P -> (forall s' a, P s' a -> Q s' a) -> wp m s Q.
  Proof.
    intros H HPQ. revert s H. induction m as [a|X e k IH]; simpl; eauto.
  Qed.

Lemma wp_and {A} (m : io E A) s (P Q : S -> A -> Prop) :
    wp m s P -> wp m s Q -> wp m s (fun s' a => P s' a /\ Q s' a).
  Proof. revert s. induction m as [a|X e k IH]; simpl; eauto. Qed.

Lemma wp_trivial {A} (m : io E A) s : wp m s (fun _ _ => True).
  Proof. revert s. induction m as [a|X e k IH]; simpl; eauto. Qed.

  (** The rule for loops: an invariant indexed by the elements done and left. *)
Lemma wp_foldM {A T} (f : T -> A -> io E T) (I : list A -> S -> T -> Prop) xs :
    forall pre s t,
    I pre s t ->
    (forall pre' x post s' t', pre ++ xs = pre' ++ x :: post -> I pre' s' t' ->
       wp (f t' x) s' (fun s'' t'' => I (pre' ++ [x]) s'' t'')) ->
    wp (foldM f t xs) s (fun s' t' => I (pre ++ xs) s' t').
  Proof.
    induction xs as [|x xs IH]; intros pre s t Hi Hstep; simpl.
    - by rewrite app_nil_r.
    - apply wp_bind. eapply wp_mono; [by apply (Hstep pre x xs)|].
      intros s' t' Hi'. replace (pre ++ x :: xs) with ((pre ++ [x]) ++ xs)
        by (by rewrite <- app_assoc).
      apply IH; [done|]. intros pre' y post s'' t'' Heq. apply Hstep with post.
      rewrite <- Heq, <- app_assoc. done.
  Qed.

  (** A simple invariant. *)
Lemma wp_foldM_inv {A T} (f : T -> A -> io E T) (I : S -> T -> Prop) xs s t :
    I s t ->
    (forall x s' t', x ∈ xs -> I s' t' -> wp (f t' x) s' I) ->
    wp (foldM f t xs) s I.
  Proof.
    revert s t. induction xs as [|x xs IH]; intros s t Hi Hstep; simpl; [done|].
    apply wp_bind. eapply wp_mono; [apply Hstep; [left|done]|].
    intros s' t' Hi'. apply IH; [done|]. intros y s'' t'' Hy. apply Hstep. by right.
  Qed.

  (** The same for a loop that may stop early, indexed by the elements done. *)
Lemma wp_loopM {A T R} (f : T -> A -> io E (T + R))
      (I : list A -> S -> T -> Prop) (Q : S -> R -> Prop) xs :
    forall pre s t,
    I pre s t ->
    (forall pre' x post s' t', pre ++ xs = pre' ++ x :: post -> I pre' s' t' ->
       wp (f t' x) s' (fun s'' r => match r with
                                    | inl t'' => I (pre' ++ [x]) s'' t''
                                    | inr r => Q s'' r
                                    end)) ->
    wp (loopM f t xs) s (fun s' r => match r with
                                     | inl t' => I (pre ++ xs) s' t'
                                     | inr r => Q s' r
                                     end).
  Proof.
    induction xs as [|x xs IH]; intros pre s t Hi Hstep; simpl.
    - by rewrite app_nil_r.
    - apply wp_bind. eapply wp_mono; [by apply (Hstep pre x xs)|].
      intros s' [t'|r] H; [|done].
      replace (pre ++ x :: xs) with ((pre ++ [x]) ++ xs) by (by rewrite <- app_assoc).
      apply IH; [done|]. intros pre' y post s'' t'' Heq. apply Hstep with post.
      rewrite <- Heq, <- app_assoc. done.
  Qed.

Lemma wp_loopM_inv {A T R} (f : T -> A -> io E (T + R))
      (I : S -> T -> Prop) (Q : S -> T + R -> Prop) xs s t :
    I s t ->
    (forall s' t', I s' t' -> Q s' (inl t')) ->
    (forall x s' t', x ∈ xs -> I s' t' ->
       wp (f t' x) s' (fun s'' r => match r with inl t'' => I s'' t'' | inr r => Q s'' (inr r) end)) ->
    wp (loopM f t xs) s Q.
  Proof.
    intros Hi HQ. revert s t Hi. induction xs as [|x xs IH]; intros s t Hi Hstep; simpl.
    - auto.
    - apply wp_bind. eapply wp_mono; [apply Hstep; [left|done]|].
      intros s' [t'|r] H; simpl; [|done]. apply IH; [done|].
      intros y s'' t'' Hy. apply Hstep. by right.
  Qed.
End wp.

(** ** Runs that get through

    [wp] says nothing of a run that is stuck: a panic has no answer. [live]
    also asks that every call has an answer the environment allows, so the
    program ends, in [Q], whatever the environment does. *)

Section live.
  Context {E : Type -> Type} {S : Type}.
  Context (env : forall X, S -> E X -> X -> S -> Prop).

Fixpoint live {A} (m : io E A) (s : S) (Q : S -> A -> Prop) : Prop :=
  match m with
  | Ret a => Q s a
  | Call e k => (exists x s', env _ s e x s') /\ forall x s', env _ s e x s' -> live (k x) s' Q
  end.

Lemma live_wp {A} (m : io E A) s Q : live m s Q -> wp env m s Q.
Proof. revert s. induction m as [a|X e k IH]; intros s; cbn; [done|]. intros [_ H] x s' Hx. by apply IH, H. Qed.

Lemma live_bind {A B} (m : io E A) (f : A -> io E B) s Q :
  live m s (fun s' a => live (f a) s' Q) -> live (bind m f) s Q.
Proof.
  revert s. induction m as [a|X e k IH]; intros s; cbn; [done|]. intros [He H]. split; [done|].
  intros x s' Hx. by apply IH, H.
Qed.

Lemma live_mono {A} (m : io E A) s (P Q : S -> A -> Prop) :
  live m s P -> (forall s' a, P s' a -> Q s' a) -> live m s Q.
Proof.
  intros H HPQ. revert s H. induction m as [a|X e k IH]; cbn; [by auto|]. intros s [He H]. split; [done|]. auto.
Qed.

Lemma live_and_wp {A} (m : io E A) s (P Q : S -> A -> Prop) :
  live m s P -> wp env m s Q -> live m s (fun s' a => P s' a /\ Q s' a).
Proof.
  revert s. induction m as [a|X e k IH]; intros s; cbn; [by auto|]. intros [He H] Hw. split; [done|]. auto.
Qed.

Lemma live_foldM {A T} (f : T -> A -> io E T) (I : list A -> S -> T -> Prop) xs :
  forall pre s t, I pre s t ->
  (forall pre' x post s' t', pre ++ xs = pre' ++ x :: post -> I pre' s' t' ->
     live (f t' x) s' (fun s'' t'' => I (pre' ++ [x]) s'' t'')) ->
  live (foldM f t xs) s (fun s' t' => I (pre ++ xs) s' t').
Proof.
  induction xs as [|x xs IH]; intros pre s t Hi Hstep; cbn [foldM].
  - by rewrite app_nil_r.
  - apply live_bind. eapply live_mono; [by apply (Hstep pre x xs)|].
    intros s' t' Hi'. replace (pre ++ x :: xs) with ((pre ++ [x]) ++ xs) by (by rewrite <- app_assoc).
    apply IH; [done|]. intros pre' y post s'' t'' Heq. apply Hstep with post.
    rewrite <- Heq, <- app_assoc. done.
Qed.

Lemma live_loopM {A T R} (f : T -> A -> io E (T + R)) (I : list A -> S -> T -> Prop) xs :
  forall pre s t, I pre s t ->
  (forall pre' x post s' t', pre ++ xs = pre' ++ x :: post -> I pre' s' t' ->
     live (f t' x) s' (fun s'' r => exists t'', r = inl t'' /\ I (pre' ++ [x]) s'' t'')) ->
  live (loopM f t xs) s (fun s' r => exists t', r = inl t' /\ I (pre ++ xs) s' t').
Proof.
  induction xs as [|x xs IH]; intros pre s t Hi Hstep; cbn [loopM].
  - rewrite app_nil_r. by exists t.
  - apply live_bind. eapply live_mono; [by apply (Hstep pre x xs)|].
    intros s' r (t' & -> & Hi'). replace (pre ++ x :: xs) with ((pre ++ [x]) ++ xs) by (by rewrite <- app_assoc).
    apply IH; [done|]. intros pre' y post s'' t'' Heq. apply Hstep with post.
    rewrite <- Heq, <- app_assoc. done.
Qed.
End live.

(** An environment that only promises more, but answers as often. *)
Lemma live_refine {E S A} (env env' : forall X, S -> E X -> X -> S -> Prop) (m : io E A) s Q :
  (forall X s e x s', env' X s e x s' -> env X s e x s') ->
  (forall X s e, (exists x s', env X s e x s') -> exists x s', env' X s e x s') ->
  live env m s Q -> live env' m s Q.
Proof.
  intros Hsub Hans. revert s. induction m as [a|X e k IH]; intros s; cbn [live]; [done|].
  intros [He Hk]. split; [by apply Hans|]. intros x s' Hx. by apply IH, Hk, Hsub.
Qed.

(** ** The adversarial environment: every answer, with a log of the calls *)

Record event (E : Type -> Type) := mkEvent {
  ev_type : Type; ev_call : E ev_type; ev_answer : ev_type }.
Arguments mkEvent {E ev_type} ev_call ev_answer.
Arguments ev_call {E} e.
Arguments ev_answer {E} e.

Definition any_env {E : Type -> Type} (X : Type) (log : list (event E)) (e : E X)
    (x : X) (log' : list (event E)) : Prop :=
  log' = log ++ [mkEvent e x].

(** [always Q m]: the result satisfies [Q] whatever the calls answer, with the
    log of the run. *)
Definition always {E A} (m : io E A) (Q : list (event E) -> A -> Prop) : Prop :=
  wp any_env m [] Q.

Lemma wp_call {E X A} (e : E X) (k : X -> io E A) log Q :
  (forall x, wp any_env (k x) (log ++ [mkEvent e x]) Q) ->
  wp any_env (bind (trigger e) k) log Q.
Proof. intros H x s' ->. apply H. Qed.

(** A run only extends the log. *)
Lemma wp_extends {E A} (m : io E A) log :
  wp any_env m log (fun log' _ => exists ext, log' = log ++ ext).
Proof.
  revert log. induction m as [a|X e k IH]; intros log; simpl; [by exists []; rewrite app_nil_r|].
  intros x s' ->. eapply wp_mono; [apply IH|]. intros s'' a [ext ->].
  rewrite <- app_assoc. eauto.
Qed.

Lemma wp_True {E A} (m : io E A) log : wp any_env m log (fun _ _ => True).
Proof. by eapply wp_mono; [apply wp_extends|]. Qed.

Lemma wp_mono_ext {E A} (m : io E A) log (P Q : list (event E) -> A -> Prop) :
  wp any_env m log P -> (forall ext a, P (log ++ ext) a -> Q (log ++ ext) a) ->
  wp any_env m log Q.
Proof.
  intros H HQ. eapply wp_mono; [apply wp_and; [apply H|apply wp_extends]|].
  intros s' a [HP [ext ->]]. auto.
Qed.

(** One call of the program under [wp any_env]: its answer, and the cases of a
    result. *)
Ltac wp_call x := apply wp_call; intros x; cbv beta iota zeta.
Ltac wp_res := apply wp_call; let r := fresh "r" in intros r; destruct r; cbv beta iota zeta.

(** ** A program seen in a log

    [ran m seg a]: the calls and answers of [seg] are a run of [m] that returns
    [a]; [did m a log]: some part of the log is. *)

Inductive ran {E A} : io E A -> list (event E) -> A -> Prop :=
| ran_ret a : ran (Ret a) [] a
| ran_call {X} (e : E X) k x seg a : ran (k x) seg a -> ran (Call e k) (mkEvent e x :: seg) a.

Definition did {E A} (m : io E A) (a : A) (log : list (event E)) : Prop :=
  exists pre seg post, log = pre ++ seg ++ post /\ ran m seg a.

Lemma wp_ran {E A} (m : io E A) log :
  wp any_env m log (fun log' a => exists seg, log' = log ++ seg /\ ran m seg a).
Proof.
  revert log. induction m as [a|X e k IH]; intros log; cbn [wp].
  - exists []. rewrite app_nil_r. split; [done|constructor].
  - intros x s' ->. eapply wp_mono; [apply IH|]. intros s' a (seg & -> & Hseg).
    exists (mkEvent e x :: seg). rewrite <- app_assoc. split; [done|by constructor].
Qed.

Lemma wp_did {E A} (m : io E A) log : wp any_env m log (fun log' a => did m a log').
Proof.
  eapply wp_mono; [apply wp_ran|]. intros log' a (seg & -> & Hseg). exists log, seg, [].
  by rewrite app_nil_r.
Qed.

Lemma did_app {E A} (m : io E A) a log ext : did m a log -> did m a (log ++ ext).
Proof.
  intros (pre & seg & post & -> & H). exists pre, seg, (post ++ ext). split; [|done].
  by rewrite <- !app_assoc.
Qed.

(** What always holds of [m] holds of its part of the log. *)
Lemma ran_always {E A} (m : io E A) seg a log (Q : list (event E) -> A -> Prop) :
  ran m seg a -> wp any_env m log Q -> Q (log ++ seg) a.
Proof.
  intros H. revert log. induction H as [a|X e k x seg a _ IH]; intros log; cbn [wp].
  - by rewrite app_nil_r.
  - intros Hk. specialize (IH (log ++ [mkEvent e x])). rewrite <- app_assoc in IH. by apply IH, Hk.
Qed.

(** ** Rules about each call of a run *)

(** Every call satisfies [P] of the calls before it. *)
Definition each {E} (P : list (event E) -> event E -> Prop) (log : list (event E)) : Prop :=
  forall pre e post, log = pre ++ e :: post -> P pre e.

Lemma each_nil {E} (P : list (event E) -> event E -> Prop) : each P [].
Proof. intros [|] ev post H; done. Qed.

Lemma each_snoc {E} (P : list (event E) -> event E -> Prop) log e :
  each P log -> P log e -> each P (log ++ [e]).
Proof.
  intros Hl He pre e' post Heq. destruct post as [|e'' post _] using rev_ind.
  - by apply app_inj_tail in Heq as [-> ->].
  - rewrite app_comm_cons, app_assoc in Heq. apply app_inj_tail in Heq as [-> ->]. by eapply Hl.
Qed.

(** What a program can return, whatever the calls answer. *)
Definition returns {E A} (R : A -> Prop) (m : io E A) : Prop :=
  wp (fun _ _ _ _ _ => True) m tt (fun _ a => R a).

Lemma returns_True {E A} (m : io E A) : returns (fun _ => True) m.
Proof. unfold returns. induction m as [a|X e k IH]; cbn; [done|]. intros x [] _. apply IH. Qed.

Lemma returns_bind {E A B} (P : A -> Prop) (R : B -> Prop) (m : io E A) (f : A -> io E B) :
  returns P m -> (forall a, P a -> returns R (f a)) -> returns R (bind m f).
Proof.
  intros Hm Hf. apply wp_bind. eapply wp_mono; [exact Hm|]. intros [] a Ha. by apply Hf.
Qed.

Lemma wp_returns {E S A} (env : forall X, S -> E X -> X -> S -> Prop) (P : A -> Prop) (m : io E A) s :
  returns P m -> wp env m s (fun _ a => P a).
Proof.
  revert s. induction m as [a|X e k IH]; intros s; cbn; [done|]. intros H x s' _. by apply IH, (H x tt).
Qed.

Lemma returns_forall {E A T} (R : T -> A -> Prop) (m : io E A) :
  (forall t, returns (R t) m) -> returns (fun a => forall t, R t a) m.
Proof.
  unfold returns. induction m as [a|X e k IH]; cbn; [done|]. intros H x [] _. apply IH. intros t. by apply (H t x tt).
Qed.

Lemma returns_call {E X A} (e : E X) (k : X -> io E A) (R : A -> Prop) :
  (forall x, returns R (k x)) -> returns R (bind (trigger e) k).
Proof. intros H x [] _. apply H. Qed.

(** ** Sequences that stop at the first error *)

Section sequences.
  Context {E : Type -> Type}.

Lemma wp_check_then (p k : io E (option err)) log Q :
  wp any_env p log (fun log' r => match r with Some e => Q log' (Some e) | None => wp any_env k log' Q end) ->
  wp any_env (p ;;? k) log Q.
Proof. intros H. apply wp_bind. eapply wp_mono; [apply H|]. by intros log' [e|]. Qed.

Lemma wp_check (I : list (event E) -> Prop) (p k : io E (option err)) log :
  wp any_env p log (fun log' _ => I log') -> (forall log', I log' -> wp any_env k log' (fun log'' _ => I log'')) ->
  wp any_env (p ;;? k) log (fun log' _ => I log').
Proof.
  intros Hp Hk. apply wp_check_then. eapply wp_mono; [apply Hp|]. intros log' [e|] H; [exact H|by apply Hk].
Qed.

Lemma wp_wrapping (I : list (event E) -> Prop) pre (p : io E (option err)) log :
  wp any_env p log (fun log' _ => I log') -> wp any_env (wrapping pre p) log (fun log' _ => I log').
Proof. intros Hp. apply wp_bind. eapply wp_mono; [apply Hp|]. by intros. Qed.
End sequences.

(** ** A server given by a partial function

    [h] answers the calls it knows; a run that makes another one is stuck. *)

Section run.
  Context {E : Type -> Type} (h : forall X, E X -> option X).

Fixpoint run {A} (m : io E A) (log : list (event E)) : option (list (event E) * A) :=
  match m with
  | Ret a => Some (log, a)
  | Call e k => match h _ e with
                | Some x => run (k x) (log ++ [mkEvent e x])
                | None => None
                end
  end.

(** Such a run is one of the adversary's. *)
Lemma run_wp {A} (m : io E A) log Q log' a :
  wp any_env m log Q -> run m log = Some (log', a) -> Q log' a.
Proof.
  revert log. induction m as [b|X e k IH]; intros log; cbn [wp run].
  - intros HQ [= <- <-]. done.
  - intros H. destruct (h X e) as [x|]; [|done]. apply IH, H. done.
Qed.
End run.
