(* ===== verification/Base64.v ===== *)
(** * encoding/base64

    What src/pkg/clusters uses of it: [StdEncoding.DecodeString], newlines
    skipped and padding required, and [RawURLEncoding.EncodeToString]. Bytes are
    [ascii]; the arithmetic is on [N]. *)

From Stdlib Require Import NArith Lia Ascii.
From S2P Require Import Prelude GoStrings Effects.

Open Scope N_scope.

(** ** The alphabets *)

Definition letter (url : bool) (n : N) : ascii :=
  if n <? 26 then ascii_of_N (65 + n)
  else if n <? 52 then ascii_of_N (71 + n)
  else if n <? 62 then ascii_of_N (n - 4)
  else if n =? 62 then (if url then "-" else "+")%char
  else (if url then "_" else "/")%char.

Definition sextet (c : ascii) : option N :=
  let n := N_of_ascii c in
  if (65 <=? n) && (n <=? 90) then Some (n - 65)
  else if (97 <=? n) && (n <=? 122) then Some (n - 71)
  else if (48 <=? n) && (n <=? 57) then Some (n + 4)
  else if n =? 43 then Some 62
  else if n =? 47 then Some 63
  else None.

(** ** Encoding, three bytes at a time *)

Definition quad (a b c : N) : list N := [a / 4; a mod 4 * 16 + b / 16; b mod 16 * 4 + c / 64; c mod 64].

Fixpoint text (url : bool) (l : list N) : string :=
  match l with [] => EmptyString | n :: l' => String (letter url n) (text url l') end.

(** [pad] is empty for the raw encodings. *)
Fixpoint encode (url : bool) (pad : string) (s : string) : string :=
  match s with
  | String a (String b (String c s')) =>
      text url (quad (N_of_ascii a) (N_of_ascii b) (N_of_ascii c)) +:+ encode url pad s'
  | String a (String b EmptyString) =>
      text url (firstn 3 (quad (N_of_ascii a) (N_of_ascii b) 0)) +:+ pad
  | String a EmptyString => text url (firstn 2 (quad (N_of_ascii a) 0 0)) +:+ pad +:+ pad
  | EmptyString => EmptyString
  end.

Definition RawURLEncoding (s : string) : string := encode true EmptyString s.
Definition StdEncoding (s : string) : string := encode false "=" s.

(** ** Decoding *)

Definition corrupt (i : nat) : err := errorf ("illegal base64 data at input byte " +:+ Itoa (Z.of_nat i)).

(** The characters that are not newlines, with their positions. *)
Fixpoint significant (i : nat) (s : string) : list (nat * ascii) :=
  match s with
  | EmptyString => []
  | String c s' =>
      if Ascii.eqb c "010" || Ascii.eqb c "013" then significant (S i) s'
      else (i, c) :: significant (S i) s'
  end.

Definition byte1 (a b : N) : ascii := ascii_of_N (a * 4 + b / 16).
Definition byte2 (b c : N) : ascii := ascii_of_N (b mod 16 * 16 + c / 4).
Definition byte3 (c d : N) : ascii := ascii_of_N (c mod 4 * 64 + d).

(** After the padding only newlines may follow. *)
Definition closing (rest : list (nat * ascii)) (out : string) : res string :=
  match rest with [] => Ok out | (i, _) :: _ => Err (corrupt i) end.

(** A quantum at a time; [n] is the length of the input. *)
Fixpoint quanta (n : nat) (l : list (nat * ascii)) : res string :=
  match l with
  | [] => Ok EmptyString
  | (i0, c0) :: l =>
      match sextet c0 with
      | None => Err (corrupt i0)
      | Some a =>
          match l with
          | [] => Err (corrupt (n - 1))
          | (i1, c1) :: l =>
              match sextet c1 with
              | None => Err (corrupt i1)
              | Some b =>
                  match l with
                  | [] => Err (corrupt (n - 2))
                  | (i2, c2) :: l =>
                      match sextet c2 with
                      | None =>
                          if Ascii.eqb c2 "=" then
                            match l with
                            | [] => Err (corrupt n)
                            | (i3, c3) :: l =>
                                if Ascii.eqb c3 "=" then closing l (String (byte1 a b) EmptyString)
                                else Err (corrupt (i3 - 1))
                            end
                          else Err (corrupt i2)
                      | Some c =>
                          match l with
                          | [] => Err (corrupt (n - 3))
                          | (i3, c3) :: l =>
                              match sextet c3 with
                              | None =>
                                  if Ascii.eqb c3 "="
                                  then closing l (String (byte1 a b) (String (byte2 b c) EmptyString))
                                  else Err (corrupt i3)
                              | Some d =>
                                  res_map (fun s => String (byte1 a b) (String (byte2 b c) (String (byte3 c d) s)))
                                    (quanta n l)
                              end
                          end
                      end
                  end
              end
          end
      end
  end.

Definition DecodeString (s : string) : res string := quanta (String.length s) (significant 0 s).

Example decode_go : DecodeString "UG9ydGFnZQ==" = Ok "Portage"%string. Proof. vm_compute. reflexivity. Qed.
Example encode_go : RawURLEncoding "Portage>?" = "UG9ydGFnZT4_"%string. Proof. vm_compute. reflexivity. Qed.
Example decode_bad : DecodeString "UG9=dA==" = Err (corrupt 4) /\ DecodeString "UG9" = Err (corrupt 0).
Proof. split; vm_compute; reflexivity. Qed.

(** ** The round trip *)

Lemma byte_lt c : N_of_ascii c < 256.
Proof. apply N_ascii_bounded. Qed.

Lemma sextet_letter n : n < 64 -> sextet (letter false n) = Some n.
Proof.
  intros H. assert (List.In n (List.map N.of_nat (List.seq 0 64))) as Hin.
  { apply in_map_iff. exists (N.to_nat n). rewrite N2Nat.id, in_seq. split; [done|lia]. }
  cbn in Hin. repeat (destruct Hin as [<-|Hin]; [reflexivity|]). done.
Qed.

Lemma letter_significant n : n < 64 ->
  Ascii.eqb (letter false n) "010" || Ascii.eqb (letter false n) "013" = false.
Proof.
  intros H. assert (List.In n (List.map N.of_nat (List.seq 0 64))) as Hin.
  { apply in_map_iff. exists (N.to_nat n). rewrite N2Nat.id, in_seq. split; [done|lia]. }
  cbn in Hin. repeat (destruct Hin as [<-|Hin]; [reflexivity|]). done.
Qed.

#[local] Ltac Zify.zify_post_hook ::= Z.to_euclidean_division_equations.

Lemma quad_bounds a b c : a < 256 -> b < 256 -> c < 256 ->
  a / 4 < 64 /\ a mod 4 * 16 + b / 16 < 64 /\ b mod 16 * 4 + c / 64 < 64 /\ c mod 64 < 64.
Proof. intros. split_and!; lia. Qed.

Lemma byte1_quad a b : a < 256 -> b < 256 -> a / 4 * 4 + (a mod 4 * 16 + b / 16) / 16 = a.
Proof. intros. lia. Qed.
Lemma byte2_quad a b c : a < 256 -> b < 256 -> c < 256 ->
  (a mod 4 * 16 + b / 16) mod 16 * 16 + (b mod 16 * 4 + c / 64) / 4 = b.
Proof. intros. lia. Qed.
Lemma byte3_quad b c : b < 256 -> c < 256 -> (b mod 16 * 4 + c / 64) mod 4 * 64 + c mod 64 = c.
Proof. intros. lia. Qed.

Lemma significant_letter i n s : n < 64 ->
  significant i (String (letter false n) s) = (i, letter false n) :: significant (S i) s.
Proof. intros H. cbn [significant]. by rewrite letter_significant. Qed.

Lemma quanta_encode n s : forall i, quanta n (significant i (StdEncoding s)) = Ok s.
Proof.
  assert (0 < 256) as H0 by lia. induction s as [s IH] using (well_founded_induction (Wf_nat.well_founded_ltof _ String.length)).
  intros i. destruct s as [|a [|b [|c s]]]; [done|..]; unfold StdEncoding; cbn [encode firstn quad text];
    rewrite ?app_cons_str, ?app_nil_str.
  - destruct (quad_bounds (N_of_ascii a) 0 0) as (B1 & B2 & _); [apply byte_lt|done..|].
    rewrite !significant_letter by done. cbn [quanta]. rewrite !sextet_letter by done. cbn.
    unfold byte1. rewrite byte1_quad, ascii_N_embedding by (done || apply byte_lt). done.
  - destruct (quad_bounds (N_of_ascii a) (N_of_ascii b) 0) as (B1 & B2 & B3 & _); [apply byte_lt..|done|].
    rewrite !significant_letter by done. cbn [quanta]. rewrite !sextet_letter by done. cbn.
    unfold byte1, byte2. rewrite byte1_quad, byte2_quad, !ascii_N_embedding by (done || apply byte_lt). done.
  - destruct (quad_bounds (N_of_ascii a) (N_of_ascii b) (N_of_ascii c)) as (B1 & B2 & B3 & B4); [apply byte_lt..|].
    rewrite !significant_letter by done. cbn [quanta]. rewrite !sextet_letter by done.
    fold (StdEncoding s). rewrite IH by (unfold Wf_nat.ltof; cbn; lia). cbn [res_map].
    unfold byte1, byte2, byte3. rewrite byte1_quad, byte2_quad, byte3_quad, !ascii_N_embedding by apply byte_lt. done.
Qed.

(** Decoding gives back every string of bytes that was encoded. *)
Lemma DecodeString_StdEncoding s : DecodeString (StdEncoding s) = Ok s.
Proof. apply quanta_encode. Qed.
