(* ===== verification/ObjectStore.v ===== *)
(** * The object store: src/pkg/objectstore

    The credentials and URLs, which store the environment selects, and the keys
    of blobs. What a store does with a blob is behind the calls [storePut] and
    [storeGet] (Kube.v). [url.Parse] is a parameter: scheme, host and path. *)

From Stdlib Require Import ZArith Lia Ascii.
From S2P Require Import Prelude GoStrings Effects.

Record Creds := mkCreds {
  cr_AccessKey : string; cr_SecretKey : string; cr_Session : string; cr_Region : string;
  cr_Endpoint : string; cr_Bucket : string; cr_Prefix : string }.

#[export] Instance Creds_eq_dec : EqDecision Creds.
Proof. solve_decision. Defined.

(** A client given by the caller, a directory, an S3 bucket, or a memory of
    this process. *)
Inductive store :=
| Store (store_id : nat)
| StoreDir (root : string)
| StoreS3 (c : Creds)
| StoreMemory (memory_id : nat).

#[export] Instance store_eq_dec : EqDecision store.
Proof. solve_decision. Defined.

Section objectstore.
  Context (url_Parse : string -> option (string * string * string)).

(** endpoint, bucket, prefix *)
Definition ParseURL (raw : string) : string * string * string :=
  let raw := TrimSpace raw in
  if HasPrefix raw "s3://" then
    let '(bucket, prefix, found) := Cut "/" (TrimPrefix raw "s3://") in
    if found then (EmptyString, bucket, Trim prefix "/") else (EmptyString, bucket, EmptyString)
  else if HasPrefix raw "http://" || HasPrefix raw "https://" then
    match url_Parse raw with
    | None => (raw, EmptyString, EmptyString)
    | Some (scheme, host, path) =>
        let '(bucket, prefix, found) := Cut "/" (Trim path "/") in
        (scheme +:+ "://" +:+ host, bucket, if found then prefix else EmptyString)
    end
  else (EmptyString, raw, EmptyString).

Definition or_else (a b : string) : string := if String.eqb a EmptyString then b else a.

Definition ResticRepository (c : Creds) (destPath : string) : string :=
  let '(ep, bucket, prefix) := ParseURL destPath in
  let ep := or_else (cr_Endpoint c) ep in
  let bucket := or_else bucket (cr_Bucket c) in
  let prefix := or_else prefix (cr_Prefix c) in
  let '(bucket, prefix) :=
    if negb (String.eqb destPath EmptyString) && String.eqb bucket EmptyString
    then let '(_, b, p) := ParseURL destPath in (b, p) else (bucket, prefix) in
  let ep := TrimRight ep "/" in
  let path := Trim (bucket +:+ "/" +:+ prefix) "/" in
  if String.eqb ep EmptyString then "s3:s3.amazonaws.com/" +:+ path
  else "s3:" +:+ ep +:+ "/" +:+ path.

Definition Key (namespace workloadKey id : string) : string :=
  let w := ReplaceByte workloadKey "/" "_" in
  Trim (namespace +:+ "/" +:+ w +:+ "/" +:+ id) "/".

(** ** The environment *)

Context {E : Type -> Type} (getenv : string -> E string).

Definition env_or (a b : string) : io E string :=
  let* v := trigger (getenv a) in
  if String.eqb v EmptyString then trigger (getenv b) else Ret v.

Definition CredsFromEnv : io E Creds :=
  let* ep := trigger (getenv "PORTAGE_S3_ENDPOINT"%string) in
  let* bkt := trigger (getenv "PORTAGE_S3_BUCKET"%string) in
  let* pfx := trigger (getenv "PORTAGE_S3_PREFIX"%string) in
  let* ' (ep, bkt, pfx) :=
    if String.eqb bkt EmptyString then
      let* u := trigger (getenv "PORTAGE_S3_URL"%string) in
      if String.eqb u EmptyString then Ret (ep, bkt, pfx)
      else let '(ep2, b, p) := ParseURL u in Ret (or_else ep ep2, b, p)
    else Ret (ep, bkt, pfx) in
  let* ak := env_or "AWS_ACCESS_KEY_ID" "PORTAGE_S3_ACCESS_KEY" in
  let* sk := env_or "AWS_SECRET_ACCESS_KEY" "PORTAGE_S3_SECRET_KEY" in
  let* region := env_or "AWS_REGION" "PORTAGE_S3_REGION" in
  let* session := trigger (getenv "AWS_SESSION_TOKEN"%string) in
  Ret (mkCreds ak sk session region ep bkt pfx).

(** [NewS3]: the bucket is checked, the region defaulted; loading the AWS
    configuration is a library call that may fail. *)
Context (newMemory : E nat) (loadAWSConfig : E (option err)).

Definition NewS3 (c : Creds) : io E (res store) :=
  if String.eqb (cr_Bucket c) EmptyString then Ret (Err (errorf "s3: bucket required"))
  else
    let* e := trigger loadAWSConfig in
    Ret (match e with
         | Some e => Err e
         | None => Ok (StoreS3 (mkCreds (cr_AccessKey c) (cr_SecretKey c) (cr_Session c)
                        (or_else (cr_Region c) "us-east-1") (cr_Endpoint c) (cr_Bucket c)
                        (Trim (cr_Prefix c) "/")))
         end).

(** [&Memory{}]: a new, empty one. *)
Definition FreshMemory : io E store := let* i := trigger newMemory in Ret (StoreMemory i).

Definition FromEnv : io E store :=
  let* d := trigger (getenv "PORTAGE_STORE_DIR"%string) in
  if negb (String.eqb d EmptyString) then Ret (StoreDir d)
  else
    let* c := CredsFromEnv in
    if String.eqb (cr_Bucket c) EmptyString then FreshMemory
    else
      let* s := NewS3 c in
      match s with Ok s => Ret s | Err _ => FreshMemory end.
End objectstore.
