(* ===== verification/Api.v ===== *)
(** * The API types: src/api/v1alpha1

    The custom resources the operator reads and writes. Go's string-based
    enumerations are inductive types with one constructor per declared constant
    and one for any other string (the zero value included), because the code
    compares them with [==] and has [default] branches; [..._to_string] and
    [..._of_string] convert. A pointer is an [option]; times and durations are
    nanoseconds. *)

From Stdlib Require Import ZArith.
From S2P Require Import Prelude GoStrings.

Local Open Scope Z_scope.

Definition time := Z.
Definition duration := Z.
Definition Second : duration := 1000000000.
Definition Minute : duration := 60 * Second.

(** ** Enumerations *)

Inductive WorkloadClass :=
| ClassStateless | ClassGenericPVC | ClassSQLLogical | ClassKVLogical
| ClassSearchFS | ClassQueueDurable | ClassObjectStore | ClassOperatorManaged
| ClassUnknownStateful | ClassClusterObjects
| ClassOther (s : string).

Inductive ActionType :=
| ActionBackup | ActionRestore | ActionReplicate | ActionCutover
| ActionTypeOther (s : string).

(** [PhaseOther EmptyString] is the phase of an Action no pass has written. *)
Inductive ActionPhase :=
| ActionPhasePending | ActionPhasePreflight | ActionPhaseQuiescing
| ActionPhaseRehydrating | ActionPhaseApplying | ActionPhaseWaitingReady
| ActionPhaseHealing | ActionPhaseCatchingUp | ActionPhasePromoting
| ActionPhaseSwitching | ActionPhaseAttesting | ActionPhaseSucceeded
| ActionPhaseFailed | ActionPhaseRolledBack
| PhaseOther (s : string).

Inductive TransportType :=
| TransportDirect | TransportObjectStore | TransportOther (s : string).

Inductive RendererKind :=
| RendererSanitize | RendererGit | RendererWebhook | RendererOther (s : string).

Inductive PolicyPhase :=
| PolicyPending | PolicyHealthy | PolicyDegraded | PolicyUnhealthy
| PolicyPhaseOther (s : string).

Inductive ClusterPairPhase :=
| ClusterPairPending | ClusterPairReady | ClusterPairDegraded | ClusterPairFailed
| ClusterPairPhaseOther (s : string).

#[export] Instance WorkloadClass_eq_dec : EqDecision WorkloadClass.
Proof. solve_decision. Defined.
#[export] Instance ActionType_eq_dec : EqDecision ActionType.
Proof. solve_decision. Defined.
#[export] Instance ActionPhase_eq_dec : EqDecision ActionPhase.
Proof. solve_decision. Defined.
#[export] Instance TransportType_eq_dec : EqDecision TransportType.
Proof. solve_decision. Defined.
#[export] Instance RendererKind_eq_dec : EqDecision RendererKind.
Proof. solve_decision. Defined.
#[export] Instance PolicyPhase_eq_dec : EqDecision PolicyPhase.
Proof. solve_decision. Defined.
#[export] Instance ClusterPairPhase_eq_dec : EqDecision ClusterPairPhase.
Proof. solve_decision. Defined.

(** [string(w.Class)], as used for the keys of spec.moverOverrides. *)
Definition class_to_string (c : WorkloadClass) : string :=
  match c with
  | ClassStateless => "Stateless"
  | ClassGenericPVC => "GenericPVC"
  | ClassSQLLogical => "SQLLogical"
  | ClassKVLogical => "KVLogical"
  | ClassSearchFS => "SearchFS"
  | ClassQueueDurable => "QueueDurable"
  | ClassObjectStore => "ObjectStore"
  | ClassOperatorManaged => "OperatorManaged"
  | ClassUnknownStateful => "UnknownStateful"
  | ClassClusterObjects => "ClusterObjects"
  | ClassOther s => s
  end.

Definition type_to_string (t : ActionType) : string :=
  match t with
  | ActionBackup => "Backup"
  | ActionRestore => "Restore"
  | ActionReplicate => "Replicate"
  | ActionCutover => "Cutover"
  | ActionTypeOther s => s
  end.

Definition phase_to_string (p : ActionPhase) : string :=
  match p with
  | ActionPhasePending => "Pending"
  | ActionPhasePreflight => "Preflight"
  | ActionPhaseQuiescing => "Quiescing"
  | ActionPhaseRehydrating => "Rehydrating"
  | ActionPhaseApplying => "Applying"
  | ActionPhaseWaitingReady => "WaitingReady"
  | ActionPhaseHealing => "Healing"
  | ActionPhaseCatchingUp => "CatchingUp"
  | ActionPhasePromoting => "Promoting"
  | ActionPhaseSwitching => "Switching"
  | ActionPhaseAttesting => "Attesting"
  | ActionPhaseSucceeded => "Succeeded"
  | ActionPhaseFailed => "Failed"
  | ActionPhaseRolledBack => "RolledBack"
  | PhaseOther s => s
  end.

(** ** Actions *)

Record ActionSpec := mkActionSpec {
  spec_Type : ActionType;
  spec_PolicyRef : string;
  spec_FreezeTimeout : string;
  spec_SnapshotID : string;
  spec_DryRun : bool;
  spec_Rollback : bool }.

Record WorkloadActionStatus := mkWAS {
  ws_Name : string;
  ws_Key : string;
  ws_Class : WorkloadClass;
  ws_Engine : string;
  ws_Ready : bool;
  ws_Probe : string;
  ws_ProbeOK : bool;
  ws_Message : string;
  ws_Healed : list string }.

(** The zero value, which a lookup of a missing key in a map yields. *)
Definition zero_WAS : WorkloadActionStatus :=
  mkWAS "" "" (ClassOther "") "" false "" false "" [].

Record Attestation := mkAttestation {
  at_RecordedAt : time;
  at_Source : string;
  at_Workloads : list WorkloadActionStatus;
  at_ArtifactIDs : list string }.

Record ActionStatus := mkActionStatus {
  as_Phase : ActionPhase;
  as_Message : string;
  as_Workloads : list WorkloadActionStatus;
  as_Attestation : option Attestation;
  as_StartTime : option time;
  as_CompletionTime : option time;
  as_ObservedGeneration : Z }.

Definition zero_ActionStatus : ActionStatus :=
  mkActionStatus (PhaseOther "") "" [] None None None 0.

Record Action := mkAction {
  act_Name : string;
  act_Namespace : string;
  act_Labels : gmap string string;
  act_Annotations : gmap string string;
  act_ResourceVersion : string;
  act_Generation : Z;
  act_Spec : ActionSpec;
  act_Status : ActionStatus }.

(** ** Cluster pairs *)

Record SecretKeyRef := mkSecretKeyRef {
  skr_Name : string; skr_Key : string; skr_Namespace : string }.

Record LocalSecretRef := mkLocalSecretRef { lsr_Name : string }.

Record ObjectStoreRef := mkObjectStoreRef {
  osr_URL : string; osr_CredentialsSecret : option LocalSecretRef; osr_Region : string }.

Record AzureAuth := mkAzureAuth {
  az_ResourceID : string; az_TenantID : string; az_ClientID : string;
  az_ServerID : string; az_UsePrivateFQDN : bool;
  az_CredentialsSecret : option SecretKeyRef }.

Record AWSAuth := mkAWSAuth {
  aws_ClusterName : string; aws_Region : string; aws_RoleARN : string;
  aws_Endpoint : string; aws_CredentialsSecret : option SecretKeyRef }.

Record GCPAuth := mkGCPAuth {
  gcp_Project : string; gcp_Location : string; gcp_Cluster : string;
  gcp_UsePrivateEndpoint : bool; gcp_CredentialsSecret : option SecretKeyRef }.

Record ClusterRef := mkClusterRef {
  cr_Name : string;
  cr_Address : string;
  cr_KubeconfigSecret : option SecretKeyRef;
  cr_Azure : option AzureAuth;
  cr_AWS : option AWSAuth;
  cr_GCP : option GCPAuth;
  cr_ObjectStore : option ObjectStoreRef }.

Definition is_set {A} (o : option A) : bool := match o with Some _ => true | None => false end.

Definition AuthMethods (r : ClusterRef) : Z :=
  let n := 0 in
  let n := if is_set (cr_KubeconfigSecret r) then n + 1 else n in
  let n := if is_set (cr_Azure r) then n + 1 else n in
  let n := if is_set (cr_AWS r) then n + 1 else n in
  let n := if is_set (cr_GCP r) then n + 1 else n in
  n.

Definition HasRemoteAuth (r : ClusterRef) : bool := 0 <? AuthMethods r.

Record ClusterPairSpec := mkClusterPairSpec {
  cps_Source : ClusterRef;
  cps_Destination : ClusterRef;
  cps_Transport : TransportType;
  cps_StorageClassMap : option (gmap string string);
  cps_SnapshotClassMap : option (gmap string string);
  cps_RuntimeClassMap : option (gmap string string) }.

Record ClusterPairStatus := mkClusterPairStatus {
  cpst_Phase : ClusterPairPhase;
  cpst_Message : string;
  cpst_SourceReachable : bool;
  cpst_DestinationReachable : bool;
  cpst_ObservedGeneration : Z }.

Record ClusterPair := mkClusterPair {
  cp_Name : string;
  cp_Generation : Z;
  cp_Spec : ClusterPairSpec;
  cp_Status : ClusterPairStatus }.

(** ** Policies *)

Record BackupSpec := mkBackupSpec {
  bs_Enabled : bool; bs_RPO : string; bs_RequireUseful : bool; bs_Mover : string }.

Record ReplicateSpec := mkReplicateSpec {
  rs_Enabled : bool; rs_RPO : string; rs_Mover : string }.

Record RestoreSpec := mkRestoreSpec {
  rts_Auto : bool; rts_NeverOverwriteNewer : bool; rts_Mover : string }.

Record CutoverSpec := mkCutoverSpec {
  cs_TrafficHook : string; cs_HoldSource : string }.

Record GitSource := mkGitSource { git_URL : string; git_Ref : string; git_Path : string }.

Record RendererSpec := mkRendererSpec {
  rd_Kind : RendererKind; rd_WebhookURL : string; rd_Git : option GitSource }.

Record ClusterObjectsSpec := mkClusterObjectsSpec {
  co_Enabled : bool;
  co_IncludeClusterScoped : option bool;
  co_ExcludeNamespaces : list string;
  co_ExcludeGVKs : list string }.

Record PolicySpec := mkPolicySpec {
  ps_ClusterPair : string;
  ps_SelectorNamespaces : list string;
  ps_Backup : BackupSpec;
  ps_Replicate : ReplicateSpec;
  ps_Restore : RestoreSpec;
  ps_Cutover : CutoverSpec;
  ps_Renderer : RendererSpec;
  ps_ClusterObjects : ClusterObjectsSpec;
  ps_MoverOverrides : gmap string string }.

Record InventoryItem := mkInventoryItem {
  ii_Namespace : string; ii_Name : string; ii_Kind : string;
  ii_Class : WorkloadClass; ii_Engine : string; ii_PVCNames : list string;
  ii_Mover : string; ii_Unclassified : bool }.

Record ArtifactHealth := mkArtifactHealth {
  ah_Workload : string;
  ah_Useful : bool;
  ah_SizeBytes : Z;
  ah_ArtifactID : string;
  ah_LastBackupTime : option time;
  ah_Message : string }.

Record PolicyStatus := mkPolicyStatus {
  pst_Phase : PolicyPhase;
  pst_Message : string;
  pst_Inventory : list InventoryItem;
  pst_Artifacts : list ArtifactHealth;
  pst_BackupHealthy : bool;
  pst_ReplicaLag : string;
  pst_ObservedGeneration : Z }.

Record Policy := mkPolicy {
  pol_Name : string;
  pol_Namespace : string;
  pol_Generation : Z;
  pol_Spec : PolicySpec;
  pol_Status : PolicyStatus }.

(** ** Plugins *)

Inductive PluginType := PluginMover | PluginTypeOther (s : string).

Record PluginSpec := mkPluginSpec {
  pls_Type : PluginType;
  pls_WebhookURL : string;
  pls_Classes : list WorkloadClass;
  pls_Backup : bool;
  pls_Restore : bool;
  pls_Replicate : bool;
  pls_TimeoutSeconds : Z }.

Record Plugin := mkPlugin { plg_Name : string; plg_Spec : PluginSpec }.

#[export] Instance PluginType_eq_dec : EqDecision PluginType.
Proof. solve_decision. Defined.

(** ** Lemmas *)

Lemma HasRemoteAuth_spec r :
  HasRemoteAuth r = true <->
  is_Some (cr_KubeconfigSecret r) \/ is_Some (cr_Azure r) \/
  is_Some (cr_AWS r) \/ is_Some (cr_GCP r).
Proof.
  unfold HasRemoteAuth, AuthMethods.
  destruct (cr_KubeconfigSecret r), (cr_Azure r), (cr_AWS r), (cr_GCP r); simpl;
    split; intros H; try done; eauto;
    destruct H as [H|[H|[H|H]]]; by destruct H.
Qed.
