(* ===== verification/GoTime.v ===== *)
(** * Go's time package, as far as the operator uses it

    [ParseDuration], [Time.Truncate], [Time.Unix] and the compact UTC layouts.
    A time is a number of nanoseconds since the Unix epoch. *)

From Stdlib Require Import ZArith Lia Ascii.
From S2P Require Import Prelude GoStrings Effects Api.

Local Open Scope Z_scope.

(** ** Durations *)

(** [leadingInt]: the digits at the front; [None] when the value exceeds 2^63. *)
Fixpoint leadingInt (acc : Z) (s : string) : option (Z * string) :=
  match s with
  | String c s' =>
      match digit_of c with
      | Some d =>
          if 2 ^ 63 / 10 <? acc then None
          else let acc' := acc * 10 + d in
               if 2 ^ 63 <? acc' then None else leadingInt acc' s'
      | None => Some (acc, s)
      end
  | EmptyString => Some (acc, s)
  end.

(** [leadingFraction]: value and scale of the digits after a point, once they
    overflow the rest is dropped. *)
Fixpoint leadingFraction (acc scale : Z) (full : bool) (s : string) : Z * Z * string :=
  match s with
  | String c s' =>
      match digit_of c with
      | Some d =>
          if full || ((2 ^ 63 - 1) / 10 <? acc) then leadingFraction acc scale true s'
          else let acc' := acc * 10 + d in
               if 2 ^ 63 <? acc' then leadingFraction acc scale true s'
               else leadingFraction acc' (scale * 10) false s'
      | None => (acc, scale, s)
      end
  | EmptyString => (acc, scale, s)
  end.

Fixpoint unit_prefix (s : string) : string * string :=
  match s with
  | String c s' =>
      if Ascii.eqb c "." || match digit_of c with Some _ => true | None => false end
      then (EmptyString, s)
      else let '(u, rest) := unit_prefix s' in (String c u, rest)
  | EmptyString => (EmptyString, EmptyString)
  end.

Definition unit_ns (u : string) : option Z :=
  match u with
  | "ns" => Some 1
  | "us" | "µs" | "μs" => Some 1000
  | "ms" => Some 1000000
  | "s" => Some Second
  | "m" => Some Minute
  | "h" => Some (60 * Minute)
  | _ => None
  end%string.

Definition str_nonempty (s : string) : bool := negb (String.eqb s EmptyString).

(** One number and its unit; the fraction is an exact product here where Go
    multiplies in float64. *)
Definition duration_part (s : string) : option (Z * string) :=
  let starts := match s with
                | String c _ => Ascii.eqb c "." || match digit_of c with Some _ => true | None => false end
                | EmptyString => false
                end in
  if negb starts then None
  else
    '(v, s1) ← leadingInt 0 s;
    let pre := negb (String.length s1 =? String.length s)%nat in
    let '(f, scale, s2, post) :=
      match s1 with
      | String c s1' => if Ascii.eqb c "."
                        then let '(f, scale, s2) := leadingFraction 0 1 false s1' in
                             (f, scale, s2, negb (String.length s2 =? String.length s1')%nat)
                        else (0, 1, s1, false)
      | EmptyString => (0, 1, s1, false)
      end in
    if negb pre && negb post then None
    else
      let '(u, rest) := unit_prefix s2 in
      if negb (str_nonempty u) then None
      else
        unit ← unit_ns u;
        if 2 ^ 63 / unit <? v then None
        else
          let v := v * unit + f * unit / scale in
          if 2 ^ 63 <? v then None else Some (v, rest).

Fixpoint duration_parts (fuel : nat) (acc : Z) (s : string) : option Z :=
  match fuel with
  | O => None
  | S fuel =>
      if negb (str_nonempty s) then Some acc
      else
        '(v, rest) ← duration_part s;
        let acc := acc + v in
        if 2 ^ 63 <? acc then None else duration_parts fuel acc rest
  end.

(** [time.ParseDuration]; [None] is the error. *)
Definition ParseDuration (s : string) : option duration :=
  let '(neg, s) := match s with
                   | String c s' => if Ascii.eqb c "-" then (true, s')
                                    else if Ascii.eqb c "+" then (false, s') else (false, s)
                   | EmptyString => (false, s)
                   end in
  if String.eqb s "0" then Some 0
  else if negb (str_nonempty s) then None
  else
    d ← duration_parts (S (String.length s)) 0 s;
    if neg then Some (- d) else if 2 ^ 63 - 1 <? d then None else Some d.

(** ** Instants *)

(** Nanoseconds from the zero time, 1 January of year 1, to the epoch. *)
Definition zero_time_ns : Z := 62135596800 * Second.

Definition Truncate (t : time) (d : duration) : time :=
  if d <=? 0 then t else t - (t + zero_time_ns) mod d.

Definition Unix (t : time) : Z := t / Second.

(** The civil date of a day number (days since the epoch, UTC). *)
Definition civil (days : Z) : Z * Z * Z :=
  let z := days + 719468 in
  let era := z / 146097 in
  let doe := z - era * 146097 in
  let yoe := (doe - doe / 1460 + doe / 36524 - doe / 146096) / 365 in
  let doy := doe - (365 * yoe + yoe / 4 - yoe / 100) in
  let mp := (5 * doy + 2) / 153 in
  let d := doy - (153 * mp + 2) / 5 + 1 in
  let m := if mp <? 10 then mp + 3 else mp - 9 in
  let y := yoe + era * 400 + (if m <=? 2 then 1 else 0) in
  (y, m, d).

Fixpoint zeros (n : nat) : string :=
  match n with O => EmptyString | S n => String "0" (zeros n) end.
Definition pad (width : nat) (n : Z) : string :=
  let s := Itoa n in zeros (width - String.length s) +:+ s.

Definition clock (t : time) : Z * Z * Z :=
  let s := Unix t mod 86400 in (s / 3600, s / 60 mod 60, s mod 60).

Definition date_string (t : time) : string :=
  let '(y, m, d) := civil (Unix t / 86400) in pad 4 y +:+ pad 2 m +:+ pad 2 d.

(** The layouts 20060102T150405Z and 20060102-1504 in UTC. *)
Definition FormatStamp (t : time) : string :=
  let '(h, mi, s) := clock t in
  date_string t +:+ "T" +:+ pad 2 h +:+ pad 2 mi +:+ pad 2 s +:+ "Z".
Definition FormatMinute (t : time) : string :=
  let '(h, mi, _) := clock t in date_string t +:+ "-" +:+ pad 2 h +:+ pad 2 mi.

Example stamp_2024 : FormatStamp (1709210096 * Second) = "20240229T123456Z"%string.
Proof. vm_compute. reflexivity. Qed.
Example minute_epoch : FormatMinute 0 = "19700101-0000"%string.
Proof. vm_compute. reflexivity. Qed.
Example parse_1h30m : ParseDuration "1h30m" = Some (90 * Minute).
Proof. vm_compute. reflexivity. Qed.
Example parse_half_second : ParseDuration "-1.5s" = Some (-1500000000).
Proof. vm_compute. reflexivity. Qed.
Example parse_bad : ParseDuration "15" = None /\ ParseDuration "s" = None /\ ParseDuration "" = None.
Proof. split_and!; vm_compute; reflexivity. Qed.

Lemma Truncate_le t d : 0 < d -> Truncate t d <= t < Truncate t d + d.
Proof.
  intros Hd. unfold Truncate. destruct (Z.leb_spec d 0); [lia|].
  pose proof (Z.mod_pos_bound (t + zero_time_ns) d Hd). lia.
Qed.

(** Two instants truncate alike exactly when they fall in the same window. *)
Lemma Truncate_window t1 t2 d :
  0 < d -> (Truncate t1 d = Truncate t2 d <->
            (t1 + zero_time_ns) / d = (t2 + zero_time_ns) / d).
Proof.
  intros Hd. unfold Truncate. destruct (Z.leb_spec d 0); [lia|].
  pose proof (Z.div_mod (t1 + zero_time_ns) d ltac:(lia)).
  pose proof (Z.div_mod (t2 + zero_time_ns) d ltac:(lia)).
  pose proof (Z.mod_pos_bound (t1 + zero_time_ns) d Hd).
  pose proof (Z.mod_pos_bound (t2 + zero_time_ns) d Hd). split; intros E; [|nia].
  assert (d * ((t1 + zero_time_ns) / d) = d * ((t2 + zero_time_ns) / d)) by lia. nia.
Qed.
