(* ===== verification/Json.v ===== *)
(** * Unstructured objects

    [map[string]any] trees as client-go decodes them. A map is an association
    list read by its first binding; [for _, v := range m] visits the values in
    an order the program never observes. Numbers decode to int64, or to
    float64 when they are not integral (a rational here).

    [lookup_path] follows map keys and array indexes: the theorems about
    unstructured objects are stated with it, because two Go maps are the same
    when they answer every lookup alike. *)

From Stdlib Require Import ZArith Lia.
From S2P Require Import Prelude GoStrings.

Unset Elimination Schemes.
Inductive json :=
| JNull
| JBool (b : bool)
| JInt (z : Z)
| JFloat (num : Z) (den : positive)
| JStr (s : string)
| JArr (l : list json)
| JObj (m : list (string * json)).
Set Elimination Schemes.

Definition obj := list (string * json).

Fixpoint json_ind (P : json -> Prop)
    (fnull : P JNull) (fbool : forall b, P (JBool b)) (fint : forall z, P (JInt z))
    (ffloat : forall n d, P (JFloat n d)) (fstr : forall s, P (JStr s))
    (farr : forall l, Forall P l -> P (JArr l))
    (fobj : forall m, Forall (fun kv => P (snd kv)) m -> P (JObj m)) (j : json) : P j :=
  let go := json_ind P fnull fbool fint ffloat fstr farr fobj in
  match j with
  | JNull => fnull
  | JBool b => fbool b
  | JInt z => fint z
  | JFloat n d => ffloat n d
  | JStr s => fstr s
  | JArr l => farr l
      ((fix all (l : list json) : Forall P l :=
          match l with
          | [] => Forall_nil_2 _
          | x :: l' => Forall_cons_2 _ _ _ (go x) (all l')
          end) l)
  | JObj m => fobj m
      ((fix all (m : obj) : Forall (fun kv => P (snd kv)) m :=
          match m with
          | [] => Forall_nil_2 _
          | x :: m' => Forall_cons_2 _ _ _ (go (snd x)) (all m')
          end) m)
  end.

(** ** Go map operations *)

Fixpoint oget (m : obj) (k : string) : option json :=
  match m with
  | [] => None
  | (k', v) :: m' => if String.eqb k' k then Some v else oget m' k
  end.

Definition odel (m : obj) (k : string) : obj :=
  List.filter (fun kv => negb (String.eqb (fst kv) k)) m.

Definition oset (m : obj) (k : string) (v : json) : obj := (k, v) :: odel m k.

(** Mapping the values of a map in place. *)
Definition map_values (f : json -> json) (m : obj) : obj :=
  List.map (fun kv => (fst kv, f (snd kv))) m.

(** Type assertions: [v, _ := x.(string)] and friends. *)
Definition as_str (j : option json) : option string :=
  match j with Some (JStr s) => Some s | _ => None end.
Definition as_obj (j : option json) : option obj :=
  match j with Some (JObj m) => Some m | _ => None end.
Definition as_arr (j : option json) : option (list json) :=
  match j with Some (JArr l) => Some l | _ => None end.
Definition str_or_empty (j : option json) : string := default EmptyString (as_str j).

Lemma oget_odel_eq m k : oget (odel m k) k = None.
Proof.
  induction m as [|[k' v] m IH]; simpl; [done|].
  destruct (String.eqb_spec k' k); simpl; [done|].
  by destruct (String.eqb_spec k' k).
Qed.

Lemma oget_odel_ne m k k' : k <> k' -> oget (odel m k) k' = oget m k'.
Proof.
  intros Hne. induction m as [|[k0 v] m IH]; simpl; [done|].
  destruct (String.eqb_spec k0 k); simpl; subst.
  - destruct (String.eqb_spec k k'); [done|]. done.
  - by rewrite IH.
Qed.

Lemma oget_oset_eq m k v : oget (oset m k v) k = Some v.
Proof. simpl. by rewrite String.eqb_refl. Qed.

Lemma oget_oset_ne m k k' v : k <> k' -> oget (oset m k v) k' = oget m k'.
Proof.
  intros Hne. simpl. destruct (String.eqb_spec k k'); [done|]. by apply oget_odel_ne.
Qed.

Lemma oget_map_values f m k : oget (map_values f m) k = f <$> oget m k.
Proof.
  induction m as [|[k' v] m IH]; simpl; [done|]. by destruct (String.eqb k' k).
Qed.

Create Rewrite HintDb portage.
#[export] Hint Rewrite oget_odel_eq oget_oset_eq oget_map_values : portage.

(** ** Paths *)

Inductive step := Key (k : string) | Idx (i : nat).
Definition path := list step.

#[export] Instance step_eq_dec : EqDecision step.
Proof. solve_decision. Defined.

Definition child (j : json) (s : step) : option json :=
  match s, j with
  | Key k, JObj m => oget m k
  | Idx i, JArr l => l !! i
  | _, _ => None
  end.

Fixpoint lookup_path (j : json) (p : path) : option json :=
  match p with
  | [] => Some j
  | s :: p' => match child j s with Some j' => lookup_path j' p' | None => None end
  end.

Definition keys (ks : list string) : path := List.map Key ks.

Lemma lookup_path_app j p q :
  lookup_path j (p ++ q) = match lookup_path j p with
                           | Some j' => lookup_path j' q
                           | None => None
                           end.
Proof.
  revert j. induction p as [|s p IH]; intros j; simpl; [done|].
  destruct (child j s); [apply IH|done].
Qed.

(** ** Recursion over the maps of a tree

    The three recursive passes of pkg/transform have one shape: rewrite this
    map, then visit every value that is a map and every array element that is
    a map. [walk_maps here fuel m] is that recursion. *)

Fixpoint json_depth (j : json) : nat :=
  match j with
  | JArr l => S (list_max (List.map json_depth l))
  | JObj m => S (list_max (List.map (fun kv => json_depth (snd kv)) m))
  | _ => 0
  end.

Definition obj_depth (m : obj) : nat := json_depth (JObj m).

Definition walk_child (rec : obj -> obj) (v : json) : json :=
  match v with
  | JObj t => JObj (rec t)
  | JArr t => JArr (List.map (fun item => match item with
                                     | JObj nested => JObj (rec nested)
                                     | _ => item
                                     end) t)
  | _ => v
  end.

Fixpoint walk_maps (here : obj -> obj) (fuel : nat) (m : obj) : obj :=
  match fuel with
  | O => m
  | S fuel' => map_values (walk_child (walk_maps here fuel')) (here m)
  end.

(** The maps such a pass visits. *)
Inductive visited : obj -> obj -> Prop :=
| visited_here m : visited m m
| visited_map m k t m' : oget m k = Some (JObj t) -> visited t m' -> visited m m'
| visited_arr m k l i t m' :
    oget m k = Some (JArr l) -> l !! i = Some (JObj t) -> visited t m' -> visited m m'.

Lemma list_max_le_elem l n : n ∈ l -> n <= list_max l.
Proof.
  intros H%list_elem_of_In. pose proof (proj1 (list_max_le l (list_max l)) (le_n _)) as HF.
  rewrite List.Forall_forall in HF. auto.
Qed.

Lemma oget_depth m k v : oget m k = Some v -> json_depth v < obj_depth m.
Proof.
  unfold obj_depth. induction m as [|[k' v'] m IH]; simpl; [done|].
  destruct (String.eqb k' k).
  - intros [= ->]. lia.
  - intros H%IH. simpl in H. lia.
Qed.

Lemma arr_depth l i v : l !! i = Some v -> json_depth v < json_depth (JArr l).
Proof.
  intros H. simpl. apply Nat.lt_succ_r, list_max_le_elem.
  apply list_elem_of_lookup. exists i. rewrite list_lookup_fmap. by rewrite H.
Qed.

(** *** What a pass establishes at every map it visits *)

(** [P] holds of every map of the result when it holds of a rewritten map
    whatever its children become, as long as they are related to what they were
    by [R], and rewriting leaves no child deeper than the map was. *)
Lemma walk_visited here (P : obj -> Prop) (R : obj -> obj -> Prop) :
  (forall fuel m, R m (walk_maps here fuel m)) ->
  (forall rec m, (forall t, R t (rec t)) -> P (map_values (walk_child rec) (here m))) ->
  (forall m k v, oget (here m) k = Some v -> json_depth v < obj_depth m) ->
  forall fuel m x, obj_depth m <= fuel -> visited (walk_maps here fuel m) x -> P x.
Proof.
  intros HR HP Hd. induction fuel as [|fuel IH]; intros m x Hf Hv.
  { unfold obj_depth in Hf. simpl in Hf. lia. }
  cbn [walk_maps] in Hv. inversion Hv as [m0|m0 k t m' Hk Ht|m0 k l i t m' Hk Hl Ht]; subst.
  - by apply HP.
  - rewrite oget_map_values in Hk. destruct (oget (here m) k) as [v|] eqn:E; [|done].
    apply Hd in E. destruct v; cbn in Hk; simplify_eq.
    eapply IH; [|exact Ht]. unfold obj_depth in *. lia.
  - rewrite oget_map_values in Hk. destruct (oget (here m) k) as [v|] eqn:E; [|done].
    apply Hd in E. destruct v as [| | | | |t0|]; cbn in Hk; simplify_eq.
    rewrite list_lookup_fmap in Hl. destruct (t0 !! i) as [item|] eqn:Ei; [|done].
    pose proof (arr_depth _ _ _ Ei) as Hdi. cbn in Hl. destruct item; cbn in Hl; simplify_eq.
    eapply IH; [|exact Ht]. unfold obj_depth in *. lia.
Qed.

(** *** Pruning: deleting map entries and array elements *)

Unset Elimination Schemes.
Inductive prunes : json -> json -> Prop :=
| prunes_refl j : prunes j j
| prunes_arr l l' : (forall i v', l' !! i = Some v' -> exists j v, l !! j = Some v /\ prunes v v') ->
    prunes (JArr l) (JArr l')
| prunes_obj m m' : (forall k v', oget m' k = Some v' -> exists v, oget m k = Some v /\ prunes v v') ->
    prunes (JObj m) (JObj m').
Set Elimination Schemes.

Lemma prunes_obj_inv j m' : prunes j (JObj m') ->
  exists m, j = JObj m /\ forall k v', oget m' k = Some v' -> exists v, oget m k = Some v /\ prunes v v'.
Proof.
  inversion 1; subst; [|eauto]. exists m'. split; [done|]. eauto using prunes_refl.
Qed.

Lemma prunes_arr_inv j l' : prunes j (JArr l') ->
  exists l, j = JArr l /\ forall i v', l' !! i = Some v' -> exists i' v, l !! i' = Some v /\ prunes v v'.
Proof.
  inversion 1; subst; [|eauto]. exists l'. split; [done|]. eauto using prunes_refl.
Qed.

Lemma prunes_str j s : prunes j (JStr s) -> j = JStr s.
Proof. by inversion 1. Qed.

Lemma prunes_scalar j j' : prunes j j' ->
  match j' with JArr _ | JObj _ => True | _ => j = j' end.
Proof. inversion 1; subst; [by destruct j'|done..]. Qed.

Lemma oget_elem m k v : oget m k = Some v -> (k, v) ∈ m.
Proof.
  induction m as [|[k' v'] m IH]; cbn [oget]; [done|].
  destruct (String.eqb_spec k' k) as [->|]; [intros [= ->]; left|right; auto].
Qed.

Lemma prunes_trans j3 : forall j1 j2, prunes j1 j2 -> prunes j2 j3 -> prunes j1 j3.
Proof.
  induction j3 as [| | | | |l IH|m IH] using json_ind; intros j1 j2 H12 H23;
    try (by apply prunes_scalar in H23 as ->).
  - apply prunes_arr_inv in H23 as (l2 & -> & H23). apply prunes_arr_inv in H12 as (l1 & -> & H12).
    constructor. intros i v3 Hv3. destruct (H23 _ _ Hv3) as (i2 & v2 & Hv2 & P23).
    destruct (H12 _ _ Hv2) as (i1 & v1 & Hv1 & P12). exists i1, v1. split; [done|].
    rewrite Forall_lookup in IH. by eapply IH.
  - apply prunes_obj_inv in H23 as (m2 & -> & H23). apply prunes_obj_inv in H12 as (m1 & -> & H12).
    constructor. intros k v3 Hv3. destruct (H23 _ _ Hv3) as (v2 & Hv2 & P23).
    destruct (H12 _ _ Hv2) as (v1 & Hv1 & P12). exists v1. split; [done|].
    rewrite Forall_forall in IH. by eapply (IH _ (oget_elem _ _ _ Hv3)).
Qed.

(** Every map of the pruned tree is a pruned map of the tree. *)
Lemma prunes_visited m m' x' : visited m' x' -> prunes (JObj m) (JObj m') ->
  exists x, visited m x /\ prunes (JObj x) (JObj x').
Proof.
  intros Hv. revert m. induction Hv as [m'|m' k t' x' Hk Hv IH|m' k l' i t' x' Hk Hl Hv IH]; intros m Hp.
  - exists m. split; [constructor|done].
  - apply prunes_obj_inv in Hp as (m0 & [= <-] & Hp). destruct (Hp _ _ Hk) as (v & Hm & Hpv).
    pose proof (prunes_obj_inv _ _ Hpv) as (t & -> & _). destruct (IH t Hpv) as (x & Hx & Hpx).
    eauto using visited_map.
  - apply prunes_obj_inv in Hp as (m0 & [= <-] & Hp). destruct (Hp _ _ Hk) as (v & Hm & Hpv).
    apply prunes_arr_inv in Hpv as (l & -> & Hpl). destruct (Hpl _ _ Hl) as (j & w & Hw & Hpw).
    pose proof (prunes_obj_inv _ _ Hpw) as (t & -> & _). destruct (IH t Hpw) as (x & Hx & Hpx).
    eauto using visited_arr.
Qed.

(** A pass whose every rewriting prunes is a pruning. *)
Lemma walk_prunes here :
  (forall m, prunes (JObj m) (JObj (here m))) ->
  forall fuel m, prunes (JObj m) (JObj (walk_maps here fuel m)).
Proof.
  intros Hh fuel. induction fuel as [|fuel IH]; intros m; [apply prunes_refl|].
  eapply prunes_trans; [apply Hh|]. cbn [walk_maps]. constructor. intros k v'. rewrite oget_map_values.
  destruct (oget (here m) k) as [v|]; [|done]. intros [= <-]. exists v. split; [done|].
  destruct v as [| | | | |t|t]; cbn; try apply prunes_refl; [|apply IH].
  constructor. intros i v'. rewrite list_lookup_fmap. destruct (t !! i) as [w|] eqn:E; [|done].
  intros [= <-]. exists i, w. split; [done|]. destruct w; first [apply IH|apply prunes_refl].
Qed.

Lemma prunes_keys_None ks : forall j j', prunes j j' ->
  lookup_path j (keys ks) = None -> lookup_path j' (keys ks) = None.
Proof.
  induction ks as [|k ks IH]; intros j j' Hp; [done|]. destruct j' as [| | | | | |m']; try done.
  apply prunes_obj_inv in Hp as (m & -> & Hp). cbn [keys List.map lookup_path child].
  destruct (oget m' k) as [v'|] eqn:E; [|done]. destruct (Hp _ _ E) as (v & -> & Hv). by apply IH.
Qed.

(** What a pass that rewrites the entry [bad] of a map leaves alone: every
    scalar reached by other keys, and whether a map or an array is there. *)
Definition shape (j : json) : json :=
  match j with JObj _ => JObj [] | JArr _ => JArr [] | j => j end.

Lemma walk_shape here bad ks :
  (forall m k, k <> bad -> oget (here m) k = oget m k) -> bad ∉ ks -> forall fuel m,
  shape <$> lookup_path (JObj (walk_maps here fuel m)) (keys ks) =
  shape <$> lookup_path (JObj m) (keys ks).
Proof.
  intros Hh. induction ks as [|k ks IH]; intros Hb fuel m; [done|]. destruct fuel as [|fuel]; [done|].
  apply not_elem_of_cons in Hb as [Hk Hks]. cbn [keys List.map lookup_path child walk_maps].
  rewrite oget_map_values, Hh by done. destruct (oget m k) as [v|]; [|done]. cbn.
  destruct v as [| | | | |l|t]; try done; cbn [walk_child]; [by destruct ks|by apply IH].
Qed.

Lemma lookup_visited ks : forall m t, lookup_path (JObj m) (keys ks) = Some (JObj t) -> visited m t.
Proof.
  induction ks as [|k ks IH]; intros m t; cbn [keys List.map lookup_path child].
  - intros [= <-]. constructor.
  - destruct (oget m k) as [v|] eqn:E; [|done]. destruct v as [| | | | |l|t0]; try by destruct ks.
    intros H. eapply visited_map; [done|by apply IH].
Qed.
