(* ===== verification/EncodingJson.v ===== *)
(** * encoding/json

    What the snapshots of the object graph use of Go's encoder and decoder, on
    bytes: the syntax tree of unstructured content ([encode]) and its text
    ([print]), the syntax tree of a text ([parse]) and its value as one of type
    [any] ([decode]).

    A number keeps its text in the syntax tree ([SNum]), as in the decoder: it
    becomes a float64 ([round64]: 53 bits, half to even, subnormals, overflow)
    only where a value of type [any] is asked for. A float64 is a fraction in
    lowest terms; the sign of zero is not kept. It is written with the fewest
    digits that read back ([float_lit]). Strings are escaped with HTML escaping
    on and read with their escapes and surrogate pairs; bytes that are no UTF-8
    become U+FFFD on both ways. Maps are written with their keys in order.

    Shown here: a text printed from a readable tree parses to it
    ([parse_print]), [parse] has enough fuel for every text ([parse_enough]),
    and decoding an encoded tree gives the tree with its integers rounded
    ([decode_encode]), which leaves every lookup as it was ([lookup_rounded])
    and integers of up to 53 bits exact ([round64_exact]). *)

From Stdlib Require Import ZArith Lia Ascii Sorted.
From Stdlib Require QArith Qreduction Qcanon.
From S2P Require Import Prelude GoStrings Json.

(** ** Syntax trees *)

Unset Elimination Schemes.
Inductive syntax :=
| SNull
| SBool (b : bool)
| SNum (lit : string)
| SStr (s : string)
| SArr (l : list syntax)
| SObj (m : list (string * syntax)).
Set Elimination Schemes.

Fixpoint syntax_ind (P : syntax -> Prop)
    (fnull : P SNull) (fbool : forall b, P (SBool b)) (fnum : forall lit, P (SNum lit)) (fstr : forall s, P (SStr s))
    (farr : forall l, Forall P l -> P (SArr l))
    (fobj : forall m, Forall (fun kv => P (snd kv)) m -> P (SObj m)) (v : syntax) : P v :=
  let go := syntax_ind P fnull fbool fnum fstr farr fobj in
  match v with
  | SNull => fnull
  | SBool b => fbool b
  | SNum lit => fnum lit
  | SStr s => fstr s
  | SArr l => farr l
      ((fix all (l : list syntax) : Forall P l :=
          match l with
          | [] => Forall_nil_2 _
          | x :: l' => Forall_cons_2 _ _ _ (go x) (all l')
          end) l)
  | SObj m => fobj m
      ((fix all (m : list (string * syntax)) : Forall (fun kv => P (snd kv)) m :=
          match m with
          | [] => Forall_nil_2 _
          | x :: m' => Forall_cons_2 _ _ _ (go (snd x)) (all m')
          end) m)
  end.

(** ** UTF-8 *)

Definition quote_char : ascii := ascii_of_N 34.
Definition backslash : ascii := ascii_of_N 92.
Abbreviation code := N_of_ascii.
Definition between (lo hi : N) (c : ascii) : bool := ((lo <=? code c) && (code c <=? hi))%N.

(** The bytes of the rune a string begins with, when that is not ASCII: 2, 3
    or 4, or 0 when these are no UTF-8. *)
Definition rune_width (s : string) : nat :=
  match s with
  | String a (String b r) =>
      if between 194 223 a then if between 128 191 b then 2 else 0
      else match r with
      | String c r =>
          if between 224 239 a then
            if between (if (code a =? 224)%N then 160 else 128) (if (code a =? 237)%N then 159 else 191) b &&
               between 128 191 c then 3 else 0
          else match r with
          | String d _ =>
              if between 240 244 a &&
                 between (if (code a =? 240)%N then 144 else 128) (if (code a =? 244)%N then 143 else 191) b &&
                 between 128 191 c && between 128 191 d then 4 else 0
          | EmptyString => 0
          end
      | EmptyString => 0
      end
  | _ => 0
  end.

(** utf8.ValidString; [k] bytes of a rune are still to come. *)
Fixpoint valid_from (k : nat) (s : string) : bool :=
  match s with
  | EmptyString => (k =? 0)%nat
  | String a s' =>
      match k with
      | S k' => valid_from k' s'
      | O => if (code a <? 128)%N then valid_from 0 s'
             else match rune_width s with O => false | S w => valid_from w s' end
      end
  end.
Definition ValidString (s : string) : bool := valid_from 0 s.

(** The encoding of a code point, and the replacement character. *)
Definition EncodeRune (x : N) : string :=
  let b (n : N) (rest : string) := String (ascii_of_N n) rest in
  if (x <? 128)%N then b x EmptyString
  else if (x <? 2048)%N then b (192 + x / 64)%N (b (128 + x mod 64)%N EmptyString)
  else if (x <? 65536)%N then
    b (224 + x / 4096)%N (b (128 + x / 64 mod 64)%N (b (128 + x mod 64)%N EmptyString))
  else b (240 + x / 262144)%N (b (128 + x / 4096 mod 64)%N (b (128 + x / 64 mod 64)%N (b (128 + x mod 64)%N EmptyString))).
Definition RuneError : string := EncodeRune 65533.

(** ** Strings *)

Definition escaped (rest : string) : string := String backslash rest.

(** appendString on one ASCII byte. *)
Definition escape (a : ascii) : string :=
  let hex n := escaped (String "u" (String "0" (String "0" (String (hex_digit (n / 16)) (String (hex_digit (n mod 16)) EmptyString))))) in
  if Ascii.eqb a quote_char || Ascii.eqb a backslash then escaped (String a EmptyString)
  else if Ascii.eqb a "008"%char then escaped "b"
  else if Ascii.eqb a "009"%char then escaped "t"
  else if Ascii.eqb a "010"%char then escaped "n"
  else if Ascii.eqb a "012"%char then escaped "f"
  else if Ascii.eqb a "013"%char then escaped "r"
  else if (code a <? 32)%N || Ascii.eqb a "<"%char || Ascii.eqb a ">"%char || Ascii.eqb a "&"%char then hex (code a)
  else String a EmptyString.

(** U+2028 and U+2029, which JavaScript does not take in a string. *)
Definition line_separator (s : string) : option string :=
  match s with
  | String a (String b (String c _)) =>
      if (code a =? 226)%N && (code b =? 128)%N then
        if (code c =? 168)%N then Some (escaped "u2028")
        else if (code c =? 169)%N then Some (escaped "u2029") else None
      else None
  | _ => None
  end.

(** appendString, without the quotes: [k] bytes of a rune are copied, or left
    out when it was [skip]ped. *)
Fixpoint escape_from (skip : bool) (k : nat) (s : string) : string :=
  match s with
  | EmptyString => EmptyString
  | String a s' =>
      match k with
      | S k' => if skip then escape_from skip k' s' else String a (escape_from skip k' s')
      | O =>
          if (code a <? 128)%N then escape a +:+ escape_from false 0 s'
          else match rune_width s with
               | O => escaped "ufffd" +:+ escape_from false 0 s'
               | S w => match line_separator s with
                        | Some e => e +:+ escape_from true w s'
                        | None => String a (escape_from false w s')
                        end
               end
      end
  end.
Definition print_string (s : string) : string :=
  String quote_char (escape_from false 0 s +:+ String quote_char EmptyString).

(** unquote *)
Definition hex_value (c : ascii) : option N :=
  if between 48 57 c then Some (code c - 48)%N
  else if between 97 102 c then Some (code c - 87)%N
  else if between 65 70 c then Some (code c - 55)%N
  else None.
Definition hex4 (a b c d : ascii) : option N :=
  w ← hex_value a; x ← hex_value b; y ← hex_value c; z ← hex_value d;
  Some (((w * 16 + x) * 16 + y) * 16 + z)%N.

Definition unescape (c : ascii) : option ascii :=
  if Ascii.eqb c quote_char || Ascii.eqb c backslash || Ascii.eqb c "/"%char then Some c
  else if Ascii.eqb c "b"%char then Some "008"%char
  else if Ascii.eqb c "f"%char then Some "012"%char
  else if Ascii.eqb c "n"%char then Some "010"%char
  else if Ascii.eqb c "r"%char then Some "013"%char
  else if Ascii.eqb c "t"%char then Some "009"%char
  else None.

(** A surrogate that waits for its other half, and finds none. *)
Definition lone (hi : option N) : string := match hi with Some _ => RuneError | None => EmptyString end.

Definition before (pre : string) (x : option (string * string)) : option (string * string) :=
  prod_map (String.append pre) id <$> x.

(** The string up to the closing quote, and what follows; [k] bytes of a rune
    are copied; [hi] is the first half of a surrogate pair just read. *)
Fixpoint unquote (k : nat) (hi : option N) (s : string) : option (string * string) :=
  match s with
  | EmptyString => None
  | String a s1 =>
      match k with
      | S k' => before (String a EmptyString) (unquote k' None s1)
      | O =>
          if Ascii.eqb a quote_char then Some (lone hi, s1)
          else if Ascii.eqb a backslash then
            match s1 with
            | String e s2 =>
                if Ascii.eqb e "u"%char then
                  match s2 with
                  | String c1 (String c2 (String c3 (String c4 s2))) =>
                      x ← hex4 c1 c2 c3 c4;
                      if ((55296 <=? x) && (x <? 56320))%N then before (lone hi) (unquote 0 (Some x) s2)
                      else if ((56320 <=? x) && (x <? 57344))%N then
                        match hi with
                        | Some h => before (EncodeRune ((h - 55296) * 1024 + (x - 56320) + 65536)) (unquote 0 None s2)
                        | None => before RuneError (unquote 0 None s2)
                        end
                      else before (lone hi +:+ EncodeRune x) (unquote 0 None s2)
                  | _ => None
                  end
                else c ← unescape e; before (lone hi +:+ String c EmptyString) (unquote 0 None s2)
            | EmptyString => None
            end
          else if (code a <? 32)%N then None
          else if (code a <? 128)%N then before (lone hi +:+ String a EmptyString) (unquote 0 None s1)
          else match rune_width s with
               | O => before (lone hi +:+ RuneError) (unquote 0 None s1)
               | S w => before (lone hi +:+ String a EmptyString) (unquote w None s1)
               end
      end
  end.

(** ** Numbers *)

Definition is_digit (c : ascii) : bool := between 48 57 c.

(** The digits a text begins with, and the rest. *)
Fixpoint span_digits (s : string) : string * string :=
  match s with
  | String c s' => if is_digit c then let '(d, r) := span_digits s' in (String c d, r) else (EmptyString, s)
  | EmptyString => (EmptyString, EmptyString)
  end.
Definition some_digits (s : string) : option (string * string) :=
  let '(d, r) := span_digits s in match d with EmptyString => None | _ => Some (d, r) end.
Definition digits_value (d : string) : Z := default 0%Z (parse_digits 0 d).

(** The text after a byte, when it begins with it. *)
Definition byte (c : ascii) (s : string) : option string :=
  match s with String a r => if Ascii.eqb a c then Some r else None | EmptyString => None end.
Definition minus_sign (s : string) : bool * string :=
  match byte "-" s with Some r => (true, r) | None => (false, s) end.
Definition leading_zero (d : string) : bool :=
  match d with String c (String _ _) => Ascii.eqb c "0" | _ => false end.
Definition int_part (s : string) : option (string * string) :=
  ' (d, r) ← some_digits s; if leading_zero d then None else Some (d, r).
Definition frac_part (s : string) : option (string * string) :=
  match byte "." s with Some r => some_digits r | None => Some (EmptyString, s) end.
Definition exponent_sign (s : string) : bool * string :=
  match byte "-" s with
  | Some r => (true, r)
  | None => (false, default s (byte "+" s))
  end.
Definition signed (neg : bool) (z : Z) : Z := if neg then (- z)%Z else z.
Definition exp_part (s : string) : option (Z * string) :=
  match byte "e" s ∪ byte "E" s with
  | Some r => let '(neg, r) := exponent_sign r in
              ' (d, r) ← some_digits r; Some (signed neg (digits_value d), r)
  | None => Some (0%Z, s)
  end.

(** A JSON number: it is [m * 10^e], and what follows it. *)
Definition number (s : string) : option (Z * Z * string) :=
  let '(neg, s) := minus_sign s in
  ' (i, s) ← int_part s; ' (f, s) ← frac_part s; ' (x, s) ← exp_part s;
  Some (signed neg (digits_value (i +:+ f)), (x - str_len f)%Z, s).

Definition scan_number (s : string) : option (string * string) :=
  ' (_, r) ← number s; Some (take_str (String.length s - String.length r) s, r).

(** ** float64 *)

(** Division rounded half to even, for [0 <= a] and [0 < b]. *)
Definition div_even (a b : Z) : Z :=
  let q := (a / b)%Z in
  match (2 * (a mod b) ?= b)%Z with
  | Lt => q
  | Gt => (q + 1)%Z
  | Eq => if Z.even q then q else (q + 1)%Z
  end.

(** [b^x] is [up b x / up b (- x)]; and a fraction in lowest terms. *)
Definition up (b x : Z) : Z := (b ^ Z.max x 0)%Z.
Definition lowest (n : Z) (d : positive) : Z * positive :=
  let q := Qreduction.Qred (QArith_base.Qmake n d) in (QArith_base.Qnum q, QArith_base.Qden q).

(** The exponent of the first bit of [n / d], for [0 < n]. *)
Definition log2_frac (n : Z) (d : positive) : Z :=
  let g := (Z.log2 n - Z.log2 (Z.pos d))%Z in
  if (n * up 2 (- g) <? Z.pos d * up 2 g)%Z then (g - 1)%Z else g.

(** The float64 nearest to [n / d] in lowest terms: 53 bits, or the subnormal
    ones from [2^-1074]; [None] beyond the largest. *)
Definition round64 (n : Z) (d : positive) : option (Z * positive) :=
  let a := Z.abs n in
  if (a =? 0)%Z then Some (0%Z, 1%positive)
  else
    let p := Z.max (log2_frac a d - 52) (-1074) in
    let m := div_even (a * up 2 (- p)) (Z.pos d * up 2 p) in
    if (2 ^ 1024 <=? m * up 2 p)%Z then None
    else Some (lowest (Z.sgn n * m * up 2 p) (Z.to_pos (up 2 (- p)))).

(** strconv.ParseFloat of [m * 10^e]. *)
Definition float_of (m e : Z) : option (Z * positive) := round64 (m * up 10 e) (Z.to_pos (up 10 (- e))).
Definition float_lit_value (lit : string) : option (Z * positive) :=
  match number lit with Some (m, e, EmptyString) => float_of m e | _ => None end.

(** *** The shortest literal: strconv.AppendFloat(f, 'f' or 'e', -1, 64) *)

Definition zeros (n : Z) : string := String.concat EmptyString (repeat "0"%string (Z.to_nat n)).
Definition at_least (a : Z) (d : positive) (k : Z) : bool := (Z.pos d * up 10 k <=? a * up 10 (- k))%Z.
(** The exponent of the first decimal digit of [a / d], for [0 < a]. *)
Definition log10_frac (a : Z) (d : positive) : Z :=
  let k := (log2_frac a d * 30103 / 100000)%Z in
  if at_least a d (k + 1) then (k + 1)%Z else if at_least a d k then k else (k - 1)%Z.

(** The nearest decimal of [nd] digits, when it reads back. *)
Definition decimal_of (n : Z) (d : positive) (k : Z) (nd : nat) : option Z :=
  let x := (Z.of_nat nd - 1 - k)%Z in
  let num := (Z.abs n * up 10 x)%Z in
  let den := (Z.pos d * up 10 (- x))%Z in
  let lo := (num / den)%Z in
  let ok c := bool_decide (float_of (signed (n <? 0)%Z c) (- x) = Some (n, d)) in
  let near := if (2 * (num mod den) <=? den)%Z then [lo; lo + 1]%Z else [lo + 1; lo]%Z in
  List.find ok near.

Definition place (digits : string) (k : Z) (a : Z) (d : positive) : string :=
  let len := str_len digits in
  if at_least a d (-6) && negb (at_least a d 21) then
    if (k <? 0)%Z then "0." +:+ zeros (- k - 1) +:+ digits
    else if (len <=? k + 1)%Z then digits +:+ zeros (k + 1 - len)
    else take_str (Z.to_nat (k + 1)) digits +:+ "." +:+ drop_str (Z.to_nat (k + 1)) digits
  else
    take_str 1 digits +:+ (if (len =? 1)%Z then EmptyString else "." +:+ drop_str 1 digits) +:+
    (if (k <? 0)%Z then "e-" else "e+") +:+ Itoa (Z.abs k).

(** [None] when no literal of 17 digits reads back: [n / d] is no float64. *)
Definition float_lit (n : Z) (d : positive) : option string :=
  if (n =? 0)%Z then if bool_decide (d = 1%positive) then Some "0"%string else None
  else
    let k := log10_frac (Z.abs n) d in
    let digits nd := c ← decimal_of n d k nd; Some (Itoa c, k + str_len (Itoa c) - Z.of_nat nd)%Z in
    match omap digits (seq 1 17) with
    | (ds, k) :: _ =>
        let lit := (if (n <? 0)%Z then "-" else EmptyString) +:+ place (TrimRight ds "0") k (Z.abs n) d in
        if bool_decide (float_lit_value lit = Some (n, d)) then Some lit else None
    | [] => None
    end.

Example float_lits :
  [float_lit 1 2; float_lit 1 1; float_lit (-1500) 1; float_lit (10 ^ 21) 1; option_map (fun _ => EmptyString) (float_lit 1 3)] =
  [Some "0.5"; Some "1"; Some "-1500"; Some "1e+21"; None]%string /\
  (float_of 1 (-1) ≫= fun q => float_lit (fst q) (snd q)) = Some "0.1"%string /\
  (float_of 123 (-12) ≫= fun q => float_lit (fst q) (snd q)) = Some "1.23e-10"%string /\
  (float_of 5 (-324) ≫= fun q => float_lit (fst q) (snd q)) = Some "5e-324"%string /\
  (float_of 17976931348623157 292 ≫= fun q => float_lit (fst q) (snd q)) = Some "1.7976931348623157e+308"%string /\
  float_of 1 309 = None /\ float_of (2 ^ 53 + 1) 0 = Some (2 ^ 53, 1%positive)%Z.
Proof. vm_compute. split_and!; reflexivity. Qed.

(** ** Texts *)

Fixpoint print (v : syntax) : string :=
  match v with
  | SNull => "null"
  | SBool b => if b then "true" else "false"
  | SNum lit => lit
  | SStr s => print_string s
  | SArr l => "[" +:+ Join "," (List.map print l) +:+ "]"
  | SObj m => "{" +:+ Join "," (List.map (fun kv => print_string (fst kv) +:+ ":" +:+ print (snd kv)) m) +:+ "}"
  end%string.

Definition is_white (c : ascii) : bool := bool_decide (code c ∈ [32; 9; 13; 10]%N).
Definition skip_white (s : string) : string := TrimLeftFunc is_white s.
Definition literal (word : string) (v : syntax) (s : string) : option (syntax * string) :=
  if HasPrefix s word then Some (v, drop_str (String.length word) s) else None.

(** The scanner's maxNestingDepth. *)
Definition max_nesting : nat := N.to_nat 10000.

(** The text after a byte, after white space. *)
Definition token (c : ascii) (s : string) : option string := byte c (skip_white s).

(** One value after white space; [depth] more arrays and objects may be
    opened. [fuel] bounds the recursion: twice the length of the text is
    enough (lemma [parse_enough]). *)
Fixpoint value (fuel depth : nat) (s : string) : option (syntax * string) :=
  match fuel with
  | O => None
  | S fuel =>
      match skip_white s with
      | EmptyString => None
      | String c r as s =>
          if Ascii.eqb c quote_char then prod_map SStr id <$> unquote 0 None r
          else if Ascii.eqb c "["%char then
            match depth with
            | O => None
            | S depth =>
                match token "]" r with
                | Some r => Some (SArr [], r)
                | None => prod_map SArr id <$> elements fuel depth r
                end
            end
          else if Ascii.eqb c "{"%char then
            match depth with
            | O => None
            | S depth =>
                match token "}" r with
                | Some r => Some (SObj [], r)
                | None => prod_map SObj id <$> members fuel depth r
                end
            end
          else if Ascii.eqb c "n"%char then literal "null" SNull s
          else if Ascii.eqb c "t"%char then literal "true" (SBool true) s
          else if Ascii.eqb c "f"%char then literal "false" (SBool false) s
          else prod_map SNum id <$> scan_number s
      end
  end
with elements (fuel depth : nat) (s : string) : option (list syntax * string) :=
  match fuel with
  | O => None
  | S fuel =>
      ' (v, r) ← value fuel depth s;
      match token "," r with
      | Some r => prod_map (cons v) id <$> elements fuel depth r
      | None => r ← token "]" r; Some ([v], r)
      end
  end
with members (fuel depth : nat) (s : string) : option (list (string * syntax) * string) :=
  match fuel with
  | O => None
  | S fuel =>
      r ← token quote_char s;
      ' (k, r) ← unquote 0 None r;
      r ← token ":" r;
      ' (v, r) ← value fuel depth r;
      match token "," r with
      | Some r => prod_map (cons (k, v)) id <$> members fuel depth r
      | None => r ← token "}" r; Some ([(k, v)], r)
      end
  end.

(** The syntax tree of a text that is one JSON value. *)
Definition parse (s : string) : option syntax :=
  match value (2 * String.length s + 1) max_nesting s with
  | Some (v, r) => match skip_white r with EmptyString => Some v | _ => None end
  | None => None
  end.

(** ** Encoding and decoding *)

(** The keys of a map in order, each with its value (the first binding). *)
Fixpoint insert_key {A} (k : string) (v : A) (m : list (string * A)) : list (string * A) :=
  match m with
  | [] => [(k, v)]
  | (k', v') :: m' =>
      if String.eqb k k' then (k, v) :: m'
      else if str_ltb k k' then (k, v) :: m else (k', v') :: insert_key k v m'
  end.
Definition sort_keys {A} (m : list (string * A)) : list (string * A) :=
  foldr (fun kv acc => insert_key (fst kv) (snd kv) acc) [] m.

(** A map filled from the members of an object: a later one replaces. *)
Fixpoint go_map {A} (m : list (string * A)) : list (string * A) :=
  match m with
  | [] => []
  | (k, v) :: m' => let rest := go_map m' in
                    if existsb (fun kv => String.eqb (fst kv) k) rest then rest else (k, v) :: rest
  end.

Definition on_snd {A B} (f : A -> B) (kv : string * A) : string * B := (fst kv, f (snd kv)).

Fixpoint encode (v : json) : syntax :=
  match v with
  | JNull => SNull
  | JBool b => SBool b
  | JInt z => SNum (Itoa z)
  | JFloat n d => SNum (default EmptyString (float_lit n d))
  | JStr s => SStr s
  | JArr l => SArr (List.map encode l)
  | JObj m => SObj (sort_keys (List.map (on_snd encode) m))
  end.

(** Values a Go program can hold, but for its strings: int64 and float64. *)
Fixpoint encodable (v : json) : bool :=
  match v with
  | JInt z => bool_decide (- 2 ^ 63 <= z < 2 ^ 63)%Z
  | JFloat n d => match float_lit n d with Some _ => true | None => false end
  | JArr l => forallb encodable l
  | JObj m => forallb (fun kv => encodable (snd kv)) m
  | _ => true
  end.

(** Into a value of type [any]: every number is a float64, or out of range. *)
Fixpoint decode (v : syntax) : option json :=
  let fix all (l : list syntax) : option (list json) :=
    match l with
    | [] => Some []
    | x :: l' => x ← decode x; xs ← all l'; Some (x :: xs)
    end in
  let fix fields (m : list (string * syntax)) : option (list (string * json)) :=
    match m with
    | [] => Some []
    | (k, x) :: m' => x ← decode x; xs ← fields m'; Some ((k, x) :: xs)
    end in
  match v with
  | SNull => Some JNull
  | SBool b => Some (JBool b)
  | SNum lit => uncurry JFloat <$> float_lit_value lit
  | SStr s => Some (JStr s)
  | SArr l => JArr <$> all l
  | SObj m => (fun m => JObj (go_map m)) <$> fields m
  end.

(** What a decoded value is: the same tree with its integers as float64. *)
Fixpoint rounded (v : json) : json :=
  match v with
  | JInt z => match round64 z 1 with Some (n, d) => JFloat n d | None => v end
  | JArr l => JArr (List.map rounded l)
  | JObj m => JObj (sort_keys (List.map (on_snd rounded) m))
  | _ => v
  end.

(** The strings and keys of a tree are UTF-8. *)
Fixpoint utf8 (v : json) : bool :=
  match v with
  | JStr s => ValidString s
  | JArr l => forallb utf8 l
  | JObj m => forallb (fun kv => ValidString (fst kv) && utf8 (snd kv)) m
  | _ => true
  end.

(** ** Lemmas *)

(** *** Strings *)

Lemma unquote_escape_ascii a rest : (code a <? 128)%N = true ->
  unquote 0 None (escape a +:+ rest) = before (String a EmptyString) (unquote 0 None rest).
Proof.
  destruct a as [[] [] [] [] [] [] [] []]; intros H; try discriminate H; reflexivity.
Qed.

Lemma before_cons a s rest (r : option (string * string)) : r = Some (s, rest) ->
  before (String a EmptyString) r = Some (String a s, rest).
Proof. by intros ->. Qed.

Lemma rune_width_large a s w : rune_width (String a s) = S w -> (194 <= code a)%N.
Proof.
  intros H. destruct (N.le_gt_cases 194 (code a)) as [|Ha]; [done|].
  assert (forall lo hi, (194 <= lo)%N -> between lo hi a = false) as Hb.
  { intros lo hi Hlo. unfold between. apply andb_false_iff. left. apply N.leb_gt. lia. }
  revert H. cbn [rune_width]. rewrite !Hb by lia. by destruct s as [|b [|c [|d r]]].
Qed.

Lemma escape_from_keep skip k a s : escape_from skip (S k) (String a s) =
  if skip then escape_from skip k s else String a (escape_from skip k s).
Proof. done. Qed.

(** A rune is copied, so its width can still be read. *)
Lemma rune_width_copied a s w rest : rune_width (String a s) = S w ->
  rune_width (String a (escape_from false w s +:+ rest)) = S w.
Proof.
  destruct s as [|b s]; [done|]. cbn [rune_width].
  destruct (between 194 223 a) eqn:E2.
  { destruct (between 128 191 b) eqn:Eb; intros [= <-]. rewrite !escape_from_keep, !app_cons_str. by rewrite Eb. }
  destruct s as [|c s]; [done|]. destruct (between 224 239 a) eqn:E3.
  { match goal with |- (if ?b then _ else _) = _ -> _ => destruct b eqn:Eb end; intros [= <-]. rewrite !escape_from_keep, !app_cons_str. by rewrite ?E3, Eb. }
  destruct s as [|d s]; [done|]. match goal with |- (if ?b then _ else _) = _ -> _ => destruct b eqn:Eb end; intros [= <-]. rewrite !escape_from_keep, !app_cons_str. by rewrite ?E3, Eb.
Qed.

Lemma line_separator_spec s e : line_separator s = Some e ->
  exists c r, s = String "226" (String "128" (String c r)) /\
    ((c = "168"%char /\ e = escaped "u2028") \/ (c = "169"%char /\ e = escaped "u2029")).
Proof.
  unfold line_separator. destruct s as [|a [|b [|c r]]]; try done.
  destruct (_ && _) eqn:Eab; [|done]. apply andb_true_iff in Eab as [Ea%N.eqb_eq Eb%N.eqb_eq].
  assert (forall x n, code x = n -> x = ascii_of_N n) as Hc by (intros x n <-; by rewrite ascii_N_embedding).
  apply Hc in Ea as ->. apply Hc in Eb as ->. intros H. exists c, r. split; [done|].
  destruct (N.eqb_spec (code c) 168) as [E|_]; [left|right; destruct (N.eqb_spec (code c) 169) as [E|_]; [|done]];
    apply Hc in E as ->; by injection H as <-.
Qed.

Lemma unquote_line_separator e c r rest :
  (c = "168"%char /\ e = escaped "u2028") \/ (c = "169"%char /\ e = escaped "u2029") ->
  unquote 0 None (e +:+ rest) = before (String "226" (String "128" (String c EmptyString))) (unquote 0 None rest) /\
  rune_width (String "226" (String "128" (String c r))) = 3%nat.
Proof. intros [[-> ->]|[-> ->]]; by split. Qed.

Lemma escape_from_start skip s : escape_from skip 0 s = escape_from false 0 s.
Proof. by destruct s. Qed.

Lemma unquote_escape n k s rest : (String.length s <= n)%nat -> valid_from k s = true ->
  unquote k None (escape_from false k s +:+ String quote_char rest) = Some (s, rest).
Proof.
  revert k s. induction n as [|n IH]; intros k [|a s] Hn Hv; cbn in Hn; try lia.
  1,2: destruct k; [done|discriminate Hv].
  destruct k as [|k].
  2: { rewrite escape_from_keep. cbn. apply before_cons, IH; [lia|done]. }
  cbn [escape_from valid_from] in *. destruct (code a <? 128)%N eqn:Ea.
  { rewrite app_assoc_str, unquote_escape_ascii by done. apply before_cons, IH; [lia|done]. }
  destruct (rune_width (String a s)) as [|w] eqn:Ew; [done|].
  destruct (line_separator (String a s)) as [e|] eqn:El.
  - apply line_separator_spec in El as (c & r & Hs & Hc). injection Hs as -> ->.
    destruct (unquote_line_separator _ _ r (escape_from false 0 r +:+ String quote_char rest) Hc) as [Eu Ew'].
    rewrite Ew' in Ew. injection Ew as <-. cbn [valid_from] in Hv.
    rewrite !escape_from_keep, escape_from_start, app_assoc_str, Eu.
    rewrite (IH 0%nat r); [done|cbn in Hn; lia|done].
  - rewrite app_cons_str. cbn [unquote]. pose proof (rune_width_large _ _ _ Ew) as Hlarge.
    rewrite (rune_width_copied _ _ _ _ Ew), Ea.
    assert (forall x, (code x < 128)%N -> Ascii.eqb a x = false) as Hne.
    { intros x Hx. apply Ascii.eqb_neq. intros ->. lia. }
    rewrite !Hne by (vm_compute; done). destruct (N.ltb_spec (code a) 32); [lia|].
    cbn [lone]. apply before_cons, IH; [lia|done].
Qed.

Lemma unquote_print_string s rest : ValidString s = true ->
  unquote 0 None (escape_from false 0 s +:+ String quote_char rest) = Some (s, rest).
Proof. by apply (unquote_escape (String.length s)). Qed.

(** *** Numbers *)

(** What may follow a number: nothing that would belong to it. *)
Definition stops (s : string) : bool :=
  match s with String c _ => negb (is_digit c || in_cutset ".eE+-" c) | EmptyString => true end.

Lemma stops_span rest : stops rest = true -> span_digits rest = (EmptyString, rest).
Proof. destruct rest as [|c rest]; [done|]. cbn [stops span_digits]. by destruct (is_digit c). Qed.

Lemma span_digits_app s d r rest : span_digits s = (d, r) -> stops rest = true ->
  span_digits (s +:+ rest) = (d, r +:+ rest).
Proof.
  intros Hs Hr. revert d r Hs. induction s as [|c s IH]; intros d r Hs.
  - injection Hs as <- <-. by apply stops_span.
  - rewrite app_cons_str. cbn [span_digits] in *. destruct (is_digit c); [|by injection Hs as <- <-].
    destruct (span_digits s) as [d' r']. injection Hs as <- <-. by rewrite (IH d' r').
Qed.

Lemma some_digits_app s d r rest : some_digits s = Some (d, r) -> stops rest = true ->
  some_digits (s +:+ rest) = Some (d, r +:+ rest).
Proof.
  unfold some_digits. intros H Hr. destruct (span_digits s) as [d' r'] eqn:E.
  rewrite (span_digits_app _ _ _ _ E Hr). by destruct d'; simplify_eq.
Qed.

Section after_number.
  Context (rest : string) (Hr : stops rest = true).

Lemma byte_stops c : in_cutset ".eE+-" c = true -> byte c rest = None.
Proof using Hr.
  intros Hc. destruct rest as [|a r]; [done|]. cbn [stops byte] in *.
  destruct (Ascii.eqb_spec a c) as [->|]; [|done]. by rewrite Hc, orb_true_r in Hr.
Qed.

Lemma byte_app c s : in_cutset ".eE+-" c = true ->
  byte c (s +:+ rest) = (fun r => r +:+ rest) <$> byte c s.
Proof using Hr.
  intros Hc. destruct s as [|a s]; [by apply byte_stops|]. rewrite app_cons_str. cbn [byte]. by case_if.
Qed.

Lemma minus_sign_app s b r : minus_sign s = (b, r) -> minus_sign (s +:+ rest) = (b, r +:+ rest).
Proof using Hr. unfold minus_sign. rewrite byte_app by done. by destruct (byte _ s); intros [= <- <-]. Qed.

Lemma exponent_sign_app s b r : exponent_sign s = (b, r) -> exponent_sign (s +:+ rest) = (b, r +:+ rest).
Proof using Hr.
  unfold exponent_sign. rewrite !byte_app by done.
  destruct (byte "-" s); [|destruct (byte "+" s)]; by intros [= <- <-].
Qed.

Lemma int_part_app s d r : int_part s = Some (d, r) -> int_part (s +:+ rest) = Some (d, r +:+ rest).
Proof using Hr.
  unfold int_part. destruct (some_digits s) as [[d' r']|] eqn:E; [|done].
  rewrite (some_digits_app _ _ _ _ E Hr). cbn. destruct (leading_zero d'); [done|]. by intros [= <- <-].
Qed.

Lemma frac_part_app s d r : frac_part s = Some (d, r) -> frac_part (s +:+ rest) = Some (d, r +:+ rest).
Proof using Hr.
  unfold frac_part. rewrite byte_app by done. destruct (byte "." s) as [s'|]; cbn [fmap option_fmap option_map].
  - intros E. by apply some_digits_app.
  - by intros [= <- <-].
Qed.

Lemma exp_part_app s x r : exp_part s = Some (x, r) -> exp_part (s +:+ rest) = Some (x, r +:+ rest).
Proof using Hr.
  unfold exp_part. rewrite !byte_app by done.
  assert (forall x y : option string, ((fun r => r +:+ rest) <$> x) ∪ ((fun r => r +:+ rest) <$> y) =
    (fun r => r +:+ rest) <$> (x ∪ y)) as -> by (by intros [] []).
  destruct (byte "e" s ∪ byte "E" s) as [s'|]; cbn [fmap option_fmap option_map]; [|by intros [= <- <-]].
  destruct (exponent_sign s') as [b s1] eqn:E1. rewrite (exponent_sign_app _ _ _ E1).
  destruct (some_digits s1) as [[d s2]|] eqn:E2; [|done]. rewrite (some_digits_app _ _ _ _ E2 Hr).
  by intros [= <- <-].
Qed.

Lemma number_app s m e r : number s = Some (m, e, r) -> number (s +:+ rest) = Some (m, e, r +:+ rest).
Proof using Hr.
  unfold number. destruct (minus_sign s) as [b s1] eqn:E1. rewrite (minus_sign_app _ _ _ E1).
  destruct (int_part s1) as [[i s2]|] eqn:E2; [|done]. rewrite (int_part_app _ _ _ E2). cbn [mbind option_bind].
  destruct (frac_part s2) as [[f s3]|] eqn:E3; [|done]. rewrite (frac_part_app _ _ _ E3). cbn [mbind option_bind].
  destruct (exp_part s3) as [[x s4]|] eqn:E4; [|done]. rewrite (exp_part_app _ _ _ E4). by intros [= <- <- <-].
Qed.
End after_number.

(** A literal is read back whole. *)
Definition valid_literal (lit : string) : Prop := exists m e, number lit = Some (m, e, EmptyString).

Lemma scan_number_literal lit rest : valid_literal lit -> stops rest = true ->
  scan_number (lit +:+ rest) = Some (lit, rest).
Proof.
  intros (m & e & H) Hr. unfold scan_number. rewrite (number_app rest Hr _ _ _ _ H). cbn [mbind option_bind].
  rewrite app_nil_str, length_app_str. do 2 f_equal. rewrite Nat.add_sub. by rewrite take_str_app_le, take_str_ge.
Qed.

Lemma is_digit_digit d : (d < 10)%N -> is_digit (digit d) = true /\ ((0 < d)%N -> Ascii.eqb (digit d) "0" = false).
Proof.
  intros H. assert (d ∈ [0;1;2;3;4;5;6;7;8;9]%N) as Hin by (rewrite !elem_of_cons; lia).
  rewrite !elem_of_cons, elem_of_nil in Hin. by destruct_or? Hin; subst.
Qed.

Lemma digits_fuel_all f n acc : all_chars is_digit acc = true -> all_chars is_digit (digits_fuel f n acc) = true.
Proof.
  revert n acc. induction f as [|f IH]; intros n acc Ha; [done|]. cbn [digits_fuel].
  assert (all_chars is_digit (String (digit (n mod 10)) acc) = true) as Hd.
  { cbn [all_chars]. by rewrite (proj1 (is_digit_digit _ (N.mod_lt n 10 ltac:(done)))). }
  case_if; [done|]. by apply IH.
Qed.

Lemma digits_fuel_head f n acc : (0 < n < 10 ^ N.of_nat f)%N ->
  exists d r, digits_fuel f n acc = String (digit d) r /\ (0 < d < 10)%N.
Proof.
  revert n acc. induction f as [|f IH]; intros n acc Hn; [cbn in Hn; lia|]. cbn [digits_fuel].
  destruct (N.ltb_spec n 10) as [H|H]; [exists n, acc; rewrite N.mod_small by done; split; [done|lia]|].
  apply IH. split; [apply N.div_str_pos; lia|]. apply N.Div0.div_lt_upper_bound.
  rewrite <- N.pow_succ_r', <- Nat2N.inj_succ. lia.
Qed.

Lemma span_digits_all s : all_chars is_digit s = true -> span_digits s = (s, EmptyString).
Proof.
  induction s as [|c s IH]; [done|]. cbn [all_chars span_digits]. destruct (is_digit c); [|done].
  intros H. by rewrite IH.
Qed.

Lemma Itoa_N_parts n : int_part (Itoa_N n) = Some (Itoa_N n, EmptyString) /\ digits_value (Itoa_N n) = Z.of_N n /\
  minus_sign (Itoa_N n) = (false, Itoa_N n).
Proof.
  pose proof (parse_Itoa_N n) as Hp. pose proof (digits_fuel_all (S (N.to_nat (N.log2 n))) n EmptyString eq_refl) as Ha.
  fold (Itoa_N n) in Ha. assert (leading_zero (Itoa_N n) = false) as Hz.
  { destruct (N.eq_dec n 0%N) as [->|Hn]; [done|].
    destruct (digits_fuel_head (S (N.to_nat (N.log2 n))) n EmptyString) as (d & r & E & Hd).
    { split; [lia|]. replace (N.of_nat (S (N.to_nat (N.log2 n)))) with (N.succ (N.log2 n)) by lia.
      eapply N.lt_le_trans; [apply N.log2_spec; lia|]. by apply N.pow_le_mono_l. }
    unfold Itoa_N. rewrite E. destruct r; [done|]. cbn [leading_zero].
    apply is_digit_digit; lia. }
  unfold int_part, some_digits, digits_value, minus_sign. rewrite (span_digits_all _ Ha).
  destruct (Itoa_N n) as [|c r] eqn:E; [done|]. cbn [mbind option_bind]. rewrite Hz. cbn [parse_nat_str] in Hp. rewrite Hp.
  split_and!; [done|done|]. cbn [byte]. destruct (Ascii.eqb_spec c "-") as [->|]; [|done].
  cbn in Ha. discriminate Ha.
Qed.

Lemma number_Itoa z : number (Itoa z) = Some (z, 0%Z, EmptyString).
Proof.
  unfold Itoa. destruct (Z.ltb_spec z 0).
  - destruct (Itoa_N_parts (Z.to_N (- z))) as (Hi & Hv & _). unfold number. generalize dependent (Itoa_N (Z.to_N (- z))). intros t Hi Hv.
    assert (forall s, minus_sign (String (ascii_of_N 45) s) = (true, s)) as -> by done.
    rewrite Hi. cbn -[digits_value]. rewrite app_nil_r_str, Hv. do 3 f_equal. lia.
  - destruct (Itoa_N_parts (Z.to_N z)) as (Hi & Hv & Hm). unfold number. generalize dependent (Itoa_N (Z.to_N z)). intros t Hi Hv Hm. rewrite Hm, Hi. cbn -[digits_value].
    rewrite app_nil_r_str, Hv. do 3 f_equal. lia.
Qed.

(** *** Integers as float64 *)

Lemma div_even_exact q b : (0 < b)%Z -> div_even (q * b) b = q.
Proof. intros Hb. unfold div_even. rewrite Z.mod_mul, Z.div_mul by lia. by destruct b. Qed.

Lemma div_even_le a b : (0 <= a)%Z -> (0 < b)%Z -> (div_even a b <= a + 1)%Z.
Proof.
  intros Ha Hb. unfold div_even. pose proof (Z.div_le_upper_bound a b a Hb ltac:(nia)).
  destruct (_ ?= _)%Z; [destruct (Z.even _)|..]; lia.
Qed.

Lemma lowest_mul z k : (0 < k)%Z -> lowest (z * k) (Z.to_pos k) = (z, 1%positive).
Proof.
  intros Hk. unfold lowest.
  rewrite (Qreduction.Qred_complete _ (QArith_base.Qmake z 1)).
  - by rewrite (Qcanon.Qred_identity (QArith_base.Qmake z 1)) by apply Z.gcd_1_r.
  - unfold QArith_base.Qeq. cbn. rewrite Z2Pos.id by done. lia.
Qed.

Lemma log2_frac_int a : (0 < a)%Z -> log2_frac a 1 = Z.log2 a.
Proof.
  intros Ha. unfold log2_frac, up. pose proof (Z.log2_nonneg a). pose proof (Z.log2_spec a Ha).
  rewrite Z.sub_0_r, (Z.max_r (- _)), (Z.max_l (Z.log2 a)) by lia.
  destruct (Z.ltb_spec (a * 2 ^ 0) (1 * 2 ^ Z.log2 a)); lia.
Qed.

(** Integers of up to 53 bits are float64; those of 64 bits do not overflow. *)
Lemma round64_exact z : (Z.abs z <= 2 ^ 53)%Z -> round64 z 1 = Some (z, 1%positive).
Proof.
  intros Hz. unfold round64. destruct (Z.eqb_spec (Z.abs z) 0) as [E|E]; [by replace z with 0%Z by lia|].
  pose proof (Z.log2_nonneg (Z.abs z)). pose proof (Z.log2_spec (Z.abs z) ltac:(lia)) as Hl.
  rewrite log2_frac_int by lia. rewrite Z.max_l by lia.
  destruct (Z.eq_dec (Z.abs z) (2 ^ 53)%Z) as [E53|Hlt].
  { rewrite E53. assert (z = 2 ^ 53 \/ z = - 2 ^ 53)%Z as [-> | ->] by lia; reflexivity. }
  assert (Z.log2 (Z.abs z) < 53)%Z as H53 by (apply Z.log2_lt_pow2; lia).
  set (k := (52 - Z.log2 (Z.abs z))%Z). replace (Z.log2 (Z.abs z) - 52)%Z with (- k)%Z by lia.
  rewrite Z.opp_involutive. unfold up. rewrite (Z.max_l k), (Z.max_r (- k)) by lia.
  replace (Z.abs z * 2 ^ k)%Z with (Z.abs z * 2 ^ k * (1 * 2 ^ 0))%Z by lia. rewrite div_even_exact by lia.
  assert (2 ^ k <= 2 ^ 52)%Z by (apply Z.pow_le_mono_r; lia).
  assert (0 < 2 ^ k)%Z by (apply Z.pow_pos_nonneg; lia).
  destruct (Z.leb_spec (2 ^ 1024) (Z.abs z * 2 ^ k * 2 ^ 0)%Z).
  { assert (2 ^ 53 * 2 ^ 52 < 2 ^ 1024)%Z by reflexivity. nia. }
  rewrite <- (lowest_mul z (2 ^ k)%Z) by done. do 2 f_equal. rewrite Z.mul_1_r. nia.
Qed.

Lemma round64_int64 z : (Z.abs z <= 2 ^ 63)%Z -> is_Some (round64 z 1).
Proof.
  intros Hz. unfold round64. case_if; boolify; [by eexists|].
  pose proof (Z.log2_nonneg (Z.abs z)). rewrite log2_frac_int by lia. rewrite Z.max_l by lia.
  assert (Z.log2 (Z.abs z) <= 63)%Z by (change 63%Z with (Z.log2 (2 ^ 63)%Z); by apply Z.log2_le_mono).
  set (p := (Z.log2 (Z.abs z) - 52)%Z). assert (p <= 11)%Z by lia. assert (-52 <= p)%Z by lia. clearbody p.
  assert (forall x, (x <= 52)%Z -> (1 <= up 2 x <= 2 ^ 52)%Z) as Hup.
  { intros x Hx. unfold up. split; [|apply Z.pow_le_mono_r; lia]. pose proof (Z.pow_pos_nonneg 2 (Z.max x 0)%Z). lia. }
  pose proof (Hup p ltac:(lia)). pose proof (Hup (- p)%Z ltac:(lia)).
  pose proof (div_even_le (Z.abs z * up 2 (- p))%Z (1 * up 2 p)%Z ltac:(nia) ltac:(lia)).
  destruct (Z.leb_spec (2 ^ 1024) (div_even (Z.abs z * up 2 (- p)) (1 * up 2 p) * up 2 p)%Z); [|by eexists].
  assert (2 ^ 1024 <= (2 ^ 63 * 2 ^ 52 + 1) * 2 ^ 52)%Z as H'; [nia|]. by apply Z.leb_le in H'.
Qed.

(** *** Texts read back *)

(** Trees whose text reads back: literals and UTF-8, at most [d] deep. *)
Inductive readable : nat -> syntax -> Prop :=
| readable_null d : readable d SNull
| readable_bool d b : readable d (SBool b)
| readable_num d lit : valid_literal lit -> readable d (SNum lit)
| readable_str d s : ValidString s = true -> readable d (SStr s)
| readable_arr d l : Forall (readable d) l -> readable (S d) (SArr l)
| readable_obj d m : Forall (fun kv => ValidString (fst kv) = true /\ readable d (snd kv)) m -> readable (S d) (SObj m).

Lemma literal_head lit : valid_literal lit -> exists c r, lit = String c r /\ (is_digit c = true \/ c = "-"%char).
Proof.
  intros (m & e & H). unfold number, minus_sign, int_part, some_digits in H.
  destruct lit as [|c r]; [done|]. exists c, r. split; [done|]. cbn [byte] in H.
  destruct (Ascii.eqb_spec c "-") as [->|]; [by right|]. left. cbn [span_digits] in H.
  by destruct (is_digit c).
Qed.

(** The bytes a value begins with: never white space, never a closing bracket. *)
Definition value_head (c : ascii) : bool :=
  negb (is_white c) && negb (Ascii.eqb c "]") && negb (Ascii.eqb c "}").

Lemma number_head c : is_digit c = true \/ c = "-"%char -> value_head c = true /\
  forallb (fun x => negb (Ascii.eqb c x)) [quote_char; "["; "{"; "n"; "t"; "f"]%char = true.
Proof. intros [H| ->]; [|done]. destruct c as [[] [] [] [] [] [] [] []]; try discriminate H; by split. Qed.

Lemma print_head d v : readable d v -> exists c r, print v = String c r /\ value_head c = true.
Proof.
  intros H. destruct H as [ | d [] | d lit Hl | | | ]; try by eexists _, _.
  destruct (literal_head _ Hl) as (c & r & -> & Hc). exists c, r. split; [done|by apply number_head].
Qed.

Lemma skip_white_head c r : value_head c = true -> skip_white (String c r) = String c r.
Proof. unfold value_head, skip_white. cbn [TrimLeftFunc]. by destruct (is_white c). Qed.

Lemma token_own c s : is_white c = false -> token c (String c EmptyString +:+ s) = Some s.
Proof. intros H. unfold token, skip_white. rewrite app_cons_str, app_nil_str. cbn [TrimLeftFunc]. rewrite H. cbn [byte]. by rewrite Ascii.eqb_refl. Qed.

Lemma token_other c d s : value_head c = true -> Ascii.eqb c d = false -> token d (String c s) = None.
Proof. intros H Hd. unfold token. rewrite skip_white_head by done. cbn [byte]. by rewrite Hd. Qed.

Definition reads_back (v : syntax) : Prop := forall d fuel rest,
  readable d v -> stops rest = true -> (2 * String.length (print v) + 1 <= fuel)%nat ->
  value fuel d (print v +:+ rest) = Some (v, rest).

Lemma elements_back d l fuel rest : l <> [] -> Forall reads_back l -> Forall (readable d) l ->
  (2 * String.length (Join "," (List.map print l)) + 2 <= fuel)%nat ->
  elements fuel d (Join "," (List.map print l) +:+ "]" +:+ rest) = Some (l, rest).
Proof.
  intros Hne HF HR. revert fuel Hne. induction l as [|x l IH]; intros fuel Hne Hf; [done|].
  inversion_clear HF as [|? ? Hx HFl]. inversion_clear HR as [|? ? Rx HRl].
  destruct fuel as [|fuel]; [lia|]. destruct l as [|y l].
  - cbn [List.map Join] in *. cbn [elements]. rewrite Hx by (done || lia). reflexivity.
  - change (Join "," (List.map print (x :: y :: l))) with (print x +:+ "," +:+ Join "," (List.map print (y :: l))) in *.
    rewrite !length_app_str in Hf. cbn [String.length] in Hf. rewrite !app_assoc_str. cbn [elements].
    rewrite Hx by (done || lia). cbn [mbind option_bind].
    rewrite (token_own ","%char) by done. rewrite (IH HFl HRl fuel) by (done || lia). done.
Qed.

Lemma members_back d m fuel rest : m <> [] -> Forall (fun kv => reads_back (snd kv)) m ->
  Forall (fun kv => ValidString (fst kv) = true /\ readable d (snd kv)) m ->
  let text := Join "," (List.map (fun kv => print_string (fst kv) +:+ ":" +:+ print (snd kv)) m) in
  (2 * String.length text + 2 <= fuel)%nat ->
  members fuel d (text +:+ "}" +:+ rest) = Some (m, rest).
Proof.
  cbn zeta. intros Hne HF HR. revert fuel Hne. induction m as [|[k x] m IH]; intros fuel Hne Hf; [done|].
  inversion_clear HF as [|? ? Hx HFl]. inversion_clear HR as [|? ? [Hk Rx] HRl]. cbn [fst snd] in *.
  destruct fuel as [|fuel]; [lia|].
  assert (forall t, token quote_char (print_string k +:+ t) = Some (escape_from false 0 k +:+ String quote_char t)) as Hq.
  { intros t. unfold print_string. rewrite app_cons_str, app_assoc_str. reflexivity. }
  destruct m as [|y m].
  - cbn [List.map Join fst snd] in *. rewrite !length_app_str in Hf. cbn [String.length] in Hf.
    rewrite !app_assoc_str. cbn [members]. rewrite Hq. cbn [mbind option_bind].
    rewrite unquote_print_string by done. cbn [mbind option_bind]. rewrite (token_own ":"%char) by done.
    cbn [mbind option_bind]. rewrite Hx by (done || lia). reflexivity.
  - change (Join "," (List.map ?f ((k, x) :: y :: m))) with (f (k, x) +:+ "," +:+ Join "," (List.map f (y :: m))) in *.
    cbn [fst snd] in *. rewrite !length_app_str in Hf. cbn [String.length] in Hf.
    rewrite !app_assoc_str. cbn [members]. rewrite Hq. cbn [mbind option_bind].
    rewrite unquote_print_string by done. cbn [mbind option_bind]. rewrite (token_own ":"%char) by done.
    cbn [mbind option_bind]. rewrite Hx by (done || lia). cbn [mbind option_bind].
    rewrite (token_own ","%char) by done. rewrite (IH HFl HRl fuel) by (done || lia). done.
Qed.

Lemma value_arr fuel d r : value (S fuel) (S d) ("[" +:+ r) =
  match token "]" r with Some r => Some (SArr [], r) | None => prod_map SArr id <$> elements fuel d r end.
Proof. done. Qed.

Lemma value_obj fuel d r : value (S fuel) (S d) ("{" +:+ r) =
  match token "}" r with Some r => Some (SObj [], r) | None => prod_map SObj id <$> members fuel d r end.
Proof. done. Qed.

Lemma Join_head sep w ws :
  Join sep (w :: ws) = w +:+ match ws with [] => EmptyString | _ => sep +:+ Join sep ws end.
Proof. destruct ws; [by rewrite app_nil_r_str|done]. Qed.

Lemma value_back v : reads_back v.
Proof.
  induction v as [|b|lit|s|l HF|m HF] using syntax_ind; intros d fuel rest HR Hs Hf; inversion HR; subst;
    (destruct fuel as [|fuel]; [lia|]).
  - by destruct rest.
  - by destruct b, rest.
  - destruct (literal_head lit) as (c & r & E & Hc); [done|]. cbn [print]. rewrite E, app_cons_str. cbn [value].
    apply number_head in Hc as [Hw Hc]. rewrite skip_white_head by done. cbn [forallb] in Hc.
    rewrite !andb_true_iff, !negb_true_iff in Hc. destruct_and! Hc. repeat case_if; [congruence..|].
    change (String c (r +:+ rest)) with (String c r +:+ rest). by rewrite <- E, scan_number_literal.
  - cbn [print]. unfold print_string. rewrite app_cons_str, app_assoc_str. cbn [value].
    change (skip_white (String quote_char ?s)) with (String quote_char s). cbn iota.
    rewrite Ascii.eqb_refl. change (String quote_char "" +:+ rest) with (String quote_char rest).
    by rewrite unquote_print_string.
  - cbn [print] in *. rewrite !length_app_str in Hf. cbn [String.length] in Hf. destruct l as [|x l]; [done|].
    rewrite !app_assoc_str, value_arr, (elements_back d0 (x :: l)) by (done || lia).
    cbn [List.map]. rewrite Join_head, app_assoc_str. destruct (print_head d0 x) as (c & r & -> & Hc); [by inversion_clear H1|].
    rewrite app_cons_str, token_other; [done..|]. unfold value_head in Hc. by destruct (Ascii.eqb c "]"), (is_white c).
  - cbn [print] in *. rewrite !length_app_str in Hf. cbn [String.length] in Hf. destruct m as [|x m]; [done|].
    rewrite !app_assoc_str, value_obj, (members_back d0 (x :: m)) by (done || lia).
    cbn [List.map]. by rewrite Join_head, !app_assoc_str.
Qed.

Theorem parse_print v : readable max_nesting v -> parse (print v) = Some v.
Proof.
  intros H. unfold parse. rewrite <- (app_nil_r_str (print v)) at 2.
  by rewrite value_back by (done || lia).
Qed.

(** *** The fuel of [parse] is enough *)

Notation "'len' s" := (String.length s) (at level 9, only parsing).

Lemma before_Some p x y r : before p x = Some (y, r) -> exists z, x = Some (z, r).
Proof. destruct x as [[z r']|]; cbn; [intros [= _ <-]; eauto|done]. Qed.

Lemma unquote_shorter n k hi s x r : (len s <= n)%nat -> unquote k hi s = Some (x, r) -> (len r < len s)%nat.
Proof.
  revert k hi s x. induction n as [|n IH]; intros k hi [|a s] x Hn; try done; cbn in Hn; [lia|].
  assert (forall p k hi s', (len s' <= len s)%nat -> before p (unquote k hi s') = Some (x, r) -> (len r < S (len s))%nat) as Hb.
  { intros p k' hi' s' Hs' (z & Hz)%before_Some. apply IH in Hz; lia. }
  cbn [unquote String.length]. destruct k as [|k]; [|by apply Hb].
  case_if; [intros [= _ <-]; lia|]. case_if.
  - destruct s as [|e s]; [done|]. case_if.
    + destruct s as [|c1 [|c2 [|c3 [|c4 s]]]]; try done. destruct (hex4 c1 c2 c3 c4); [|done].
      cbn [mbind option_bind]. repeat case_match; apply Hb; cbn; lia.
    + destruct (unescape e); [|done]. apply Hb. cbn. lia.
  - repeat case_match; try done; by apply Hb.
Qed.

Lemma skip_white_le s : (len (skip_white s) <= len s)%nat.
Proof. unfold skip_white. induction s as [|c s IH]; cbn [TrimLeftFunc String.length]; [lia|]. case_if; cbn; lia. Qed.

Lemma byte_shorter c s r : byte c s = Some r -> (len r < len s)%nat.
Proof. destruct s; cbn [byte]; [done|]. case_if; [|done]. intros [= <-]. cbn. lia. Qed.

Lemma token_shorter c s r : token c s = Some r -> (len r < len s)%nat.
Proof. intros H%byte_shorter. pose proof (skip_white_le s). lia. Qed.

Lemma span_digits_le s d r : span_digits s = (d, r) -> (len r + len d = len s)%nat.
Proof.
  revert d r. induction s as [|c s IH]; intros d r; cbn [span_digits]; [by intros [= <- <-]|].
  destruct (is_digit c); [|by intros [= <- <-]]. destruct (span_digits s) as [d' r'].
  intros [= <- <-]. specialize (IH _ _ eq_refl). cbn. lia.
Qed.

Lemma some_digits_shorter s d r : some_digits s = Some (d, r) -> (len r < len s)%nat.
Proof.
  unfold some_digits. destruct (span_digits s) as [d' r'] eqn:E. apply span_digits_le in E.
  destruct d'; [done|]. intros [= _ <-]. cbn in E. lia.
Qed.

Lemma minus_sign_le s b r : minus_sign s = (b, r) -> (len r <= len s)%nat.
Proof. unfold minus_sign. destruct (byte "-" s) eqn:E; intros [= _ <-]; [|done]. apply byte_shorter in E. lia. Qed.

Lemma exponent_sign_le s b r : exponent_sign s = (b, r) -> (len r <= len s)%nat.
Proof.
  unfold exponent_sign. destruct (byte "-" s) eqn:E; [|destruct (byte "+" s) eqn:E']; intros [= _ <-]; try done.
  all: apply byte_shorter in E || apply byte_shorter in E'; lia.
Qed.

Lemma int_part_shorter s d r : int_part s = Some (d, r) -> (len r < len s)%nat.
Proof.
  unfold int_part. destruct (some_digits s) as [[d' r']|] eqn:E; [|done]. cbn. case_if; [done|].
  intros [= _ <-]. by eapply some_digits_shorter.
Qed.

Lemma frac_part_le s d r : frac_part s = Some (d, r) -> (len r <= len s)%nat.
Proof.
  unfold frac_part. destruct (byte "." s) eqn:E; [|by intros [= _ <-]].
  intros H%some_digits_shorter. apply byte_shorter in E. lia.
Qed.

Lemma exp_part_le s x r : exp_part s = Some (x, r) -> (len r <= len s)%nat.
Proof.
  unfold exp_part. destruct (byte "e" s ∪ byte "E" s) as [s'|] eqn:E; [|by intros [= _ <-]].
  assert (len s' < len s)%nat by (apply union_Some in E as [E|[_ E]]; by apply byte_shorter in E).
  destruct (exponent_sign s') as [b s1] eqn:E1. apply exponent_sign_le in E1.
  destruct (some_digits s1) as [[d s2]|] eqn:E2; [|done]. apply some_digits_shorter in E2.
  intros [= _ <-]. lia.
Qed.

Lemma scan_number_shorter s l r : scan_number s = Some (l, r) -> (len r < len s)%nat.
Proof.
  unfold scan_number, number. destruct (minus_sign s) as [b s1] eqn:E1. apply minus_sign_le in E1.
  destruct (int_part s1) as [[i s2]|] eqn:E2; [|done]. apply int_part_shorter in E2. cbn [mbind option_bind].
  destruct (frac_part s2) as [[f s3]|] eqn:E3; [|done]. apply frac_part_le in E3. cbn [mbind option_bind].
  destruct (exp_part s3) as [[x s4]|] eqn:E4; [|done]. apply exp_part_le in E4. intros [= _ <-]. lia.
Qed.

Lemma literal_shorter w v s x r : literal w v s = Some (x, r) -> w <> EmptyString -> (len r < len s)%nat.
Proof.
  unfold literal. destruct (HasPrefix s w) eqn:E; [|done]. apply HasPrefix_spec in E as [t ->]. intros [= _ <-] Hw.
  rewrite length_app_str. assert (forall a b, len (drop_str (len a) (a +:+ b)) = len b) as ->.
  { intros a b. induction a as [|c a IH]; [done|]. rewrite app_cons_str. exact IH. }
  destruct w; [done|]. cbn. lia.
Qed.

(** A parser reads something, and reads the same with any fuel from [need]. *)
Definition steady {A} (p : nat -> nat -> string -> option (A * string)) (need : nat) (n : nat) : Prop :=
  forall d s x r, p n d s = Some (x, r) ->
    (len r < len s)%nat /\ forall m, (2 * len s + need <= m)%nat -> p m d s = Some (x, r).

Lemma steady_fmap {A B} (p : nat -> nat -> string -> option (A * string)) need n (f : A -> B) d s x r :
  steady p need n -> prod_map f id <$> p n d s = Some (x, r) ->
  (len r < len s)%nat /\ forall m, (2 * len s + need <= m)%nat -> prod_map f id <$> p m d s = Some (x, r).
Proof.
  intros Hp H. destruct (p n d s) as [[y r']|] eqn:E; [|done]. injection H as <- <-.
  apply Hp in E as [El Em]. split; [done|]. intros m Hm. by rewrite Em.
Qed.

Lemma elements_steady n : steady value 1 n -> steady elements 2 n -> steady elements 2 (S n).
Proof.
  intros Hv He d s x r H. cbn [elements] in H.
  destruct (value n d s) as [[v r1]|] eqn:E1; [|done]. cbn [mbind option_bind] in H. apply Hv in E1 as [L1 M1].
  destruct (token "," r1) as [r2|] eqn:E2.
  - pose proof (token_shorter _ _ _ E2). apply (steady_fmap _ _ _ _ _ _ _ _ He) in H as [L M]. split; [lia|].
    intros [|m] Hm; [lia|]. cbn [elements]. rewrite M1 by lia. cbn [mbind option_bind]. rewrite E2. apply M. lia.
  - destruct (token "]" r1) as [r2|] eqn:E3; [|done]. injection H as <- <-.
    pose proof (token_shorter _ _ _ E3). split; [lia|].
    intros [|m] Hm; [lia|]. cbn [elements]. rewrite M1 by lia. cbn [mbind option_bind]. by rewrite E2, E3.
Qed.

Lemma members_steady n : steady value 1 n -> steady members 2 n -> steady members 2 (S n).
Proof.
  intros Hv He d s x r H. cbn [members] in H.
  destruct (token quote_char s) as [r0|] eqn:E0; [|done]. cbn [mbind option_bind] in H.
  destruct (unquote 0 None r0) as [[k r0']|] eqn:E0'; [|done]. cbn [mbind option_bind] in H.
  destruct (token ":" r0') as [s1|] eqn:E1'; [|done]. cbn [mbind option_bind] in H.
  pose proof (token_shorter _ _ _ E0). pose proof (unquote_shorter _ _ _ _ _ _ (le_n _) E0').
  pose proof (token_shorter _ _ _ E1').
  destruct (value n d s1) as [[v r1]|] eqn:E1; [|done]. cbn [mbind option_bind] in H. apply Hv in E1 as [L1 M1].
  assert (forall m, members (S m) d s = ' (v, r) ← value m d s1;
    match token "," r with
    | Some r => prod_map (cons (k, v)) id <$> members m d r
    | None => r ← token "}" r; Some ([(k, v)], r)
    end) as Em.
  { intros m. cbn [members]. rewrite E0. cbn [mbind option_bind]. rewrite E0'. cbn [mbind option_bind]. by rewrite E1'. }
  destruct (token "," r1) as [r2|] eqn:E2.
  - pose proof (token_shorter _ _ _ E2). apply (steady_fmap _ _ _ _ _ _ _ _ He) in H as [L M]. split; [lia|].
    intros [|m] Hm; [lia|]. rewrite Em, M1 by lia. cbn [mbind option_bind]. rewrite E2. apply M. lia.
  - destruct (token "}" r1) as [r2|] eqn:E3; [|done]. injection H as <- <-.
    pose proof (token_shorter _ _ _ E3). split; [lia|].
    intros [|m] Hm; [lia|]. rewrite Em, M1 by lia. cbn [mbind option_bind]. by rewrite E2, E3.
Qed.

(** The values that are no array and no object need no fuel of their own. *)
Definition scalar (c : ascii) (r : string) : option (syntax * string) :=
  if Ascii.eqb c quote_char then prod_map SStr id <$> unquote 0 None r
  else if Ascii.eqb c "n"%char then literal "null" SNull (String c r)
  else if Ascii.eqb c "t"%char then literal "true" (SBool true) (String c r)
  else if Ascii.eqb c "f"%char then literal "false" (SBool false) (String c r)
  else prod_map SNum id <$> scan_number (String c r).

Lemma scalar_shorter c s x r : scalar c s = Some (x, r) -> (len r < len (String c s))%nat.
Proof.
  unfold scalar. repeat case_if; try (intros H; by apply literal_shorter in H).
  - destruct (unquote 0 None s) as [[y r']|] eqn:E; [|done]. intros [= _ <-].
    apply (unquote_shorter _ _ _ _ _ _ (le_n _)) in E. cbn. lia.
  - destruct (scan_number _) as [[y r']|] eqn:E; [|done]. intros [= _ <-]. by apply scan_number_shorter in E.
Qed.

Lemma value_step n d s : value (S n) d s =
  match skip_white s with
  | EmptyString => None
  | String c r =>
      if Ascii.eqb c "["%char then
        match d with
        | O => None
        | S d => match token "]" r with Some r => Some (SArr [], r) | None => prod_map SArr id <$> elements n d r end
        end
      else if Ascii.eqb c "{"%char then
        match d with
        | O => None
        | S d => match token "}" r with Some r => Some (SObj [], r) | None => prod_map SObj id <$> members n d r end
        end
      else scalar c r
  end.
Proof.
  cbn [value]. destruct (skip_white s) as [|c r]; [done|]. unfold scalar.
  destruct (Ascii.eqb_spec c quote_char) as [->|]; [done|]. done.
Qed.

Lemma value_steady n : steady elements 2 n -> steady members 2 n -> steady value 1 (S n).
Proof.
  intros He Hm d s x r H. rewrite value_step in H. pose proof (skip_white_le s) as Hw.
  destruct (skip_white s) as [|c s1] eqn:Es; [done|]. cbn [String.length] in Hw.
  assert (forall m y, (1 <= m)%nat -> (forall m', m = S m' ->
    (if Ascii.eqb c "["%char then
        match d with
        | O => None
        | S d => match token "]" s1 with Some r => Some (SArr [], r) | None => prod_map SArr id <$> elements m' d s1 end
        end
      else if Ascii.eqb c "{"%char then
        match d with
        | O => None
        | S d => match token "}" s1 with Some r => Some (SObj [], r) | None => prod_map SObj id <$> members m' d s1 end
        end
      else scalar c s1) = y) -> value m d s = y) as Hstep.
  { intros [|m] y Hm1 Hy; [lia|]. rewrite value_step, Es. by apply Hy. }
  destruct (Ascii.eqb c "["); [|destruct (Ascii.eqb c "{")].
  - destruct d as [|d]; [done|]. destruct (token "]" s1) as [r'|] eqn:Et.
    + injection H as <- <-. apply token_shorter in Et. split; [lia|]. intros m Hm'. apply Hstep; [lia|done].
    + apply (steady_fmap _ _ _ _ _ _ _ _ He) in H as [L M]. split; [lia|]. intros m Hm'.
      apply Hstep; [lia|]. intros m' ->. apply M. lia.
  - destruct d as [|d]; [done|]. destruct (token "}" s1) as [r'|] eqn:Et.
    + injection H as <- <-. apply token_shorter in Et. split; [lia|]. intros m Hm'. apply Hstep; [lia|done].
    + apply (steady_fmap _ _ _ _ _ _ _ _ Hm) in H as [L M]. split; [lia|]. intros m Hm'.
      apply Hstep; [lia|]. intros m' ->. apply M. lia.
  - pose proof (scalar_shorter _ _ _ _ H) as L. cbn in L. split; [lia|]. intros m Hm'. apply Hstep; [lia|done].
Qed.

(** Whatever fuel finds a value, that of [parse] finds the same. *)
Lemma parse_enough n d s x r : value n d s = Some (x, r) -> value (2 * len s + 1) d s = Some (x, r).
Proof.
  assert (steady value 1 n /\ steady elements 2 n /\ steady members 2 n) as (Hv & _).
  { induction n as [|n (IHv & IHe & IHm)]; [by split_and!|].
    split_and!; [by apply value_steady|by apply elements_steady|by apply members_steady]. }
  intros H%Hv. by apply H.
Qed.

(** *** Maps *)

Lemma str_ltb_trans a b c : str_ltb a b = true -> str_ltb b c = true -> str_ltb a c = true.
Proof.
  assert (forall x y, str_ltb x y = negb (str_leb y x)) as E by (intros; unfold str_leb; by rewrite negb_involutive).
  rewrite !E, !negb_true_iff. intros Hab Hbc. apply not_true_iff_false. intros Hca.
  destruct (str_leb_total a b) as [H|H]; [|congruence]. pose proof (str_leb_trans c a b Hca H). congruence.
Qed.

Lemma str_ltb_irrefl a : str_ltb a a = false.
Proof. pose proof (str_leb_refl a) as H. unfold str_leb in H. by apply negb_true_iff in H. Qed.

Lemma insert_key_elem {A} k (v : A) m kv : kv ∈ insert_key k v m -> kv = (k, v) \/ kv ∈ m.
Proof.
  induction m as [|[k' v'] m IH]; cbn [insert_key]; [set_solver|]. repeat case_if; set_solver.
Qed.

Lemma sort_keys_elem {A} (m : list (string * A)) kv : kv ∈ sort_keys m -> kv ∈ m.
Proof.
  induction m as [|[k v] m IH]; cbn [sort_keys foldr]; [done|].
  intros [->|H]%insert_key_elem; [by left|]. right. by apply IH.
Qed.

Lemma sort_keys_map {A B} (f : A -> B) m : sort_keys (List.map (on_snd f) m) = List.map (on_snd f) (sort_keys m).
Proof.
  induction m as [|[k v] m IH]; [done|]. cbn [List.map sort_keys foldr on_snd fst snd] in *. unfold sort_keys in IH.
  rewrite IH. generalize (foldr (fun kv acc => insert_key (fst kv) (snd kv) acc) [] m). intros l.
  induction l as [|[k' v'] l IHl]; [done|]. cbn [List.map insert_key on_snd fst snd].
  repeat case_if; [done..|]. cbn [List.map on_snd fst snd]. by rewrite IHl.
Qed.

Definition key_lt {A} (a b : string * A) : Prop := str_ltb (fst a) (fst b) = true.

Lemma sort_keys_sorted {A} (m : list (string * A)) : StronglySorted key_lt (sort_keys m).
Proof.
  induction m as [|[k v] m IH]; [constructor|]. cbn [sort_keys foldr fst snd]. fold (sort_keys m).
  induction IH as [|[k' v'] l Hl IH Hf]; [repeat constructor|]. cbn [insert_key].
  destruct (String.eqb_spec k k') as [->|Hk]; [by constructor|]. destruct (str_ltb k k') eqn:E.
  - constructor; [by constructor|]. constructor; [done|]. eapply Forall_impl; [exact Hf|].
    intros [x y] Hx. unfold key_lt in *. cbn [fst] in *. by eapply str_ltb_trans.
  - constructor; [done|]. apply Forall_forall. intros kv [->|H]%insert_key_elem.
    + unfold key_lt. cbn [fst]. destruct (str_ltb k' k) eqn:E'; [done|]. destruct Hk. apply str_ltb_eq.
      * unfold str_leb. by rewrite E'.
      * unfold str_leb. by rewrite E.
    + rewrite Forall_forall in Hf. by apply Hf.
Qed.

Lemma go_map_sorted {A} (m : list (string * A)) : StronglySorted key_lt m -> go_map m = m.
Proof.
  induction 1 as [|[k v] m Hs IH Hf]; [done|]. cbn [go_map]. rewrite IH.
  destruct (existsb _ m) eqn:E; [|done]. apply existsb_exists in E as ([k' v'] & Hin%list_elem_of_In & Hk%String.eqb_eq).
  cbn [fst] in Hk. subst k'.
  rewrite Forall_forall in Hf. apply Hf in Hin. unfold key_lt in Hin. cbn [fst] in Hin. by rewrite str_ltb_irrefl in Hin.
Qed.

Lemma oget_insert_key k0 v m k : oget (insert_key k0 v m) k = if String.eqb k0 k then Some v else oget m k.
Proof.
  induction m as [|[k' v'] m IH]; [done|]. cbn [insert_key].
  destruct (String.eqb_spec k0 k') as [->|Hk]; [cbn [oget]; by case_if|].
  destruct (str_ltb k0 k'); cbn [oget]; [done|]. rewrite IH.
  destruct (String.eqb_spec k' k) as [->|]; [|done]. by destruct (String.eqb_spec k0 k).
Qed.

Lemma oget_sort_keys m k : oget (sort_keys m) k = oget m k.
Proof.
  induction m as [|[k0 v] m IH]; [done|]. cbn [sort_keys foldr fst snd oget]. fold (sort_keys m).
  by rewrite oget_insert_key, IH.
Qed.

(** *** Decoding what was encoded *)

Lemma float_lit_reads n d lit : float_lit n d = Some lit -> float_lit_value lit = Some (n, d).
Proof.
  unfold float_lit. case_if; [case_if; [|done]; boolify; subst; intros [= <-]; reflexivity|].
  destruct (omap _ _) as [|[ds k] ?]; [done|]. case_bool_decide as E; [|done]. by intros [= <-].
Qed.

Lemma float_lit_value_valid lit q : float_lit_value lit = Some q -> valid_literal lit.
Proof.
  unfold float_lit_value. destruct (number lit) as [[[m e] r]|] eqn:E; [|done]. destruct r; [|done]. by exists m, e.
Qed.

Lemma float_lit_Itoa z : float_lit_value (Itoa z) = round64 z 1.
Proof.
  unfold float_lit_value. rewrite number_Itoa. unfold float_of. change (up 10 0) with 1%Z.
  change (up 10 (- 0)) with 1%Z. by rewrite Z.mul_1_r.
Qed.

Lemma encode_readable v d : encodable v = true -> utf8 v = true -> (json_depth v <= d)%nat -> readable d (encode v).
Proof.
  revert d. induction v as [|b|z|n q|s|l HF|m HF] using json_ind; intros d He Hu Hd; cbn [encode encodable utf8] in *.
  - constructor.
  - constructor.
  - constructor. exists z, 0%Z. apply number_Itoa.
  - constructor. destruct (float_lit n q) eqn:E; [|done]. apply float_lit_reads in E. by eapply float_lit_value_valid.
  - by constructor.
  - destruct d as [|d]; [cbn in Hd; lia|]. constructor. apply Forall_map, Forall_forall. intros x Hx.
    rewrite Forall_forall in HF. rewrite forallb_forall in He, Hu. pose proof (proj1 (list_elem_of_In _ _) Hx) as Hi.
    apply HF; [done|by apply He|by apply Hu|]. apply list_elem_of_lookup in Hx as [i Hx]. apply arr_depth in Hx. lia.
  - destruct d as [|d]; [cbn in Hd; lia|]. constructor. rewrite sort_keys_map. apply Forall_map, Forall_forall.
    intros [k x] Hx%sort_keys_elem. rewrite Forall_forall in HF. rewrite forallb_forall in He, Hu.
    pose proof (proj1 (list_elem_of_In _ _) Hx) as Hi. specialize (Hu _ Hi). apply andb_true_iff in Hu as [Hk Hu].
    split; [done|]. apply (HF (k, x)); [done|by apply (He (k, x))|done|].
    cbn in Hd. apply le_S_n in Hd. etransitivity; [|exact Hd]. apply list_max_le_elem.
    apply list_elem_of_In, in_map_iff. by exists (k, x).
Qed.

Fixpoint decode_all (l : list syntax) : option (list json) :=
  match l with [] => Some [] | x :: l' => x ← decode x; xs ← decode_all l'; Some (x :: xs) end.
Fixpoint decode_fields (m : list (string * syntax)) : option obj :=
  match m with [] => Some [] | (k, x) :: m' => x ← decode x; xs ← decode_fields m'; Some ((k, x) :: xs) end.

Lemma decode_arr l : decode (SArr l) = JArr <$> decode_all l.
Proof. reflexivity. Qed.
Lemma decode_obj m : decode (SObj m) = (fun m => JObj (go_map m)) <$> decode_fields m.
Proof. reflexivity. Qed.

Lemma decode_encode v : encodable v = true -> decode (encode v) = Some (rounded v).
Proof.
  induction v as [|b|z|n q|s|l HF|m HF] using json_ind; intros He; cbn [encode encodable rounded] in *; try done.
  - cbn [decode]. rewrite float_lit_Itoa. case_bool_decide; [|done].
    by destruct (round64_int64 z ltac:(lia)) as [[n d] ->].
  - destruct (float_lit n q) as [lit|] eqn:E; [|done]. change (default EmptyString (Some lit)) with lit.
    cbn [decode]. by rewrite (float_lit_reads _ _ _ E).
  - rewrite decode_arr. assert (decode_all (List.map encode l) = Some (List.map rounded l)) as ->; [|done].
    induction HF as [|x l Hx HF IH]; [done|]. cbn [forallb] in He. apply andb_true_iff in He as [Hx' He].
    cbn [List.map decode_all]. by rewrite Hx, IH.
  - rewrite decode_obj, !sort_keys_map.
    assert (Forall (fun kv => decode (encode (snd kv)) = Some (rounded (snd kv))) (sort_keys m)) as Hs.
    { apply Forall_forall. intros kv Hkv%sort_keys_elem. rewrite Forall_forall in HF. rewrite forallb_forall in He.
      apply HF; [done|]. by apply He, list_elem_of_In. }
    assert (decode_fields (List.map (on_snd encode) (sort_keys m)) = Some (List.map (on_snd rounded) (sort_keys m))) as ->.
    { induction Hs as [|[k x] l Hx _ IH]; [done|]. cbn [List.map decode_fields on_snd fst snd] in *. by rewrite Hx, IH. }
    cbn. by rewrite <- sort_keys_map, go_map_sorted by apply sort_keys_sorted.
Qed.

(** Every lookup in a decoded tree is the lookup in the tree that was encoded,
    rounded. *)
Lemma oget_rounded m k : oget (sort_keys (List.map (on_snd rounded) m)) k = rounded <$> oget m k.
Proof. rewrite oget_sort_keys. apply (oget_map_values rounded). Qed.

Lemma lookup_rounded v p : lookup_path (rounded v) p = rounded <$> lookup_path v p.
Proof.
  revert v. induction p as [|[k|i] p IH]; intros v; [done|..]; cbn [lookup_path child].
  - destruct v; cbn [rounded]; try done; [by destruct (round64 z 1) as [[? ?]|]|].
    rewrite oget_rounded. destruct (oget m k); [apply IH|done].
  - destruct v; cbn [rounded]; try done; [by destruct (round64 z 1) as [[? ?]|]|].
    rewrite list_lookup_fmap. destruct (l !! i); [apply IH|done].
Qed.
