(* ===== verification/Kube.v ===== *)
(** * The Kubernetes objects and calls the operator uses

    Not code of this repository: the types of k8s.io/api with the fields the
    operator reads or writes one by one (a field called [..._rest] stands for
    the others, which only travel along), and the signature [ev] of the calls
    it makes through client-go, exec, the object store and HTTP. What a call
    answers is never defined here: a theorem either holds for every answer or
    names the hypothesis it needs.

    A client is a handle compared by identity, as the Go interfaces are; a nil
    interface is [None]. *)

From Stdlib Require Import ZArith.
From S2P Require Import Prelude GoStrings Effects Api Json ObjectStore.

(** ** Objects *)

Record OwnerReference := mkOwner { or_APIVersion : string; or_Kind : string; or_Name : string }.

Definition strmap := option (gmap string string).

Record ObjectMeta := mkMeta {
  om_Name : string;
  om_Namespace : string;
  om_Labels : strmap;
  om_Annotations : strmap;
  om_OwnerReferences : list OwnerReference;
  om_UID : string;
  om_ResourceVersion : string;
  om_Generation : Z;
  om_ManagedFields : list json;
  om_rest : json }.

Definition new_meta (name ns : string) (labels anns : strmap) : ObjectMeta :=
  mkMeta name ns labels anns [] "" "" 0 [] JNull.

Record Toleration := mkTol { tol_Key : string; tol_rest : json }.
Record NodeSelectorRequirement := mkReq { nsr_Key : string; nsr_Values : list string }.
Record NodeSelectorTerm := mkTerm {
  nst_MatchExpressions : list NodeSelectorRequirement;
  nst_MatchFields : list NodeSelectorRequirement }.
Record NodeAffinity := mkNodeAffinity {
  na_Required : option (list NodeSelectorTerm); na_rest : json }.
Record Affinity := mkAffinity { af_NodeAffinity : option NodeAffinity; af_rest : json }.
Record PodSecurityContext := mkPSC {
  psc_FSGroup : option Z; psc_RunAsUser : option Z; psc_rest : json }.
Record EnvVar := mkEnv { env_Name : string; env_Value : string }.
Record VolumeMount := mkMount { vm_Name : string; vm_MountPath : string; vm_ReadOnly : bool }.
Record Container := mkContainer {
  ct_Name : string;
  ct_Image : string;
  ct_SecurityContext : option (option Z);   (* securityContext.runAsUser *)
  ct_Command : list string;
  ct_Env : list EnvVar;
  ct_VolumeMounts : list VolumeMount }.
Record Volume := mkVolume {
  vol_Name : string; vol_PVC : option string; vol_ConfigMap : option string }.
Record PodSpec := mkPodSpec {
  sp_NodeSelector : strmap;
  sp_NodeName : string;
  sp_Affinity : option Affinity;
  sp_TopologySpread : list json;
  sp_Tolerations : list Toleration;
  sp_SecurityContext : option PodSecurityContext;
  sp_InitContainers : list Container;
  sp_Containers : list Container;
  sp_Volumes : list Volume }.

Record TypedRef := mkRef { ref_APIGroup : option string; ref_Kind : string; ref_Name : string }.

Record PVC := mkPVC {
  pvc_Meta : ObjectMeta;
  pvc_AccessModes : list string;
  pvc_Storage : string;
  pvc_StorageClassName : option string;
  pvc_VolumeName : string;
  pvc_Selector : option strmap;             (* selector.matchLabels *)
  pvc_DataSource : option TypedRef;
  pvc_DataSourceRef : option TypedRef;
  pvc_Phase : string;                       (* status.phase *)
  pvc_StatusRest : json }.

Record StatefulSet := mkSts {
  sts_Meta : ObjectMeta;
  sts_Replicas : option Z;
  sts_TemplateAnnotations : strmap;
  sts_Template : PodSpec;
  sts_VolumeClaimTemplates : list string;
  sts_ReadyReplicas : Z;
  sts_rest : json }.

Record Deployment := mkDep {
  dep_Meta : ObjectMeta;
  dep_Replicas : option Z;
  dep_Template : PodSpec;
  dep_ReadyReplicas : Z;
  dep_rest : json }.

Record DaemonSet := mkDs {
  ds_Meta : ObjectMeta; ds_Template : PodSpec; ds_NumberReady : Z; ds_rest : json }.

Record Condition := mkCond { cond_Type : string; cond_Status : string }.

Record Pod := mkPod {
  pod_Meta : ObjectMeta; pod_Spec : PodSpec; pod_Phase : string;
  pod_Conditions : list Condition }.

Record ReplicaSet := mkRs { rs_Meta : ObjectMeta }.
Record Node := mkNode { nd_Meta : ObjectMeta; nd_Conditions : list Condition }.
Record Job := mkJob {
  job_Meta : ObjectMeta; job_Template : PodSpec; job_BackoffLimit : option Z;
  job_Succeeded : Z; job_Failed : Z }.
Record Namespace := mkNs { ns_Meta : ObjectMeta }.
Record Secret := mkSecret {
  sec_Meta : ObjectMeta; sec_Type : string; sec_Data : strmap }.
Record ConfigMap := mkCM { cm_Meta : ObjectMeta; cm_Data : strmap }.
Record ServicePort := mkPort {
  sport_Name : string; sport_Port : Z; sport_TargetPort : Z; sport_NodePort : Z }.
Record Service := mkSvc {
  svc_Meta : ObjectMeta; svc_Type : string; svc_Selector : strmap;
  svc_Ports : list ServicePort }.

(** ** Kinds of the typed client *)

Inductive kind :=
| KPVC | KStatefulSet | KDeployment | KDaemonSet | KPod | KReplicaSet | KNode
| KJob | KNamespace | KSecret | KConfigMap | KService.

#[export] Instance kind_eq_dec : EqDecision kind.
Proof. solve_decision. Defined.

Definition kobj (k : kind) : Type :=
  match k with
  | KPVC => PVC | KStatefulSet => StatefulSet | KDeployment => Deployment
  | KDaemonSet => DaemonSet | KPod => Pod | KReplicaSet => ReplicaSet
  | KNode => Node | KJob => Job | KNamespace => Namespace | KSecret => Secret
  | KConfigMap => ConfigMap | KService => Service
  end.

#[global] Arguments kobj : simpl never.

Definition kmeta {k : kind} : kobj k -> ObjectMeta :=
  match k with
  | KPVC => pvc_Meta | KStatefulSet => sts_Meta | KDeployment => dep_Meta
  | KDaemonSet => ds_Meta | KPod => pod_Meta | KReplicaSet => rs_Meta
  | KNode => nd_Meta | KJob => job_Meta | KNamespace => ns_Meta
  | KSecret => sec_Meta | KConfigMap => cm_Meta | KService => svc_Meta
  end.

(** ** Clients and calls *)

Record kube := Kube { kube_id : nat }.
Record dyn := Dyn { dyn_id : nat }.
Record execer := Exec { exec_id : nat }.
#[export] Instance kube_eq_dec : EqDecision kube.
Proof. solve_decision. Defined.
#[export] Instance dyn_eq_dec : EqDecision dyn.
Proof. solve_decision. Defined.

Record GVR := mkGVR { gvr_Group : string; gvr_Version : string; gvr_Resource : string }.
#[export] Instance GVR_eq_dec : EqDecision GVR.
Proof. solve_decision. Defined.

Record ExecResult := mkExecResult { ex_Stdout : string; ex_Stderr : string }.

(** What discovery lists: the groupVersion and the resources it serves. *)
Record APIResource := mkAPIResource {
  ar_Name : string; ar_Kind : string; ar_Namespaced : bool; ar_Verbs : list string }.
Record APIResourceList := mkAPIResourceList {
  arl_GroupVersion : string; arl_APIResources : list APIResource }.

(** The calls. [ns] is empty for a cluster-scoped resource. *)
Inductive ev : Type -> Type :=
| kGet (c : kube) (k : kind) (ns name : string) : ev (res (kobj k))
| kList (c : kube) (k : kind) (ns : string) : ev (res (list (kobj k)))
| kCreate (c : kube) (k : kind) (ns : string) (o : kobj k) : ev (option err)
| kUpdate (c : kube) (k : kind) (ns : string) (o : kobj k) : ev (option err)
| kDelete (c : kube) (k : kind) (ns name : string) : ev (option err)
| dGet (c : dyn) (r : GVR) (ns name : string) : ev (res obj)
| dList (c : dyn) (r : GVR) (ns selector : string) : ev (res (list obj))
| dCreate (c : dyn) (r : GVR) (ns : string) (o : obj) : ev (res obj)
| dUpdate (c : dyn) (r : GVR) (ns : string) (o : obj) : ev (option err)
| dDelete (c : dyn) (r : GVR) (ns name : string) : ev (option err)
(** Discovery: [ServerPreferredResources] and [ServerGroupsAndResources]; a
    partial answer comes with an error. *)
| discoPreferred (c : kube) : ev (list APIResourceList * option err)
| discoAll (c : kube) : ev (list APIResourceList * option err)
(** The SelfSubjectReview of a typed client: the username and the groups. *)
| kSelfSubjectReview (c : kube) : ev (res (string * list string))
(** [ctx.Err()]: whether the context has ended. *)
| ctxErr : ev (option err)
(** kubeexec: the command and its standard input. *)
| exec (x : execer) (ns pod container : string) (cmd : list string) (stdin : string)
    : ev (ExecResult * option err)
| storePut (s : store) (key data : string) : ev (option err)
| storeGet (s : store) (key : string) : ev (res string)
(** A new memory store of this process; loading the AWS configuration. *)
| newMemory : ev nat
| loadAWSConfig : ev (option err)
(** crypto/rand: [n] random bytes. *)
| randRead (n : nat) : ev (res string)
(** http.NewRequestWithContext for a POST: the error of a URL that does not
    parse; then the POST of a JSON body: the status code, the status line, and
    the decoded body. *)
| httpNewRequest (url : string) : ev (option err)
| httpPost (url : string) (body : json) (timeout : duration) : ev (res (Z * string * res json))
| now : ev time
| getenv (name : string) : ev string
(** The hub's own resources, through the controller-runtime client. An
    update of an Action answers the new resourceVersion. *)
| hubGetAction (ns name : string) : ev (res Action)
| hubCreateAction (a : Action) : ev (option err)
| hubUpdateAction (a : Action) : ev (res string)
| hubUpdateActionStatus (a : Action) : ev (res string)
| hubDeleteAction (ns name : string) : ev (option err)
| hubGetPolicy (ns name : string) : ev (res Policy)
| hubUpdatePolicyStatus (p : Policy) : ev (option err)
| hubGetPair (name : string) : ev (res ClusterPair)
| hubUpdatePairStatus (p : ClusterPair) : ev (option err)
| hubListPlugins : ev (res (list Plugin))
| hubGetSecret (ns name : string) : ev (res Secret)
(** The order in which a range loop visits a string map: any permutation of
    its entries. *)
| rangeOrder (m : gmap string string) : ev (list (string * string))
(** The hub's own file system and processes: whether a path is a directory, a
    new temporary directory, its removal, the combined output of a command, the
    files below a directory in the order of filepath.WalkDir, and a file. *)
| osStat (path : string) : ev (res bool)
| mkdirTemp (pattern : string) : ev (res string)
| removeAll (path : string) : ev (option err)
| runCommand (bin : string) (args : list string) : ev (string * option err)
| walkFiles (root : string) : ev (res (list string))
| readFile (path : string) : ev (res string)
(** Prometheus: a gauge set and a counter incremented, by its vector and the
    values of its labels. *)
| gaugeSet (vec : string) (labels : list string) (v : Z) : ev unit
| counterInc (vec : string) (labels : list string) : ev unit
(** A runtime panic: nothing runs after it. *)
| panic (msg : string) : ev Empty_set.

Definition panics {A} (msg : string) : io ev A :=
  Call (panic msg) (fun e : Empty_set => match e with end).

(** What a call does to a cluster. *)
Definition writes {X} (e : ev X) : bool :=
  match e with
  | kCreate _ _ _ _ | kUpdate _ _ _ _ | kDelete _ _ _ _
  | dCreate _ _ _ _ | dUpdate _ _ _ _ | dDelete _ _ _ _
  | storePut _ _ _ | exec _ _ _ _ _ _ => true
  | hubCreateAction _ | hubUpdateAction _ | hubUpdateActionStatus _ | hubDeleteAction _ _
  | hubUpdatePolicyStatus _ | hubUpdatePairStatus _ => true
  | _ => false
  end.

(** ** Field updates *)

Definition with_labels (l : strmap) (m : ObjectMeta) : ObjectMeta :=
  mkMeta (om_Name m) (om_Namespace m) l (om_Annotations m) (om_OwnerReferences m)
    (om_UID m) (om_ResourceVersion m) (om_Generation m) (om_ManagedFields m) (om_rest m).
Definition with_annotations (a : strmap) (m : ObjectMeta) : ObjectMeta :=
  mkMeta (om_Name m) (om_Namespace m) (om_Labels m) a (om_OwnerReferences m)
    (om_UID m) (om_ResourceVersion m) (om_Generation m) (om_ManagedFields m) (om_rest m).
Definition with_name (n : string) (m : ObjectMeta) : ObjectMeta :=
  mkMeta n (om_Namespace m) (om_Labels m) (om_Annotations m) (om_OwnerReferences m)
    (om_UID m) (om_ResourceVersion m) (om_Generation m) (om_ManagedFields m) (om_rest m).
Definition with_namespace (n : string) (m : ObjectMeta) : ObjectMeta :=
  mkMeta (om_Name m) n (om_Labels m) (om_Annotations m) (om_OwnerReferences m)
    (om_UID m) (om_ResourceVersion m) (om_Generation m) (om_ManagedFields m) (om_rest m).
Definition with_identity (uid rv : string) (m : ObjectMeta) : ObjectMeta :=
  mkMeta (om_Name m) (om_Namespace m) (om_Labels m) (om_Annotations m) (om_OwnerReferences m)
    uid rv (om_Generation m) (om_ManagedFields m) (om_rest m).

Definition pvc_with_meta (f : ObjectMeta -> ObjectMeta) (p : PVC) : PVC :=
  mkPVC (f (pvc_Meta p)) (pvc_AccessModes p) (pvc_Storage p) (pvc_StorageClassName p)
    (pvc_VolumeName p) (pvc_Selector p) (pvc_DataSource p) (pvc_DataSourceRef p)
    (pvc_Phase p) (pvc_StatusRest p).
Definition sts_with_meta (f : ObjectMeta -> ObjectMeta) (s : StatefulSet) : StatefulSet :=
  mkSts (f (sts_Meta s)) (sts_Replicas s) (sts_TemplateAnnotations s) (sts_Template s)
    (sts_VolumeClaimTemplates s) (sts_ReadyReplicas s) (sts_rest s).
Definition sts_with_replicas (r : option Z) (s : StatefulSet) : StatefulSet :=
  mkSts (sts_Meta s) r (sts_TemplateAnnotations s) (sts_Template s)
    (sts_VolumeClaimTemplates s) (sts_ReadyReplicas s) (sts_rest s).
Definition sts_with_template (t : PodSpec) (s : StatefulSet) : StatefulSet :=
  mkSts (sts_Meta s) (sts_Replicas s) (sts_TemplateAnnotations s) t
    (sts_VolumeClaimTemplates s) (sts_ReadyReplicas s) (sts_rest s).
Definition dep_with_meta (f : ObjectMeta -> ObjectMeta) (d : Deployment) : Deployment :=
  mkDep (f (dep_Meta d)) (dep_Replicas d) (dep_Template d) (dep_ReadyReplicas d) (dep_rest d).
Definition dep_with_replicas (r : option Z) (d : Deployment) : Deployment :=
  mkDep (dep_Meta d) r (dep_Template d) (dep_ReadyReplicas d) (dep_rest d).
Definition dep_with_template (t : PodSpec) (d : Deployment) : Deployment :=
  mkDep (dep_Meta d) (dep_Replicas d) t (dep_ReadyReplicas d) (dep_rest d).
Definition ds_with_template (t : PodSpec) (d : DaemonSet) : DaemonSet :=
  mkDs (ds_Meta d) t (ds_NumberReady d) (ds_rest d).

(** ** Reading the log of a run *)

(** The successful listings of a kind: the namespace and the objects. *)
Definition listed (k : kind) (e : event ev) : option (string * list (kobj k)) :=
  let '(mkEvent e a) := e in
  match e in ev X return X -> option (string * list (kobj k)) with
  | kList _ k' ns => fun a =>
      match decide (k' = k) with
      | left E => match a with
                  | Ok l => Some (ns, eq_rect k' (fun k => list (kobj k)) l k E)
                  | Err _ => None
                  end
      | right _ => None
      end
  | _ => fun _ => None
  end a.

Definition listings (k : kind) (log : list (event ev)) : list (string * list (kobj k)) :=
  omap (listed k) log.

Lemma listings_app k l1 l2 : listings k (l1 ++ l2) = listings k l1 ++ listings k l2.
Proof. apply omap_app. Qed.

Lemma listings_kList k c ns l : listings k [mkEvent (kList c k ns) (Ok l)] = [(ns, l)].
Proof.
  cbn. destruct (decide (k = k)) as [E|]; [|done]. by rewrite (proof_irrel E eq_refl).
Qed.

Lemma listings_kList_ne k k' c ns l : k' <> k -> listings k [mkEvent (kList c k' ns) (Ok l)] = [].
Proof. intros Hne. cbn. by destruct (decide (k' = k)). Qed.

Lemma listings_mono k x l1 l2 : x ∈ listings k l1 -> x ∈ listings k (l1 ++ l2).
Proof. rewrite listings_app, elem_of_app. auto. Qed.

Lemma listings_last k c ns l log :
  (ns, l) ∈ listings k (log ++ [mkEvent (kList c k ns) (Ok l)]).
Proof. rewrite listings_app, listings_kList. set_solver. Qed.

#[export] Hint Resolve listings_mono listings_last : portage.

(** The calls of a run that write to a cluster, in order. *)
Definition written (log : list (event ev)) : list (event ev) :=
  List.filter (fun e => writes (ev_call e)) log.

Lemma written_app l1 l2 : written (l1 ++ l2) = written l1 ++ written l2.
Proof. apply List.filter_app. Qed.

Lemma written_one {X} (e : ev X) x :
  written [mkEvent e x] = if writes e then [mkEvent e x] else [].
Proof. done. Qed.

#[export] Hint Rewrite written_app @written_one : portage.

Lemma unwritten (P : event ev -> Prop) log :
  written log = [] -> forall e, e ∈ written log -> P e.
Proof. intros ->. intros e He. by apply elem_of_nil in He. Qed.

(** ** What the calls of a program are *)

(** Every call [m] can make satisfies [Q]. *)
Fixpoint only (Q : forall X, ev X -> Prop) {A} (m : io ev A) : Prop :=
  match m with
  | Ret _ => True
  | Call e k => Q _ e /\ forall x, only Q (k x)
  end.

Abbreviation reads_only := (only (fun X (e : ev X) => writes e = false)).

Section only.
  Context (Q : forall X, ev X -> Prop).

Lemma only_bind {A B} (m : io ev A) (f : A -> io ev B) :
  only Q m -> (forall a, only Q (f a)) -> only Q (bind m f).
Proof. intros Hm Hf. induction m as [a|X e k IH]; cbn in *; [auto|]. destruct Hm. auto. Qed.

Lemma only_bind_returns {A B} (R : A -> Prop) (m : io ev A) (f : A -> io ev B) :
  only Q m -> returns R m -> (forall a, R a -> only Q (f a)) -> only Q (bind m f).
Proof.
  intros Hm HR Hf. induction m as [a|X e k IH]; cbn in *; [auto|]. destruct Hm as [He Hk].
  split; [done|]. intros x. apply IH; [done|]. by apply (HR x tt).
Qed.

Lemma only_trigger {X} (e : ev X) : Q X e -> only Q (trigger e).
Proof. by intros. Qed.

Lemma only_foldM {A S} (f : S -> A -> io ev S) s xs :
  (forall s x, only Q (f s x)) -> only Q (foldM f s xs).
Proof.
  intros Hf. revert s. induction xs as [|x xs IH]; intros s; cbn [foldM]; [done|].
  by apply only_bind.
Qed.

Lemma only_loopM {A S R} (f : S -> A -> io ev (S + R)) s xs :
  (forall s x, only Q (f s x)) -> only Q (loopM f s xs).
Proof.
  intros Hf. revert s. induction xs as [|x xs IH]; intros s; cbn [loopM]; [done|].
  apply only_bind; [done|]. by intros [s'|r].
Qed.

Lemma only_mono (Q' : forall X, ev X -> Prop) {A} (m : io ev A) :
  (forall X e, Q X e -> Q' X e) -> only Q m -> only Q' m.
Proof. intros HQ. induction m as [a|X e k IH]; cbn; [done|]. intros []. auto. Qed.

(** What every such call preserves, the program preserves. *)
Lemma wp_only (I : list (event ev) -> Prop) {A} (m : io ev A) log :
  only Q m -> (forall l X (e : ev X) x, Q X e -> I l -> I (l ++ [mkEvent e x])) -> I log ->
  wp any_env m log (fun log' _ => I log').
Proof.
  intros Hm HI. revert log. induction m as [a|X e k IH]; intros log Hl; cbn [wp only] in *; [done|].
  destruct Hm as [He Hk]. intros x s' ->. apply IH; auto.
Qed.

Lemma wp_only_ext {A} (m : io ev A) log : only Q m ->
  wp any_env m log (fun log' _ => exists ext, log' = log ++ ext /\ Forall (fun e => Q _ (ev_call e)) ext).
Proof.
  intros Hm. apply (wp_only (fun log' => exists ext, log' = log ++ ext /\ Forall (fun e => Q _ (ev_call e)) ext)); [done| |].
  - intros l X e x He (ext & -> & Hext). exists (ext ++ [mkEvent e x]). rewrite app_assoc. split; [done|].
    apply Forall_app. split; [done|]. by apply Forall_singleton.
  - exists []. by rewrite app_nil_r.
Qed.

(** With what it returns. *)
Lemma wp_only_returns {A} (R : A -> Prop) (m : io ev A) log : only Q m -> returns R m ->
  wp any_env m log (fun log' a => R a /\
    exists ext, log' = log ++ ext /\ Forall (fun e => Q _ (ev_call e)) ext).
Proof.
  intros Hm HR. apply wp_and; [by apply wp_returns|by apply wp_only_ext].
Qed.
End only.

Lemma wp_reads {A} (m : io ev A) log :
  reads_only m -> wp any_env m log (fun log' _ => written log' = written log).
Proof.
  intros Hm. apply (wp_only _ (fun l => written l = written log) m log Hm); [|done].
  intros l X e x He Hl. by rewrite written_app, written_one, He, app_nil_r.
Qed.

(** Sequences that stop at the first error. *)
Lemma wrapping_only Q pre (p : io ev (option err)) : only Q p -> only Q (wrapping pre p).
Proof. intros H. by apply only_bind. Qed.
Lemma check_only Q (p k : io ev (option err)) : only Q p -> only Q k -> only Q (p ;;? k).
Proof. intros H1 H2. apply only_bind; [done|]. by intros [e|]. Qed.

(** Decomposing a program into its calls. *)
Ltac reads := repeat first
  [ done
  | progress intros
  | progress (cbv beta zeta)
  | apply only_bind; [|intros]
  | apply only_trigger
  | apply only_foldM; intros
  | apply only_loopM; intros
  | match goal with |- only _ (match ?x with _ => _ end) => destruct x end
  | match goal with |- only _ (let '(_, _) := ?x in _) => destruct x end ].
