(* ===== verification/Exec.v ===== *)
(** * Running commands in pods: src/pkg/kubeexec/exec.go

    What the call [exec] of Kube.v does on a real cluster: one POST to the exec
    subresource over a WebSocket that may fall back to SPDY. The transports of
    client-go are calls ([newSPDY], [newWebSocket], [newFallback], [stream]);
    [Fake] is the execer of the tests, with its state. *)

From Stdlib Require Import ZArith Lia.
From S2P Require Import Prelude GoStrings Effects Kube.

(** corev1.PodExecOptions. *)
Record PodExecOptions := mkExecOptions {
  eo_Container : string; eo_Command : list string;
  eo_Stdout : bool; eo_Stderr : bool; eo_Stdin : bool }.

(** The request's URL: what client-go builds it from. *)
Record execURL := mkExecURL { eu_Namespace : string; eu_Pod : string; eu_Options : PodExecOptions }.

Record executor := mkExecutor { xr_id : nat }.

(** The calls of client-go. [stream] sends the standard input, if any, and
    answers what came back on the two outputs before the error. *)
Inductive xev : Type -> Type :=
| newSPDY (method : string) (u : execURL) : xev (res executor)
| newWebSocket (method : string) (u : execURL) : xev (res executor)
| newFallback (primary secondary : executor) : xev (res executor)
| stream (x : executor) (stdin : option string) : xev (string * string * option err).

(** ** SPDY *)

(** [Config] and [Client] are set or nil. *)
Record SPDY := mkSPDY { sp_Config : bool; sp_Client : bool }.

Definition executor_for (u : execURL) : io xev (res executor) :=
  let* spdy := trigger (newSPDY "POST" u) in
  match spdy with
  | Err e => Ret (Err e)
  | Ok spdy =>
      let* ws := trigger (newWebSocket "GET" u) in
      match ws with
      | Err _ => Ret (Ok spdy)
      | Ok ws => trigger (newFallback ws spdy)
      end
  end.

(** When the fallback executor turns to the second one. [IsUpgradeFailure] is
    httpstream's. *)
Definition fall_back (IsUpgradeFailure : err -> bool) (e : option err) : bool :=
  match e with
  | None => false
  | Some e => IsUpgradeFailure e || Contains (ToLower (err_msg e)) "upgrade"
  end.

(** len(stdin) > 0. *)
Definition has_stdin (stdin : string) : bool := negb (String.eqb stdin EmptyString).

Definition exec_options (container : string) (command : list string) (stdin : string) : PodExecOptions :=
  mkExecOptions container command true true (has_stdin stdin).

Definition ExecIn (s : SPDY) (namespace pod container : string) (command : list string) (stdin : string)
    : io xev (ExecResult * option err) :=
  if negb (sp_Client s) || negb (sp_Config s)
  then Ret (mkExecResult EmptyString EmptyString, Some (errorf "kubeexec: client/config not configured"))
  else
    let* x := executor_for (mkExecURL namespace pod (exec_options container command stdin)) in
    match x with
    | Err e => Ret (mkExecResult EmptyString EmptyString, Some e)
    | Ok x =>
        let* ' (out, errout, e) := trigger (stream x (if has_stdin stdin then Some stdin else None)) in
        Ret (mkExecResult out errout,
             option_map (wrapf ("exec " +:+ namespace +:+ "/" +:+ pod +:+ ": ")) e)
    end.

Definition Exec (s : SPDY) (namespace pod container : string) (command : list string)
    : io xev (ExecResult * option err) :=
  ExecIn s namespace pod container command EmptyString.

(** ** Fake *)

Module Fake.

(** The two maps may be nil. *)
Record Fake := mkFake {
  Results : option (gmap string ExecResult);
  Errors : option (gmap string err);
  Calls : list string;
  LastStdin : string }.

Definition ExecIn (f : Fake) (namespace pod container : string) (command : list string) (stdin : string)
    : Fake * (ExecResult * option err) :=
  let key := namespace +:+ "/" +:+ pod in
  let f := mkFake (Results f) (Errors f) (Calls f ++ [key +:+ " " +:+ Join " " command])
             (if has_stdin stdin then stdin else LastStdin f) in
  let none := mkExecResult EmptyString EmptyString in
  (f, match Errors f ≫= (fun m => m !! key) with
      | Some e => (none, Some e)
      | None =>
          match Results f ≫= (fun m => m !! key) with
          | Some r => (r, None)
          | None => (none, Some (errorf ("kubeexec fake: no result for " +:+ key +:+
                                         " (container " +:+ container +:+ ")")))
          end
      end).

Definition Exec (f : Fake) (namespace pod container : string) (command : list string)
    : Fake * (ExecResult * option err) :=
  ExecIn f namespace pod container command EmptyString.
End Fake.

(** ** Lemmas *)

(** The URL of an executor, and the streams, in a log. *)
Definition asked (e : event xev) : option (string * execURL) :=
  match ev_call e with newSPDY m u | newWebSocket m u => Some (m, u) | _ => None end.
Definition streamed (e : event xev) : option (option string * (string * string * option err)) :=
  match ev_call e in xev X return X -> option (option string * (string * string * option err)) with
  | stream _ stdin => fun a => Some (stdin, a)
  | _ => fun _ => None
  end (ev_answer e).

(** The URL asked for, and nothing streamed yet. *)
Lemma executor_for_wp u :
  always (executor_for u) (fun log _ => omap streamed log = [] /\
    Forall (fun x => snd x = u) (omap asked log)).
Proof.
  unfold always, executor_for. wp_call spdy. destruct spdy as [spdy|e]; [|by cbn; repeat constructor].
  wp_call ws. destruct ws as [ws|e]; [|by cbn; repeat constructor].
  intros x s' ->. cbn. by repeat constructor.
Qed.

(** ** Properties *)

(** the contract of the call [exec]. Whatever client-go answers, one [ExecIn]
    opens at most one stream, to the pod, container and command it was given,
    with the standard input attached exactly when there is some; it reports no
    error only if that stream ended without one; what the stream sent back is
    returned in both cases, and its error keeps its reason behind the names
    of the namespace and the pod. Without a client or a configuration nothing
    is called. *)
Theorem ExecIn_once s namespace pod container command stdin :
  always (ExecIn s namespace pod container command stdin) (fun log '(r, e) =>
    Forall (fun x => snd x = mkExecURL namespace pod (exec_options container command stdin)) (omap asked log) /\
    match omap streamed log with
    | [] => is_Some e /\ r = mkExecResult EmptyString EmptyString
    | [(sent, (out, errout, e'))] =>
        sent = (if String.eqb stdin EmptyString then None else Some stdin) /\ r = mkExecResult out errout /\
        (e = None <-> e' = None) /\ forall x, has_reason x e = has_reason x e'
    | _ => False
    end /\
    (sp_Client s = false \/ sp_Config s = false -> log = [])).
Proof.
  unfold always, ExecIn. case_if.
  { cbn. split_and!; [constructor|by eexists|done|done]. }
  apply wp_bind. eapply wp_mono; [apply executor_for_wp|]. intros log [x|e] [Hs Ha].
  - wp_call y. destruct y as [[out errout] e]. cbn [wp]. rewrite !omap_app, Hs. cbn.
    rewrite app_nil_r. split_and!; [exact Ha| |done| | |].
    + unfold has_stdin. by destruct (String.eqb stdin EmptyString).
    + by destruct e.
    + intros r. by destruct e.
    + intros [E|E]; rewrite E in Heqb; [done|]. by rewrite orb_true_r in Heqb.
  - cbn [wp]. rewrite Hs. split_and!; [exact Ha|by eexists|done|].
    intros [E|E]; rewrite E in Heqb; [done|]. by rewrite orb_true_r in Heqb.
Qed.

(** The fake answers from its maps, errors first, and records every call; the
    last standard input recorded is the last that was not empty. *)
Lemma Fake_ExecIn_spec f ns pod container command stdin :
  let '(f', (r, e)) := Fake.ExecIn f ns pod container command stdin in
  Fake.Results f' = Fake.Results f /\ Fake.Errors f' = Fake.Errors f /\
  Fake.Calls f' = Fake.Calls f ++ [ns +:+ "/" +:+ pod +:+ " " +:+ Join " " command] /\
  Fake.LastStdin f' = (if String.eqb stdin EmptyString then Fake.LastStdin f else stdin) /\
  (e = None -> exists m, Fake.Results f = Some m /\ m !! (ns +:+ "/" +:+ pod)%string = Some r /\
     (Fake.Errors f ≫= (fun m => m !! (ns +:+ "/" +:+ pod)%string)) = None).
Proof.
  unfold Fake.ExecIn. cbv zeta. cbn [Fake.Errors Fake.Results].
  set (key := (ns +:+ "/" +:+ pod)%string).
  assert (has_stdin stdin = negb (String.eqb stdin EmptyString)) as -> by done.
  destruct (Fake.Errors f ≫= fun m => m !! key) as [e|] eqn:Ee;
    [|destruct (Fake.Results f ≫= fun m => m !! key) as [r|] eqn:Er]; cbn;
    (split_and!; [done|done| |by destruct (String.eqb stdin EmptyString)|]); try done;
    try (subst key; by rewrite app_assoc_str).
  intros _. destruct (Fake.Results f) as [m|]; [|done]. cbn in Er. by exists m.
Qed.
