(* ===== verification/Unstructured.v ===== *)
(** * Operations of [unstructured.Unstructured] (k8s.io/apimachinery)

    Library code the program calls, so an interface: the class [Unstructured]
    lists the operations with the laws of their documentation, stated on what
    a lookup answers. The rest of the development is proved against the
    interface; [plain] is an implementation, for the witnesses. *)

From Stdlib Require Import ZArith Lia.
From S2P Require Import Prelude GoStrings Json.

(** [map[string]string] as a JSON object and back. *)
Definition json_of_strings (m : gmap string string) : json :=
  JObj (List.map (fun kv => (fst kv, JStr (snd kv))) (map_to_list m)).

Fixpoint strings_of_obj (m : obj) : option (gmap string string) :=
  match m with
  | [] => Some ∅
  | (k, JStr s) :: m' => (fun r => <[k := s]> r) <$> strings_of_obj m'
  | _ => None
  end.

(** Two field paths neither of which leads through the other. *)
Fixpoint apart (a b : list string) : bool :=
  match a, b with
  | x :: a', y :: b' => negb (String.eqb x y) || apart a' b'
  | _, _ => false
  end.

(** An owner reference. *)
Record OwnerRef := mkOwnerRef {
  ow_APIVersion : string; ow_Kind : string; ow_Name : string; ow_UID : string;
  ow_Controller : option bool; ow_BlockOwnerDeletion : option bool }.

Class Unstructured := {
  (** The value and whether it was found with the right type (the error of a
      value of another type is never looked at). *)
  NestedString : obj -> list string -> string * bool;
  NestedBool : obj -> list string -> bool * bool;
  NestedSlice : obj -> list string -> option (list json);
  NestedStringSlice : obj -> list string -> list string;
  NestedStringMap : obj -> list string -> option (gmap string string);
  (** The parsed metadata.deletionTimestamp, when there is one. *)
  GetDeletionTimestamp : obj -> option Z;
  GetOwnerReferences : obj -> list OwnerRef;
  SetOwnerReferences : obj -> list OwnerRef -> obj;
  RemoveNestedField : obj -> list string -> obj;
  (** [None] is the error: a field on the way is not a map; nothing changed. *)
  SetNestedField : obj -> json -> list string -> option obj;

  NestedString_law m ks :
    NestedString m ks = match lookup_path (JObj m) (keys ks) with
                        | Some (JStr s) => (s, true)
                        | _ => (EmptyString, false)
                        end;
  NestedBool_law m ks :
    NestedBool m ks = match lookup_path (JObj m) (keys ks) with
                      | Some (JBool b) => (b, true)
                      | _ => (false, false)
                      end;
  NestedSlice_law m ks :
    NestedSlice m ks = as_arr (lookup_path (JObj m) (keys ks));
  NestedStringSlice_law m ks :
    NestedStringSlice m ks = match lookup_path (JObj m) (keys ks) with
                             | Some (JArr l) => default [] (mapM (fun j => as_str (Some j)) l)
                             | _ => []
                             end;
  Owners_set m rs :
    (forall v, oget m "metadata" = Some v -> exists t, v = JObj t) -> rs <> [] ->
    GetOwnerReferences (SetOwnerReferences m rs) = rs;
  Owners_other m rs ks : apart ["metadata"; "ownerReferences"]%string ks = true ->
    lookup_path (JObj (SetOwnerReferences m rs)) (keys ks) = lookup_path (JObj m) (keys ks);
  NestedStringMap_law m ks :
    NestedStringMap m ks = match lookup_path (JObj m) (keys ks) with
                           | Some (JObj t) => strings_of_obj t
                           | _ => None
                           end;
  GetDeletionTimestamp_law m :
    (forall s, lookup_path (JObj m) (keys ["metadata"; "deletionTimestamp"]%string) <> Some (JStr s)) ->
    GetDeletionTimestamp m = None;
  Remove_last m k k' :
    oget (RemoveNestedField m [k]) k' = if String.eqb k k' then None else oget m k';
  Remove_deeper m k k2 ks k' :
    oget (RemoveNestedField m (k :: k2 :: ks)) k' =
    if String.eqb k k' then match oget m k with
                            | Some (JObj t) => Some (JObj (RemoveNestedField t (k2 :: ks)))
                            | o => o
                            end
    else oget m k';
  Set_last m v k :
    exists m', SetNestedField m v [k] = Some m' /\
      forall k', oget m' k' = if String.eqb k k' then Some v else oget m k';
  Set_deeper m v k k2 ks :
    match oget m k with
    | Some (JObj _) | None =>
        let t := default [] (as_obj (oget m k)) in
        match SetNestedField t v (k2 :: ks) with
        | Some t' => exists m', SetNestedField m v (k :: k2 :: ks) = Some m' /\
            forall k', oget m' k' = if String.eqb k k' then Some (JObj t') else oget m k'
        | None => SetNestedField m v (k :: k2 :: ks) = None
        end
    | Some _ => SetNestedField m v (k :: k2 :: ks) = None
    end }.

(** The accessors of metadata are these at their field. *)
Section accessors.
  Context {U : Unstructured}.

Definition GetKind (m : obj) : string := fst (NestedString m ["kind"%string]).
Definition GetAPIVersion (m : obj) : string := fst (NestedString m ["apiVersion"%string]).
Definition GetMeta (m : obj) (field : string) : string := fst (NestedString m ["metadata"%string; field]).
Definition GetName (m : obj) : string := GetMeta m "name".
Definition GetNamespace (m : obj) : string := GetMeta m "namespace".
Definition GetUID (m : obj) : string := GetMeta m "uid".
Definition GetResourceVersion (m : obj) : string := GetMeta m "resourceVersion".
Definition GetLabels (m : obj) : option (gmap string string) := NestedStringMap m ["metadata"; "labels"]%string.
Definition GetAnnotations (m : obj) : option (gmap string string) := NestedStringMap m ["metadata"; "annotations"]%string.

(** [Set...] of a zero value removes the field; an error is dropped. *)
Definition SetNested (m : obj) (v : option json) (ks : list string) : obj :=
  match v with
  | None => RemoveNestedField m ks
  | Some v => default m (SetNestedField m v ks)
  end.
Definition str_value (s : string) : option json :=
  if String.eqb s EmptyString then None else Some (JStr s).
Definition SetMeta (m : obj) (field : string) (v : option json) : obj :=
  SetNested m v ["metadata"%string; field].
Definition SetUID (m : obj) (s : string) : obj := SetMeta m "uid" (str_value s).
Definition SetResourceVersion (m : obj) (s : string) : obj := SetMeta m "resourceVersion" (str_value s).
Definition SetLabels (m : obj) (l : option (gmap string string)) : obj := SetMeta m "labels" (json_of_strings <$> l).
Definition SetAnnotations (m : obj) (l : option (gmap string string)) : obj := SetMeta m "annotations" (json_of_strings <$> l).
Definition SetKind (m : obj) (s : string) : obj := SetNested m (Some (JStr s)) ["kind"%string].
Definition SetAPIVersion (m : obj) (s : string) : obj := SetNested m (Some (JStr s)) ["apiVersion"%string].
End accessors.

(** ** An implementation *)

Fixpoint plain_remove (m : obj) (ks : list string) : obj :=
  match ks with
  | [] => m
  | [k] => odel m k
  | k :: ks' => match oget m k with
                | Some (JObj t) => oset m k (JObj (plain_remove t ks'))
                | _ => m
                end
  end.

Fixpoint plain_set (m : obj) (v : json) (ks : list string) : option obj :=
  match ks with
  | [] => None
  | [k] => Some (oset m k v)
  | k :: ks' => match oget m k with
                | Some (JObj t) => (fun t' => oset m k (JObj t')) <$> plain_set t v ks'
                | None => (fun t' => oset m k (JObj t')) <$> plain_set [] v ks'
                | Some _ => None
                end
  end.

Lemma oget_oset m k v k' : oget (oset m k v) k' = if String.eqb k k' then Some v else oget m k'.
Proof.
  destruct (String.eqb_spec k k') as [<-|Hne]; [by apply oget_oset_eq|by apply oget_oset_ne].
Qed.

Lemma oget_odel m k k' : oget (odel m k) k' = if String.eqb k k' then None else oget m k'.
Proof.
  destruct (String.eqb_spec k k') as [<-|Hne]; [by apply oget_odel_eq|by apply oget_odel_ne].
Qed.

Lemma plain_set_deeper m v k k2 ks :
  plain_set m v (k :: k2 :: ks) =
  match oget m k with
  | Some (JObj t) => (fun t' => oset m k (JObj t')) <$> plain_set t v (k2 :: ks)
  | None => (fun t' => oset m k (JObj t')) <$> plain_set [] v (k2 :: ks)
  | Some _ => None
  end.
Proof. done. Qed.

Definition opt_bool (k : string) (b : option bool) : obj :=
  match b with Some b => [(k, JBool b)] | None => [] end.
Definition encode_owner (r : OwnerRef) : json := JObj (
  [("apiVersion", JStr (ow_APIVersion r)); ("kind", JStr (ow_Kind r)); ("name", JStr (ow_Name r));
   ("uid", JStr (ow_UID r))]%string
  ++ opt_bool "controller" (ow_Controller r) ++ opt_bool "blockOwnerDeletion" (ow_BlockOwnerDeletion r)).
Definition as_bool (j : option json) : option bool := match j with Some (JBool b) => Some b | _ => None end.
Definition decode_owner (j : json) : option OwnerRef :=
  match j with
  | JObj m => Some (mkOwnerRef (str_or_empty (oget m "apiVersion")) (str_or_empty (oget m "kind"))
                (str_or_empty (oget m "name")) (str_or_empty (oget m "uid"))
                (as_bool (oget m "controller")) (as_bool (oget m "blockOwnerDeletion")))
  | _ => None
  end.
Definition plain_owners (m : obj) : list OwnerRef :=
  match lookup_path (JObj m) (keys ["metadata"; "ownerReferences"]%string) with
  | Some (JArr l) => omap decode_owner l
  | _ => []
  end.
Definition plain_set_owners (m : obj) (rs : list OwnerRef) : obj :=
  default m (plain_set m (JArr (List.map encode_owner rs)) ["metadata"; "ownerReferences"]%string).

Lemma decode_encode_owner r : decode_owner (encode_owner r) = Some r.
Proof. by destruct r as [a k n u [c|] [b|]]. Qed.

Lemma plain_owners_set m rs :
  (forall v, oget m "metadata" = Some v -> exists t, v = JObj t) ->
  plain_owners (plain_set_owners m rs) = rs.
Proof.
  intros Hm. unfold plain_owners, plain_set_owners. cbn [plain_set].
  destruct (oget m "metadata") as [v|] eqn:E; [destruct (Hm v eq_refl) as [t ->]|]; cbn;
    (induction rs as [|r rs IH]; [done|]; cbn [List.map omap list_omap]; rewrite decode_encode_owner; by rewrite IH).
Qed.

Lemma plain_set_owners_other m rs ks : apart ["metadata"; "ownerReferences"]%string ks = true ->
  lookup_path (JObj (plain_set_owners m rs)) (keys ks) = lookup_path (JObj m) (keys ks).
Proof.
  unfold plain_set_owners. cbn [plain_set]. set (v := JArr _). clearbody v. intros Ha.
  assert (forall t, (forall p, lookup_path (JObj m) (Key "metadata" :: p) = lookup_path (JObj t) p \/
                     oget m "metadata" = None /\ t = []) ->
    lookup_path (JObj (oset m "metadata" (JObj (oset t "ownerReferences" v)))) (keys ks) =
    lookup_path (JObj m) (keys ks)) as Hset.
  { intros t Ht. destruct ks as [|k1 [|k2 ks]]; [done| |]; cbn [apart] in Ha;
      cbn [keys List.map lookup_path child]; rewrite oget_oset;
      destruct (String.eqb_spec "metadata" k1) as [<-|]; try done. cbn in Ha.
    cbn [lookup_path child]. rewrite oget_oset.
    destruct (String.eqb_spec "ownerReferences" k2) as [<-|Hne]; [by rewrite orb_false_r in Ha|].
    destruct (Ht (Key k2 :: keys ks)) as [E|[E ->]]; [|by rewrite E]. symmetry. exact E. }
  destruct (oget m "metadata") as [w|] eqn:E; [destruct w; try done|]; apply Hset; intros p; [left|by right].
  cbn [lookup_path child]. by rewrite E.
Qed.

#[export, refine] Instance plain : Unstructured := {
  NestedString m ks := match lookup_path (JObj m) (keys ks) with
                       | Some (JStr s) => (s, true) | _ => (EmptyString, false) end;
  NestedBool m ks := match lookup_path (JObj m) (keys ks) with
                     | Some (JBool b) => (b, true) | _ => (false, false) end;
  NestedSlice m ks := as_arr (lookup_path (JObj m) (keys ks));
  NestedStringSlice m ks := match lookup_path (JObj m) (keys ks) with
                            | Some (JArr l) => default [] (mapM (fun j => as_str (Some j)) l)
                            | _ => [] end;
  GetOwnerReferences := plain_owners;
  SetOwnerReferences := plain_set_owners;
  NestedStringMap m ks := match lookup_path (JObj m) (keys ks) with
                          | Some (JObj t) => strings_of_obj t | _ => None end;
  GetDeletionTimestamp m :=
    match lookup_path (JObj m) (keys ["metadata"; "deletionTimestamp"]%string) with
    | Some (JStr s) => if String.eqb s EmptyString then None else Some 1%Z
    | _ => None
    end;
  RemoveNestedField := plain_remove;
  SetNestedField := plain_set }.
Proof.
  all: try done.
  - intros. by apply plain_owners_set.
  - intros. by apply plain_set_owners_other.
  - intros m H. destruct (lookup_path _ _) as [[]|]; try done. by destruct (H s).
  - intros. apply oget_odel.
  - intros m k k2 ks k'. cbn [plain_remove]. destruct (oget m k) as [v|] eqn:E.
    + destruct v; rewrite ?oget_oset;
        (destruct (String.eqb_spec k k') as [<-|]; [by rewrite ?E|done]).
    + destruct (String.eqb_spec k k') as [<-|]; [by rewrite E|done].
  - intros. eexists. split; [done|]. intros. apply oget_oset.
  - intros m v k k2 ks. rewrite plain_set_deeper. destruct (oget m k) as [w|]; [destruct w; try done|];
      cbn [as_obj default from_option id]; destruct (plain_set _ v (k2 :: ks)); cbn; try done;
      (eexists; split; [done|]; intros; apply oget_oset).
Defined.

(** ** Lemmas of the interface *)

Section laws.
  Context {U : Unstructured}.

(** What follows the removed field is gone. *)
Lemma remove_gone m ks p : ks <> [] ->
  lookup_path (JObj (RemoveNestedField m ks)) (keys ks ++ p) = None.
Proof.
  revert m. induction ks as [|k ks IH]; intros m Hks; [done|]. destruct ks as [|k2 ks].
  - cbn. by rewrite Remove_last, String.eqb_refl.
  - cbn [keys List.map app lookup_path child]. rewrite Remove_deeper, String.eqb_refl.
    destruct (oget m k) as [[]|]; try done. by apply IH.
Qed.

(** A path that leaves the removed one is not affected. *)
Lemma remove_other m ks p :
  ~ keys ks `prefix_of` p -> ~ p `prefix_of` keys ks ->
  lookup_path (JObj (RemoveNestedField m ks)) p = lookup_path (JObj m) p.
Proof.
  revert m p. induction ks as [|k ks IH]; intros m p Hk Hp; [by destruct Hk; apply prefix_nil|].
  destruct p as [|[k'|i] p]; [by destruct Hp; apply prefix_nil| |done].
  cbn [lookup_path child]. destruct ks as [|k2 ks].
  - rewrite Remove_last. destruct (String.eqb_spec k k') as [<-|]; [|done].
    destruct Hk. by apply prefix_cons, prefix_nil.
  - rewrite Remove_deeper. destruct (String.eqb_spec k k') as [<-|]; [|done].
    destruct (oget m k) as [[]|]; try done. apply IH.
    + intros H. by apply Hk, prefix_cons.
    + intros H. by apply Hp, prefix_cons.
Qed.

Lemma remove_prunes m ks : ks <> [] -> prunes (JObj m) (JObj (RemoveNestedField m ks)).
Proof.
  revert m. induction ks as [|k ks IH]; intros m Hks; [done|]. constructor. intros k' v'.
  destruct ks as [|k2 ks].
  - rewrite Remove_last. destruct (String.eqb k k'); [done|]. eauto using prunes_refl.
  - rewrite Remove_deeper. destruct (String.eqb_spec k k') as [<-|]; [|by eauto using prunes_refl].
    destruct (oget m k) as [w|]; [|done]. destruct w; intros [= <-]; eexists; (split; [done|]);
      first [by apply IH|apply prunes_refl].
Qed.

(** The field set reads back; the others are not affected. *)
Lemma set_here m v ks m' : SetNestedField m v ks = Some m' -> ks <> [] ->
  lookup_path (JObj m') (keys ks) = Some v.
Proof.
  revert m m'. induction ks as [|k ks IH]; intros m m' Hs Hks; [done|]. destruct ks as [|k2 ks].
  - destruct (Set_last m v k) as (m2 & E & Hl). simplify_eq. cbn. by rewrite Hl, String.eqb_refl.
  - pose proof (Set_deeper m v k k2 ks) as HD. destruct (oget m k) as [w|]; [destruct w; try congruence|];
      cbn in HD; (destruct (SetNestedField _ v (k2 :: ks)) as [t'|] eqn:E; [|congruence]);
      destruct HD as (m2 & E2 & Hl); simplify_eq; cbn [keys List.map lookup_path child];
      rewrite Hl, String.eqb_refl; by apply (IH _ _ E).
Qed.

(** An existing field can be set. *)
Lemma set_existing m v ks v0 : lookup_path (JObj m) (keys ks) = Some v0 -> ks <> [] ->
  is_Some (SetNestedField m v ks).
Proof.
  revert m. induction ks as [|k ks IH]; intros m Hl Hks; [done|]. destruct ks as [|k2 ks].
  - destruct (Set_last m v k) as (m' & -> & _). eauto.
  - cbn [keys List.map lookup_path child] in Hl. pose proof (Set_deeper m v k k2 ks) as HD.
    destruct (oget m k) as [w|]; [|done]. destruct w as [| | | | | |t]; try done.
    cbn [as_obj default from_option id] in HD. destruct (IH t Hl) as [t' E]; [done|].
    rewrite E in HD. destruct HD as (m' & -> & _). eauto.
Qed.

Lemma set_other m v ks m' p : SetNestedField m v ks = Some m' ->
  ~ keys ks `prefix_of` p -> ~ p `prefix_of` keys ks ->
  lookup_path (JObj m') p = lookup_path (JObj m) p.
Proof.
  revert m m' p. induction ks as [|k ks IH]; intros m m' p Hs Hk Hp; [by destruct Hk; apply prefix_nil|].
  destruct p as [|[k'|i] p]; [by destruct Hp; apply prefix_nil| |done].
  cbn [lookup_path child]. destruct ks as [|k2 ks].
  - destruct (Set_last m v k) as (m2 & E & Hl). simplify_eq. rewrite Hl.
    destruct (String.eqb_spec k k') as [<-|]; [|done]. destruct Hk. by apply prefix_cons, prefix_nil.
  - assert (~ keys (k2 :: ks) `prefix_of` p /\ ~ p `prefix_of` keys (k2 :: ks) \/ k <> k') as Hc.
    { destruct (decide (k = k')) as [<-|]; [left|by right].
      split; intros H; [apply Hk|apply Hp]; by apply prefix_cons. }
    pose proof (Set_deeper m v k k2 ks) as HD. destruct (oget m k) as [w|] eqn:Em; [destruct w; try congruence|];
      cbn in HD; (destruct (SetNestedField _ v (k2 :: ks)) as [t'|] eqn:E; [|congruence]);
      destruct HD as (m2 & E2 & Hl); simplify_eq; rewrite Hl;
      (destruct (String.eqb_spec k k') as [<-|]; [|done]); destruct Hc as [[H1 H2]|]; try done;
      rewrite (IH _ _ p E H1 H2), ?Em; [done|].
    destruct p as [|[]]; [by destruct H2; apply prefix_nil|done..].
Qed.

Lemma apart_spec a b : apart a b = true ->
  ~ keys a `prefix_of` keys b /\ ~ keys b `prefix_of` keys a.
Proof.
  revert b. induction a as [|x a IH]; intros [|y b] H; try done. cbn in H. cbn [keys List.map].
  apply orb_true_iff in H as [H|H].
  - boolify. split; intros Hp; apply prefix_cons_inv_1 in Hp; by simplify_eq.
  - destruct (IH _ H). split; intros Hp; apply prefix_cons_inv_2 in Hp; auto.
Qed.

Lemma SetNested_other m v ks ks' : apart ks ks' = true ->
  lookup_path (JObj (SetNested m v ks)) (keys ks') = lookup_path (JObj m) (keys ks').
Proof.
  intros [H1 H2]%apart_spec. destruct v as [v|]; cbn [SetNested]; [|by apply remove_other].
  destruct (SetNestedField m v ks) eqn:E; [|done]. by eapply set_other.
Qed.
End laws.
