(* ===== verification/Classify.v ===== *)
(** * Classification: src/pkg/classify

    What a workload is (class.go), which engine an image belongs to
    (catalog.go), and the inventory of a namespace (walk.go). [Catalog] is a
    package variable [Register] changes, so it is an argument here;
    [builtin_catalog] is its initial value. *)

From Stdlib Require Import ZArith Lia Ascii Sorting.Sorted.
From S2P Require Import Prelude GoStrings Effects Api Json Kube.

(** ** class.go *)

Record Workload := mkWorkload {
  w_Namespace : string;
  w_Name : string;
  w_Kind : string;
  w_APIVersion : string;
  w_Class : WorkloadClass;
  w_Engine : string;
  w_Images : list string;
  w_PVCNames : list string;
  w_Unclassified : bool;
  w_FSGroup : option Z;
  w_RunAsUser : option Z }.

#[export] Instance Workload_eq_dec : EqDecision Workload.
Proof. solve_decision. Defined.

(** [Workload.Key]: namespace/kind/name. *)
Definition WKey (w : Workload) : string :=
  w_Namespace w +:+ "/" +:+ w_Kind w +:+ "/" +:+ w_Name w.

Record Inventory := mkInventory {
  inv_Namespaces : list string;
  inv_Workloads : list Workload }.

Definition is_stateful (w : Workload) : bool := negb (bool_decide (w_Class w = ClassStateless)).

Definition Stateful (inv : Inventory) : list Workload :=
  List.filter is_stateful (inv_Workloads inv).

(** [Counts]: the class histogram, as the value of every class. *)
Definition Counts (inv : Inventory) (c : WorkloadClass) : Z :=
  fold_left (fun n w => if bool_decide (w_Class w = c) then (n + 1)%Z else n) (inv_Workloads inv) 0%Z.

(** ** catalog.go *)

Record Engine := mkEngine {
  eng_Name : string;
  eng_Class : WorkloadClass;
  eng_ImageMatchers : list string;
  eng_CRDMatchers : list string;
  eng_LogicalDump : bool }.

#[export] Instance Engine_eq_dec : EqDecision Engine.
Proof. solve_decision. Defined.

Definition builtin_catalog : list Engine := [
  mkEngine "timescale" ClassSQLLogical ["timescale/timescaledb"; "timescaledb"] [] true;
  mkEngine "cockroach" ClassSQLLogical ["cockroachdb/cockroach"; "cockroachdb"] [] false;
  mkEngine "postgres" ClassSQLLogical
    ["bitnami/postgresql"; "cloudnative-pg"; "crunchydata"; "pgvector";
     "supabase/postgres"; "enterprisedb"; "postgis"; "postgresql"; "postgres"]
    ["postgresql.cnpg.io/Cluster"; "postgres-operator.crunchydata.com/PostgresCluster"] true;
  mkEngine "mariadb" ClassSQLLogical ["bitnami/mariadb"; "mariadb"] [] true;
  mkEngine "mysql" ClassSQLLogical
    ["bitnami/mysql"; "percona/percona-server"; "mysql/mysql-server"; "mysql"]
    ["pxc.percona.com/PerconaXtraDBCluster"; "mysql.presslabs.org/MysqlCluster"] true;
  mkEngine "mssql" ClassSQLLogical
    ["mssql/server"; "microsoft/mssql-server"; "azure-sql-edge"] [] false;
  mkEngine "clickhouse" ClassSQLLogical
    ["clickhouse/clickhouse-server"; "bitnami/clickhouse"; "clickhouse"] [] true;
  mkEngine "mongo" ClassKVLogical
    ["bitnami/mongodb"; "percona/percona-server-mongodb"; "mongodb/mongodb-community-server"; "mongo"]
    ["psmdb.percona.com/PerconaServerMongoDB"] true;
  mkEngine "redis" ClassKVLogical
    ["bitnami/redis"; "redis/redis-stack"; "redis-stack"; "redis"]
    ["redis.redis.opstreelabs.in/Redis"; "databases.spotahome.com/RedisFailover"] true;
  mkEngine "valkey" ClassKVLogical ["valkey/valkey"; "bitnami/valkey"; "valkey"] [] true;
  mkEngine "keydb" ClassKVLogical ["eqalpha/keydb"; "keydb"] [] true;
  mkEngine "dragonfly" ClassKVLogical ["dragonflydb/dragonfly"; "dragonfly"] [] true;
  mkEngine "elasticsearch" ClassSearchFS
    ["bitnami/elasticsearch"; "elastic/elasticsearch"; "elasticsearch"] [] false;
  mkEngine "opensearch" ClassSearchFS
    ["opensearchproject/opensearch"; "bitnami/opensearch"; "opensearch"] [] false;
  mkEngine "cassandra" ClassSearchFS ["bitnami/cassandra"; "cassandra"] [] false;
  mkEngine "scylla" ClassSearchFS ["scylladb/scylla"; "scylla"] [] false;
  mkEngine "neo4j" ClassSearchFS ["neo4j"] [] false;
  mkEngine "influxdb" ClassSearchFS ["bitnami/influxdb"; "influxdb"] [] false;
  mkEngine "rabbitmq" ClassQueueDurable ["bitnami/rabbitmq"; "rabbitmq"] [] true;
  mkEngine "nats" ClassQueueDurable ["natsio/nats-server"; "bitnami/nats"; "nats"] [] false;
  mkEngine "kafka" ClassQueueDurable
    ["bitnami/kafka"; "confluentinc/cp-kafka"; "strimzi"; "kafka"] ["kafka.strimzi.io/Kafka"] false;
  mkEngine "minio" ClassObjectStore
    ["bitnami/minio"; "minio/minio"; "quay.io/minio/minio"; "minio"] [] false;
  mkEngine "etcd" ClassKVLogical ["bitnami/etcd"; "quay.io/coreos/etcd"; "etcd"] [] true ].

(** One engine's inner loop of [MatchImage]. *)
Definition image_matches (lower : string) (e : Engine) : bool :=
  existsb (fun m => negb (String.eqb m EmptyString) && Contains lower (ToLower m))
    (eng_ImageMatchers e).

Definition MatchImage (Catalog : list Engine) (image : string) : option Engine :=
  List.find (image_matches (ToLower image)) Catalog.

Definition MatchCRD (Catalog : list Engine) (groupKind : string) : option Engine :=
  List.find (fun e => existsb (fun m => EqualFold m groupKind) (eng_CRDMatchers e)) Catalog.

Definition Register (Catalog : list Engine) (e : Engine) : list Engine := e :: Catalog.

(** ** walk.go: names and claims *)

Definition Namespaces (requested : list string) (defaultNS : string) : list string :=
  match requested with
  | [] => if String.eqb defaultNS EmptyString then ["default"] else [defaultNS]
  | _ => requested
  end.

Definition podImages (spec : PodSpec) : list string :=
  List.map ct_Image (sp_InitContainers spec) ++ List.map ct_Image (sp_Containers spec).

(** [if _, ok := seen[n]; ok { continue }; seen[n] = ...; names = append(...)] *)
Definition add_name (st : gset string * list string) (n : string) : gset string * list string :=
  let '(seen, names) := st in
  if bool_decide (n ∈ seen) then st else ({[n]} ∪ seen, names ++ [n]).

Definition podPVCs (spec : PodSpec) : list string :=
  snd (fold_left (fun st v => match vol_PVC v with
                              | None => st
                              | Some n => add_name st n
                              end) (sp_Volumes spec) (∅, [])).

Definition vct_claim (vct sts : string) (i : Z) : string :=
  vct +:+ "-" +:+ sts +:+ "-" +:+ Itoa i.

(** [for i := int32(0); i < n; i++] *)
Definition int32_range (n : Z) : list Z := List.map Z.of_nat (seq 0 (Z.to_nat n)).

Definition stsPVCs (sts : StatefulSet) : list string :=
  let names := podPVCs (sts_Template sts) in
  let seen : gset string := list_to_set names in
  let replicas := match sts_Replicas sts with
                  | Some r => if (0 <? r)%Z then r else 1%Z
                  | None => 1%Z
                  end in
  snd (fold_left (fun st vct =>
         fold_left (fun st i => add_name st (vct_claim vct (om_Name (sts_Meta sts)) i))
           (int32_range replicas) st)
       (sts_VolumeClaimTemplates sts) (seen, names)).

Definition ScratchPVCName (name : string) : bool :=
  if String.eqb name EmptyString then false
  else if HasPrefix name "volsync-src-" || HasPrefix name "volsync-dst-" then true
  else HasPrefix name "volsync-" && HasSuffix name "-cache".

Definition IsMoverScratchPVC (pvc : PVC) : bool :=
  if String.eqb (nmap_get EmptyString (om_Labels (pvc_Meta pvc)) "app.kubernetes.io/created-by")
       "volsync" then true
  else if existsb (fun o => HasPrefix (or_APIVersion o) "volsync.backube/" &&
                   (String.eqb (or_Kind o) "ReplicationSource" ||
                    String.eqb (or_Kind o) "ReplicationDestination"))
            (om_OwnerReferences (pvc_Meta pvc)) then true
  else ScratchPVCName (om_Name (pvc_Meta pvc)).

Definition claim_key (ns p : string) : string := ns +:+ "/" +:+ p.

Definition markClaimed (claimed : gset string) (ns : string) (pvcs : list string) : gset string :=
  fold_left (fun c p => {[claim_key ns p]} ∪ c) pvcs claimed.

(** ** walk.go: the inventory *)

Section walk.
  Context (Catalog : list Engine).

Fixpoint matchImages (images : list string) : option Engine :=
    match images with
    | [] => None
    | img :: rest => match MatchImage Catalog img with
                     | Some e => Some e
                     | None => matchImages rest
                     end
    end.

  (** The pod's runAsUser, or the first container's that sets one. *)
Definition run_as_user (spec : PodSpec) : option Z :=
    let pod := match sp_SecurityContext spec with Some sc => psc_RunAsUser sc | None => None end in
    match pod with
    | Some u => Some u
    | None => match List.find (fun c => match ct_SecurityContext c with
                                       | Some (Some _) => true
                                       | _ => false
                                       end) (sp_Containers spec) with
              | Some c => match ct_SecurityContext c with Some u => u | None => None end
              | None => None
              end
    end.

Definition fromPodOwner (ns kind apiVersion name : string) (spec : PodSpec)
      (pvcs : list string) : Workload :=
    let images := podImages spec in
    let w cls engine := mkWorkload ns name kind apiVersion cls engine images pvcs false
              (match sp_SecurityContext spec with Some sc => psc_FSGroup sc | None => None end)
              (run_as_user spec) in
    match matchImages images with
    | Some eng => w (eng_Class eng) (eng_Name eng)
    | None => match pvcs with
              | [] => w ClassStateless EmptyString
              | _ => w ClassGenericPVC EmptyString
              end
    end.

Definition of_sts (ns : string) (s : StatefulSet) : Workload :=
    fromPodOwner ns "StatefulSet" "apps/v1" (om_Name (sts_Meta s)) (sts_Template s) (stsPVCs s).
Definition of_dep (ns : string) (d : Deployment) : Workload :=
    fromPodOwner ns "Deployment" "apps/v1" (om_Name (dep_Meta d)) (dep_Template d)
      (podPVCs (dep_Template d)).
Definition of_ds (ns : string) (d : DaemonSet) : Workload :=
    fromPodOwner ns "DaemonSet" "apps/v1" (om_Name (ds_Meta d)) (ds_Template d)
      (podPVCs (ds_Template d)).

Definition walk_state : Type := list Workload * gset string.

Definition add_workload (ns : string) (st : walk_state) (w : Workload) : walk_state :=
    (fst st ++ [w], markClaimed (snd st) ns (w_PVCNames w)).

  (** A claim no controller mounts. *)
Definition orphan (ns : string) (p : PVC) : Workload :=
    mkWorkload ns (om_Name (pvc_Meta p)) "PersistentVolumeClaim" "v1" ClassUnknownStateful
      EmptyString [] [om_Name (pvc_Meta p)] true None None.

Definition add_orphan (ns : string) (st : walk_state) (p : PVC) : walk_state :=
    if bool_decide (claim_key ns (om_Name (pvc_Meta p)) ∈ snd st) then st
    else if IsMoverScratchPVC p then st
    else (fst st ++ [orphan ns p], snd st).

Definition walk_ns (client : kube) (st : walk_state) (ns : string) : io ev (walk_state + err) :=
    let* sts := trigger (kList client KStatefulSet ns) in
    match sts with
    | Err e => Ret (inr (wrapf ("list StatefulSets in " +:+ ns +:+ ": ") e))
    | Ok sts =>
        let st := fold_left (fun st s => add_workload ns st (of_sts ns s)) sts st in
        let* deps := trigger (kList client KDeployment ns) in
        match deps with
        | Err e => Ret (inr (wrapf ("list Deployments in " +:+ ns +:+ ": ") e))
        | Ok deps =>
            let st := fold_left (fun st d => add_workload ns st (of_dep ns d)) deps st in
            let* dss := trigger (kList client KDaemonSet ns) in
            match dss with
            | Err e => Ret (inr (wrapf ("list DaemonSets in " +:+ ns +:+ ": ") e))
            | Ok dss =>
                let st := fold_left (fun st d => add_workload ns st (of_ds ns d)) dss st in
                let* pvcs := trigger (kList client KPVC ns) in
                match pvcs with
                | Err e => Ret (inr (wrapf ("list PVCs in " +:+ ns +:+ ": ") e))
                | Ok pvcs => Ret (inl (fold_left (add_orphan ns) pvcs st))
                end
            end
        end
    end.

  (** The comparison of the final [sort.Slice]; a stable sort is one of the
      orders it may produce. *)
Definition workload_less (a b : Workload) : bool :=
    if negb (String.eqb (w_Namespace a) (w_Namespace b)) then str_ltb (w_Namespace a) (w_Namespace b)
    else if negb (String.eqb (w_Kind a) (w_Kind b)) then str_ltb (w_Kind a) (w_Kind b)
    else str_ltb (w_Name a) (w_Name b).
Definition workload_leb (a b : Workload) : bool := negb (workload_less b a).

Definition Walk (client : kube) (namespaces : list string) : io ev (res Inventory) :=
    let* r := loopM (walk_ns client) ([], ∅) namespaces in
    match r with
    | inr e => Ret (Err e)
    | inl (ws, _) => Ret (Ok (mkInventory namespaces (isort workload_leb ws)))
    end.
End walk.

(** ** Lemmas *)

(** *** The order of the inventory *)

Definition kind_leb : Workload -> Workload -> bool :=
  lex_leb w_Kind (fun a b => str_leb (w_Name a) (w_Name b)).

Lemma workload_leb_lex a b : workload_leb a b = lex_leb w_Namespace kind_leb a b.
Proof.
  unfold workload_leb, workload_less, kind_leb, lex_leb, str_leb.
  rewrite (String.eqb_sym (w_Namespace b)), (String.eqb_sym (w_Kind b)).
  destruct (String.eqb (w_Namespace a) (w_Namespace b)); simpl; [|done].
  by destruct (String.eqb (w_Kind a) (w_Kind b)).
Qed.

Lemma kind_leb_total a b : kind_leb a b = true \/ kind_leb b a = true.
Proof. apply lex_leb_total. intros. apply str_leb_total. Qed.

Lemma kind_leb_trans a b c : kind_leb a b = true -> kind_leb b c = true -> kind_leb a c = true.
Proof. apply lex_leb_trans. intros. by eapply str_leb_trans. Qed.

Lemma workload_leb_total a b : workload_leb a b = true \/ workload_leb b a = true.
Proof. rewrite !workload_leb_lex. apply lex_leb_total, kind_leb_total. Qed.

Lemma workload_leb_trans a b c :
  workload_leb a b = true -> workload_leb b c = true -> workload_leb a c = true.
Proof. rewrite !workload_leb_lex. apply lex_leb_trans, kind_leb_trans. Qed.

(** *** Claims *)

Lemma add_name_spec seen names n seen' names' :
  add_name (seen, names) n = (seen', names') ->
  (forall x, x ∈ seen <-> x ∈ names) -> NoDup names ->
  (forall x, x ∈ seen' <-> x ∈ names') /\ NoDup names' /\
  (forall x, x ∈ names' <-> x ∈ names \/ x = n) /\ exists tl, names' = names ++ tl.
Proof.
  unfold add_name. intros H Hs Hn. case_bool_decide as Hin; simplify_eq.
  - split_and!; [done|done| |by exists []; rewrite app_nil_r].
    intros x. split; [auto|]. intros [?| ->]; [done|by apply Hs].
  - split_and!.
    + intros x. rewrite elem_of_union, elem_of_singleton, elem_of_app, list_elem_of_singleton, Hs.
      tauto.
    + apply NoDup_app. split_and!; [done| |apply NoDup_singleton].
      intros x Hx ->%list_elem_of_singleton. by apply Hin, Hs.
    + intros x. by rewrite elem_of_app, list_elem_of_singleton.
    + eauto.
Qed.

(** Folding [add_name] over the names of a list of things. *)
Lemma add_names_spec {A} (f : A -> list string) (xs : list A) seen names seen' names' :
  fold_left (fun st x => fold_left add_name (f x) st) xs (seen, names) = (seen', names') ->
  (forall x, x ∈ seen <-> x ∈ names) -> NoDup names ->
  (forall x, x ∈ seen' <-> x ∈ names') /\ NoDup names' /\
  (forall n, n ∈ names' <-> n ∈ names \/ exists x, x ∈ xs /\ n ∈ f x).
Proof.
  assert (forall l seen names seen' names',
    fold_left add_name l (seen, names) = (seen', names') ->
    (forall x, x ∈ seen <-> x ∈ names) -> NoDup names ->
    (forall x, x ∈ seen' <-> x ∈ names') /\ NoDup names' /\
    (forall n, n ∈ names' <-> n ∈ names \/ n ∈ l)) as Hl.
  { clear. induction l as [|n l IH]; intros seen names seen' names'; cbn [fold_left].
    - intros [= <- <-] Hs Hn. split_and!; [done..|]. intros n. rewrite elem_of_nil. tauto.
    - destruct (add_name (seen, names) n) as [seen1 names1] eqn:E. intros H Hs Hn.
      apply add_name_spec in E as (Hs1 & Hn1 & Hin & _); [|done..].
      apply IH in H as (Hs2 & Hn2 & Hin2); [|done..]. split_and!; [done..|].
      intros m. rewrite Hin2, Hin, elem_of_cons. tauto. }
  revert seen names. induction xs as [|x xs IH]; intros seen names; simpl.
  - intros [= <- <-] Hs Hn. split_and!; [done..|]. intros n. split; [auto|].
    intros [?|(x & Hx & _)]; [done|]. by apply elem_of_nil in Hx.
  - destruct (fold_left add_name (f x) (seen, names)) as [seen1 names1] eqn:E. intros H Hs Hn.
    apply Hl in E as (Hs1 & Hn1 & Hin); [|done..].
    apply IH in H as (Hs2 & Hn2 & Hin2); [|done..]. split_and!; [done..|].
    intros n. rewrite Hin2, Hin. setoid_rewrite elem_of_cons. split.
    + intros [[?|?]|(y & ? & ?)]; eauto 6.
    + intros [?|(y & [-> |?] & ?)]; eauto 6.
Qed.

Definition vol_claims (v : Volume) : list string :=
  match vol_PVC v with Some n => [n] | None => [] end.

Lemma podPVCs_spec spec :
  NoDup (podPVCs spec) /\
  forall n, n ∈ podPVCs spec <-> exists v, v ∈ sp_Volumes spec /\ vol_PVC v = Some n.
Proof.
  unfold podPVCs.
  assert (forall vs st, fold_left (fun st v => match vol_PVC v with
                              | None => st | Some n => add_name st n end) vs st
          = fold_left (fun st v => fold_left add_name (vol_claims v) st) vs st) as ->.
  { intros vs. induction vs as [|v vs IH]; intros st; simpl; [done|]. rewrite IH. f_equal.
    unfold vol_claims. by destruct (vol_PVC v). }
  destruct (fold_left _ _ _) as [seen names] eqn:E.
  apply add_names_spec in E as (_ & Hn & Hin); [|set_solver|constructor].
  split; [done|]. intros n. simpl. rewrite Hin, elem_of_nil. split.
  - intros [[]|(v & Hv & Hn')]. exists v. unfold vol_claims in Hn'.
    destruct (vol_PVC v); [|by apply elem_of_nil in Hn'].
    apply list_elem_of_singleton in Hn' as ->. done.
  - intros (v & Hv & Hn'). right. exists v. unfold vol_claims. rewrite Hn'.
    by rewrite list_elem_of_singleton.
Qed.

Lemma elem_of_int32_range n i : i ∈ int32_range n <-> (0 <= i < n)%Z.
Proof.
  unfold int32_range. rewrite list_elem_of_fmap. split.
  - intros (k & -> & Hk%elem_of_seq). lia.
  - intros H. exists (Z.to_nat i). rewrite Z2Nat.id by lia. split; [done|].
    apply elem_of_seq. lia.
Qed.

Lemma fold_left_map {A B C} (f : C -> B -> C) (g : A -> B) l : forall c,
  fold_left f (List.map g l) c = fold_left (fun c a => f c (g a)) l c.
Proof. induction l; simpl; auto. Qed.

(** The claims of a StatefulSet: those its pods mount by name and, for every
    claim template, one per ordinal; each once. *)
Definition sts_replica_count (sts : StatefulSet) : Z :=
  match sts_Replicas sts with Some r => if (0 <? r)%Z then r else 1%Z | None => 1%Z end.

Lemma stsPVCs_iff sts :
  NoDup (stsPVCs sts) /\
  forall n, n ∈ stsPVCs sts <->
    n ∈ podPVCs (sts_Template sts) \/
    exists vct i, vct ∈ sts_VolumeClaimTemplates sts /\ (0 <= i < sts_replica_count sts)%Z /\
      n = vct_claim vct (om_Name (sts_Meta sts)) i.
Proof.
  unfold stsPVCs. fold (sts_replica_count sts).
  destruct (podPVCs_spec (sts_Template sts)) as [Hnd _].
  set (claims vct := List.map (vct_claim vct (om_Name (sts_Meta sts)))
                       (int32_range (sts_replica_count sts))).
  match goal with |- context [fold_left ?F _ _] =>
    assert (forall vs st, fold_left F vs st =
      fold_left (fun st vct => fold_left add_name (claims vct) st) vs st) as -> end.
  { induction vs as [|v vs IH]; intros st; simpl; [done|]. rewrite IH. f_equal.
    unfold claims. by rewrite fold_left_map. }
  destruct (fold_left _ _ _) as [seen names] eqn:E.
  apply add_names_spec in E as (_ & Hn & Hin);
    [|by intros; rewrite elem_of_list_to_set|done].
  split; [done|]. intros n. simpl. rewrite Hin. apply or_iff_compat_l. unfold claims. split.
  - intros (vct & Hv & (i & -> & Hi%elem_of_int32_range)%list_elem_of_fmap). eauto 6.
  - intros (vct & i & Hv & Hi & ->). exists vct. split; [done|]. apply list_elem_of_fmap.
    exists i. by rewrite elem_of_int32_range.
Qed.

Lemma elem_of_markClaimed claimed ns pvcs k :
  k ∈ markClaimed claimed ns pvcs <-> k ∈ claimed \/ exists p, p ∈ pvcs /\ k = claim_key ns p.
Proof.
  unfold markClaimed. revert claimed. induction pvcs as [|p pvcs IH]; intros c; simpl.
  - split; [auto|]. intros [?|(p & Hp & _)]; [done|]. by apply elem_of_nil in Hp.
  - rewrite IH, elem_of_union, elem_of_singleton. setoid_rewrite elem_of_cons. split.
    + intros [[?|?]|(q & ? & ?)]; eauto 6.
    + intros [?|(q & [-> |?] & ?)]; eauto 6.
Qed.

(** A namespace name holds no slash. *)
Definition no_slash (ns : string) : Prop := in_cutset ns "/"%char = false.

Lemma claim_key_inj ns p ns' p' :
  no_slash ns -> no_slash ns' -> claim_key ns p = claim_key ns' p' -> ns = ns' /\ p = p'.
Proof. apply app_sep_inj. Qed.

(** *** The walk *)

Section walk_lemmas.
  Context (Catalog : list Engine).

  (** A workload of [ws] mounts the claim. *)
Definition claims (ws : list Workload) (ns p : string) : Prop :=
    exists w, w ∈ ws /\ w_Namespace w = ns /\ p ∈ w_PVCNames w.

Definition accounted (ws : list Workload) (ns : string) (p : PVC) : Prop :=
    IsMoverScratchPVC p = true \/ claims ws ns (om_Name (pvc_Meta p)).

  (** The workload was made from an object the API server listed. *)
Definition from_listing (log : list (event ev)) (w : Workload) : Prop :=
    (exists ns l s, (ns, l) ∈ listings KStatefulSet log /\ s ∈ l /\ w = of_sts Catalog ns s) \/
    (exists ns l d, (ns, l) ∈ listings KDeployment log /\ d ∈ l /\ w = of_dep Catalog ns d) \/
    (exists ns l d, (ns, l) ∈ listings KDaemonSet log /\ d ∈ l /\ w = of_ds Catalog ns d) \/
    (exists ns l p, (ns, l) ∈ listings KPVC log /\ p ∈ l /\ IsMoverScratchPVC p = false /\
       w = orphan ns p).

  (** Every object of the listings is inventoried. *)
Definition inventoried (log : list (event ev)) (ws : list Workload) : Prop :=
    (forall ns l s, (ns, l) ∈ listings KStatefulSet log -> s ∈ l -> of_sts Catalog ns s ∈ ws) /\
    (forall ns l d, (ns, l) ∈ listings KDeployment log -> d ∈ l -> of_dep Catalog ns d ∈ ws) /\
    (forall ns l d, (ns, l) ∈ listings KDaemonSet log -> d ∈ l -> of_ds Catalog ns d ∈ ws) /\
    (forall ns l p, (ns, l) ∈ listings KPVC log -> p ∈ l -> accounted ws ns p).

  (** What the loop maintains between two calls. *)
Record walk_inv (log : list (event ev)) (st : walk_state) : Prop := {
    wi_ns : forall w, w ∈ fst st -> no_slash (w_Namespace w);
    wi_claimed : forall k, k ∈ snd st ->
      exists ns p, k = claim_key ns p /\ no_slash ns /\ claims (fst st) ns p;
    wi_sound : forall w, w ∈ fst st -> from_listing log w;
    wi_complete : inventoried log (fst st) }.

Lemma claims_mono ws ws' ns p : ws ⊆ ws' -> claims ws ns p -> claims ws' ns p.
  Proof. intros H (w & ? & ? & ?). exists w. auto. Qed.

Lemma accounted_mono ws ws' ns p : ws ⊆ ws' -> accounted ws ns p -> accounted ws' ns p.
  Proof. intros H [?|?]; [by left|right]. by eapply claims_mono. Qed.

Lemma inventoried_mono log ws ws' : ws ⊆ ws' -> inventoried log ws -> inventoried log ws'.
  Proof.
    intros H (H1 & H2 & H3 & H4). split_and!; eauto using accounted_mono.
  Qed.

Lemma inventoried_app log log' ws :
    inventoried (log ++ log') ws <-> inventoried log ws /\ inventoried log' ws.
  Proof.
    unfold inventoried. split.
    - intros (H1 & H2 & H3 & H4). split_and!; intros ns l x Hl; 
        first [apply (H1 ns l)|apply (H2 ns l)|apply (H3 ns l)|apply (H4 ns l)];
        rewrite listings_app, elem_of_app; auto.
    - intros [(H1 & H2 & H3 & H4) (H1' & H2' & H3' & H4')].
      split_and!; intros ns l x; rewrite listings_app, elem_of_app; intros [?|?]; eauto.
  Qed.

Lemma from_listing_app log log' w :
    from_listing log w \/ from_listing log' w -> from_listing (log ++ log') w.
  Proof.
    unfold from_listing. setoid_rewrite listings_app. setoid_rewrite elem_of_app.
    intros [[H|[H|[H|H]]]|[H|[H|[H|H]]]]; split_all; eauto 15.
  Qed.

  (** Adding workloads of one listing. *)
Lemma add_workloads_spec {A} (f : A -> Workload) ns l : forall st,
    let st' := fold_left (fun st x => add_workload ns st (f x)) l st in
    fst st' = fst st ++ List.map f l /\
    (forall k, k ∈ snd st' <-> k ∈ snd st \/ exists x p, x ∈ l /\ p ∈ w_PVCNames (f x) /\ k = claim_key ns p).
  Proof.
    induction l as [|x l IH]; intros st; cbn [fold_left List.map].
    - rewrite app_nil_r. split; [done|]. intros k. split; [auto|].
      intros [?|(x & p & Hx & _)]; [done|]. by apply elem_of_nil in Hx.
    - destruct (IH (add_workload ns st (f x))) as [E1 E2]. split.
      + rewrite E1. simpl. by rewrite <- app_assoc.
      + intros k. rewrite E2. simpl. rewrite elem_of_markClaimed. setoid_rewrite elem_of_cons.
        split.
        * intros [[?|(p & ? & ?)]|(y & p & ? & ? & ?)]; eauto 9.
        * intros [?|(y & p & [-> |?] & ? & ?)]; eauto 9.
  Qed.

Lemma add_orphans_spec ns l : forall st,
    let st' := fold_left (add_orphan ns) l st in
    fst st ⊆ fst st' /\ snd st' = snd st /\
    (forall w, w ∈ fst st' -> w ∈ fst st \/
       exists p, p ∈ l /\ IsMoverScratchPVC p = false /\ w = orphan ns p) /\
    (forall p, p ∈ l -> claim_key ns (om_Name (pvc_Meta p)) ∈ snd st \/ accounted (fst st') ns p).
  Proof.
    induction l as [|p l IH]; intros st; cbn [fold_left].
    - split_and!; [done|done|auto|]. intros p Hp. by apply elem_of_nil in Hp.
    - destruct (IH (add_orphan ns st p)) as (Hs & E & Hw & Hp).
      assert (fst st ⊆ fst (add_orphan ns st p) /\ snd (add_orphan ns st p) = snd st) as [Hs1 E1].
      { unfold add_orphan. case_bool_decide; [done|]. case_if; [done|]. simpl. set_solver. }
      split_and!.
      + set_solver.
      + congruence.
      + intros w [H|(q & ? & ?)]%Hw; [|right; set_solver]. revert H. unfold add_orphan.
        case_bool_decide; [auto|]. case_if; [auto|]. simpl.
        rewrite elem_of_app, list_elem_of_singleton. intros [?| ->]; [auto|]. right.
        exists p. set_solver.
      + intros q [-> |Hq]%elem_of_cons; [|rewrite <- E1; auto].
        destruct (decide (claim_key ns (om_Name (pvc_Meta p)) ∈ snd st)) as [?|Hn]; [auto|].
        right. destruct (IsMoverScratchPVC p) eqn:Hsc; [by left|]. right.
        exists (orphan ns p). split_and!; [|done|by apply list_elem_of_singleton].
        apply Hs. unfold add_orphan. rewrite bool_decide_false, Hsc by done. simpl. set_solver.
  Qed.

  (** One more call, whose new listings the new state accounts for. *)
Lemma walk_inv_step log st e st' :
    walk_inv log st -> fst st ⊆ fst st' ->
    (forall w, w ∈ fst st' -> w ∈ fst st \/ no_slash (w_Namespace w) /\ from_listing [e] w) ->
    (forall k, k ∈ snd st' -> k ∈ snd st \/
       exists ns p, k = claim_key ns p /\ no_slash ns /\ claims (fst st') ns p) ->
    inventoried [e] (fst st') ->
    walk_inv (log ++ [e]) st'.
  Proof.
    intros [Hns Hc Hs Hi] Hsub Hw Hk He. constructor.
    - intros w [Hin|[? _]]%Hw; [by apply Hns|done].
    - intros k [(ns & p & ? & ? & ?)%Hc|?]%Hk; [|done].
      exists ns, p. split_and!; [done..|]. by eapply claims_mono.
    - intros w [?|[_ ?]]%Hw; apply from_listing_app; auto.
    - apply inventoried_app. eauto using inventoried_mono.
  Qed.

Lemma fromPodOwner_ns ns kind api name spec pvcs :
    w_Namespace (fromPodOwner Catalog ns kind api name spec pvcs) = ns.
  Proof. unfold fromPodOwner. destruct (matchImages _ _); [done|]. by destruct pvcs. Qed.

  (** Every controller of a listing is inventoried with its claims. *)
Lemma walk_inv_workloads {A} (f : A -> Workload) log st ns l e :
    no_slash ns -> (forall x, w_Namespace (f x) = ns) -> walk_inv log st ->
    let st' := fold_left (fun st x => add_workload ns st (f x)) l st in
    (forall x, x ∈ l -> from_listing [e] (f x)) ->
    ((forall x, x ∈ l -> f x ∈ fst st') -> inventoried [e] (fst st')) ->
    walk_inv (log ++ [e]) st'.
  Proof.
    intros Hns Hf Hi st' Hfl Hinv.
    destruct (add_workloads_spec f ns l st) as [E1 E2]. fold st' in E1, E2.
    assert (forall x, x ∈ l -> f x ∈ fst st') as Hin.
    { intros x Hx. rewrite E1, elem_of_app. right. apply list_elem_of_fmap. eauto. }
    eapply walk_inv_step; [done| | | |auto].
    - rewrite E1. set_solver.
    - rewrite E1. intros w [?|(x & -> & ?)%list_elem_of_fmap]%elem_of_app; [auto|].
      right. rewrite Hf. auto.
    - intros k [?|(x & p & Hx & Hp & ->)]%E2; [auto|]. right. exists ns, p.
      split_and!; [done..|]. exists (f x). auto.
  Qed.

Ltac one_listing := unfold inventoried; split_and!; intros *;
    rewrite ?listings_kList, ?listings_kList_ne by done; try (by intros ?%elem_of_nil);
    intros [= -> ->]%list_elem_of_singleton; auto.

Lemma walk_inv_sts client ns l log st :
    no_slash ns -> walk_inv log st ->
    walk_inv (log ++ [mkEvent (kList client KStatefulSet ns) (Ok l)])
      (fold_left (fun st s => add_workload ns st (of_sts Catalog ns s)) l st).
  Proof.
    intros Hns Hi. apply walk_inv_workloads; auto.
    - intros s. apply fromPodOwner_ns.
    - intros s Hs. left. exists ns, l, s. rewrite listings_kList, list_elem_of_singleton. auto.
    - intros Hin. one_listing.
  Qed.

Lemma walk_inv_dep client ns l log st :
    no_slash ns -> walk_inv log st ->
    walk_inv (log ++ [mkEvent (kList client KDeployment ns) (Ok l)])
      (fold_left (fun st d => add_workload ns st (of_dep Catalog ns d)) l st).
  Proof.
    intros Hns Hi. apply walk_inv_workloads; auto.
    - intros s. apply fromPodOwner_ns.
    - intros s Hs. right; left. exists ns, l, s.
      rewrite listings_kList, list_elem_of_singleton. auto.
    - intros Hin. one_listing.
  Qed.

Lemma walk_inv_ds client ns l log st :
    no_slash ns -> walk_inv log st ->
    walk_inv (log ++ [mkEvent (kList client KDaemonSet ns) (Ok l)])
      (fold_left (fun st d => add_workload ns st (of_ds Catalog ns d)) l st).
  Proof.
    intros Hns Hi. apply walk_inv_workloads; auto.
    - intros s. apply fromPodOwner_ns.
    - intros s Hs. do 2 right; left. exists ns, l, s.
      rewrite listings_kList, list_elem_of_singleton. auto.
    - intros Hin. one_listing.
  Qed.

Lemma walk_inv_pvc client ns l log st :
    no_slash ns -> walk_inv log st ->
    walk_inv (log ++ [mkEvent (kList client KPVC ns) (Ok l)]) (fold_left (add_orphan ns) l st).
  Proof.
    intros Hns Hi. destruct (add_orphans_spec ns l st) as (Hs & E & Hw & Hp).
    eapply walk_inv_step; [done|done| | |].
    - intros w [?|(p & ? & ? & ->)]%Hw; [auto|]. right. split; [done|]. do 3 right.
      exists ns, l, p. rewrite listings_kList, list_elem_of_singleton. auto.
    - rewrite E. auto.
    - one_listing. intros Hx. destruct (Hp _ Hx) as [Hk|?]; [|done]. right.
      destruct (wi_claimed _ _ Hi _ Hk) as (ns1 & p1 & Ek & Hns1 & Hcl).
      apply claim_key_inj in Ek as [-> ->]; [|done..]. by eapply claims_mono.
  Qed.

  (** The namespace's four listings were made and answered. *)
Definition ns_listed (log : list (event ev)) (ns : string) : Prop :=
    (exists l, (ns, l) ∈ listings KStatefulSet log) /\
    (exists l, (ns, l) ∈ listings KDeployment log) /\
    (exists l, (ns, l) ∈ listings KDaemonSet log) /\
    (exists l, (ns, l) ∈ listings KPVC log).

Lemma ns_listed_mono log log' ns : ns_listed log ns -> ns_listed (log ++ log') ns.
  Proof.
    intros ([l1 ?] & [l2 ?] & [l3 ?] & [l4 ?]).
    split_and!; [exists l1|exists l2|exists l3|exists l4]; auto with portage.
  Qed.

Lemma walk_ns_inv client ns pre log st :
    no_slash ns -> walk_inv log st -> Forall (ns_listed log) pre ->
    wp any_env (walk_ns Catalog client st ns) log
      (fun log' r => match r with
                     | inl st' => walk_inv log' st' /\ Forall (ns_listed log') (pre ++ [ns])
                     | inr _ => True
                     end).
  Proof.
    intros Hns Hi Hpre. unfold walk_ns. do 4 (wp_res; [|done]). split.
    - by apply walk_inv_pvc, walk_inv_ds, walk_inv_dep, walk_inv_sts.
    - apply Forall_app. split.
      + eapply Forall_impl; [done|]. intros x Hx. by do 4 apply ns_listed_mono.
      + apply Forall_singleton. split_and!; eexists;
          repeat first [apply listings_last | apply listings_mono].
  Qed.

Lemma walk_inv_nil : walk_inv [] ([], ∅).
  Proof. constructor; cbn; [set_solver..|]. one_listing. Qed.

Lemma Walk_inv client nss :
    Forall no_slash nss ->
    always (Walk Catalog client nss) (fun log r =>
      match r with
      | Err _ => True
      | Ok inv => exists st, walk_inv log st /\ Forall (ns_listed log) nss /\
          inv = mkInventory nss (isort workload_leb (fst st))
      end).
  Proof.
    intros Hns. unfold always, Walk. apply wp_bind. eapply wp_mono.
    - apply (wp_loopM _ _ (fun pre log st => walk_inv log st /\ Forall (ns_listed log) pre)
               (fun _ _ => True) nss []); [split; [apply walk_inv_nil|done]|].
      intros pre ns post log st E [Hi Hpre]. apply walk_ns_inv; [|done..].
      cbn in E. rewrite E, Forall_app, Forall_cons in Hns. tauto.
    - intros log [[ws c]|e]; cbn; [|done]. intros [? ?]. by exists (ws, c).
  Qed.
End walk_lemmas.

(** *** Engines *)

Definition catalog_stateful (Catalog : list Engine) : Prop :=
  Forall (fun e => eng_Class e <> ClassStateless) Catalog.

Lemma find_first {A} (f : A -> bool) l a :
  List.find f l = Some a <->
  exists l1 l2, l = l1 ++ a :: l2 /\ f a = true /\ Forall (fun b => f b = false) l1.
Proof.
  induction l as [|x l IH]; simpl.
  - split; [done|]. intros ([|] & l2 & H & _); done.
  - destruct (f x) eqn:E.
    + split; [intros [= <-]; by exists [], l|]. intros ([|y l1] & l2 & H & Ha & Hl1).
      * by simplify_list_eq.
      * simplify_list_eq. apply Forall_inv in Hl1. congruence.
    + rewrite IH. split.
      * intros (l1 & l2 & -> & Ha & Hl1). exists (x :: l1), l2. auto.
      * intros ([|y l1] & l2 & H & Ha & Hl1); simplify_list_eq; [congruence|].
        apply Forall_cons in Hl1 as [_ ?]. eauto.
Qed.

Lemma find_Some_elem {A} (f : A -> bool) l a : List.find f l = Some a -> a ∈ l /\ f a = true.
Proof. intros (l1 & l2 & -> & ? & _)%find_first. set_solver. Qed.

Lemma matchImages_None Catalog images :
  matchImages Catalog images = None <-> Forall (fun i => MatchImage Catalog i = None) images.
Proof.
  induction images as [|i images IH]; simpl; [done|]. rewrite Forall_cons, <- IH.
  destruct (MatchImage Catalog i); [|tauto]. split; [done|]. by intros [? _].
Qed.

Lemma matchImages_Some Catalog images e : matchImages Catalog images = Some e -> e ∈ Catalog.
Proof.
  induction images as [|i images IH]; simpl; [done|].
  destruct (MatchImage Catalog i) eqn:E; [|done]. intros [= ->].
  by apply find_Some_elem in E as [? _].
Qed.

Lemma Walk_reads Catalog c nss : reads_only (Walk Catalog c nss).
Proof. unfold Walk, walk_ns. reads. Qed.

(** ** Properties *)

(** [MatchImage] returns the first engine of the catalog one of whose
    non-empty matchers occurs in the image, both compared in lower case, and
    nothing when there is none; an engine registered later takes precedence
    over the whole catalog. *)
Theorem MatchImage_first Catalog image :
  (forall e, MatchImage Catalog image = Some e <->
     exists before after, Catalog = before ++ e :: after /\
       (exists m, m ∈ eng_ImageMatchers e /\ m <> EmptyString /\
          Contains (ToLower image) (ToLower m) = true) /\
       Forall (fun e' => forall m, m ∈ eng_ImageMatchers e' -> m <> EmptyString ->
          Contains (ToLower image) (ToLower m) = false) before) /\
  (forall e, MatchImage (Register Catalog e) image =
     if image_matches (ToLower image) e then Some e else MatchImage Catalog image).
Proof.
  assert (forall e, image_matches (ToLower image) e = true <->
    exists m, m ∈ eng_ImageMatchers e /\ m <> EmptyString /\
      Contains (ToLower image) (ToLower m) = true) as Hm.
  { intros e. unfold image_matches. rewrite existsb_exists. apply exist_proper. intros m.
    rewrite andb_true_iff, negb_true_iff, String.eqb_neq, <- list_elem_of_In. tauto. }
  split; [|done]. intros e. unfold MatchImage. rewrite find_first.
  apply exist_proper; intros l1. apply exist_proper; intros l2. rewrite Hm.
  do 2 apply and_iff_compat_l. apply Forall_iff; intros e'.
  rewrite <- not_true_iff_false, Hm. split.
  - intros H m Hin Hne. apply not_true_iff_false. intros ?. apply H. eauto.
  - intros H (m & Hin & Hne & Hc). rewrite H in Hc; done.
Qed.

(** the built-in catalog recognises every one of its own image matchers as
    the engine that lists it, except one: "percona/percona-server-mongodb",
    listed by mongo, is taken for mysql, whose shorter matcher
    "percona/percona-server" comes first. *)
Theorem catalog_shadowing :
  (forall e m, e ∈ builtin_catalog -> m ∈ eng_ImageMatchers e ->
     MatchImage builtin_catalog m = Some e <-> m <> "percona/percona-server-mongodb"%string) /\
  option_map eng_Name (MatchImage builtin_catalog "percona/percona-server-mongodb:7.0")
    = Some "mysql"%string.
Proof.
  split; [|by vm_compute]. intros e m He Hm.
  assert (forallb (fun e => forallb (fun m => Bool.eqb
    (bool_decide (MatchImage builtin_catalog m = Some e))
    (negb (String.eqb m "percona/percona-server-mongodb"))) (eng_ImageMatchers e))
    builtin_catalog = true) as H by (vm_compute; reflexivity).
  apply (proj1 (forallb_forall _ _)) with (x := e) in H; [|by apply list_elem_of_In].
  apply (proj1 (forallb_forall _ _)) with (x := m) in H; [|by apply list_elem_of_In].
  apply Bool.eqb_prop in H. rewrite <- String.eqb_neq.
  rewrite <- (bool_decide_eq_true (MatchImage _ _ = _)), H, negb_true_iff. done.
Qed.

(** a pod owner is inventoried as Stateless exactly when it mounts no claim
    and no container or init container runs a catalogued engine; an engine
    always decides the class and the engine name, whatever the volumes are. *)
Theorem fromPodOwner_class Catalog ns kind api name spec pvcs :
  catalog_stateful Catalog ->
  let w := fromPodOwner Catalog ns kind api name spec pvcs in
  (w_Class w = ClassStateless <->
     pvcs = [] /\ Forall (fun i => MatchImage Catalog i = None) (podImages spec)) /\
  (forall e, matchImages Catalog (podImages spec) = Some e ->
     w_Class w = eng_Class e /\ w_Engine w = eng_Name e) /\
  (matchImages Catalog (podImages spec) = None -> pvcs <> [] ->
     w_Class w = ClassGenericPVC /\ w_Engine w = EmptyString) /\
  w_PVCNames w = pvcs /\ WKey w = ns +:+ "/" +:+ kind +:+ "/" +:+ name.
Proof.
  intros Hc w. subst w. unfold fromPodOwner. rewrite <- matchImages_None.
  destruct (matchImages Catalog (podImages spec)) as [e|] eqn:E.
  - apply matchImages_Some in E. eapply Forall_forall in Hc; [|done]. cbn.
    split_and!; [naive_solver|naive_solver|done|done|done].
  - destruct pvcs; cbn; split_and!; naive_solver.
Qed.

Lemma fromPodOwner_class_witness :
  let spec := mkPodSpec None "" None [] [] None [] [mkContainer "db" "docker.io/library/postgres:16" None [] [] []] [] in
  w_Class (fromPodOwner builtin_catalog "shop" "StatefulSet" "apps/v1" "pg" spec []) = ClassSQLLogical.
Proof.
  refine (proj1 (proj1 (proj2 (fromPodOwner_class builtin_catalog "shop" "StatefulSet" "apps/v1" "pg"
    _ [] _)) (mkEngine "postgres" ClassSQLLogical _ _ true) _)).
  - vm_compute. repeat constructor; done.
  - vm_compute. reflexivity.
Defined.

(** the claims of a StatefulSet are listed once each, and are those its pod
    template mounts by name plus template-set-ordinal for every claim template
    and every ordinal below its replica count (1 when unset or not positive):
    the bare template name is never one of them by itself. *)
Theorem stsPVCs_exact sts :
  NoDup (stsPVCs sts) /\
  forall n, n ∈ stsPVCs sts <->
    (exists v, v ∈ sp_Volumes (sts_Template sts) /\ vol_PVC v = Some n) \/
    exists vct i, vct ∈ sts_VolumeClaimTemplates sts /\
      (0 <= i < match sts_Replicas sts with
                | Some r => if (0 <? r)%Z then r else 1%Z
                | None => 1%Z
                end)%Z /\
      n = vct +:+ "-" +:+ om_Name (sts_Meta sts) +:+ "-" +:+ Itoa i.
Proof.
  destruct (stsPVCs_iff sts) as [H1 H2]. split; [done|]. intros n. rewrite H2.
  by rewrite (proj2 (podPVCs_spec _)).
Qed.

(** C21: when [Walk] returns an inventory it listed the four kinds in every
    requested namespace, every StatefulSet, Deployment and DaemonSet it was
    told of is in the inventory, every claim it was told of is mover scratch
    or mounted by an inventoried workload, nothing else is inventoried, no
    scratch claim is inventoried as a workload of its own, and the workloads
    are sorted by namespace, kind and name. This holds for every answer of the
    API server. *)
Theorem Walk_complete Catalog client nss :
  Forall no_slash nss ->
  always (Walk Catalog client nss) (fun log r =>
    match r with
    | Err _ => True
    | Ok inv =>
        Forall (ns_listed log) nss /\
        inventoried Catalog log (inv_Workloads inv) /\
        (forall w, w ∈ inv_Workloads inv -> from_listing Catalog log w) /\
        StronglySorted workload_leb (inv_Workloads inv) /\
        inv_Namespaces inv = nss
    end).
Proof.
  intros Hns. eapply wp_mono; [by apply Walk_inv|]. cbn. intros log [inv|e]; [|done].
  intros (st & [_ _ Hs Hc] & Hl & ->). cbn.
  assert (forall w, w ∈ isort workload_leb (fst st) <-> w ∈ fst st) as Hin
    by (intros w; by rewrite isort_Permutation).
  split_and!; [done| | | |done].
  - eapply inventoried_mono; [|done]. intros w. by rewrite Hin.
  - intros w ?%Hin. auto.
  - apply isort_Sorted; [apply workload_leb_total|apply workload_leb_trans].
Qed.

Lemma Walk_complete_witness :
  always (Walk builtin_catalog (Kube 0) ["shop"; "billing"]) (fun log r =>
    match r with
    | Err _ => True
    | Ok inv => Forall (ns_listed log) ["shop"; "billing"]
    end).
Proof.
  eapply wp_mono; [apply (Walk_complete builtin_catalog (Kube 0) ["shop"; "billing"])|].
  - repeat constructor.
  - cbn. intros log [inv|e]; [|done]. by intros (? & _).
Defined.
