(* ===== verification/Cli.v ===== *)
(** * The command line: src/internal/cli and src/internal/version

    [portage inventory] classifies a namespace, or all of them, and prints the
    result; [portage version] prints the build. Cobra's parsing of the flags,
    the kubeconfig loader and encoding/json are parameters; text/tabwriter is
    modelled as far as the table needs it. The writer of the output does not
    fail, and the fields printed are ASCII, free of tabs and line breaks. *)

From Stdlib Require Import ZArith Lia Ascii.
From S2P Require Import Prelude GoStrings Effects Api Kube Classify.

(** ** root.go *)

Record kubeFlags := mkKubeFlags { kf_kubeconfig : string; kf_context : string; kf_namespace : string }.

(** clientcmd: the explicit path of the loading rules and the context of the
    overrides. *)
Record clientcmdRules := mkRules { lr_ExplicitPath : string; ov_CurrentContext : string }.

(** [defaultPath] is what NewDefaultClientConfigLoadingRules sets. *)
Definition loadingRules (defaultPath : string) (k : kubeFlags) : string :=
  if String.eqb (kf_kubeconfig k) EmptyString then defaultPath else kf_kubeconfig k.
Definition overrides (k : kubeFlags) : string := kf_context k.
Definition restConfig (defaultPath : string) (k : kubeFlags) : clientcmdRules :=
  mkRules (loadingRules defaultPath k) (overrides k).

(** A flag: its name, one-letter shorthand (empty for none) and default. *)
Record flagDef := mkFlag { fg_Name : string; fg_Shorthand : string; fg_Default : string }.

(** cobra.Command, as far as the tree of commands is concerned. *)
Record command := mkCommand {
  cmd_Use : string; cmd_Short : string;
  cmd_PersistentFlags : list flagDef; cmd_Flags : list flagDef;
  cmd_SilenceUsage : bool; cmd_SilenceErrors : bool }.

Definition inventory_command : command :=
  mkCommand "inventory" "Classify workloads in a namespace (stateless, PVC, engines, unknown)" []
    [mkFlag "all-namespaces" "A" "false"; mkFlag "output" "o" "table"] false false.
Definition version_command : command :=
  mkCommand "version" "Print Portage version" [] [mkFlag "output" "o" ""] false false.
Definition completion_command : command :=
  mkCommand "completion [bash|zsh|fish|powershell]" "Generate shell completion" [] [] false false.

(** The root and the commands added to it. *)
Definition NewRoot : command * list command :=
  (mkCommand "portage"
     "Portage by PipeOps — Kubernetes workload mobility (replicate, restore, cutover)"
     [mkFlag "kubeconfig" "" ""; mkFlag "context" "" ""; mkFlag "namespace" "n" ""] [] true true,
   [inventory_command; version_command; completion_command]).

(** cobra panics when two flags a command sees, its own and the persistent ones
    of the root, have one name or one shorthand. *)
Definition flags_of (root c : command) : list flagDef := cmd_PersistentFlags root ++ cmd_Flags c.
Definition no_clash (l : list flagDef) : bool :=
  bool_decide (NoDup (List.map fg_Name l)) &&
  bool_decide (NoDup (List.filter (fun s => negb (String.eqb s EmptyString)) (List.map fg_Shorthand l))).

(** main of cmd/portage: the error of Execute goes to stderr, and the process
    exits with 1; [None] is a normal end. *)
Definition portage_main (Execute : command * list command -> option err) : option (string * Z) :=
  match Execute NewRoot with
  | Some e => Some (err_msg e +:+ nl, 1%Z)
  | None => None
  end.

(** ** The table: text/tabwriter with no minimal width, two blanks of padding
    and cells aligned on the left *)

Definition blank : ascii := ascii_of_nat 32.
Fixpoint blanks (n : nat) : string :=
  match n with O => EmptyString | S n => String blank (blanks n) end.

(** The width of a column: its widest cell and the padding. *)
Definition column (j : nat) (rows : list (list string)) : nat :=
  fold_left (fun w r => Nat.max w (String.length (nth j r EmptyString) + 2)) rows 0.

(** All cells of a line but the last end a column. *)
Definition widths (rows : list (list string)) : list nat :=
  match rows with
  | [] => []
  | r :: _ => List.map (fun j => column j rows) (seq 0 (length r - 1))
  end.

Definition pad (w : nat) (s : string) : string := s +:+ blanks (w - String.length s).

Fixpoint table_row (ws : list nat) (cells : list string) : string :=
  match cells, ws with
  | c :: cells, w :: ws => pad w c +:+ table_row ws cells
  | c :: cells, [] => c +:+ table_row [] cells
  | [], _ => EmptyString
  end.

Definition table (rows : list (list string)) : string :=
  fold_right (fun r out => table_row (widths rows) r +:+ nl +:+ out) EmptyString rows.

(** ** inventory.go *)

Definition inventory_header : list string :=
  ["NAMESPACE"; "KIND"; "NAME"; "CLASS"; "ENGINE"; "PVCS"]%string.
Definition inventory_row (w : Workload) : list string :=
  [w_Namespace w; w_Kind w; w_Name w; class_to_string (w_Class w); w_Engine w; Join "," (w_PVCNames w)].
Definition inventory_rows (inv : Inventory) : list (list string) :=
  inventory_header :: List.map inventory_row (inv_Workloads inv).

Definition summary (inv : Inventory) : string :=
  nl +:+ "# " +:+ Itoa (Z.of_nat (length (inv_Workloads inv))) +:+
  " workloads  stateful=" +:+ Itoa (Z.of_nat (length (Stateful inv))) +:+
  "  unclassified=" +:+ Itoa (Counts inv ClassUnknownStateful) +:+ nl.

Section inventory.
  (** encoding/json of an Inventory, indented by two blanks, with its newline. *)
  Context (json_Encode : Inventory -> string).
  (** clientcmd's ClientConfig and Namespace, and kubernetes.NewForConfig. *)
  Context {restcfg : Type}.
  Context (ClientConfig : clientcmdRules -> res restcfg) (Namespace : clientcmdRules -> res string).
  Context (NewForConfig : restcfg -> res kube) (defaultPath : string) (Catalog : list Engine).

Definition printInventory (inv : Inventory) (format : string) : res string :=
  match ToLower format with
  | "json" => Ok (json_Encode inv)
  | "table" | "" => Ok (table (inventory_rows inv) +:+ summary inv)
  | _ => Err (errorf ("unknown output " +:+ quoted format +:+ " (table|json)"))
  end%string.

(** The namespaces to walk. *)
Definition inventory_namespaces (cs : kube) (allNamespaces : bool) (ns : string) : io ev (res (list string)) :=
  if allNamespaces then
    let* l := trigger (kList cs KNamespace EmptyString) in
    Ret (res_map (List.map (fun n => om_Name (ns_Meta n))) l)
  else Ret (Ok (Namespaces [] ns)).

(** RunE of [portage inventory]: what it writes, or its error. *)
Definition newInventoryCmd (kf : kubeFlags) (allNamespaces : bool) (output : string) : io ev (res string) :=
  let cc := restConfig defaultPath kf in
  match ClientConfig cc with
  | Err e => Ret (Err (wrapf "kubeconfig: " e))
  | Ok rest =>
      match (if String.eqb (kf_namespace kf) EmptyString && negb allNamespaces then Namespace cc
             else Ok (kf_namespace kf)) with
      | Err e => Ret (Err e)
      | Ok ns =>
          match NewForConfig rest with
          | Err e => Ret (Err e)
          | Ok cs =>
              let* nss := inventory_namespaces cs allNamespaces ns in
              match nss with
              | Err e => Ret (Err e)
              | Ok nss =>
                  let* inv := Walk Catalog cs nss in
                  Ret (match inv with Err e => Err e | Ok inv => printInventory inv output end)
              end
          end
      end
  end.
End inventory.

(** ** version.go *)

(** The variables the linker sets, and what runtime reports. *)
Record build := mkBuild { b_Version : string; b_GitCommit : string; b_BuildTime : string;
  b_GoVersion : string; b_Compiler : string; b_GOOS : string; b_GOARCH : string }.
Definition dev_build (go compiler os arch : string) : build :=
  mkBuild "dev" "none" "unknown" go compiler os arch.

Definition Info (b : build) : gmap string string :=
  {["version" := b_Version b; "gitCommit" := b_GitCommit b; "buildTime" := b_BuildTime b;
    "goVersion" := b_GoVersion b; "compiler" := b_Compiler b; "platform" := (b_GOOS b +:+ "/" +:+ b_GOARCH b)]}%string.

Definition newVersionCmd (json_Encode : gmap string string -> string) (b : build) (output : string) : string :=
  let info k := map_get EmptyString (Info b) k in
  if String.eqb output "json" then json_Encode (Info b)
  else "portage " +:+ info "version" +:+ " (commit " +:+ info "gitCommit" +:+ ", built " +:+
       info "buildTime" +:+ ", " +:+ info "platform" +:+ ")" +:+ nl.

(** ** completion.go *)

(** The generator of a shell, and the argument it is called with; [None] for a
    name that is none of the four (which prints nothing). *)
Inductive generator := GenBash | GenZsh | GenFish | GenPowerShell.
Definition newCompletionCmd (shell : string) : option generator :=
  match shell with
  | "bash" => Some GenBash
  | "zsh" => Some GenZsh
  | "fish" => Some GenFish
  | "powershell" => Some GenPowerShell
  | _ => None
  end%string.

(** The command tree is well formed: no command sees two flags of one name or one
    shorthand. *)
Lemma NewRoot_flags : forallb (fun c => no_clash (flags_of (fst NewRoot) c)) (snd NewRoot) = true.
Proof. vm_compute. reflexivity. Qed.

(** ** Reading a table back *)

(** The text of a field: no blank and no line break in it. *)
Definition plain_field (s : string) : Prop := in_cutset s blank = false /\ in_cutset s newline = false.

(** A reader that knows where the columns begin. *)
Fixpoint cut_row (ws : list nat) (line : string) : list string :=
  match ws with
  | [] => [line]
  | w :: ws => fst (fst (Cut blank (take_str w line))) :: cut_row ws (drop_str w line)
  end.

(** ** Lemmas *)

Lemma length_blanks n : String.length (blanks n) = n.
Proof. induction n; cbn; auto. Qed.

Lemma blanks_plain n : in_cutset (blanks n) newline = false.
Proof. by induction n. Qed.

Lemma column_ge j rows r : r ∈ rows -> String.length (nth j r EmptyString) + 2 <= column j rows.
Proof.
  unfold column. assert (forall l w, w <= fold_left (fun w r => Nat.max w (String.length (nth j r EmptyString) + 2)) l w) as Hm.
  { induction l as [|x l IH]; intros w; cbn; [done|]. etrans; [|apply IH]. lia. }
  assert (forall l w, r ∈ l -> String.length (nth j r EmptyString) + 2 <=
    fold_left (fun w r => Nat.max w (String.length (nth j r EmptyString) + 2)) l w) as H; [|apply H].
  induction l as [|x l IH]; intros w Hr; [by apply elem_of_nil in Hr|]. cbn.
  apply elem_of_cons in Hr as [<-|Hr]; [|by apply IH]. etrans; [|apply Hm]. lia.
Qed.

Lemma take_pad w s rest : String.length s <= w -> take_str w (pad w s +:+ rest) = pad w s.
Proof.
  intros H. assert (String.length (pad w s) = w) as Hl
    by (unfold pad; rewrite length_app_str, length_blanks; lia).
  rewrite take_str_app_le by lia. apply take_str_ge. lia.
Qed.

Lemma drop_str_app a b : drop_str (String.length a) (a +:+ b) = b.
Proof. induction a as [|c a IH]; [done|]. rewrite app_cons_str. apply IH. Qed.

Lemma drop_pad w s rest : String.length s <= w -> drop_str w (pad w s +:+ rest) = rest.
Proof.
  intros H. rewrite <- (drop_str_app (pad w s) rest) at 2. f_equal.
  unfold pad. rewrite length_app_str, length_blanks. lia.
Qed.

Lemma cut_pad w s : in_cutset s blank = false -> String.length s + 1 <= w -> fst (fst (Cut blank (pad w s))) = s.
Proof.
  intros Hs Hw. unfold pad. destruct (w - String.length s) as [|n] eqn:E; [lia|]. cbn [blanks].
  assert (forall b, Cut blank (s +:+ String blank b) = (s, b, true)) as -> by (intros; by apply Cut_app); done.
Qed.

(** Cutting a line where the columns begin gives its cells. *)
Lemma cut_table_row ws cells last :
  length cells = length ws ->
  (forall j, j < length ws -> String.length (nth j cells EmptyString) + 1 <= nth j ws 0) ->
  Forall (fun c => in_cutset c blank = false) cells ->
  cut_row ws (table_row ws (cells ++ [last])) = cells ++ [last].
Proof.
  revert cells. induction ws as [|w ws IH]; intros [|c cells] Hl Hw Hc; try done.
  - cbn. by rewrite app_nil_r_str.
  - cbn [cut_row table_row app]. specialize (Hw 0 ltac:(cbn; lia)) as Hw0. cbn in Hw0.
    apply Forall_cons in Hc as [Hc Hcs].
    rewrite take_pad, drop_pad, cut_pad by (done || lia). f_equal. apply IH; [by injection Hl| |done].
    intros j Hj. apply (Hw (S j)). cbn. lia.
Qed.

Lemma table_row_plain ws cells : Forall (fun c => in_cutset c newline = false) cells ->
  in_cutset (table_row ws cells) newline = false.
Proof.
  intros H. revert ws. induction H as [|c cells Hc _ IH]; intros ws; [done|].
  destruct ws as [|w ws]; cbn [table_row]; unfold pad; rewrite !in_cutset_app, Hc, ?blanks_plain; by rewrite IH.
Qed.

Lemma Split_line sep a b : in_cutset a sep = false -> Split sep (a +:+ String sep b) = a :: Split sep b.
Proof.
  intros H. by rewrite Split_app, Split_no_sep.
Qed.

Lemma table_lines ws (rows : list (list string)) rest :
  Forall (Forall (fun c => in_cutset c newline = false)) rows ->
  Split newline (fold_right (fun r out => table_row ws r +:+ nl +:+ out) EmptyString rows +:+ rest) =
  List.map (table_row ws) rows ++ Split newline rest.
Proof.
  induction 1 as [|r rows Hr _ IH]; [done|]. cbn [fold_right List.map app]. rewrite !app_assoc_str.
  change (nl +:+ ?x) with (String newline x). rewrite Split_line by by apply table_row_plain. by rewrite IH.
Qed.

(** A workload whose names, kind, class and engine hold no blank, and whose
    fields hold no line break. *)
Definition printable (w : Workload) : Prop :=
  Forall plain_field [w_Namespace w; w_Kind w; w_Name w; class_to_string (w_Class w); w_Engine w] /\
  in_cutset (Join "," (w_PVCNames w)) newline = false.

Lemma inventory_row_cut rows (r : list string) last :
  length r = 5 -> Forall plain_field r -> (r ++ [last]) ∈ rows ->
  widths rows = List.map (fun j => column j rows) (seq 0 5) ->
  cut_row (widths rows) (table_row (widths rows) (r ++ [last])) = r ++ [last].
Proof.
  intros Hl Hp Hin Hw. apply cut_table_row.
  - by rewrite Hw.
  - intros j Hj. rewrite Hw in Hj |- *. rewrite List.length_map, length_seq in Hj.
    rewrite (nth_indep _ 0 (column 0 rows)) by (rewrite List.length_map, length_seq; lia).
    rewrite (map_nth (fun j => column j rows)), seq_nth by lia.
    pose proof (column_ge j rows (r ++ [last]) Hin) as H. rewrite app_nth1 in H by lia. cbn [Nat.add]. lia.
  - eapply Forall_impl; [exact Hp|]. by intros s [H _].
Qed.

(** ** Properties *)

(** what [portage inventory] prints can be read back: with the table format, the
    output starts with one line per workload under the header, in the order
    of the inventory, in which every column begins at the same place whatever
    the fields' lengths; cutting each line there gives back exactly the
    namespace, kind, name, class, engine and claims, for names without blanks. *)
Theorem printInventory_reads_back json_Encode inv format out :
  ToLower format = "table"%string \/ format = EmptyString ->
  Forall printable (inv_Workloads inv) ->
  printInventory json_Encode inv format = Ok out ->
  List.map (cut_row (widths (inventory_rows inv)))
    (firstn (S (length (inv_Workloads inv))) (Split newline out)) = inventory_rows inv.
Proof.
  intros Hf Hp Hout.
  assert (out = table (inventory_rows inv) +:+ summary inv) as ->.
  { unfold printInventory in Hout. destruct Hf as [E| ->]; [rewrite E in Hout|]; by injection Hout. }
  unfold table. rewrite table_lines.
  2:{ constructor; [repeat constructor|]. apply Forall_forall. intros r (w & <- & Hw)%list_elem_of_In%in_map_iff.
      apply list_elem_of_In in Hw. rewrite Forall_forall in Hp. destruct (Hp w Hw) as [H1 H2].
      apply (Forall_app_2 _ [_; _; _; _; _] [_]); [|by constructor]. eapply Forall_impl; [exact H1|]. by intros s [_ H]. }
  rewrite firstn_app, List.length_map. unfold inventory_rows at 4. cbn [length]. rewrite List.length_map, Nat.sub_diag.
  rewrite app_nil_r, (firstn_all2 (List.map _ _)) by (rewrite List.length_map; cbn; by rewrite List.length_map).
  rewrite List.map_map. etransitivity; [|apply List.map_id]. apply map_ext_in.
  intros r Hr. unfold inventory_rows in Hr. destruct Hr as [<-|(w & <- & Hw)%in_map_iff].
  - apply (inventory_row_cut _ [_; _; _; _; _]); [done| |by left|done]. repeat constructor.
  - apply list_elem_of_In in Hw. rewrite Forall_forall in Hp. destruct (Hp w Hw) as [H1 _].
    apply (inventory_row_cut _ [_; _; _; _; _]); [done|exact H1| |done].
    right. apply list_elem_of_In. apply (in_map inventory_row). by apply list_elem_of_In.
Qed.

Lemma printInventory_reads_back_witness : exists out,
  let inv := mkInventory ["shop"]%string [mkWorkload "shop" "pg" "StatefulSet" "apps/v1" ClassSQLLogical "postgres" [] ["data-pg-0"; "wal"] false None None] in
  printInventory (fun _ => EmptyString) inv "table" = Ok out /\
  List.map (cut_row (widths (inventory_rows inv))) (firstn 2 (Split newline out)) = inventory_rows inv.
Proof.
  eexists. cbv zeta. split; [vm_compute; reflexivity|].
  refine (printInventory_reads_back (fun _ => EmptyString) _ "table" _ (or_introl _) _ _);
    [vm_compute; reflexivity| |vm_compute; reflexivity].
  repeat constructor.
Defined.
