(* ===== verification/Movers.v ===== *)
(** * Movers: src/pkg/movers/mover.go and src/pkg/movers/webhook

    The Go interface [Mover] is a record of operations; the registry picks one
    by name or in registration order. The webhook mover is the implementation
    a Plugin resource adds. *)

From Stdlib Require Import ZArith Lia.
From S2P Require Import Prelude GoStrings Effects Api Json Kube Classify.

(** ** mover.go *)

Record Capability := mkCap { cap_Backup : bool; cap_Replicate : bool; cap_Restore : bool }.
Definition no_cap : Capability := mkCap false false false.

Record Artifact := mkArtifact {
  art_ID : string; art_Mover : string; art_SizeBytes : Z; art_Useful : bool; art_Message : string }.
Definition empty_artifact (mover : string) : Artifact := mkArtifact EmptyString mover 0 false EmptyString.

Record ProbeResult := mkProbe { pr_OK : bool; pr_Message : string }.

Record ClusterHandle := mkHandle { ch_Name : string; ch_Address : string }.
Definition no_handle : ClusterHandle := mkHandle EmptyString EmptyString.

#[export] Instance Capability_eq_dec : EqDecision Capability.
Proof. solve_decision. Defined.
#[export] Instance Artifact_eq_dec : EqDecision Artifact.
Proof. solve_decision. Defined.
#[export] Instance ProbeResult_eq_dec : EqDecision ProbeResult.
Proof. solve_decision. Defined.

Record Mover := mkMover {
  mv_Name : string;
  mv_Classes : list WorkloadClass;
  mv_Discover : Workload -> io ev (Capability * option err);
  mv_Backup : Workload -> ClusterHandle -> io ev (Artifact * option err);
  mv_Replicate : Workload -> ClusterHandle -> ClusterHandle -> io ev (option err);
  mv_Restore : Workload -> Artifact -> ClusterHandle -> io ev (option err);
  mv_Quiesce : Workload -> io ev (option err);
  mv_Promote : Workload -> ClusterHandle -> io ev (option err);
  mv_Probe : Workload -> ClusterHandle -> io ev (ProbeResult * option err) }.

Definition Registry := list Mover.
Definition NewRegistry : Registry := [].

Module Registry.
Definition Register (r : Registry) (m : Mover) : Registry := r ++ [m].

Definition Get (r : Registry) (name : string) : option Mover :=
    List.find (fun m => String.eqb (mv_Name m) name) r.

Definition supports (m : Mover) (class : WorkloadClass) : bool :=
    existsb (fun c => bool_decide (c = class)) (mv_Classes m).

Definition errUnknownMover (name : string) : err := errorf ("unknown mover: " +:+ name).

Definition capable (c : Capability) : bool := cap_Backup c || cap_Replicate c || cap_Restore c.

Fixpoint select_first (r : Registry) (w : Workload)
      : io ev (option Mover * Capability * option err) :=
    match r with
    | [] => Ret (None, no_cap, None)
    | m :: r' =>
        if negb (supports m (w_Class w)) then select_first r' w
        else
          let* ' (cap, e) := mv_Discover m w in
          match e with
          | Some e => Ret (None, no_cap, Some e)
          | None => if capable cap then Ret (Some m, cap, None) else select_first r' w
          end
    end.

Definition Select (r : Registry) (w : Workload) (override : string)
      : io ev (option Mover * Capability * option err) :=
    if negb (String.eqb override EmptyString) then
      match Get r override with
      | None => Ret (None, no_cap, Some (errUnknownMover override))
      | Some m =>
          let* ' (cap, e) := mv_Discover m w in
          Ret (Some m, cap, e)
      end
    else select_first r w.
End Registry.

(** ** webhook.go *)

Module Webhook.
Definition Name (p : Plugin) : string :=
    if negb (String.eqb (plg_Name p) EmptyString) then plg_Name p else "webhook".

Definition Classes (p : Plugin) : list WorkloadClass :=
    match pls_Classes (plg_Spec p) with
    | [] => [ClassGenericPVC; ClassSQLLogical; ClassKVLogical; ClassSearchFS;
             ClassQueueDurable; ClassObjectStore; ClassUnknownStateful; ClassOperatorManaged]
    | cs => cs
    end.

Definition Discover (p : Plugin) : Capability :=
    let s := plg_Spec p in
    if negb (pls_Backup s) && negb (pls_Restore s) && negb (pls_Replicate s)
    then mkCap true false true
    else mkCap (pls_Backup s) (pls_Replicate s) (pls_Restore s).

  (** json.Marshal of [request]. *)
Definition omit_empty (k : string) (v : string) : obj :=
    if String.eqb v EmptyString then [] else [(k, JStr v)].

Definition workloadJSON (w : Workload) : json := JObj (
    [("namespace", JStr (w_Namespace w)); ("name", JStr (w_Name w)); ("kind", JStr (w_Kind w));
     ("class", JStr (class_to_string (w_Class w)))]
    ++ omit_empty "engine" (w_Engine w)
    ++ match w_PVCNames w with [] => [] | l => [("pvcNames"%string, JArr (List.map JStr l))] end).

Definition handle_json (h : ClusterHandle) : json :=
    JObj [("Name", JStr (ch_Name h)); ("Address", JStr (ch_Address h))]%string.

Definition artifact_json (a : Artifact) : json :=
    JObj [("ID", JStr (art_ID a)); ("Mover", JStr (art_Mover a));
          ("SizeBytes", JInt (art_SizeBytes a)); ("Useful", JBool (art_Useful a));
          ("Message", JStr (art_Message a))]%string.

Definition request (p : Plugin) (op : string) (w : Workload) (src dst : ClusterHandle)
      (art : option Artifact) : json := JObj (
    [("operation", JStr op); ("plugin", JStr (Name p)); ("workload", workloadJSON w);
     ("source", handle_json src); ("dest", handle_json dst)]
    ++ match art with Some a => [("artifact"%string, artifact_json a)] | None => [] end).

Record response := mkResponse {
    rsp_Artifact : option Artifact; rsp_Probe : option ProbeResult; rsp_Error : string }.

  (** Decoding one field: absent or null leaves the zero value, another type is
      a decode error. Keys are compared exactly. *)
Definition field {A} (of_json : json -> option A) (zero : A) (m : obj) (k : string) : option A :=
    match oget m k with
    | None | Some JNull => Some zero
    | Some v => of_json v
    end.
Definition of_str (v : json) : option string := match v with JStr s => Some s | _ => None end.
Definition of_bool (v : json) : option bool := match v with JBool b => Some b | _ => None end.
Definition of_int (v : json) : option Z := match v with JInt z => Some z | _ => None end.

Definition decode_artifact (v : json) : option (option Artifact) :=
    match v with
    | JObj m =>
        id ← field of_str EmptyString m "ID"; mv ← field of_str EmptyString m "Mover";
        sz ← field of_int 0%Z m "SizeBytes"; us ← field of_bool false m "Useful";
        msg ← field of_str EmptyString m "Message";
        Some (Some (mkArtifact id mv sz us msg))
    | _ => None
    end.
Definition decode_probe (v : json) : option (option ProbeResult) :=
    match v with
    | JObj m => ok ← field of_bool false m "OK"; msg ← field of_str EmptyString m "Message";
                Some (Some (mkProbe ok msg))
    | _ => None
    end.
Definition decode_response (v : json) : option response :=
    match v with
    | JNull => Some (mkResponse None None EmptyString)
    | JObj m =>
        a ← field decode_artifact None m "artifact"; p ← field decode_probe None m "probe";
        e ← field of_str EmptyString m "error";
        Some (mkResponse a p e)
    | _ => None
    end.

Definition prefix (p : Plugin) (op : string) : string :=
    "plugin " +:+ Name p +:+ " " +:+ op +:+ ": ".

  (** [m.Client] is set by tests only; the timeout is the default client's. *)
Definition timeout (p : Plugin) : duration :=
    let sec := pls_TimeoutSeconds (plg_Spec p) in
    (wrap64 ((if (sec <=? 0)%Z then 120 else sec) * Second))%Z.

Definition call (p : Plugin) (op : string) (w : Workload) (src dst : ClusterHandle)
      (art : option Artifact) : io ev (response * option err) :=
    let zero := mkResponse None None EmptyString in
    let url := pls_WebhookURL (plg_Spec p) in
    if String.eqb url EmptyString then
      Ret (zero, Some (errorf ("plugin " +:+ Name p +:+ ": empty webhookURL")))
    else
      let* bad := trigger (httpNewRequest url) in
      match bad with
      | Some e => Ret (zero, Some e)
      | None =>
      let* r := trigger (httpPost url (request p op w src dst art) (timeout p)) in
      match r with
      | Err e => Ret (zero, Some (wrapf (prefix p op) e))
      | Ok (code, status, body) =>
          if (code <? 200)%Z || (299 <? code)%Z then
            Ret (zero, Some (errorf (prefix p op +:+ "unexpected status " +:+ status)))
          else
            match body with
            | Err e => Ret (zero, Some (wrapf (prefix p op +:+ "decode: ") e))
            | Ok v =>
                match decode_response v with
                | None => Ret (zero, Some (errorf (prefix p op +:+ "decode: type mismatch")))
                | Some d =>
                    if negb (String.eqb (rsp_Error d) EmptyString)
                    then Ret (d, Some (errorf (prefix p op +:+ rsp_Error d)))
                    else Ret (d, None)
                end
            end
      end
      end.

Definition Backup (p : Plugin) (w : Workload) (dest : ClusterHandle)
      : io ev (Artifact * option err) :=
    let* ' (r, e) := call p "backup" w no_handle dest None in
    match e with
    | Some e => Ret (empty_artifact (Name p), Some e)
    | None =>
        match rsp_Artifact r with
        | Some a => Ret ((if String.eqb (art_Mover a) EmptyString
                          then mkArtifact (art_ID a) (Name p) (art_SizeBytes a) (art_Useful a) (art_Message a)
                          else a), None)
        | None => Ret (mkArtifact EmptyString (Name p) 0 true EmptyString, None)
        end
    end.

Definition Replicate (p : Plugin) (w : Workload) (src dst : ClusterHandle) : io ev (option err) :=
    let* ' (_, e) := call p "replicate" w src dst None in Ret e.
Definition Restore (p : Plugin) (w : Workload) (a : Artifact) (dst : ClusterHandle)
      : io ev (option err) :=
    let* ' (_, e) := call p "restore" w no_handle dst (Some a) in Ret e.
Definition Quiesce (p : Plugin) (w : Workload) : io ev (option err) :=
    let* ' (_, e) := call p "quiesce" w no_handle no_handle None in Ret e.
Definition Promote (p : Plugin) (w : Workload) (dst : ClusterHandle) : io ev (option err) :=
    let* ' (_, e) := call p "promote" w no_handle dst None in Ret e.

Definition Probe (p : Plugin) (w : Workload) (dst : ClusterHandle)
      : io ev (ProbeResult * option err) :=
    let* ' (r, e) := call p "probe" w no_handle dst None in
    match e with
    | Some e => Ret (mkProbe false (err_msg e), Some e)
    | None => match rsp_Probe r with
              | Some pr => Ret (pr, None)
              | None => Ret (mkProbe true "plugin probe", None)
              end
    end.

Definition mover (p : Plugin) : Mover := mkMover (Name p) (Classes p)
    (fun _ => Ret (Discover p, None)) (Backup p) (Replicate p) (Restore p) (Quiesce p)
    (Promote p) (Probe p).
End Webhook.
