(* ===== verification/ActionPhase.v ===== *)
(** * The completion gate: src/pkg/actionphase/complete.go

    [CanSucceed] decides whether an Action may enter phase Succeeded. *)

From S2P Require Import Prelude GoStrings Effects Api.

Definition Skipped (w : WorkloadActionStatus) : bool := HasPrefix (ws_Message w) "skipped:".

Definition is_stateless (w : WorkloadActionStatus) : bool :=
  bool_decide (ws_Class w = ClassStateless).

(** The loop of [CanSucceed]: the first refusal, or the count of workloads that
    were not skipped. *)
Fixpoint check_workloads (ws : list WorkloadActionStatus) (restorable : nat) : nat + string :=
  match ws with
  | [] => inl restorable
  | w :: ws' =>
      if Skipped w then check_workloads ws' restorable
      else if negb (ws_Ready w) then inr (ws_Name w +:+ " is not Ready")
      else if is_stateless w then check_workloads ws' (S restorable)
      else if negb (ws_ProbeOK w) then inr (ws_Name w +:+ " class probe has not passed")
      else check_workloads ws' (S restorable)
  end.

Definition CanSucceed (workloads : list WorkloadActionStatus) : bool * string :=
  match workloads with
  | [] => (false, "no workloads recorded")
  | _ =>
      match check_workloads workloads 0 with
      | inr reason => (false, reason)
      | inl O => (false, "no restorable workloads")
      | inl (S _) => (true, EmptyString)
      end
  end.

(** ** Lemmas *)

(** A workload that does not hold up completion. *)
Definition passed (w : WorkloadActionStatus) : Prop :=
  Skipped w = true \/
  (ws_Ready w = true /\ (ws_Class w = ClassStateless \/ ws_ProbeOK w = true)).

(** All passed, and one was not skipped. *)
Definition completable (ws : list WorkloadActionStatus) : Prop :=
  Forall passed ws /\ exists w, w ∈ ws /\ Skipped w = false.

#[export] Instance passed_dec w : Decision (passed w).
Proof. unfold passed. apply _. Defined.

Lemma check_workloads_inl ws n m :
  check_workloads ws n = inl m ->
  Forall passed ws /\ m = n + length (List.filter (fun w => negb (Skipped w)) ws).
Proof.
  revert n. induction ws as [|w ws IH]; intros n; simpl; [by intros [= ->]|].
  unfold is_stateless. destruct (Skipped w) eqn:Hs; simpl.
  - intros [H ->]%IH. split; [|lia]. constructor; [by left|done].
  - destruct (ws_Ready w) eqn:Hr; [|done]. simpl. case_bool_decide as Hc.
    + intros [H ->]%IH. split; [|lia]. constructor; [|done]. right. auto.
    + destruct (ws_ProbeOK w) eqn:Hp; [|done]. simpl. intros [H ->]%IH. split; [|lia].
      constructor; [|done]. right. auto.
Qed.

Lemma check_workloads_inr ws n r : check_workloads ws n = inr r -> ~ Forall passed ws.
Proof.
  revert n. induction ws as [|w ws IH]; intros n; simpl; [done|].
  unfold is_stateless. intros H Hf. apply Forall_cons in Hf as [Hw Hf]. revert H.
  unfold passed in Hw. destruct (Skipped w) eqn:Hs; [intros H; by apply IH in H|].
  destruct Hw as [|[Hr Hw]]; [done|]. rewrite Hr. simpl. case_bool_decide as Hc.
  - intros H; by apply IH in H.
  - destruct Hw as [|Hp]; [done|]. rewrite Hp. simpl. intros H; by apply IH in H.
Qed.

Lemma CanSucceed_iff ws : fst (CanSucceed ws) = true <-> completable ws.
Proof.
  unfold completable, CanSucceed. destruct ws as [|w0 ws].
  { split; [done|]. intros [_ (w & Hw & _)]. by apply elem_of_nil in Hw. }
  destruct (check_workloads (w0 :: ws) 0) as [m|r] eqn:E.
  2:{ apply check_workloads_inr in E. split; [done|tauto]. }
  apply check_workloads_inl in E as [Hp ->]. rewrite Nat.add_0_l.
  assert (forall x, List.In x (List.filter (fun w => negb (Skipped w)) (w0 :: ws)) <->
            x ∈ w0 :: ws /\ Skipped x = false) as Hin.
  { intros x. by rewrite filter_In, negb_true_iff, list_elem_of_In. }
  destruct (List.filter _ _) as [|x l]; cbn [fst length]; split; intros H; try done.
  - destruct H as [_ (x & Hx)]. by apply Hin in Hx.
  - split; [done|]. exists x. apply Hin. by left.
Qed.

Lemma string_app_nonempty a b : b <> EmptyString -> a +:+ b <> EmptyString.
Proof. by destruct a, b. Qed.

Lemma check_workloads_reason ws n r : check_workloads ws n = inr r -> r <> EmptyString.
Proof.
  revert n. induction ws as [|w ws IH]; intros n; cbn [check_workloads]; [done|].
  destruct (Skipped w); [apply IH|]. destruct (ws_Ready w); cbn [negb].
  - destruct (is_stateless w); [apply IH|]. destruct (ws_ProbeOK w); cbn [negb]; [apply IH|].
    intros [= <-]. by apply string_app_nonempty.
  - intros [= <-]. by apply string_app_nonempty.
Qed.

Lemma CanSucceed_reason ws : snd (CanSucceed ws) = EmptyString <-> fst (CanSucceed ws) = true.
Proof.
  unfold CanSucceed. destruct ws as [|w ws]; [done|].
  destruct (check_workloads (w :: ws) 0) as [[|m]|r] eqn:E; cbn [fst snd]; [done|done|].
  split; [|done]. intros ->. by apply check_workloads_reason in E.
Qed.

(** ** Properties *)

(** an Action may succeed exactly when at least one workload was not skipped
    and every workload that was not skipped is Ready and, unless it is
    Stateless, has passed its class probe; a refusal always carries a reason
    and an acceptance never does. *)
Theorem CanSucceed_spec ws :
  (fst (CanSucceed ws) = true <->
     (exists w, w ∈ ws /\ HasPrefix (ws_Message w) "skipped:" = false) /\
     forall w, w ∈ ws -> HasPrefix (ws_Message w) "skipped:" = false ->
       ws_Ready w = true /\ (ws_Class w = ClassStateless \/ ws_ProbeOK w = true)) /\
  (snd (CanSucceed ws) = EmptyString <-> fst (CanSucceed ws) = true).
Proof.
  split; [|apply CanSucceed_reason]. rewrite CanSucceed_iff. unfold completable, passed, Skipped.
  rewrite Forall_forall. split.
  - intros [H He]. split; [done|]. intros w Hw Hs. destruct (H w Hw); [congruence|done].
  - intros [He H]. split; [|done]. intros w Hw. specialize (H w Hw).
    destruct (HasPrefix (ws_Message w) "skipped:"); [by left|right; auto].
Qed.
