(* ===== verification/Backup.v ===== *)
(** * Backup actions: src/pkg/backup

    A backup is healthy when every stateful workload has a useful artifact
    (health.go); the Backup Action succeeds exactly then (machine.go). *)

From Stdlib Require Import ZArith.
From S2P Require Import Prelude GoStrings Effects Api Kube Classify ActionPhase.

(** ** health.go *)

Definition Healthy (inv : Inventory) (artifacts : list ArtifactHealth) : bool * list string :=
  let byKey := index_by ah_Workload artifacts in
  let missing := fold_left (fun missing w =>
      match byKey !! WKey w with
      | Some a => if ah_Useful a then missing else missing ++ [WKey w]
      | None => missing ++ [WKey w]
      end) (Stateful inv) [] in
  (bool_decide (missing = []), missing).

Definition FromArtifact (w : Workload) (useful : bool) (size : Z) (msg id : string) : ArtifactHealth :=
  mkArtifactHealth (WKey w) useful size id None msg.

(** ** machine.go *)

Record Facts := mkFacts {
  f_Inventory : list Workload; f_Artifacts : list ArtifactHealth; f_Now : time }.

Record Result := mkResult {
  r_Phase : ActionPhase;
  r_Message : string;
  r_Workloads : list WorkloadActionStatus;
  r_Attestation : option Attestation;
  r_RequeueAfter : duration;
  r_Terminal : bool }.

Definition status_from (byKey : gmap string ArtifactHealth) (w : Workload) : WorkloadActionStatus :=
  let st := mkWAS (w_Name w) (WKey w) (w_Class w) (w_Engine w) true "" false "" [] in
  let st := match byKey !! WKey w with
            | Some a => mkWAS (w_Name w) (WKey w) (w_Class w) (w_Engine w) true
                          (ah_Message a) (ah_Useful a) (ah_Message a) []
            | None => st
            end in
  if bool_decide (w_Class w = ClassStateless)
  then mkWAS (ws_Name st) (ws_Key st) (ws_Class st) (ws_Engine st) (ws_Ready st)
         "stateless" true (ws_Message st) (ws_Healed st)
  else st.

Definition workloadsFrom (inv : list Workload) (arts : list ArtifactHealth)
  : list WorkloadActionStatus :=
  List.map (status_from (index_by ah_Workload arts)) inv.

Definition Advance (status : ActionStatus) (facts : Facts) : Result :=
  let workloads := workloadsFrom (f_Inventory facts) (f_Artifacts facts) in
  let '(ok, missing) := Healthy (mkInventory [] (f_Inventory facts)) (f_Artifacts facts) in
  if negb ok then
    let msg := match missing with
               | [] => "backup not useful"
               | m :: _ => "backup not useful: " +:+ m
               end in
    mkResult ActionPhaseFailed msg workloads None 0%Z true
  else
    mkResult ActionPhaseSucceeded "all stateful artifacts useful" workloads
      (Some (mkAttestation (f_Now facts) "controller" workloads [])) 0%Z true.

(** ** Lemmas *)

(** The last artifact recorded for the key is a useful one. *)
Definition useful_for (arts : list ArtifactHealth) (key : string) : Prop :=
  exists l1 a l2, arts = l1 ++ a :: l2 /\ ah_Workload a = key /\ ah_Useful a = true /\
    Forall (fun b => ah_Workload b <> key) l2.

Definition useful_forb (arts : list ArtifactHealth) (key : string) : bool :=
  match index_by ah_Workload arts !! key with Some a => ah_Useful a | None => false end.

Lemma useful_for_reflect arts key : useful_forb arts key = true <-> useful_for arts key.
Proof.
  unfold useful_forb, useful_for. destruct (index_by ah_Workload arts !! key) as [a|] eqn:E.
  - pose proof E as (l1 & l2 & -> & Hk & Hl)%index_by_lookup_Some. split.
    + intros Hu. exists l1, a, l2. auto.
    + intros (l1' & a' & l2' & E' & Hk' & Hu & Hl').
      assert (index_by ah_Workload (l1' ++ a' :: l2') !! key = Some a') as E2
        by (apply index_by_lookup_Some; eauto).
      rewrite <- E' in E2. congruence.
  - split; [done|]. intros (l1 & a & l2 & -> & Hk & _ & _).
    apply index_by_lookup_None in E. rewrite Forall_app, Forall_cons in E. naive_solver.
Qed.

Lemma Healthy_missing inv arts :
  snd (Healthy inv arts) =
  List.map WKey (List.filter (fun w => negb (useful_forb arts (WKey w))) (Stateful inv)).
Proof.
  unfold Healthy. cbn [snd]. unfold useful_forb. set (f := fold_left _).
  enough (forall l acc, f l acc = acc ++ List.map WKey (List.filter (fun w =>
    negb match index_by ah_Workload arts !! WKey w with Some a => ah_Useful a | None => false end) l))
    as H by (rewrite H; done).
  subst f. induction l as [|w l IH]; intros acc; cbn [fold_left List.filter List.map].
  - by rewrite app_nil_r.
  - rewrite IH. destruct (index_by ah_Workload arts !! WKey w) as [a|]; [destruct (ah_Useful a)|];
      cbn [negb List.map]; rewrite <- ?app_assoc; done.
Qed.

(** Which keys are reported, and when none is. *)
Lemma Healthy_members inv arts key :
  key ∈ snd (Healthy inv arts) <->
  exists w, w ∈ inv_Workloads inv /\ w_Class w <> ClassStateless /\ WKey w = key /\
    ~ useful_for arts key.
Proof.
  rewrite Healthy_missing, list_elem_of_In, in_map_iff.
  setoid_rewrite filter_In. unfold Stateful, is_stateful. setoid_rewrite filter_In.
  setoid_rewrite list_elem_of_In. setoid_rewrite negb_true_iff.
  setoid_rewrite bool_decide_eq_false. setoid_rewrite <- useful_for_reflect.
  setoid_rewrite not_true_iff_false. split.
  - intros (w & <- & [? ?] & ?). eauto 6.
  - intros (w & ? & ? & <- & ?). eauto 6.
Qed.

Lemma Healthy_true inv arts :
  fst (Healthy inv arts) = true <->
  forall w, w ∈ inv_Workloads inv -> w_Class w <> ClassStateless -> useful_for arts (WKey w).
Proof.
  pose proof (Healthy_members inv arts) as Hm.
  unfold Healthy at 1. cbn [fst]. rewrite bool_decide_eq_true.
  change (snd (Healthy inv arts) = [] <-> forall w, w ∈ inv_Workloads inv ->
    w_Class w <> ClassStateless -> useful_for arts (WKey w)). split.
  - intros E w Hw Hc. destruct (decide (useful_forb arts (WKey w) = true)) as [H|H].
    + by apply useful_for_reflect.
    + exfalso. assert (WKey w ∈ snd (Healthy inv arts)) as Hin.
      { apply Hm. exists w. rewrite <- useful_for_reflect. auto. }
      rewrite E in Hin. by apply elem_of_nil in Hin.
  - intros H. destruct (snd (Healthy inv arts)) as [|key l] eqn:E; [done|]. exfalso.
    destruct (proj1 (Hm key)) as (w & Hw & Hc & <- & Hn); [left|]. by apply Hn, H.
Qed.

(** ** Properties *)

(** C24: [Healthy] lists, in inventory order, exactly the keys of the stateful
    workloads whose last recorded artifact is absent or not useful, and is true
    when there are none: it does not matter how many useless artifacts precede
    a useful one. *)
Theorem Healthy_exact inv arts :
  (forall key, key ∈ snd (Healthy inv arts) <->
     exists w, w ∈ inv_Workloads inv /\ w_Class w <> ClassStateless /\ WKey w = key /\
       ~ useful_for arts key) /\
  (fst (Healthy inv arts) = true <->
     forall w, w ∈ inv_Workloads inv -> w_Class w <> ClassStateless -> useful_for arts (WKey w)) /\
  sublist (snd (Healthy inv arts)) (List.map WKey (inv_Workloads inv)).
Proof.
  split_and!; [apply Healthy_members|apply Healthy_true|].
  rewrite Healthy_missing. unfold Stateful. induction (inv_Workloads inv) as [|w l IH]; simpl.
  - constructor.
  - destruct (is_stateful w); cbn [List.filter]; [case_if|]; cbn [List.map];
      first [by apply sublist_skip | by apply sublist_cons].
Qed.

(** a Backup Action succeeds exactly when every stateful workload's last
    artifact is useful, and fails otherwise with the first workload lacking one
    in its message; it is terminal either way, only a success is attested, and
    the attestation records the very workloads of the result. A workload of a
    succeeded Backup always passes the gate of every other Action
    ([actionphase.CanSucceed]). *)
Theorem backup_Advance_spec status facts :
  let r := Advance status facts in
  r_Terminal r = true /\ r_RequeueAfter r = 0%Z /\
  r_Workloads r = workloadsFrom (f_Inventory facts) (f_Artifacts facts) /\
  ((forall w, w ∈ f_Inventory facts -> w_Class w <> ClassStateless ->
      useful_for (f_Artifacts facts) (WKey w)) /\
   r_Phase r = ActionPhaseSucceeded /\
   r_Attestation r = Some (mkAttestation (f_Now facts) "controller" (r_Workloads r) []) /\
   Forall passed (r_Workloads r)
   \/
   r_Phase r = ActionPhaseFailed /\ r_Attestation r = None /\
   exists w, w ∈ f_Inventory facts /\ w_Class w <> ClassStateless /\
     ~ useful_for (f_Artifacts facts) (WKey w) /\
     r_Message r = "backup not useful: " +:+ WKey w).
Proof.
  intros r. subst r. unfold Advance.
  destruct (Healthy _ _) as [ok missing] eqn:E.
  pose proof (Healthy_missing (mkInventory [] (f_Inventory facts)) (f_Artifacts facts)) as Hm.
  rewrite E in Hm. cbn [snd] in Hm.
  assert (ok = bool_decide (missing = [])) as -> by (unfold Healthy in E; by injection E as <- <-).
  case_bool_decide as Hn; cbn [negb]; split_and!; try done.
  - left. rewrite Hn in Hm.
    assert (forall w, w ∈ f_Inventory facts -> w_Class w <> ClassStateless ->
      useful_for (f_Artifacts facts) (WKey w)) as Hu.
    { intros w Hw Hc. apply useful_for_reflect. apply not_false_iff_true. intros Hf.
      assert (WKey w ∈ ([] : list string)) as Hin.
      { rewrite Hm. apply list_elem_of_In, in_map, filter_In. rewrite Hf. split; [|done].
        apply filter_In. split; [by apply list_elem_of_In|].
        unfold is_stateful. by rewrite bool_decide_false. }
      by apply elem_of_nil in Hin. }
    split_and!; [done..|]. cbn. apply Forall_forall. intros s.
    unfold workloadsFrom. intros (w & -> & Hw)%list_elem_of_fmap.
    right. unfold status_from. case_bool_decide as Hc; cbn.
    + destruct (_ !! _); cbn; auto.
    + specialize (Hu w Hw Hc). apply useful_for_reflect in Hu. unfold useful_forb in Hu.
      destruct (_ !! _); cbn; auto.
  - right. split_and!; [done..|]. destruct missing as [|key missing]; [done|].
    assert (key ∈ key :: missing) as Hin by left. rewrite Hm in Hin.
    apply list_elem_of_In, in_map_iff in Hin as (w & <- & [[Hw Hs]%filter_In Hu]%filter_In).
    exists w. rewrite list_elem_of_In. split_and!; [done| | |done].
    + unfold is_stateful in Hs. by boolify.
    + apply negb_true_iff in Hu. rewrite <- useful_for_reflect. congruence.
Qed.
