(* ===== verification/Restore.v ===== *)
(** * Restore actions: src/pkg/restore/machine.go

    [Advance] maps an Action's status and the facts of one reconcile to the
    next status. Its [Facts] maps may be nil: reading one yields the zero
    value, but [preflight] writes [facts.UsefulMessage], and a write to a nil
    map panics, so [Advance] returns an option ([None] is the panic). The
    rewritten [UsefulMessage] is the caller's map; nothing reads it after. *)

From Stdlib Require Import ZArith Lia.
From S2P Require Import Prelude GoStrings Effects Api Kube Classify Movers ActionPhase.

Record Facts := mkFacts {
  f_Inventory : list Workload;
  f_Useful : gmap string bool;
  f_UsefulMessage : option (gmap string string);
  f_Rehydrated : gmap string bool;
  f_Ready : option (gmap string bool);
  f_Probes : option (gmap string ProbeResult);
  f_Healed : option (gmap string (list string));
  f_DryRun : bool;
  f_Now : time }.

Record Result := mkResult {
  r_Phase : ActionPhase;
  r_Message : string;
  r_Workloads : list WorkloadActionStatus;
  r_Attestation : option Attestation;
  r_RequeueAfter : duration;
  r_Terminal : bool }.

(** ** Field updates of a workload status *)

Definition with_message (m : string) (w : WorkloadActionStatus) : WorkloadActionStatus :=
  mkWAS (ws_Name w) (ws_Key w) (ws_Class w) (ws_Engine w) (ws_Ready w) (ws_Probe w)
    (ws_ProbeOK w) m (ws_Healed w).
Definition with_ready (r : bool) (w : WorkloadActionStatus) : WorkloadActionStatus :=
  mkWAS (ws_Name w) (ws_Key w) (ws_Class w) (ws_Engine w) r (ws_Probe w)
    (ws_ProbeOK w) (ws_Message w) (ws_Healed w).
Definition with_probe (p : string) (ok : bool) (w : WorkloadActionStatus) : WorkloadActionStatus :=
  mkWAS (ws_Name w) (ws_Key w) (ws_Class w) (ws_Engine w) (ws_Ready w) p ok
    (ws_Message w) (ws_Healed w).
Definition with_healed (h : list string) (w : WorkloadActionStatus) : WorkloadActionStatus :=
  mkWAS (ws_Name w) (ws_Key w) (ws_Class w) (ws_Engine w) (ws_Ready w) (ws_Probe w)
    (ws_ProbeOK w) (ws_Message w) h.

(** ** The steps of [Advance] *)

Definition seed_one (byKey : gmap string WorkloadActionStatus) (w : Workload) : WorkloadActionStatus :=
  let st := map_get zero_WAS byKey (WKey w) in
  mkWAS (w_Name w) (WKey w) (w_Class w) (w_Engine w) (ws_Ready st) (ws_Probe st)
    (ws_ProbeOK st) (ws_Message st) (ws_Healed st).

Definition seedWorkloads (existing : list WorkloadActionStatus) (inv : list Workload)
  : list WorkloadActionStatus :=
  match inv with
  | [] => existing
  | _ => List.map (seed_one (index_by ws_Key existing)) inv
  end.

(** The body of the loop of [applyFacts], one definition per fact. *)
Definition note_ready (facts : Facts) (w : WorkloadActionStatus) : WorkloadActionStatus :=
  match f_Ready facts with
  | Some r => with_ready (map_get false r (ws_Key w)) w
  | None => w
  end.
Definition note_probe (facts : Facts) (w : WorkloadActionStatus) : WorkloadActionStatus :=
  match f_Probes facts with
  | Some ps => match ps !! ws_Key w with
               | Some p => with_probe (pr_Message p) (pr_OK p) w
               | None => w
               end
  | None => w
  end.
Definition note_healed (facts : Facts) (w : WorkloadActionStatus) : WorkloadActionStatus :=
  match nmap_get [] (f_Healed facts) (ws_Key w) with
  | [] => w
  | h => with_healed h w
  end.
Definition note_message (facts : Facts) (w : WorkloadActionStatus) : WorkloadActionStatus :=
  let m := nmap_get EmptyString (f_UsefulMessage facts) (ws_Key w) in
  if String.eqb m EmptyString then w else with_message m w.
Definition note_stateless (w : WorkloadActionStatus) : WorkloadActionStatus :=
  if bool_decide (ws_Class w = ClassStateless) && ws_Ready w
  then with_probe (if String.eqb (ws_Probe w) EmptyString then "k8s-ready" else ws_Probe w) true w
  else w.
Definition apply_one (facts : Facts) (w : WorkloadActionStatus) : WorkloadActionStatus :=
  note_stateless (note_message facts (note_healed facts (note_probe facts (note_ready facts w)))).

Definition applyFacts (ws : list WorkloadActionStatus) (facts : Facts) : list WorkloadActionStatus :=
  List.map (apply_one facts) ws.

(** The message [preflight] records for a workload with no useful artifact. *)
Definition skip_message (recorded : string) : string :=
  let msg := if String.eqb recorded EmptyString then "no useful artifact" else recorded in
  if HasPrefix msg "skipped:" then msg else "skipped: " +:+ msg.

(** The loop: the workloads with their new messages and the restorable count;
    [None] is the write to a nil map. *)
Fixpoint preflight_loop (facts : Facts) (um : option (gmap string string)) (restorable : nat)
    (ws : list WorkloadActionStatus) : option (list WorkloadActionStatus * nat) :=
  match ws with
  | [] => Some ([], restorable)
  | w :: ws' =>
      if is_stateless w || map_get false (f_Useful facts) (ws_Key w) then
        '(l, n) ← preflight_loop facts um (S restorable) ws'; Some (w :: l, n)
      else
        let msg := skip_message (nmap_get EmptyString um (ws_Key w)) in
        m ← um;
        '(l, n) ← preflight_loop facts (Some (<[ws_Key w := msg]> m)) restorable ws';
        Some (with_message msg w :: l, n)
  end.

Definition preflight (ws : list WorkloadActionStatus) (facts : Facts)
    : option (string * list WorkloadActionStatus) :=
  match ws with
  | [] => Some ("no workloads in inventory"%string, ws)
  | _ =>
      '(ws', restorable) ← preflight_loop facts (f_UsefulMessage facts) 0 ws;
      Some ((if Nat.eqb restorable 0 then "no restorable workloads" else "")%string, ws')
  end.

Fixpoint waiting (ws : list WorkloadActionStatus) (ok : WorkloadActionStatus -> bool) : string :=
  match ws with
  | [] => EmptyString
  | w :: ws' => if Skipped w then waiting ws' ok
                else if negb (ok w) then ws_Key w
                else waiting ws' ok
  end.

Definition fail (ws : list WorkloadActionStatus) (msg : string) : Result :=
  mkResult ActionPhaseFailed msg ws None 0%Z true.

Definition requeue (phase : ActionPhase) (msg : string) (ws : list WorkloadActionStatus)
    (after : duration) : Result := mkResult phase msg ws None after false.

Definition attest (ws : list WorkloadActionStatus) (now : time) : Result :=
  let '(ok, reason) := CanSucceed ws in
  if negb ok then requeue ActionPhaseWaitingReady reason ws (5 * Second)%Z
  else
    let ids := List.filter (fun k => negb (String.eqb k EmptyString)) (List.map ws_Key ws) in
    mkResult ActionPhaseSucceeded "ready and class probes passed" ws
      (Some (mkAttestation now "controller" ws ids)) 0%Z true.

(** The two waits before attestation, shared by both waiting branches. *)
Definition wait_ready (ws : list WorkloadActionStatus) (now : time) : Result :=
  let pending := waiting ws ws_Ready in
  if negb (String.eqb pending EmptyString)
  then requeue ActionPhaseWaitingReady (pending +:+ " is not Ready") ws (5 * Second)%Z
  else
    let pending := waiting ws (fun w => is_stateless w || ws_ProbeOK w) in
    if negb (String.eqb pending EmptyString)
    then requeue ActionPhaseWaitingReady (pending +:+ " class probe has not passed") ws (5 * Second)%Z
    else attest ws now.

Definition Advance (status : ActionStatus) (facts : Facts) : option Result :=
  let phase := match as_Phase status with
               | PhaseOther "" => ActionPhasePending
               | p => p
               end in
  let workloads := applyFacts (seedWorkloads (as_Workloads status) (f_Inventory facts)) facts in
  match phase with
  | ActionPhaseSucceeded | ActionPhaseFailed | ActionPhaseRolledBack =>
      Some (mkResult phase (as_Message status) workloads (as_Attestation status) 0%Z true)
  | ActionPhasePending | ActionPhasePreflight =>
      '(msg, workloads) ← preflight workloads facts;
      if negb (String.eqb msg EmptyString) then Some (fail workloads ("preflight: " +:+ msg))
      else if f_DryRun facts then
        Some (mkResult ActionPhaseSucceeded "dry-run preflight passed (no restore performed)"
                workloads (Some (mkAttestation (f_Now facts) "dry-run" workloads [])) 0%Z true)
      else Some (requeue ActionPhaseRehydrating "preflight passed" workloads (2 * Second)%Z)
  | ActionPhaseQuiescing =>
      Some (requeue ActionPhaseRehydrating "quiesced" workloads Second)
  | ActionPhaseRehydrating | ActionPhaseApplying =>
      let pending := waiting workloads
        (fun w => is_stateless w || map_get false (f_Rehydrated facts) (ws_Key w)) in
      if negb (String.eqb pending EmptyString) then
        let msg := "rehydrating " +:+ pending in
        let m := nmap_get EmptyString (f_UsefulMessage facts) pending in
        let msg := if negb (String.eqb m EmptyString) then msg +:+ ": " +:+ m else msg in
        Some (requeue ActionPhaseRehydrating msg workloads (5 * Second)%Z)
      else Some (wait_ready workloads (f_Now facts))
  | ActionPhaseWaitingReady | ActionPhaseHealing =>
      Some (wait_ready workloads (f_Now facts))
  | ActionPhaseAttesting => Some (attest workloads (f_Now facts))
  | _ => Some (requeue ActionPhasePreflight "starting preflight" workloads Second)
  end.

(** ** Lemmas *)

Lemma attest_spec ws now :
  (completable ws /\ attest ws now = mkResult ActionPhaseSucceeded "ready and class probes passed" ws
     (Some (mkAttestation now "controller" ws
       (List.filter (fun k => negb (String.eqb k EmptyString)) (List.map ws_Key ws)))) 0%Z true) \/
  (~ completable ws /\ exists msg, msg <> EmptyString /\
     attest ws now = requeue ActionPhaseWaitingReady msg ws (5 * Second)%Z).
Proof.
  pose proof (CanSucceed_iff ws) as H. pose proof (CanSucceed_reason ws) as Hr.
  unfold attest. destruct (CanSucceed ws) as [[] reason]; cbn in *.
  - left. split; [by apply H|done].
  - right. split; [intros Hc; by apply H in Hc|]. exists reason. split; [|done].
    intros E. by apply Hr in E.
Qed.

Lemma wait_ready_spec ws now :
  wait_ready ws now = attest ws now \/
  exists msg, msg <> EmptyString /\
    wait_ready ws now = requeue ActionPhaseWaitingReady msg ws (5 * Second)%Z.
Proof.
  unfold wait_ready. case_if; [right; eexists; split; [|done]; by apply string_app_nonempty|].
  case_if; [right; eexists; split; [|done]; by apply string_app_nonempty|]. by left.
Qed.

Lemma waiting_passed ws ok :
  Forall (fun w => Skipped w = true \/ ok w = true) ws -> waiting ws ok = EmptyString.
Proof.
  induction 1 as [|w ws Hw _ IH]; cbn [waiting]; [done|].
  destruct (Skipped w); [done|]. destruct Hw as [|Hw]; [done|]. by rewrite Hw.
Qed.

(** When every workload has passed, the waits go straight to attestation. *)
Lemma wait_ready_passed ws now : Forall passed ws -> wait_ready ws now = attest ws now.
Proof.
  intros H. unfold wait_ready.
  rewrite (waiting_passed ws ws_Ready), (waiting_passed ws (fun w => is_stateless w || ws_ProbeOK w)).
  - done.
  - eapply Forall_impl; [done|]. intros w [?|[_ [Hc|Hp]]]; [by left|right..].
    + unfold is_stateless. by rewrite bool_decide_true.
    + rewrite Hp. by destruct (is_stateless w).
  - eapply Forall_impl; [done|]. intros w [?|[? _]]; auto.
Qed.

Lemma preflight_loop_panic facts um n ws :
  preflight_loop facts um n ws = None <->
  um = None /\ exists w, w ∈ ws /\ is_stateless w = false /\
    map_get false (f_Useful facts) (ws_Key w) = false.
Proof.
  revert um n. induction ws as [|w ws IH]; intros um n; cbn [preflight_loop].
  - split; [done|]. intros (_ & w & Hw & _). by apply elem_of_nil in Hw.
  - destruct (is_stateless w || map_get false (f_Useful facts) (ws_Key w)) eqn:E.
    + destruct (preflight_loop facts um (S n) ws) as [[l k]|] eqn:El; cbn.
      * split; [done|]. intros (-> & w' & [-> |Hw]%elem_of_cons & H1 & H2).
        { by rewrite H1, H2 in E. }
        assert (preflight_loop facts None (S n) ws = None) as Hn by (apply IH; eauto). congruence.
      * apply IH in El as (-> & w' & ? & ?). split; [|done]. intros _. split; [done|].
        exists w'. set_solver.
    + boolify. destruct um as [m|]; cbn.
      * destruct (preflight_loop facts _ n ws) as [[l k]|] eqn:El; cbn; [naive_solver|].
        by apply IH in El as [? _].
      * split; [|done]. intros _. split; [done|]. exists w. set_solver.
Qed.

(** *** The reconcile loop around [Advance]

    [record_result] is what [Reconcile] writes back (internal/controller):
    an attestation is kept when the result has none. *)

Definition record_result (start now : time) (dest : option string) (gen : Z) (st : ActionStatus)
    (r : Result) : ActionStatus :=
  let msg := match dest with
             | Some d => if String.eqb d EmptyString then r_Message r
                         else TrimSpace (r_Message r +:+ "; dest=" +:+ d)
             | None => r_Message r
             end in
  mkActionStatus (r_Phase r) msg (r_Workloads r)
    (match r_Attestation r with Some a => Some a | None => as_Attestation st end)
    (match as_StartTime st with Some t => Some t | None => Some start end)
    (if r_Terminal r then Some now else as_CompletionTime st) gen.

Definition with_phase (p : ActionPhase) (msg : string) (completion : option time)
    (st : ActionStatus) : ActionStatus :=
  mkActionStatus p msg (as_Workloads st) (as_Attestation st) (as_StartTime st) completion
    (as_ObservedGeneration st).

(** The status changes of one reconcile of a Restore Action. *)
Inductive step : ActionStatus -> ActionStatus -> Prop :=
| step_pending st : as_Phase st = PhaseOther "" ->
    step st (with_phase ActionPhasePending "pending" (as_CompletionTime st) st)
| step_fail st msg now : as_Phase st <> ActionPhaseSucceeded ->
    step st (with_phase ActionPhaseFailed msg (Some now) st)
| step_resume st : as_Phase st = ActionPhaseFailed ->
    step st (with_phase ActionPhaseRehydrating (as_Message st) None st)
| step_apply_retry st msg start now dest gen :
    as_Phase st <> ActionPhaseSucceeded ->
    step st (record_result start now dest gen st
      (requeue ActionPhaseRehydrating msg (as_Workloads st) (5 * Second)%Z))
| step_apply_failed st msg start now dest gen :
    as_Phase st <> ActionPhaseSucceeded ->
    step st (record_result start now dest gen st (fail [] msg))
| step_advance st facts r start now dest gen :
    as_Phase st <> ActionPhaseSucceeded -> Advance st facts = Some r ->
    step st (record_result start now dest gen st r).

(** A Succeeded status carries the attestation that justifies it. *)
Definition justified (st : ActionStatus) : Prop :=
  as_Phase st = ActionPhaseSucceeded ->
  exists a, as_Attestation st = Some a /\ at_Workloads a = as_Workloads st /\
    (at_Source a = "dry-run"%string \/
     at_Source a = "controller"%string /\ completable (at_Workloads a)).

(** What a result with phase Succeeded can be. *)
Definition succeeded_result (st : ActionStatus) (facts : Facts) (r : Result) : Prop :=
  (as_Phase st = ActionPhaseSucceeded /\ r_Attestation r = as_Attestation st /\
   r_Message r = as_Message st) \/
  (f_DryRun facts = true /\
   as_Phase st ∈ [PhaseOther ""; ActionPhasePending; ActionPhasePreflight] /\
   r_Attestation r = Some (mkAttestation (f_Now facts) "dry-run" (r_Workloads r) [])) \/
  (completable (r_Workloads r) /\
   exists ids, r_Attestation r = Some (mkAttestation (f_Now facts) "controller" (r_Workloads r) ids) /\
     forall k, k ∈ ids <-> k <> EmptyString /\ exists w, w ∈ r_Workloads r /\ ws_Key w = k).

Lemma attest_succeeded st facts ws :
  r_Phase (attest ws (f_Now facts)) = ActionPhaseSucceeded ->
  succeeded_result st facts (attest ws (f_Now facts)).
Proof.
  destruct (attest_spec ws (f_Now facts)) as [[Hc ->]|[_ (msg & _ & ->)]]; [|done]. intros _.
  right. right. split; [done|]. eexists. split; [done|]. intros k.
  rewrite list_elem_of_In, filter_In, in_map_iff, negb_true_iff, String.eqb_neq.
  cbn. setoid_rewrite list_elem_of_In. naive_solver.
Qed.

Lemma wait_ready_succeeded st facts ws :
  r_Phase (wait_ready ws (f_Now facts)) = ActionPhaseSucceeded ->
  succeeded_result st facts (wait_ready ws (f_Now facts)).
Proof.
  destruct (wait_ready_spec ws (f_Now facts)) as [->|(msg & _ & ->)]; [|done].
  apply attest_succeeded.
Qed.

Lemma Advance_succeeded st facts r :
  Advance st facts = Some r -> r_Phase r = ActionPhaseSucceeded -> succeeded_result st facts r.
Proof.
  intros H Hp. unfold Advance in H. set (ws := applyFacts _ _) in H.
  assert (forall p, p ∈ [PhaseOther ""; ActionPhasePending; ActionPhasePreflight] ->
    as_Phase st = p ->
    ('(msg, workloads) ← preflight ws facts;
      if negb (String.eqb msg EmptyString) then Some (fail workloads ("preflight: " +:+ msg))
      else if f_DryRun facts then
        Some (mkResult ActionPhaseSucceeded "dry-run preflight passed (no restore performed)"
                workloads (Some (mkAttestation (f_Now facts) "dry-run" workloads [])) 0%Z true)
      else Some (requeue ActionPhaseRehydrating "preflight passed" workloads (2 * Second)%Z))
    = Some r -> succeeded_result st facts r) as Hpre.
  { intros p Hin E. destruct (preflight ws facts) as [[msg ws']|]; cbn; [|done].
    case_if; [by intros [= <-]|]. case_if; [|by intros [= <-]]. intros [= <-].
    right. left. rewrite E. auto. }
  destruct (as_Phase st) as [| | | | | | | | | | | | | |s] eqn:Ep; cbn in H;
    try (injection H as <-; first [done | by apply attest_succeeded | by apply wait_ready_succeeded]);
    try (eapply Hpre; [|done..]; set_solver).
  - revert H Hp. case_if; intros [= <-]; [done|]. apply wait_ready_succeeded.
  - revert H Hp. case_if; intros [= <-]; [done|]. apply wait_ready_succeeded.
  - injection H as <-. left. auto.
  - destruct s; cbn in H; [eapply Hpre; [|done..]; set_solver|by injection H as <-].
Qed.

(** *** Progress *)

(** Facts under which every workload of the inventory is restored. *)
Record good_facts (facts : Facts) : Prop := {
  gf_inv : f_Inventory facts <> [];
  gf_dry : f_DryRun facts = false;
  gf_ready : forall w, w ∈ f_Inventory facts ->
    exists r, f_Ready facts = Some r /\ r !! WKey w = Some true;
  gf_rehydrated : forall w, w ∈ f_Inventory facts -> w_Class w <> ClassStateless ->
    f_Rehydrated facts !! WKey w = Some true /\ f_Useful facts !! WKey w = Some true /\
    exists ps p, f_Probes facts = Some ps /\ ps !! WKey w = Some p /\ pr_OK p = true;
  gf_unskipped : exists w um m, w ∈ f_Inventory facts /\ f_UsefulMessage facts = Some um /\
    um !! WKey w = Some m /\ m <> EmptyString /\ HasPrefix m "skipped:" = false }.

Definition facts_workloads (st : ActionStatus) (facts : Facts) : list WorkloadActionStatus :=
  applyFacts (seedWorkloads (as_Workloads st) (f_Inventory facts)) facts.

(** What each fact leaves alone. *)

Lemma note_ready_frame facts w : let w' := note_ready facts w in
  ws_Key w' = ws_Key w /\ ws_Class w' = ws_Class w /\ ws_ProbeOK w' = ws_ProbeOK w /\
  ws_Message w' = ws_Message w.
Proof. cbv zeta. unfold note_ready. by destruct (f_Ready facts). Qed.
Lemma note_probe_frame facts w : let w' := note_probe facts w in
  ws_Key w' = ws_Key w /\ ws_Class w' = ws_Class w /\ ws_Ready w' = ws_Ready w /\
  ws_Message w' = ws_Message w.
Proof. cbv zeta. unfold note_probe. destruct (f_Probes facts); [|done]. by destruct (_ !! _). Qed.
Lemma note_healed_frame facts w : let w' := note_healed facts w in
  ws_Key w' = ws_Key w /\ ws_Class w' = ws_Class w /\ ws_Ready w' = ws_Ready w /\
  ws_ProbeOK w' = ws_ProbeOK w /\ ws_Message w' = ws_Message w.
Proof. cbv zeta. unfold note_healed. by destruct (nmap_get _ _ _). Qed.
Lemma note_message_frame facts w : let w' := note_message facts w in
  ws_Key w' = ws_Key w /\ ws_Class w' = ws_Class w /\ ws_Ready w' = ws_Ready w /\
  ws_ProbeOK w' = ws_ProbeOK w.
Proof. cbv zeta. unfold note_message. by destruct (String.eqb _ _). Qed.
Lemma note_stateless_frame w : let w' := note_stateless w in
  ws_Key w' = ws_Key w /\ ws_Class w' = ws_Class w /\ ws_Ready w' = ws_Ready w /\
  ws_Message w' = ws_Message w /\
  (ws_Class w <> ClassStateless -> ws_ProbeOK w' = ws_ProbeOK w).
Proof.
  cbv zeta. unfold note_stateless. case_bool_decide as Hc; cbn; [|done].
  destruct (ws_Ready w) eqn:Hr; cbn; split_and!; congruence.
Qed.

(** One [apply_one], with every frame fact. *)
Ltac frames facts w := unfold apply_one;
  pose proof (note_ready_frame facts w) as Hf1;
  pose proof (note_probe_frame facts (note_ready facts w)) as Hf2;
  pose proof (note_healed_frame facts (note_probe facts (note_ready facts w))) as Hf3;
  pose proof (note_message_frame facts (note_healed facts (note_probe facts (note_ready facts w)))) as Hf4;
  pose proof (note_stateless_frame (note_message facts (note_healed facts
    (note_probe facts (note_ready facts w))))) as Hf5;
  cbv zeta in Hf1, Hf2, Hf3, Hf4, Hf5; destruct_and!.

Lemma apply_one_key facts w :
  ws_Key (apply_one facts w) = ws_Key w /\ ws_Class (apply_one facts w) = ws_Class w.
Proof. frames facts w. split; congruence. Qed.

(** What [apply_one] sets, for a workload whose key the facts know. *)
Lemma apply_one_ready facts w r :
  f_Ready facts = Some r -> ws_Ready (apply_one facts w) = map_get false r (ws_Key w).
Proof.
  intros E. frames facts w.
  assert (ws_Ready (note_ready facts w) = map_get false r (ws_Key w))
    by (unfold note_ready; by rewrite E). congruence.
Qed.

Lemma apply_one_probe facts w ps p :
  f_Probes facts = Some ps -> ps !! ws_Key w = Some p -> ws_Class w <> ClassStateless ->
  ws_ProbeOK (apply_one facts w) = pr_OK p.
Proof.
  intros E Ep Hc. frames facts w.
  assert (ws_ProbeOK (note_probe facts (note_ready facts w)) = pr_OK p) as Hp.
  { unfold note_probe. rewrite E. replace (ws_Key (note_ready facts w)) with (ws_Key w) by congruence.
    by rewrite Ep. }
  rewrite <- Hp. etransitivity; [match goal with H : _ -> ws_ProbeOK _ = _ |- _ => apply H end|];
    congruence.
Qed.

Lemma apply_one_message facts w um m :
  f_UsefulMessage facts = Some um -> um !! ws_Key w = Some m -> m <> EmptyString ->
  ws_Message (apply_one facts w) = m.
Proof.
  intros E Em Hm. frames facts w.
  set (w' := note_healed facts (note_probe facts (note_ready facts w))) in *.
  assert (ws_Message (note_message facts w') = m); [|congruence].
  unfold note_message. rewrite E. cbn. replace (ws_Key w') with (ws_Key w) by congruence.
  unfold map_get. rewrite Em. cbn. apply String.eqb_neq in Hm. by rewrite Hm.
Qed.

(** The workloads of a pass over a non-empty inventory. *)
Lemma elem_of_facts_workloads st facts s :
  f_Inventory facts <> [] ->
  s ∈ facts_workloads st facts <->
  exists w, w ∈ f_Inventory facts /\
    s = apply_one facts (seed_one (index_by ws_Key (as_Workloads st)) w).
Proof.
  intros Hi. unfold facts_workloads, seedWorkloads, applyFacts.
  destruct (f_Inventory facts) as [|w0 inv]; [done|].
  rewrite list_elem_of_fmap. setoid_rewrite list_elem_of_fmap. naive_solver.
Qed.

Lemma facts_workload_key st facts w :
  let s := apply_one facts (seed_one (index_by ws_Key (as_Workloads st)) w) in
  ws_Key s = WKey w /\ ws_Class s = w_Class w.
Proof. cbv zeta. destruct (apply_one_key facts (seed_one (index_by ws_Key (as_Workloads st)) w)). done. Qed.

(** With good facts every workload passes, whatever the status recorded. *)
Lemma good_completable st facts : good_facts facts -> completable (facts_workloads st facts).
Proof.
  intros [Hi _ Hr Hs (w & um & m & Hw & Eu & Em & Hm & Hp)]. split.
  - apply Forall_forall. intros s (w' & Hw' & ->)%elem_of_facts_workloads; [|done].
    destruct (facts_workload_key st facts w') as [_ Ec]. destruct (Hr w' Hw') as (r & Er & Hk).
    right. split.
    + rewrite (apply_one_ready _ _ r Er). cbn. unfold map_get. by rewrite Hk.
    + rewrite Ec. destruct (decide (w_Class w' = ClassStateless)) as [|Hc]; [by left|right].
      destruct (Hs w' Hw' Hc) as (_ & _ & ps & p & Eps & Hkp & Hok).
      by rewrite (apply_one_probe _ (seed_one _ w') ps p Eps).
  - eexists. split; [apply elem_of_facts_workloads; eauto|].
    unfold Skipped. by rewrite (apply_one_message _ (seed_one _ w) um m Eu Em Hm).
Qed.

Lemma good_rehydrated st facts :
  good_facts facts ->
  waiting (facts_workloads st facts)
    (fun w => is_stateless w || map_get false (f_Rehydrated facts) (ws_Key w)) = EmptyString.
Proof.
  intros [Hi _ _ Hs _]. apply waiting_passed, Forall_forall.
  intros s (w & Hw & ->)%elem_of_facts_workloads; [|done].
  destruct (facts_workload_key st facts w) as [Ek Ec]. cbv zeta in Ek, Ec. right.
  unfold is_stateless. rewrite Ek, Ec. case_bool_decide as Hc; [done|]. cbn.
  destruct (Hs w Hw Hc) as (Hre & _). unfold map_get. by rewrite Hre.
Qed.

Lemma preflight_loop_all facts um n ws :
  Forall (fun w => is_stateless w = true \/ map_get false (f_Useful facts) (ws_Key w) = true) ws ->
  preflight_loop facts um n ws = Some (ws, n + length ws).
Proof.
  intros H. revert n. induction H as [|w ws Hw _ IH]; intros n; cbn [preflight_loop length].
  - by rewrite Nat.add_0_r.
  - assert (is_stateless w || map_get false (f_Useful facts) (ws_Key w) = true) as ->
      by (apply orb_true_iff; naive_solver).
    rewrite IH. cbn. by rewrite Nat.add_succ_r.
Qed.

Lemma good_preflight st facts :
  good_facts facts ->
  preflight (facts_workloads st facts) facts = Some (EmptyString, facts_workloads st facts).
Proof.
  intros Hg. pose proof (good_completable st facts Hg) as [_ (w & Hw & _)].
  unfold preflight. destruct (facts_workloads st facts) as [|w0 ws] eqn:E.
  { by apply elem_of_nil in Hw. }
  rewrite <- E. rewrite preflight_loop_all; [rewrite E; done|].
  destruct Hg as [Hi _ _ Hs _]. apply Forall_forall.
  intros s (w' & Hw' & ->)%elem_of_facts_workloads; [|done].
  destruct (facts_workload_key st facts w') as [Ek Ec]. cbv zeta in Ek, Ec.
  unfold is_stateless. rewrite Ek, Ec.
  destruct (decide (w_Class w' = ClassStateless)); [left; by rewrite bool_decide_true|right].
  destruct (Hs w' Hw') as (_ & Hu & _); [done|]. unfold map_get. by rewrite Hu.
Qed.

(** Reconciling [n] times with the same facts. *)
Fixpoint advance_n (n : nat) (facts : Facts) (st : ActionStatus) : option ActionStatus :=
  match n with
  | O => Some st
  | S n => r ← Advance st facts; advance_n n facts (record_result (f_Now facts) (f_Now facts) None 0%Z st r)
  end.

Definition terminal (p : ActionPhase) : Prop :=
  p = ActionPhaseSucceeded \/ p = ActionPhaseFailed \/ p = ActionPhaseRolledBack.

(** From phase Rehydrating or later, one pass with good facts succeeds. *)
Lemma good_attests st facts :
  good_facts facts ->
  as_Phase st ∈ [ActionPhaseRehydrating; ActionPhaseApplying; ActionPhaseWaitingReady;
                 ActionPhaseHealing; ActionPhaseAttesting] ->
  exists r, Advance st facts = Some r /\ r_Phase r = ActionPhaseSucceeded /\ r_Terminal r = true.
Proof.
  intros Hg Hp. pose proof (good_completable st facts Hg) as Hc.
  pose proof (good_rehydrated st facts Hg) as Hr.
  assert (let a := attest (facts_workloads st facts) (f_Now facts) in
    r_Phase a = ActionPhaseSucceeded /\ r_Terminal a = true) as Ha.
  { cbv zeta. destruct (attest_spec (facts_workloads st facts) (f_Now facts)) as [[_ ->]|[Hn _]]; done. }
  assert (let a := wait_ready (facts_workloads st facts) (f_Now facts) in
    r_Phase a = ActionPhaseSucceeded /\ r_Terminal a = true) as Hw.
  { cbv zeta. by rewrite wait_ready_passed by apply Hc. }
  unfold Advance. fold (facts_workloads st facts).
  repeat (apply elem_of_cons in Hp as [-> |Hp]); rewrite ?Hr; cbn; eauto. by apply elem_of_nil in Hp.
Qed.

(** From Pending, Preflight or Quiescing one pass reaches Rehydrating. *)
Lemma good_rehydrates st facts :
  good_facts facts ->
  as_Phase st ∈ [PhaseOther ""; ActionPhasePending; ActionPhasePreflight; ActionPhaseQuiescing] ->
  exists r, Advance st facts = Some r /\ r_Phase r = ActionPhaseRehydrating.
Proof.
  intros Hg Hp. pose proof (good_preflight st facts Hg) as Hpre.
  unfold Advance. fold (facts_workloads st facts). rewrite Hpre.
  repeat (apply elem_of_cons in Hp as [-> |Hp]); cbn; rewrite ?(gf_dry _ Hg); eauto.
  by apply elem_of_nil in Hp.
Qed.

(** A new success that is no dry run is of the workloads of its own facts. *)
Lemma Advance_fresh st facts r :
  Advance st facts = Some r -> r_Phase r = ActionPhaseSucceeded -> as_Phase st <> ActionPhaseSucceeded ->
  f_DryRun facts = false ->
  r_Workloads r = facts_workloads st facts /\ completable (facts_workloads st facts).
Proof.
  intros HA Hp Hst Hd.
  assert (completable (r_Workloads r)) as Hc by
    (destruct (Advance_succeeded st facts r HA Hp) as [[? _]|[[? _]|[? _]]]; [done|congruence|done]).
  enough (r_Workloads r = facts_workloads st facts) as E by (by rewrite <- E).
  clear Hc. unfold Advance in HA. fold (facts_workloads st facts) in HA.
  assert (forall ws now, r_Workloads (attest ws now) = ws) as Ha
    by (intros ws now; destruct (attest_spec ws now) as [[_ ->]|[_ (msg & _ & ->)]]; done).
  assert (forall ws now, r_Workloads (wait_ready ws now) = ws) as Hw
    by (intros ws now; destruct (wait_ready_spec ws now) as [->|(msg & _ & ->)]; [apply Ha|done]).
  set (pre := '(msg, workloads) ← preflight _ facts; _) in HA.
  assert (pre = Some r -> False) as Hpre.
  { subst pre. destruct (preflight _ facts) as [[msg ws]|]; cbn; [|done]. rewrite Hd.
    case_if; intros [= <-]; done. }
  destruct (as_Phase st) as [| | | | | | | | | | | | | |[|a s]]; try (by destruct (Hpre HA)); cbn in HA;
    repeat case_if_in HA; injection HA as <-; try done; try apply Ha; apply Hw.
Qed.

(** ** Properties *)

(** no pass of a Restore ever writes Succeeded unless the status already
    was, or it is a dry run still at or before preflight, or at least one
    workload was not skipped and every workload that was not is Ready and,
    unless Stateless, has passed its probe; the new Succeeded status carries
    an attestation of exactly the workloads it reports. *)
Theorem restore_succeeded_safe st facts r :
  Advance st facts = Some r -> r_Phase r = ActionPhaseSucceeded -> succeeded_result st facts r.
Proof. apply Advance_succeeded. Qed.

(** Facts of a one-workload inventory whose Postgres is restored. *)
Definition pg_workload : Workload :=
  mkWorkload "shop" "pg" "StatefulSet" "apps/v1" ClassSQLLogical "postgres" ["postgres:16"]
    ["data-pg-0"] false None None.
Definition pg_facts : Facts :=
  let k := WKey pg_workload in
  mkFacts [pg_workload] {[k := true]} (Some {[k := "logical dump"%string]}) {[k := true]}
    (Some {[k := true]}) (Some {[k := mkProbe true "pg_isready"]}) (Some ∅) false 42%Z.

Lemma restore_succeeded_safe_witness :
  exists r, Advance (with_phase ActionPhaseRehydrating "" None zero_ActionStatus) pg_facts = Some r /\
    succeeded_result (with_phase ActionPhaseRehydrating "" None zero_ActionStatus) pg_facts r.
Proof.
  eexists. split; [vm_compute; reflexivity|].
  apply restore_succeeded_safe; vm_compute; reflexivity.
Defined.

(** over every sequence of reconciles of a Restore Action (passes with any
    facts, early failures, retried dest applies and resumed failures
    included), a status that says Succeeded carries an attestation of exactly
    its workloads, written by a dry run or by a gate all of them passed. *)
Theorem restore_reachable_justified st0 st :
  as_Phase st0 <> ActionPhaseSucceeded -> rtc step st0 st -> justified st.
Proof.
  intros H0 Hr. assert (justified st0) as Hj by (by intros ?).
  clear H0. induction Hr as [|x y z Hxy _ IH]; [done|]. apply IH. clear IH z.
  destruct Hxy as [st E|st msg now Hp|st E|st msg start now dest gen Hp|st msg start now dest gen Hp
    |st facts r start now dest gen Hp HA]; unfold justified; cbn; try done.
  intros Hs. destruct (Advance_succeeded _ _ _ HA Hs) as [[? _]|[(_ & _ & ->)|(Hc & ids & -> & _)]];
    [done| |]; eexists; (split; [done|]); cbn; auto.
Qed.

Lemma restore_reachable_justified_witness :
  exists st, rtc step zero_ActionStatus st /\ as_Phase st = ActionPhaseSucceeded /\ justified st.
Proof.
  assert (exists r1 r2, Advance zero_ActionStatus pg_facts = Some r1 /\
    Advance (record_result 1%Z 1%Z None 0%Z zero_ActionStatus r1) pg_facts = Some r2 /\
    r_Phase r1 = ActionPhaseRehydrating /\ r_Phase r2 = ActionPhaseSucceeded)
    as (r1 & r2 & H1 & H2 & E1 & E2).
  { do 2 eexists. split_and!; vm_compute; reflexivity. }
  exists (record_result 2%Z 2%Z None 0%Z (record_result 1%Z 1%Z None 0%Z zero_ActionStatus r1) r2).
  assert (rtc step zero_ActionStatus
    (record_result 2%Z 2%Z None 0%Z (record_result 1%Z 1%Z None 0%Z zero_ActionStatus r1) r2)) as Hs.
  { eapply rtc_l; [by apply (step_advance _ pg_facts r1)|].
    eapply rtc_once, (step_advance _ pg_facts r2); [|done]. cbn. by rewrite E1. }
  split_and!; [done|done|]. by apply (restore_reachable_justified zero_ActionStatus).
Defined.

(** a Restore whose facts say that every workload is restored, Ready and
    probed finishes: from any status that is not terminal, at most three
    reconciles reach Succeeded, and none panics. *)
Theorem restore_finishes st facts :
  good_facts facts -> ~ terminal (as_Phase st) ->
  exists n st', n <= 3 /\ advance_n n facts st = Some st' /\ as_Phase st' = ActionPhaseSucceeded.
Proof.
  intros Hg Ht.
  assert (forall st, as_Phase st ∈ [ActionPhaseRehydrating; ActionPhaseApplying;
    ActionPhaseWaitingReady; ActionPhaseHealing; ActionPhaseAttesting] ->
    exists st', advance_n 1 facts st = Some st' /\ as_Phase st' = ActionPhaseSucceeded) as H1.
  { intros st1 Hp. destruct (good_attests st1 facts Hg Hp) as (r & E & Er & _).
    cbn [advance_n]. rewrite E. cbn. eauto. }
  assert (forall st, as_Phase st ∈ [PhaseOther ""; ActionPhasePending; ActionPhasePreflight;
    ActionPhaseQuiescing] ->
    exists st', advance_n 2 facts st = Some st' /\ as_Phase st' = ActionPhaseSucceeded) as H2.
  { intros st1 Hp. destruct (good_rehydrates st1 facts Hg Hp) as (r & E & Er).
    destruct (H1 (record_result (f_Now facts) (f_Now facts) None 0%Z st1 r)) as (st' & E' & ?).
    { cbn. rewrite Er. elem. }
    exists st'. split; [|done]. change (advance_n 2 facts st1) with
      (r ← Advance st1 facts; advance_n 1 facts (record_result (f_Now facts) (f_Now facts) None 0%Z st1 r)).
    by rewrite E. }
  assert (as_Phase st ∈ [ActionPhaseRehydrating; ActionPhaseApplying; ActionPhaseWaitingReady;
      ActionPhaseHealing; ActionPhaseAttesting] \/
    as_Phase st ∈ [PhaseOther ""; ActionPhasePending; ActionPhasePreflight; ActionPhaseQuiescing] \/
    Advance st facts = Some (requeue ActionPhasePreflight "starting preflight"
      (facts_workloads st facts) Second)) as [Hp|[Hp|Hp]].
  { unfold Advance, terminal in *. fold (facts_workloads st facts).
    destruct (as_Phase st) as [| | | | | | | | | | | | | |[|a s]]; cbn; try tauto;
      first [left; elem|right; left; elem|by right; right]. }
  - destruct (H1 st Hp) as (st' & ? & ?). exists 1, st'. split_and!; [lia|done..].
  - destruct (H2 st Hp) as (st' & ? & ?). exists 2, st'. split_and!; [lia|done..].
  - destruct (H2 (record_result (f_Now facts) (f_Now facts) None 0%Z st (requeue ActionPhasePreflight
      "starting preflight" (facts_workloads st facts) Second))) as (st' & E & ?);
      [cbn; elem|].
    exists 3, st'. split_and!; [lia| |done]. change (advance_n 3 facts st) with
      (r ← Advance st facts; advance_n 2 facts (record_result (f_Now facts) (f_Now facts) None 0%Z st r)).
    by rewrite Hp.
Qed.

Lemma restore_finishes_witness :
  exists n st', n <= 3 /\ advance_n n pg_facts zero_ActionStatus = Some st' /\
    as_Phase st' = ActionPhaseSucceeded.
Proof.
  apply restore_finishes; [|by intros [?|[?|?]]].
  constructor; cbn; try done.
  - intros w ->%list_elem_of_singleton. eexists. split; [done|]. by rewrite lookup_singleton_eq.
  - intros w ->%list_elem_of_singleton _. rewrite !lookup_singleton_eq. split_and!; try done.
    do 2 eexists. split; [done|]. by rewrite lookup_singleton_eq.
  - exists pg_workload. do 2 eexists. rewrite list_elem_of_singleton.
    split_and!; [done|done|by rewrite lookup_singleton_eq|done|done].
Defined.

(** the one runtime panic of a Restore pass: [Advance] panics exactly when
    the Action is at or before preflight, [facts.UsefulMessage] is nil, and
    some stateful workload has no useful artifact (the message is written into
    the nil map). The controller always passes a map. *)
Theorem restore_panics st facts :
  Advance st facts = None <->
  as_Phase st ∈ [PhaseOther ""; ActionPhasePending; ActionPhasePreflight] /\
  f_UsefulMessage facts = None /\
  exists w, w ∈ facts_workloads st facts /\ ws_Class w <> ClassStateless /\
    map_get false (f_Useful facts) (ws_Key w) = false.
Proof.
  assert (preflight (facts_workloads st facts) facts = None <->
    f_UsefulMessage facts = None /\
    exists w, w ∈ facts_workloads st facts /\ ws_Class w <> ClassStateless /\
      map_get false (f_Useful facts) (ws_Key w) = false) as Hpre.
  { unfold preflight. destruct (facts_workloads st facts) as [|w0 ws].
    - split; [done|]. intros (_ & w & Hw & _). by apply elem_of_nil in Hw.
    - pose proof (preflight_loop_panic facts (f_UsefulMessage facts) 0 (w0 :: ws)) as H.
      unfold is_stateless in H. setoid_rewrite bool_decide_eq_false in H. rewrite <- H.
      by destruct (preflight_loop _ _ _ _) as [[l n]|]. }
  unfold Advance. fold (facts_workloads st facts). rewrite <- Hpre.
  destruct (preflight (facts_workloads st facts) facts) as [[msg ws]|] eqn:E;
    (destruct (as_Phase st) as [| | | | | | | | | | | | | |[|a s]]; cbn; rewrite ?E; cbn;
     repeat case_if; split; intros H; try done; try (split; [elem|done]);
     destruct H as [H H']; try done;
     repeat (apply elem_of_cons in H as [H|H]; [done|]); by apply elem_of_nil in H).
Qed.
