(* ===== verification/Cutover.v ===== *)
(** * Cutover actions: src/pkg/cutover/machine.go

    Pending, freeze the source, catch up the replica, promote, switch traffic,
    wait for the destination, attest; rollback from any phase. The result type
    is the Restore one. *)

From Stdlib Require Import ZArith Lia.
From S2P Require Import Prelude GoStrings Effects Api Kube Classify Movers ActionPhase.
From S2P Require Restore.
Import Restore (Result, mkResult, r_Phase, r_Message, r_Workloads, r_Attestation,
  r_RequeueAfter, r_Terminal, requeue, record_result, with_ready, with_probe).

Record Facts := mkFacts {
  f_Inventory : list Workload;
  f_Frozen : bool;
  f_LagZero : bool;
  f_Promoted : bool;
  f_Switched : bool;
  f_Rolled : bool;
  f_Ready : option (gmap string bool);
  f_Probes : option (gmap string ProbeResult);
  f_DryRun : bool;
  f_Rollback : bool;
  f_Now : time }.

Definition seed_one (byKey : gmap string WorkloadActionStatus) (facts : Facts) (w : Workload)
  : WorkloadActionStatus :=
  let st := map_get zero_WAS byKey (WKey w) in
  let st := mkWAS (w_Name w) (WKey w) (w_Class w) (w_Engine w) (ws_Ready st) (ws_Probe st)
              (ws_ProbeOK st) (ws_Message st) (ws_Healed st) in
  let st := match f_Ready facts with
            | Some r => with_ready (map_get false r (WKey w)) st
            | None => st
            end in
  let st := match f_Probes facts with
            | Some ps => match ps !! WKey w with
                         | Some p => with_probe (pr_Message p) (pr_OK p) st
                         | None => st
                         end
            | None => st
            end in
  if bool_decide (ws_Class st = ClassStateless) && ws_Ready st
  then with_probe (ws_Probe st) true st else st.

Definition seed (existing : list WorkloadActionStatus) (facts : Facts) : list WorkloadActionStatus :=
  match f_Inventory facts with
  | [] => existing
  | inv => List.map (seed_one (index_by ws_Key existing) facts) inv
  end.

(** The loop before [CanSucceed]: the first workload that holds it up. *)
Fixpoint hold_up (ws : list WorkloadActionStatus) : option string :=
  match ws with
  | [] => None
  | w :: ws' =>
      if negb (ws_Ready w) then Some (ws_Key w +:+ " is not Ready")
      else if negb (is_stateless w) && negb (ws_ProbeOK w)
      then Some (ws_Key w +:+ " class probe has not passed")
      else hold_up ws'
  end.

Definition finish (ws : list WorkloadActionStatus) (now : time) : Result :=
  match hold_up ws with
  | Some msg => requeue ActionPhaseWaitingReady msg ws (5 * Second)%Z
  | None =>
      let '(ok, reason) := CanSucceed ws in
      if negb ok then requeue ActionPhaseWaitingReady reason ws (5 * Second)%Z
      else mkResult ActionPhaseSucceeded "cutover complete; dest Ready and probed" ws
             (Some (mkAttestation now "cutover" ws [])) 0%Z true
  end.

Definition Advance (status : ActionStatus) (facts : Facts) : Result :=
  let phase := match as_Phase status with
               | PhaseOther "" => ActionPhasePending
               | p => p
               end in
  let workloads := seed (as_Workloads status) facts in
  let terminal p msg := mkResult p msg workloads None 0%Z true in
  if f_Rollback facts && negb (bool_decide (phase = ActionPhaseRolledBack))
  then terminal ActionPhaseRolledBack "source unfrozen; traffic rolled back"
  else
    match phase with
    | ActionPhaseSucceeded | ActionPhaseFailed | ActionPhaseRolledBack =>
        mkResult phase (as_Message status) workloads (as_Attestation status) 0%Z true
    | ActionPhasePending | ActionPhasePreflight =>
        if f_Rollback facts then terminal ActionPhaseRolledBack "rollback requested"
        else if f_DryRun facts then terminal ActionPhaseSucceeded "dry-run cutover preflight"
        else requeue ActionPhaseQuiescing "freezing source writes" workloads Second
    | ActionPhaseQuiescing =>
        if negb (f_Frozen facts)
        then requeue ActionPhaseQuiescing "waiting for source scale-to-zero" workloads (3 * Second)%Z
        else requeue ActionPhaseCatchingUp "source frozen; catching up replica" workloads Second
    | ActionPhaseCatchingUp =>
        if negb (f_LagZero facts)
        then requeue ActionPhaseCatchingUp "waiting for replica lag=0" workloads (3 * Second)%Z
        else requeue ActionPhasePromoting "lag=0; promoting dest" workloads Second
    | ActionPhasePromoting =>
        if negb (f_Promoted facts)
        then requeue ActionPhasePromoting "promoting dest primary" workloads (3 * Second)%Z
        else requeue ActionPhaseSwitching "promoted; switching traffic" workloads Second
    | ActionPhaseSwitching =>
        if negb (f_Switched facts)
        then requeue ActionPhaseSwitching "waiting for traffic hook" workloads (2 * Second)%Z
        else requeue ActionPhaseWaitingReady "traffic switched; waiting for dest Ready + probe"
               workloads (2 * Second)%Z
    | ActionPhaseWaitingReady | ActionPhaseHealing | ActionPhaseAttesting =>
        finish workloads (f_Now facts)
    | _ => requeue ActionPhasePreflight "starting cutover" workloads Second
    end.

(** ** Lemmas *)

Lemma finish_succeeded ws now :
  r_Phase (finish ws now) = ActionPhaseSucceeded ->
  completable ws /\ Forall (fun w => ws_Ready w = true) ws /\
  r_Attestation (finish ws now) = Some (mkAttestation now "cutover" ws []) /\
  r_Workloads (finish ws now) = ws.
Proof.
  unfold finish. destruct (hold_up ws) eqn:Eh; [done|].
  pose proof (CanSucceed_iff ws) as H. destruct (CanSucceed ws) as [[] reason]; [|done].
  intros _. split_and!; [by apply H| |done|done]. clear H.
  induction ws as [|w ws IH]; [constructor|]. cbn [hold_up] in Eh.
  destruct (ws_Ready w) eqn:Er; [|done]. cbn in Eh. case_if_in Eh; [done|]. auto.
Qed.

Lemma finish_phase ws now :
  r_Phase (finish ws now) = ActionPhaseSucceeded \/ r_Phase (finish ws now) = ActionPhaseWaitingReady.
Proof.
  unfold finish. destruct (hold_up ws); [auto|]. destruct (CanSucceed ws) as [[] reason]; auto.
Qed.

(** Nothing holds up: every workload is Ready, and probed unless Stateless,
    whatever its message says. *)
Lemma hold_up_None ws : hold_up ws = None ->
  Forall (fun w => ws_Ready w = true /\ (ws_Class w = ClassStateless \/ ws_ProbeOK w = true)) ws.
Proof.
  induction ws as [|w ws IH]; intros H; [constructor|]. cbn [hold_up] in H. unfold is_stateless in H.
  destruct (ws_Ready w) eqn:Er; [|done]. cbn in H. case_bool_decide as Hc; cbn in H; [constructor; auto|].
  destruct (ws_ProbeOK w) eqn:Ep; [|done]. cbn in H. constructor; auto.
Qed.

Lemma finish_probed ws now : r_Phase (finish ws now) = ActionPhaseSucceeded ->
  Forall (fun w => ws_Ready w = true /\ (ws_Class w = ClassStateless \/ ws_ProbeOK w = true)) ws.
Proof. unfold finish. destruct (hold_up ws) eqn:E; [done|]. intros _. by apply hold_up_None. Qed.

(** What a pass says of each workload. *)
Lemma seed_one_ready byKey facts w m : f_Ready facts = Some m ->
  ws_Ready (seed_one byKey facts w) = map_get false m (WKey w).
Proof. intros H. unfold seed_one. rewrite H. by repeat case_match. Qed.

Lemma seed_one_probe byKey facts w ps p : f_Probes facts = Some ps -> ps !! WKey w = Some p ->
  w_Class w <> ClassStateless \/ pr_OK p = true -> ws_ProbeOK (seed_one byKey facts w) = pr_OK p.
Proof.
  intros H Hp Hok. unfold seed_one. rewrite H, Hp. destruct Hok as [Hok|Hok];
    destruct (f_Ready facts); cbn; rewrite ?bool_decide_eq_false_2 by done; cbn; try done; by case_if.
Qed.

Lemma seed_one_class byKey facts w : ws_Class (seed_one byKey facts w) = w_Class w.
Proof. unfold seed_one. by repeat case_match. Qed.

Lemma seed_one_key byKey facts w : ws_Key (seed_one byKey facts w) = WKey w.
Proof. unfold seed_one. by repeat case_match. Qed.

Lemma seed_one_skipped existing facts w : Forall (fun s => Skipped s = false) existing ->
  Skipped (seed_one (index_by ws_Key existing) facts w) = false.
Proof.
  intros H. unfold Skipped.
  replace (ws_Message (seed_one (index_by ws_Key existing) facts w))
    with (ws_Message (map_get zero_WAS (index_by ws_Key existing) (WKey w))) by (unfold seed_one; by repeat case_match).
  unfold map_get. destruct (index_by ws_Key existing !! WKey w) as [st|] eqn:E; [|done].
  apply index_by_lookup_Some in E as (l1 & l2 & -> & _). rewrite Forall_forall in H. apply H. set_solver.
Qed.

Lemma Advance_workloads st facts : r_Workloads (Advance st facts) = seed (as_Workloads st) facts.
Proof.
  unfold Advance. destruct (as_Phase st) as [| | | | | | | | | | | | | |[|? s]]; cbn;
    repeat (case_if; cbn); try done; unfold finish; by repeat case_match.
Qed.

(** *** The stages a cutover has to go through

    [stage] numbers the phases of the happy path. *)
Definition stage (p : ActionPhase) : nat :=
  match p with
  | ActionPhaseQuiescing => 1
  | ActionPhaseCatchingUp => 2
  | ActionPhasePromoting => 3
  | ActionPhaseSwitching => 4
  | ActionPhaseWaitingReady | ActionPhaseHealing | ActionPhaseAttesting => 5
  | ActionPhaseSucceeded => 6
  | _ => 0
  end.

(** What the passes so far observed: ghost state of the trace. *)
Record history := mkHistory {
  h_frozen : bool; h_lag_zero : bool; h_promoted : bool; h_switched : bool; h_dry : bool }.
Definition no_history : history := mkHistory false false false false false.

Definition observe (p : ActionPhase) (facts : Facts) (h : history) : history :=
  mkHistory
    (h_frozen h || bool_decide (p = ActionPhaseQuiescing) && f_Frozen facts)
    (h_lag_zero h || h_frozen h && bool_decide (p = ActionPhaseCatchingUp) && f_LagZero facts)
    (h_promoted h || h_lag_zero h && bool_decide (p = ActionPhasePromoting) && f_Promoted facts)
    (h_switched h || h_promoted h && bool_decide (p = ActionPhaseSwitching) && f_Switched facts)
    (h_dry h || f_DryRun facts).

(** One pass of [Reconcile] over a Cutover Action that is not terminal. *)
Definition terminal (p : ActionPhase) : bool :=
  bool_decide (p = ActionPhaseSucceeded) || bool_decide (p = ActionPhaseFailed) ||
  bool_decide (p = ActionPhaseRolledBack).

Inductive step : ActionStatus * history -> ActionStatus * history -> Prop :=
| step_pass st h facts start now dest gen :
    terminal (as_Phase st) = false ->
    step (st, h) (record_result start now dest gen st (Advance st facts),
                  observe (as_Phase st) facts h).

(** The stages passed are in the history, in order. *)
Definition ordered (x : ActionStatus * history) : Prop :=
  let '(st, h) := x in
  (2 <= stage (as_Phase st) -> h_frozen h = true \/ as_Phase st = ActionPhaseSucceeded /\ h_dry h = true) /\
  (3 <= stage (as_Phase st) -> h_lag_zero h = true \/ as_Phase st = ActionPhaseSucceeded /\ h_dry h = true) /\
  (4 <= stage (as_Phase st) -> h_promoted h = true \/ as_Phase st = ActionPhaseSucceeded /\ h_dry h = true) /\
  (5 <= stage (as_Phase st) -> h_switched h = true \/ as_Phase st = ActionPhaseSucceeded /\ h_dry h = true).

(** The phase a pass can lead to, by the phase it starts from. *)
Definition next_phase (p : ActionPhase) (facts : Facts) (p' : ActionPhase) : Prop :=
  p' = ActionPhaseRolledBack /\ f_Rollback facts = true \/
  match p with
  | ActionPhasePending | ActionPhasePreflight | PhaseOther "" =>
      p' = ActionPhaseQuiescing \/ p' = ActionPhaseSucceeded /\ f_DryRun facts = true
  | ActionPhaseQuiescing => p' = p \/ p' = ActionPhaseCatchingUp /\ f_Frozen facts = true
  | ActionPhaseCatchingUp => p' = p \/ p' = ActionPhasePromoting /\ f_LagZero facts = true
  | ActionPhasePromoting => p' = p \/ p' = ActionPhaseSwitching /\ f_Promoted facts = true
  | ActionPhaseSwitching => p' = p \/ p' = ActionPhaseWaitingReady /\ f_Switched facts = true
  | ActionPhaseWaitingReady | ActionPhaseHealing | ActionPhaseAttesting =>
      p' = ActionPhaseWaitingReady \/ p' = ActionPhaseSucceeded
  | ActionPhaseSucceeded | ActionPhaseFailed | ActionPhaseRolledBack => p' = p
  | _ => p' = ActionPhasePreflight
  end.

Lemma Advance_next st facts : next_phase (as_Phase st) facts (r_Phase (Advance st facts)).
Proof.
  unfold next_phase, Advance.
  destruct (as_Phase st) as [| | | | | | | | | | | | | |[|a s]]; cbn;
    destruct (f_Rollback facts); cbn; try (by left; auto); right; cbn; auto;
    try (destruct (f_DryRun facts); cbn; by auto);
    try (destruct (f_Frozen facts); cbn; by auto);
    try (destruct (f_LagZero facts); cbn; by auto);
    try (destruct (f_Promoted facts); cbn; by auto);
    try (destruct (f_Switched facts); cbn; by auto);
    destruct (finish_phase (seed (as_Workloads st) facts) (f_Now facts)); auto.
Qed.

Lemma step_ordered x y : step x y -> ordered x -> ordered y.
Proof.
  intros [st h facts start now dest gen Ht]. cbn [ordered record_result as_Phase].
  pose proof (Advance_next st facts) as Hn. revert Hn.
  generalize (r_Phase (Advance st facts)). intros p' Hn (H2 & H3 & H4 & H5).
  unfold next_phase, terminal, observe in *. destruct h as [hf hl hp hs hd]; cbn in *.
  destruct (as_Phase st) as [| | | | | | | | | | | | | |[|a s]]; decide_consts; cbn in *; try done;
    repeat match goal with H : _ \/ _ |- _ => destruct H end; destruct_and?; subst; cbn;
    repeat match goal with
    | H : ?n <= ?m -> _ |- _ => first [specialize (H ltac:(lia)) | clear H]
    end;
    repeat match goal with H : _ \/ _ |- _ => destruct H as [H|[??]]; [subst|done] end;
    split_and!; intros; try lia;
    repeat match goal with H : ?b = true |- context [?b] => rewrite H end;
    rewrite ?orb_true_r, ?orb_true_l; auto.
Qed.

Lemma steps_ordered x y : rtc step x y -> ordered x -> ordered y.
Proof. induction 1 as [|x y z Hxy _ IH]; [done|]. intros Hx. by eapply IH, step_ordered. Qed.

(** A Succeeded status is attested, or is that of a dry run. *)
Definition attested (x : ActionStatus * history) : Prop :=
  let '(st, h) := x in
  as_Phase st = ActionPhaseSucceeded ->
  h_dry h = true \/
  (completable (as_Workloads st) /\ Forall (fun w => ws_Ready w = true) (as_Workloads st) /\
   exists now, as_Attestation st = Some (mkAttestation now "cutover" (as_Workloads st) [])).

Lemma Advance_attests st facts :
  terminal (as_Phase st) = false -> r_Phase (Advance st facts) = ActionPhaseSucceeded ->
  f_DryRun facts = true \/
  (completable (r_Workloads (Advance st facts)) /\
   Forall (fun w => ws_Ready w = true) (r_Workloads (Advance st facts)) /\
   r_Attestation (Advance st facts) =
     Some (mkAttestation (f_Now facts) "cutover" (r_Workloads (Advance st facts)) [])).
Proof.
  unfold Advance, terminal.
  destruct (as_Phase st) as [| | | | | | | | | | | | | |[|a s]]; cbn; try done; intros _;
    destruct (f_Rollback facts); cbn; try done; repeat (case_if; cbn); try done; auto;
    intros Hs; apply finish_succeeded in Hs as (? & ? & ? & ->); auto.
Qed.

Lemma steps_attested x y : rtc step x y -> attested x -> attested y.
Proof.
  induction 1 as [|x y z Hxy _ IH]; [done|]. intros Hx. apply IH. clear IH z.
  destruct Hxy as [st h facts start now dest gen Ht]. cbn. intros Hs.
  destruct (Advance_attests st facts Ht Hs) as [->|(? & ? & ->)].
  - left. by rewrite orb_true_r.
  - right. eauto.
Qed.

(** ** Properties *)

(** C19: a cutover cannot skip a stage. In every sequence of passes from a fresh
    Action, reaching the replica catch-up means a pass saw the source frozen
    while quiescing, reaching promotion means one later saw no lag, reaching the
    traffic switch means one later saw the promotion done, and reaching the
    final wait or Succeeded means one later saw the traffic hook answer; the
    only Succeeded without them is a dry run's, and any other Succeeded status
    is attested with every workload Ready. *)
Theorem cutover_order st0 st h :
  as_Phase st0 = PhaseOther "" -> rtc step (st0, no_history) (st, h) ->
  ordered (st, h) /\ attested (st, h).
Proof.
  intros H0 Hr. split.
  - eapply steps_ordered; [done|]. cbn. rewrite H0. cbn. split_and!; intros; lia.
  - eapply steps_attested; [done|]. cbn. by rewrite H0.
Qed.

(** The facts of a pass whose source is frozen, caught up, promoted and
    switched, for one Ready, probed workload. *)
Definition done_facts : Facts :=
  let k := WKey Restore.pg_workload in
  mkFacts [Restore.pg_workload] true true true true false (Some {[k := true]})
    (Some {[k := mkProbe true "pg_isready"]}) false false 7%Z.

Definition pass (st : ActionStatus) : ActionStatus :=
  record_result 1%Z 1%Z None 0%Z st (Advance st done_facts).

Lemma cutover_order_witness :
  exists st h, rtc step (zero_ActionStatus, no_history) (st, h) /\
    as_Phase st = ActionPhaseSucceeded /\ ordered (st, h) /\ attested (st, h).
Proof.
  assert (exists h, rtc step (zero_ActionStatus, no_history)
    (pass (pass (pass (pass (pass (pass zero_ActionStatus))))), h)) as [h Hr].
  { eexists. do 6 (eapply rtc_l;
      [apply (step_pass _ _ done_facts 1%Z 1%Z None 0%Z); vm_compute; reflexivity|]).
    apply rtc_refl. }
  eexists _, h. split_and!; [exact Hr|vm_compute; reflexivity| |].
  - by apply (cutover_order zero_ActionStatus).
  - by apply (cutover_order zero_ActionStatus).
Defined.

(** rollback wins over every phase: while spec.rollback is set a pass ends
    RolledBack and terminal whatever the facts are, and a status that is
    already RolledBack, and without a rollback one that is Succeeded or
    Failed, is left as it is, message and attestation included. *)
Theorem cutover_rollback st facts :
  (f_Rollback facts = true -> r_Phase (Advance st facts) = ActionPhaseRolledBack /\
     r_Terminal (Advance st facts) = true) /\
  (terminal (as_Phase st) = true -> f_Rollback facts = false \/ as_Phase st = ActionPhaseRolledBack ->
     r_Phase (Advance st facts) = as_Phase st /\ r_Message (Advance st facts) = as_Message st /\
     r_Attestation (Advance st facts) = as_Attestation st /\ r_Terminal (Advance st facts) = true) /\
  (r_Terminal (Advance st facts) = true <-> terminal (r_Phase (Advance st facts)) = true).
Proof.
  unfold Advance, terminal. split_and!.
  - intros ->. destruct (as_Phase st) as [| | | | | | | | | | | | | |[|a s]]; cbn; done.
  - destruct (as_Phase st) as [| | | | | | | | | | | | | |[|a s]]; cbn; try done;
      intros _ [->|?]; cbn; try done; by destruct (f_Rollback facts).
  - destruct (as_Phase st) as [| | | | | | | | | | | | | |[|a s]];
      destruct (f_Rollback facts); cbn; try done; unfold finish;
      repeat case_match; done.
Qed.

Lemma cutover_rollback_witness :
  r_Phase (Advance (Restore.with_phase ActionPhaseSwitching "" None zero_ActionStatus)
    (mkFacts [] false false false false false None None false true 0%Z)) = ActionPhaseRolledBack.
Proof. apply cutover_rollback. reflexivity. Defined.
