(* ===== verification/Workloads.v ===== *)
(** * Readiness, pods and scaling: src/pkg/workloads

    pods.go (what "Ready" means, which pods belong to a workload) and scale.go
    (freezing the source by scaling to zero and remembering the count). *)

From Stdlib Require Import ZArith Lia.
From S2P Require Import Prelude GoStrings Effects Api Json Kube Classify.

(** ** pods.go *)

Definition isPodReady (p : Pod) : bool :=
  if negb (String.eqb (pod_Phase p) "Running") then false
  else existsb (fun c => String.eqb (cond_Type c) "Ready" && String.eqb (cond_Status c) "True")
         (pod_Conditions p).

Definition containerName (p : Pod) : string :=
  match sp_Containers (pod_Spec p) with [] => EmptyString | c :: _ => ct_Name c end.

Definition ownedBy (rs : ReplicaSet) (kind name : string) : bool :=
  existsb (fun o => String.eqb (or_Kind o) kind && String.eqb (or_Name o) name)
    (om_OwnerReferences (rs_Meta rs)).

Definition podOwnedBy (p : Pod) (names : gset string) : bool :=
  existsb (fun o => bool_decide (or_Name o ∈ names)) (om_OwnerReferences (pod_Meta p)).

Definition ListPods (c : kube) (w : Workload) : io ev (res (list Pod)) :=
  let* pods := trigger (kList c KPod (w_Namespace w)) in
  match pods with
  | Err e => Ret (Err (wrapf ("list pods in " +:+ w_Namespace w +:+ ": ") e))
  | Ok pods =>
      let owned owners := Ret (Ok (List.filter (fun p => podOwnedBy p owners) pods)) in
      if String.eqb (w_Kind w) "Deployment" then
        let* rss := trigger (kList c KReplicaSet (w_Namespace w)) in
        match rss with
        | Err e => Ret (Err e)
        | Ok rss =>
            owned (fold_left (fun owners rs =>
                     if ownedBy rs "Deployment" (w_Name w)
                     then {[om_Name (rs_Meta rs)]} ∪ owners else owners)
                   rss {[w_Name w]})
        end
      else owned {[w_Name w]}
  end.

(** The replicas asked for, and the "at least one Ready" rule of Ready. *)
Definition wanted (replicas : option Z) : Z := default 1%Z replicas.
Definition ready_of (replicas : option Z) (readyReplicas : Z) : bool :=
  if (wanted replicas =? 0)%Z then false else (1 <=? readyReplicas)%Z.

(** Ready; the boolean is false beside an error. *)
Definition Ready (c : kube) (w : Workload) : io ev (bool * option err) :=
  if String.eqb (w_Kind w) "StatefulSet" then
    let* sts := trigger (kGet c KStatefulSet (w_Namespace w) (w_Name w)) in
    match sts with
    | Err e => Ret (false, Some e)
    | Ok s => Ret (ready_of (sts_Replicas s) (sts_ReadyReplicas s), None)
    end
  else if String.eqb (w_Kind w) "Deployment" then
    let* dep := trigger (kGet c KDeployment (w_Namespace w) (w_Name w)) in
    match dep with
    | Err e => Ret (false, Some e)
    | Ok d => Ret (ready_of (dep_Replicas d) (dep_ReadyReplicas d), None)
    end
  else if String.eqb (w_Kind w) "DaemonSet" then
    let* ds := trigger (kGet c KDaemonSet (w_Namespace w) (w_Name w)) in
    match ds with
    | Err e => Ret (false, Some e)
    | Ok d => Ret ((1 <=? ds_NumberReady d)%Z, None)
    end
  else
    let* pods := ListPods c w in
    match pods with
    | Err e => Ret (false, Some e)
    | Ok pods => Ret (existsb isPodReady pods, None)
    end.

(** FirstReadyPod: the pod and container, or an error (no caller uses the pod
    that comes with the error). *)
Definition FirstReadyPod (c : kube) (w : Workload) : io ev (res (Pod * string)) :=
  let* pods := ListPods c w in
  match pods with
  | Err e => Ret (Err e)
  | Ok pods =>
      match List.find isPodReady pods with
      | Some p => Ret (Ok (p, containerName p))
      | None =>
          match pods with
          | [] => Ret (Err (errorf ("no pods for " +:+ WKey w)))
          | _ => Ret (Err (errorf (WKey w +:+ " has no Ready pod")))
          end
      end
  end.

(** ** scale.go *)

Definition originalReplicasAnn : string := "portage.io/original-replicas".

(** The annotation is written once; an existing one is kept. *)
Definition remember (cur : Z) (ann : strmap) : strmap :=
  let m := default ∅ ann in
  Some (match m !! originalReplicasAnn with
        | Some _ => m
        | None => <[originalReplicasAnn := Itoa cur]> m
        end).

Definition annotate (f : strmap -> strmap) (m : ObjectMeta) : ObjectMeta :=
  with_annotations (f (om_Annotations m)) m.

Definition scale_sts (replicas : Z) (s : StatefulSet) : StatefulSet :=
  sts_with_replicas (Some replicas)
    (sts_with_meta (annotate (remember (wanted (sts_Replicas s)))) s).
Definition scale_dep (replicas : Z) (d : Deployment) : Deployment :=
  dep_with_replicas (Some replicas)
    (dep_with_meta (annotate (remember (wanted (dep_Replicas d)))) d).

Definition Scale (c : kube) (w : Workload) (replicas : Z) : io ev (option err) :=
  if String.eqb (w_Kind w) "StatefulSet" then
    let* sts := trigger (kGet c KStatefulSet (w_Namespace w) (w_Name w)) in
    match sts with
    | Err e => Ret (Some e)
    | Ok s => trigger (kUpdate c KStatefulSet (w_Namespace w) (scale_sts replicas s))
    end
  else if String.eqb (w_Kind w) "Deployment" then
    let* dep := trigger (kGet c KDeployment (w_Namespace w) (w_Name w)) in
    match dep with
    | Err e => Ret (Some e)
    | Ok d => trigger (kUpdate c KDeployment (w_Namespace w) (scale_dep replicas d))
    end
  else Ret (Some (errorf ("scale: unsupported kind " +:+ w_Kind w))).

Definition is_zero (replicas : option Z) : bool :=
  match replicas with Some r => (r =? 0)%Z | None => false end.

Definition ScaledToZero (c : kube) (w : Workload) : io ev bool :=
  if String.eqb (w_Kind w) "StatefulSet" then
    let* sts := trigger (kGet c KStatefulSet (w_Namespace w) (w_Name w)) in
    Ret (match sts with Err _ => false | Ok s => is_zero (sts_Replicas s) end)
  else if String.eqb (w_Kind w) "Deployment" then
    let* dep := trigger (kGet c KDeployment (w_Namespace w) (w_Name w)) in
    Ret (match dep with Err _ => false | Ok d => is_zero (dep_Replicas d) end)
  else Ret false.

(** The conversion of the int [strconv.Atoi] parsed to int32. *)
Definition OriginalReplicas (ann : strmap) : Z :=
  match ann with
  | None => 1%Z
  | Some m => match Atoi (map_get EmptyString m originalReplicasAnn) with
              | Some n => if (n <? 0)%Z then 1%Z else wrap32 n
              | None => 1%Z
              end
  end.

(** ** Lemmas *)

Lemma remember_keeps cur ann m :
  ann = Some m -> is_Some (m !! originalReplicasAnn) -> remember cur ann = ann.
Proof. intros -> [v Hv]. unfold remember. cbn. by rewrite Hv. Qed.

Lemma OriginalReplicas_remember cur ann :
  (0 <= cur < 2 ^ 31)%Z -> default ∅ ann !! originalReplicasAnn = None ->
  OriginalReplicas (remember cur ann) = cur.
Proof.
  intros Hc Hn. unfold remember. rewrite Hn. cbn. unfold map_get. rewrite lookup_insert_eq. cbn.
  rewrite Atoi_Itoa by lia. destruct (Z.ltb_spec cur 0); [lia|].
  apply wrap_small; lia.
Qed.

(** [ListPods] returns pods the API server listed in the namespace. *)
Lemma ListPods_wp c w log :
  wp any_env (ListPods c w) log (fun log' r =>
    match r with
    | Ok pods => exists all, (w_Namespace w, all) ∈ listings KPod log' /\ pods ⊆ all
    | Err _ => True
    end).
Proof.
  unfold ListPods. wp_res; [|done].
  assert (forall owners, List.filter (fun p => podOwnedBy p owners) a ⊆ a) as Hsub.
  { intros owners p. rewrite !list_elem_of_In, filter_In. tauto. }
  case_if; [wp_res; [|done]|]; exists a; (split; [|apply Hsub]).
  - apply listings_mono, (listings_last KPod).
  - apply (listings_last KPod).
Qed.

(** [FirstReadyPod] returns one of them that is Ready. *)
Lemma FirstReadyPod_wp c w log :
  wp any_env (FirstReadyPod c w) log (fun log' r =>
    match r with
    | Ok (p, container) => container = containerName p /\ isPodReady p = true /\
        exists all, (w_Namespace w, all) ∈ listings KPod log' /\ p ∈ all
    | Err _ => True
    end).
Proof.
  unfold FirstReadyPod. apply wp_bind. eapply wp_mono; [apply ListPods_wp|].
  intros log' [pods|e]; [|done]. intros (all & Hall & Hsub).
  destruct (List.find isPodReady pods) as [p|] eqn:Ef; [|by destruct pods].
  apply find_Some_elem in Ef as [Hin Hr]. cbn. eauto 6.
Qed.

(** Only [Scale] writes. *)
Lemma ListPods_reads c w : reads_only (ListPods c w).
Proof. unfold ListPods. reads. Qed.

Lemma Ready_reads c w : reads_only (Ready c w).
Proof. unfold Ready. reads; apply ListPods_reads. Qed.

Lemma FirstReadyPod_reads c w : reads_only (FirstReadyPod c w).
Proof. unfold FirstReadyPod. reads; apply ListPods_reads. Qed.

Lemma ScaledToZero_reads c w : reads_only (ScaledToZero c w).
Proof. unfold ScaledToZero. reads. Qed.

(** ** Properties *)

(** freezing remembers what to restore. Scaling a StatefulSet that was
    never frozen records its replica count (1 when unset), so that
    [OriginalReplicas] reads it back, and sets the new count; scaling it again
    changes only the count and keeps the first record, so the count that
    rollback restores is the one before the first freeze, even when the set was
    unfrozen and rescaled in between (nothing ever clears the annotation). *)
Theorem scale_remembers s n m :
  (0 <= wanted (sts_Replicas s) < 2 ^ 31)%Z ->
  default ∅ (om_Annotations (sts_Meta s)) !! originalReplicasAnn = None ->
  let s1 := scale_sts n s in
  let s2 := scale_sts m s1 in
  sts_Replicas s1 = Some n /\ sts_Replicas s2 = Some m /\
  OriginalReplicas (om_Annotations (sts_Meta s1)) = wanted (sts_Replicas s) /\
  om_Annotations (sts_Meta s2) = om_Annotations (sts_Meta s1) /\
  (forall k, k <> originalReplicasAnn ->
     default ∅ (om_Annotations (sts_Meta s1)) !! k = default ∅ (om_Annotations (sts_Meta s)) !! k).
Proof.
  intros Hc Hn. cbv zeta. split_and!; [done|done| | |].
  - by apply OriginalReplicas_remember.
  - cbn. eapply remember_keeps; [done|]. cbn. rewrite Hn, lookup_insert_eq. eauto.
  - intros k Hk. cbn. rewrite Hn. by rewrite lookup_insert_ne.
Qed.

Lemma scale_remembers_witness :
  let s := mkSts (new_meta "pg" "shop" None None) (Some 3%Z) None
             (mkPodSpec None "" None [] [] None [] [] []) ["data"] 3 JNull in
  OriginalReplicas (om_Annotations (sts_Meta (scale_sts 0 s))) = 3%Z.
Proof.
  intros s. refine (proj1 (proj2 (proj2 (scale_remembers s 0 3 _ _)))); [cbn; lia|reflexivity].
Defined.
