(* ===== verification/Usefulness.v ===== *)
(** * Usefulness of an artifact: src/pkg/usefulness/usefulness.go

    Whether a backup is restorable data rather than a job that succeeded over
    nothing. Sizes are int64. *)

From Stdlib Require Import ZArith Lia Ascii.
From S2P Require Import Prelude GoStrings Effects Api Kube Classify Movers.

Definition MinLogicalBytes : Z := 64 * 1024.
Definition MinVolumeBytes : Z := 64 * 1024.

Record File := mkFile { fl_Path : string; fl_SizeBytes : Z }.

Record Input := mkInput {
  in_Class : WorkloadClass;
  in_Engine : string;
  in_SizeBytes : Z;
  in_Files : list File;
  in_SnapshotReady : bool;
  in_HasSnapshot : bool }.

(** [filepath.Base]: the last element after dropping trailing slashes. *)
Fixpoint after_last_slash (s acc : string) : string :=
  match s with
  | EmptyString => acc
  | String c s' => if Ascii.eqb c "/" then after_last_slash s' s' else after_last_slash s' acc
  end.
Definition Base (path : string) : string :=
  if String.eqb path EmptyString then "."
  else
    let p := TrimRight path "/" in
    let b := after_last_slash p p in
    if String.eqb b EmptyString then "/" else b.

Definition looksLikeDump (path : string) : bool :=
  let lower := ToLower path in
  let base := ToLower (Base path) in
  HasSuffix base ".sql" || HasSuffix base ".rdb" ||
  (HasSuffix base ".archive.gz" || HasSuffix base ".archive") ||
  (HasSuffix base ".dump" || HasSuffix base ".bak") ||
  Contains lower "prebackup".

Definition bestDump (files : list File) : option File :=
  fold_left (fun best f =>
    if negb (looksLikeDump (fl_Path f)) then best
    else match best with
         | None => Some f
         | Some b => if (fl_SizeBytes b <? fl_SizeBytes f)%Z then Some f else best
         end) files None.

Definition with_verdict (useful : bool) (size : Z) (msg : string) (a : Artifact) : Artifact :=
  mkArtifact (art_ID a) (art_Mover a) size useful msg.

Definition logical (art : Artifact) (i : Input) : Artifact :=
  let size := art_SizeBytes art in
  match bestDump (in_Files i) with
  | Some dump =>
      if (MinLogicalBytes <=? fl_SizeBytes dump)%Z
      then with_verdict true (fl_SizeBytes dump) ("logical dump " +:+ fl_Path dump) art
      else with_verdict (art_Useful art) size
             ("logical dump too small (certs-only class): " +:+ fl_Path dump) art
  | None =>
      if (MinLogicalBytes <=? size)%Z then with_verdict true size "logical size floor met" art
      else if (0 <? size)%Z
      then with_verdict (art_Useful art) size
             "logical backup below size floor (likely empty or certs-only)" art
      else if in_HasSnapshot i && in_SnapshotReady i
      then with_verdict (art_Useful art) size
             "snapshot ready but no logical dump size; refusing (RequireUseful)" art
      else with_verdict (art_Useful art) size "no useful logical dump" art
  end.

Definition volume (art : Artifact) (i : Input) : Artifact :=
  let size := art_SizeBytes art in
  if (MinVolumeBytes <=? size)%Z then with_verdict true size "volume size floor met" art
  else if in_HasSnapshot i && in_SnapshotReady i && (size =? 0)%Z &&
          (bool_decide (in_Class i = ClassGenericPVC) || bool_decide (in_Class i = ClassUnknownStateful))
  then with_verdict true size "CSI snapshot ReadyToUse (size unknown)" art
  else if (0 <? size)%Z then with_verdict (art_Useful art) size "volume backup below size floor" art
  else with_verdict (art_Useful art) size "no useful volume artifact" art.

(** The size when the caller measured nothing: the sum of the files, in int64. *)
Definition total_size (files : list File) : Z :=
  fold_left (fun n f => wrap64 (n + fl_SizeBytes f)) files 0%Z.

Definition Evaluate (i : Input) : Artifact :=
  let size := match in_Files i with
              | [] => in_SizeBytes i
              | fs => if (in_SizeBytes i =? 0)%Z then total_size fs else in_SizeBytes i
              end in
  let art := mkArtifact EmptyString EmptyString size false EmptyString in
  match in_Class i with
  | ClassStateless => with_verdict true size "stateless" art
  | ClassClusterObjects =>
      if (size =? 0)%Z && bool_decide (length (in_Files i) = 0)
      then with_verdict false size "no object-graph snapshot" art
      else with_verdict true size "object-graph snapshot" art
  | ClassSQLLogical | ClassKVLogical => logical art i
  | _ => volume art i
  end.

Definition ForWorkload (w : Workload) (i : Input) : Artifact :=
  Evaluate (mkInput (w_Class w) (w_Engine w) (in_SizeBytes i) (in_Files i)
              (in_SnapshotReady i) (in_HasSnapshot i)).

(** ** Lemmas *)

(** [bestDump] is a dump of maximal size, the first of them. *)
Lemma bestDump_snoc files f :
  bestDump (files ++ [f]) =
  if negb (looksLikeDump (fl_Path f)) then bestDump files
  else match bestDump files with
       | None => Some f
       | Some b => if (fl_SizeBytes b <? fl_SizeBytes f)%Z then Some f else Some b
       end.
Proof.
  unfold bestDump. rewrite fold_left_app. cbn. case_if; [done|].
  destruct (fold_left _ files None); [|done]. by case_if.
Qed.

Lemma bestDump_spec files :
  match bestDump files with
  | None => Forall (fun f => looksLikeDump (fl_Path f) = false) files
  | Some b => exists l1 l2, files = l1 ++ b :: l2 /\ looksLikeDump (fl_Path b) = true /\
      Forall (fun f => looksLikeDump (fl_Path f) = true -> (fl_SizeBytes f < fl_SizeBytes b)%Z) l1 /\
      Forall (fun f => looksLikeDump (fl_Path f) = true -> (fl_SizeBytes f <= fl_SizeBytes b)%Z) l2
  end.
Proof.
  induction files as [|f files IH] using rev_ind; [constructor|]. rewrite bestDump_snoc.
  destruct (looksLikeDump (fl_Path f)) eqn:Ef; cbn [negb].
  - destruct (bestDump files) as [b|] eqn:Eb.
    + destruct IH as (l1 & l2 & -> & Hb & H1 & H2). case_if; boolify.
      * exists (l1 ++ b :: l2), []. split_and!; [done|done| |done].
        apply Forall_app. split; [|constructor; [by intros|]];
          (eapply Forall_impl; [done|]; intros x Hx ?; specialize (Hx ltac:(done)); lia).
      * exists l1, (l2 ++ [f]). rewrite <- app_assoc. split_and!; [done|done|done|].
        apply Forall_app. split; [done|]. repeat constructor. lia.
    + exists files, []. split_and!; [done|done| |done]. eapply Forall_impl; [done|].
      intros x Hx. cbn. congruence.
  - destruct (bestDump files) as [b|] eqn:Eb.
    + destruct IH as (l1 & l2 & -> & Hb & H1 & H2). exists l1, (l2 ++ [f]).
      rewrite <- app_assoc. split_and!; [done|done|done|]. apply Forall_app.
      split; [done|]. repeat constructor. congruence.
    + apply Forall_app. split; [done|]. by repeat constructor.
Qed.

Lemma Evaluate_useful_iff i :
  let size := match in_Files i with
              | [] => in_SizeBytes i
              | fs => if (in_SizeBytes i =? 0)%Z then total_size fs else in_SizeBytes i
              end in
  let floor := (64 * 1024)%Z in
  art_Useful (Evaluate i) = true <->
  match in_Class i with
  | ClassStateless => True
  | ClassClusterObjects => size <> 0%Z \/ in_Files i <> []
  | ClassSQLLogical | ClassKVLogical =>
      (exists f, f ∈ in_Files i /\ looksLikeDump (fl_Path f) = true /\ (floor <= fl_SizeBytes f)%Z) \/
      (Forall (fun f => looksLikeDump (fl_Path f) = false) (in_Files i) /\ (floor <= size)%Z)
  | c => (floor <= size)%Z \/
         (in_HasSnapshot i = true /\ in_SnapshotReady i = true /\ size = 0%Z /\
          (c = ClassGenericPVC \/ c = ClassUnknownStateful))
  end.
Proof.
  intros size floor.
  assert (forall a, art_Useful a = false -> art_SizeBytes a = size ->
    art_Useful (logical a i) = true <->
    (exists f, f ∈ in_Files i /\ looksLikeDump (fl_Path f) = true /\ (floor <= fl_SizeBytes f)%Z) \/
    (Forall (fun f => looksLikeDump (fl_Path f) = false) (in_Files i) /\ (floor <= size)%Z)) as Hl.
  { intros a Ha Hs. unfold logical, MinLogicalBytes. rewrite Hs, Ha.
    pose proof (bestDump_spec (in_Files i)) as Hb. destruct (bestDump (in_Files i)) as [b|].
    - destruct Hb as (l1 & l2 & E & Hb & H1 & H2). split.
      + case_if; [|done]. boolify. intros _. left. exists b. rewrite E. set_solver.
      + intros [(f & Hf & Hd & Hle)|[Hf _]].
        * assert (fl_SizeBytes f <= fl_SizeBytes b)%Z.
          { rewrite E, elem_of_app, elem_of_cons in Hf. rewrite Forall_forall in H1, H2.
            destruct Hf as [Hf|[-> |Hf]]; [apply Z.lt_le_incl; auto|lia|auto]. }
          subst floor. case_if; [done|boolify; lia].
        * rewrite Forall_forall in Hf. rewrite Hf in Hb; [done|]. rewrite E. set_solver.
    - subst floor. repeat case_if; boolify; cbn; split; intros Hx; try done;
        [right; split; [done|lia]|..];
        (destruct Hx as [(f & Hf & Hd & _)|[_ ?]]; [|lia];
         rewrite Forall_forall in Hb; rewrite Hb in Hd; done). }
  assert (forall a, art_Useful a = false -> art_SizeBytes a = size ->
    art_Useful (volume a i) = true <-> (floor <= size)%Z \/
     (in_HasSnapshot i = true /\ in_SnapshotReady i = true /\ size = 0%Z /\
      (in_Class i = ClassGenericPVC \/ in_Class i = ClassUnknownStateful))) as Hv.
  { intros a Ha Hs. unfold volume, MinVolumeBytes. rewrite Hs, Ha. subst floor.
    clear Hl Hs. clearbody size.
    destruct (Z.leb_spec (64 * 1024) size) as [Hle|Hgt]; [cbn; tauto|].
    assert (forall msg1 msg2, art_Useful (if (0 <? size)%Z then with_verdict false size msg1 a
      else with_verdict false size msg2 a) = true <-> False) as Hf by (intros; by case_if).
    case_if; [cbn|rewrite Hf]; boolify; split; intros Hx; try done.
    - match goal with H : (_ || _)%bool = true |- _ => apply orb_true_iff in H as [H|H] end;
        boolify; right; auto.
    - destruct Hx as [?|(E1 & E2 & -> & Hc)]; [lia|]. rewrite E1, E2 in *. cbn in *.
      destruct Hc as [Hc|Hc]; rewrite Hc in *; done. }
  unfold Evaluate. fold size. destruct (in_Class i) eqn:Ec; cbn;
    try (by apply Hv); try (by apply Hl); try tauto.
  case_if; cbn.
  - boolify. split; [done|]. destruct (in_Files i); naive_solver.
  - split; [|done]. intros _. destruct (Z.eqb_spec size 0); [|by left].
    cbn in *. boolify. right. by destruct (in_Files i).
Qed.

(** ** Properties *)

(** C36: what makes an artifact useful. For SQL and key-value engines: when some
    file looks like a dump, that the largest such file has at least 64 KiB,
    and when none does, that the total size has; a CSI snapshot, ready or not,
    never counts. For other stateful classes: at least 64 KiB, or, for generic
    and unknown volumes of unknown size, a ready snapshot. For the object graph:
    any size or any file. Stateless is always useful. *)
Theorem Evaluate_useful i :
  let size := match in_Files i with
              | [] => in_SizeBytes i
              | fs => if (in_SizeBytes i =? 0)%Z then total_size fs else in_SizeBytes i
              end in
  let floor := (64 * 1024)%Z in
  art_Useful (Evaluate i) = true <->
  match in_Class i with
  | ClassStateless => True
  | ClassClusterObjects => size <> 0%Z \/ in_Files i <> []
  | ClassSQLLogical | ClassKVLogical =>
      (exists f, f ∈ in_Files i /\ looksLikeDump (fl_Path f) = true /\ (floor <= fl_SizeBytes f)%Z) \/
      (Forall (fun f => looksLikeDump (fl_Path f) = false) (in_Files i) /\ (floor <= size)%Z)
  | c => (floor <= size)%Z \/
         (in_HasSnapshot i = true /\ in_SnapshotReady i = true /\ size = 0%Z /\
          (c = ClassGenericPVC \/ c = ClassUnknownStateful))
  end.
Proof. apply Evaluate_useful_iff. Qed.
