(* ===== verification/Probe.v ===== *)
(** * Class probes: src/pkg/probe

    The command that tells whether a workload's data is real (probe.go,
    run.go) and the one that measures it (live.go). *)

From Stdlib Require Import ZArith Lia Ascii.
From S2P Require Import Prelude GoStrings Effects Api Json Kube Classify Movers Workloads.

(** ** probe.go *)

Record Spec := mkSpec { pb_Command : list string; pb_Message : string }.

Definition Default (w : Workload) : Spec :=
  match w_Engine w with
  | "postgres" | "timescale" => mkSpec ["pg_isready"] "pg_isready"
  | "mysql" | "mariadb" => mkSpec ["mysqladmin"; "ping"] "mysqladmin ping"
  | "redis" | "valkey" | "keydb" | "dragonfly" => mkSpec ["redis-cli"; "ping"] "PING"
  | "mongo" => mkSpec ["mongosh"; "--eval"; "db.hello()"] "hello"
  | "minio" => mkSpec ["mc"; "ready"; "local"] "mc ready"
  | _ => match w_Class w with
         | ClassStateless => mkSpec [] "k8s-ready"
         | ClassClusterObjects => mkSpec [] "dest-get"
         | _ => mkSpec [] "volume-mounted"
         end
  end%string.

Definition RequireOK (results : list ProbeResult) : bool :=
  match results with [] => false | _ => forallb pr_OK results end.

(** ** run.go *)

Definition Run (c : kube) (x : option execer) (w : Workload) : io ev ProbeResult :=
  if bool_decide (w_Class w = ClassClusterObjects) then
    Ret (mkProbe false "cluster objects require dest Get (clusterobjects.Attest)")
  else
    let spec := Default w in
    match pb_Command spec with
    | [] => Ret (mkProbe true (pb_Message spec))
    | cmd =>
        match x with
        | None => Ret (mkProbe false "execer not configured")
        | Some x =>
            let* pod := FirstReadyPod c w in
            match pod with
            | Err e => Ret (mkProbe false (err_msg e))
            | Ok (p, container) =>
                let* ' (r, e) := trigger (exec x (w_Namespace w) (om_Name (pod_Meta p)) container cmd EmptyString) in
                match e with
                | Some e =>
                    let msg := pb_Message spec +:+ " failed: " +:+ err_msg e in
                    Ret (mkProbe false (if String.eqb (ex_Stderr r) EmptyString then msg
                                        else msg +:+ ": " +:+ ex_Stderr r))
                | None => Ret (mkProbe true (pb_Message spec))
                end
            end
        end
    end.

(** ** live.go *)

Definition postgresSizeScript : string :=
  nl +:+ "set +e" +:+ nl +:+
  "if command -v pg_dumpall >/dev/null 2>&1; then" +:+ nl +:+
  "  n=$(pg_dumpall 2>/dev/null | wc -c | tr -d ' ')" +:+ nl +:+
  "  if [ -n " +:+ quoted "$n" +:+ " ] && [ " +:+ quoted "$n" +:+ " -gt 0 ]; then echo " +:+
  quoted "$n" +:+ "; exit 0; fi" +:+ nl +:+ "fi" +:+ nl +:+
  "du -sb " +:+ quoted "${PGDATA:-/var/lib/postgresql/data}" +:+
  " /var/lib/postgresql /bitnami/postgresql 2>/dev/null | awk '{s+=$1} END {print s+0}'" +:+ nl.

Definition du (dirs : string) : list string :=
  ["/bin/sh"; "-c"; "du -sb " +:+ dirs +:+ " 2>/dev/null | awk '{s+=$1} END {print s+0}'"].

Definition SizeCommand (w : Workload) : list string :=
  match w_Engine w with
  | "postgres" | "timescale" => ["/bin/sh"; "-c"; postgresSizeScript]
  | "mysql" | "mariadb" => du "/var/lib/mysql /bitnami/mysql"
  | "mongo" => du "/data/db /bitnami/mongodb"
  | "redis" | "valkey" | "keydb" | "dragonfly" => du "/data /bitnami/redis"
  | _ => match w_Class w with
         | ClassSQLLogical | ClassKVLogical | ClassSearchFS | ClassQueueDurable
         | ClassObjectStore => du "/data /var/lib /bitnami"
         | _ => []
         end
  end%string.

(** The text before the first blank of [" \n\t"], when it is not at the front. *)
Fixpoint before_blank (s : string) : string :=
  match s with
  | EmptyString => EmptyString
  | String c s' => if in_cutset (String (ascii_of_nat 32) (String (ascii_of_nat 10)
                                 (String (ascii_of_nat 9) EmptyString))) c
                   then EmptyString else String c (before_blank s')
  end.

Definition ParseBytes (stdout : string) : Z :=
  let s := TrimSpace stdout in
  if String.eqb s EmptyString then 0%Z
  else
    let t := before_blank s in
    let s := if String.eqb t EmptyString then s else t in
    default 0%Z (ParseInt64 s).

(** LiveBytes: size, message, error. *)
Definition LiveBytes (c : kube) (x : option execer) (w : Workload)
    : io ev (Z * string * option err) :=
  match SizeCommand w with
  | [] => Ret (0%Z, "no live size command"%string, None)
  | cmd =>
      let* pod := FirstReadyPod c w in
      match pod with
      | Err e => Ret (0%Z, EmptyString, Some e)
      | Ok (p, container) =>
          match x with
          | None => panics "nil kubeexec.Interface"
          | Some x =>
              let* ' (r, e) := trigger (exec x (w_Namespace w) (om_Name (pod_Meta p)) container cmd EmptyString) in
              match e with
              | Some e => Ret (0%Z, ex_Stderr r, Some (wrapf ("live size " +:+ WKey w +:+ ": ") e))
              | None => Ret (ParseBytes (ex_Stdout r), "live size"%string, None)
              end
          end
      end
  end.

(** ** Lemmas *)

(** The exec calls of a run that answered without an error. *)
Definition exec_ok (e : event ev) : option (string * string * list string) :=
  let '(mkEvent e a) := e in
  match e in ev X return X -> option (string * string * list string) with
  | exec _ ns pod _ cmd _ => fun a => match snd a with None => Some (ns, pod, cmd) | Some _ => None end
  | _ => fun _ => None
  end a.

(** ** Properties *)

(** a probe never passes by default for an engine that has a command: it
    passes only when that command ran without error in a Ready pod the API
    server listed in the workload's namespace. A workload whose class and
    engine have no command passes without touching the cluster, and the object
    graph never passes here (its probe is the destination Get). *)
Theorem probe_Run_evidence c x w :
  always (Run c x w) (fun log r =>
    (w_Class w = ClassClusterObjects -> pr_OK r = false /\ log = []) /\
    (pb_Command (Default w) = [] -> w_Class w <> ClassClusterObjects -> pr_OK r = true /\ log = []) /\
    (pb_Command (Default w) <> [] -> pr_OK r = true ->
       exists ns pods p, (ns, pods) ∈ listings KPod log /\ ns = w_Namespace w /\ p ∈ pods /\
         isPodReady p = true /\
         (ns, om_Name (pod_Meta p), pb_Command (Default w)) ∈ omap exec_ok log)).
Proof.
  unfold Run, always. case_bool_decide as Hc; [by cbn|].
  destruct (pb_Command (Default w)) as [|arg args] eqn:Ecmd; [by cbn|].
  destruct x as [x|]; [|by cbn]. apply wp_bind. eapply wp_mono; [apply FirstReadyPod_wp|].
  intros log [[p container]|e]; [|by cbn]. intros (_ & Hr & all & Hall & Hin).
  apply wp_call. intros [r [e|]]; [by cbn|]. cbn [wp]. split_and!; [done|done|]. intros _ _.
  exists (w_Namespace w), all, p. split_and!; [by apply listings_mono|done..|].
  rewrite omap_app. apply elem_of_app. right. cbn. by apply list_elem_of_singleton.
Qed.
