(* ===== verification/Dump.v ===== *)
(** * Logical dumps: src/pkg/dump and the keys of src/pkg/objectstore

    Capturing a dump by exec on the source and replaying it on the
    destination. The object store itself is a client ([storePut], [storeGet]). *)

From Stdlib Require Import ZArith Lia Ascii.
From S2P Require Import Prelude GoStrings Effects Api GoTime Json Kube Classify Movers.
From S2P Require Import ObjectStore Workloads Usefulness.

(** ** dump.go *)

Definition postgresDumpScript : string :=
  "pg_dump -U " +:+ quoted "${POSTGRES_USER:-postgres}" +:+ " --no-owner --no-acl " +:+
  quoted "${POSTGRES_DB:-postgres}".
Definition postgresRestoreScript : string :=
  "psql -U " +:+ quoted "${POSTGRES_USER:-postgres}" +:+ " -d " +:+
  quoted "${POSTGRES_DB:-postgres}" +:+ " -v ON_ERROR_STOP=1".
Definition mysqlPassword : string :=
  "export MYSQL_PWD=" +:+ quoted "${MYSQL_PASSWORD:-${MYSQL_PWD:-}}" +:+ nl.
Definition mysqlDumpScript : string :=
  mysqlPassword +:+ "mysqldump -u " +:+ quoted "${MYSQL_USER:-root}" +:+
  " --all-databases --single-transaction".
Definition mysqlRestoreScript : string :=
  mysqlPassword +:+ "mysql -u " +:+ quoted "${MYSQL_USER:-root}".
Definition mongoDumpScript : string :=
  "mongodump --archive --gzip ${MONGO_INITDB_ROOT_USERNAME:+-u " +:+
  quoted "$MONGO_INITDB_ROOT_USERNAME" +:+ "} ${MONGO_INITDB_ROOT_PASSWORD:+-p " +:+
  quoted "$MONGO_INITDB_ROOT_PASSWORD" +:+ "} --authenticationDatabase " +:+
  quoted "${MONGO_INITDB_DATABASE:-admin}".
Definition redisDumpScript : string :=
  "f=/tmp/portage-rdb-$$" +:+ nl +:+
  "REDISCLI_AUTH=" +:+ quoted "${REDIS_PASSWORD:-${REDISCLI_AUTH:-}}" +:+ " redis-cli --rdb " +:+
  quoted "$f" +:+ nl +:+ "e=$?" +:+ nl +:+
  "if [ " +:+ quoted "$e" +:+ " -eq 0 ]; then cat " +:+ quoted "$f" +:+ "; fi" +:+ nl +:+
  "rm -f " +:+ quoted "$f" +:+ nl +:+ "exit " +:+ quoted "$e".

Definition shell (script : string) : list string := ["/bin/sh"; "-c"; script]%string.

Definition Command (engine : string) : list string :=
  match engine with
  | "postgres" | "timescale" => shell postgresDumpScript
  | "mysql" | "mariadb" => shell mysqlDumpScript
  | "mongo" => shell mongoDumpScript
  | "redis" | "valkey" | "keydb" | "dragonfly" => shell redisDumpScript
  | _ => []
  end%string.

Definition RestoreCommand (engine : string) : list string :=
  match engine with
  | "postgres" | "timescale" => shell postgresRestoreScript
  | "mysql" | "mariadb" => shell mysqlRestoreScript
  | "mongo" => shell "mongorestore --archive --gzip"
  | _ => []
  end%string.

(** Capture: key, size, useful, error. *)
Definition Capture (c : kube) (x : option execer) (s : option store) (w : Workload) (t : time)
    : io ev (string * Z * bool * option err) :=
  match Command (w_Engine w), x, s with
  | (_ :: _) as cmd, Some x, Some s =>
      let* pod := FirstReadyPod c w in
      match pod with
      | Err e => Ret (EmptyString, 0%Z, false, Some e)
      | Ok (p, container) =>
          let* ' (r, e) := trigger (exec x (w_Namespace w) (om_Name (pod_Meta p)) container cmd EmptyString) in
          match e with
          | Some e => Ret (EmptyString, 0%Z, false, Some (wrapf ("dump " +:+ WKey w +:+ ": ") e))
          | None =>
              let data := ex_Stdout r in
              let size := str_len data in
              let art := ForWorkload w (mkInput (w_Class w) EmptyString size
                           [mkFile "dump.sql" size] false false) in
              let key := Key (w_Namespace w) (WKey w) (FormatStamp t) in
              let* e := trigger (storePut s key data) in
              Ret (key, size, art_Useful art, e)
          end
      end
  | _, _, _ => Ret (EmptyString, 0%Z, false, None)
  end.

Definition Apply (c : kube) (x : option execer) (s : option store) (w : Workload) (key : string)
    : io ev (option err) :=
  match RestoreCommand (w_Engine w) with
  | [] => Ret None
  | cmd =>
      if String.eqb key EmptyString then Ret None
      else
        match s with
        | None => panics "nil objectstore.Store"
        | Some s =>
            let* data := trigger (storeGet s key) in
            match data with
            | Err e => Ret (Some e)
            | Ok data =>
                let* pod := FirstReadyPod c w in
                match pod with
                | Err e => Ret (Some e)
                | Ok (p, container) =>
                    match x with
                    | None => panics "nil kubeexec.Interface"
                    | Some x =>
                        let* ' (_, e) := trigger (exec x (w_Namespace w) (om_Name (pod_Meta p)) container cmd data) in
                        Ret (match e with
                             | Some e => Some (wrapf ("restore dump " +:+ WKey w +:+ ": ") e)
                             | None => None
                             end)
                    end
                end
            end
        end
  end.

(** ** Lemmas *)

(** What was stored, and what was fed to an exec that succeeded. *)
Definition stored (e : event ev) : option (string * string) :=
  let '(mkEvent e a) := e in
  match e in ev X return X -> option (string * string) with
  | storePut _ key data => fun a => match a with None => Some (key, data) | Some _ => None end
  | _ => fun _ => None
  end a.
Definition fetched (e : event ev) : option (string * string) :=
  let '(mkEvent e a) := e in
  match e in ev X return X -> option (string * string) with
  | storeGet _ key => fun a => match a with Ok data => Some (key, data) | Err _ => None end
  | _ => fun _ => None
  end a.
Definition exec_done (e : event ev) : option (string * list string * string * string) :=
  let '(mkEvent e a) := e in
  match e in ev X return X -> option (string * list string * string * string) with
  | exec _ ns _ _ cmd stdin => fun a =>
      match snd a with None => Some (ns, cmd, stdin, ex_Stdout (fst a)) | Some _ => None end
  | _ => fun _ => None
  end a.

Lemma dump_sql : looksLikeDump "dump.sql" = true.
Proof. vm_compute. reflexivity. Qed.

(** What [Capture] stored, from any log. *)
Lemma Capture_wp c x s w t log0 :
  wp any_env (Capture c (Some x) (Some s) w t) log0 (fun log r =>
    let '(key, size, useful, e) := r in
    (e = None -> Command (w_Engine w) <> [] ->
       exists data, (key, data) ∈ omap stored log /\ size = str_len data /\
         (w_Namespace w, Command (w_Engine w), EmptyString, data) ∈ omap exec_done log) /\
    (useful = true -> w_Class w = ClassSQLLogical \/ w_Class w = ClassKVLogical ->
       (64 * 1024 <= size)%Z)).
Proof.
  unfold Capture. destruct (Command (w_Engine w)) as [|arg args] eqn:Ecmd; [by cbn|].
  apply wp_bind. eapply wp_mono; [apply FirstReadyPod_wp|].
  intros log [[p container]|e]; [|by cbn]. intros _.
  apply wp_call. intros [r [e|]]; [by cbn|]. apply wp_call. intros e. cbn [wp fst snd].
  set (log' := _ ++ [_]). split.
  - intros -> _. exists (ex_Stdout r). subst log'. rewrite !omap_app. cbn. set_solver.
  - unfold ForWorkload. cbn [in_SizeBytes in_Files in_SnapshotReady in_HasSnapshot].
    rewrite Evaluate_useful_iff. cbn [in_Class in_Files]. intros H [E|E]; rewrite E in H;
      destruct H as [(f & ->%list_elem_of_singleton & _ & H)|[H _]]; try done;
      apply Forall_inv in H; cbn [fl_Path] in H; by rewrite dump_sql in H.
Qed.

(** ** Properties *)

(** with a dump command, an execer and a store, [Capture] returns without an
    error only when it stored, under the key it returns, exactly the output of
    the engine's dump command run in the workload's namespace, whose length is
    the size it reports; and a dump it calls useful is at least 64 KiB for SQL
    and key-value workloads. *)
Theorem Capture_useful c x s w t :
  always (Capture c (Some x) (Some s) w t) (fun log r =>
    let '(key, size, useful, e) := r in
    (e = None -> Command (w_Engine w) <> [] ->
       exists data, (key, data) ∈ omap stored log /\ size = str_len data /\
         (w_Namespace w, Command (w_Engine w), EmptyString, data) ∈ omap exec_done log) /\
    (useful = true -> w_Class w = ClassSQLLogical \/ w_Class w = ClassKVLogical ->
       (64 * 1024 <= size)%Z)).
Proof. apply Capture_wp. Qed.

(** a Redis family dump is captured but never replayed. [Capture] has a dump
    command for redis, valkey, keydb and dragonfly, but [Apply] has none to
    restore with: it reports success for every key without fetching the dump
    or running anything. For every other engine with a dump command, [Apply]
    succeeds on a key only if the restore command was given the bytes the
    store returned for it. *)
Theorem Apply_replays c x s w key :
  key <> EmptyString -> Command (w_Engine w) <> [] ->
  (w_Engine w ∈ ["redis"; "valkey"; "keydb"; "dragonfly"]%string ->
     Apply c x s w key = Ret None) /\
  (w_Engine w ∉ ["redis"; "valkey"; "keydb"; "dragonfly"]%string ->
     always (Apply c x s w key) (fun log e => e = None ->
       exists data out, (key, data) ∈ omap fetched log /\
         (w_Namespace w, RestoreCommand (w_Engine w), data, out) ∈ omap exec_done log)).
Proof.
  intros Hk Hc. apply String.eqb_neq in Hk. split.
  - intros He. unfold Apply. repeat (apply elem_of_cons in He as [-> |He]; [done|]).
    by apply elem_of_nil in He.
  - intros He. unfold Apply, always.
    destruct (RestoreCommand (w_Engine w)) as [|arg args] eqn:Er.
    { exfalso. revert Er Hc He. unfold RestoreCommand, Command.
      repeat case_match; try done; intros _ _ He; apply He; elem. }
    rewrite Hk. destruct s as [s|]; [|by intros []]. wp_res; [|by cbn].
    apply wp_bind. eapply wp_mono_ext; [apply FirstReadyPod_wp|].
    intros ext [[p container]|e]; [|by cbn]. intros _. destruct x as [x|]; [|by intros []].
    apply wp_call. intros [r [e|]]; [by cbn|]. cbn [wp]. intros _. exists a, (ex_Stdout r).
    rewrite !omap_app. cbn. set_solver.
Qed.

Lemma Apply_replays_witness :
  let w := mkWorkload "shop" "cache" "StatefulSet" "apps/v1" ClassKVLogical "redis" [] [] false None None in
  Apply (Kube 0) (Some (Exec 0)) (Some (Store 0)) w "shop/cache/1" = Ret None.
Proof. intros w. apply (Apply_replays (Kube 0) (Some (Exec 0)) (Some (Store 0)) w); [done|done|elem]. Defined.
