(* ===== verification/StoredDumps.v ===== *)
(** * Stores that keep what they are given: src/pkg/objectstore/store.go

    The interface of a store as the dumps rely on it, the in-memory store as
    its implementation, and the round trip: the bytes replayed on the
    destination are the bytes dumped on the source, whatever is stored in
    between. *)

From Stdlib Require Import ZArith Lia Ascii.
From S2P Require Import Prelude GoStrings Effects ObjectStore Api GoTime Json Kube Classify Workloads Dump.

(** ** Keys *)

(** A Kubernetes name: not empty nor made of points, no slash, no underscore. *)
Definition plain_name (s : string) : Prop :=
  (s <> EmptyString /\ s <> "." /\ s <> "..")%string /\ in_cutset s "/" = false /\ in_cutset s "_" = false.
Definition plain_workload (w : Workload) : Prop :=
  plain_name (w_Namespace w) /\ plain_name (w_Kind w) /\ plain_name (w_Name w).

Lemma ReplaceByte_app a b from to : ReplaceByte (a +:+ b) from to = ReplaceByte a from to +:+ ReplaceByte b from to.
Proof. induction a as [|c a IH]; [done|]. rewrite !app_cons_str. cbn. by rewrite IH. Qed.

Lemma ReplaceByte_none s from to : in_cutset s from = false -> ReplaceByte s from to = s.
Proof.
  induction s as [|c s IH]; cbn; [done|]. intros [H1 H2]%orb_false_iff. rewrite IH by done.
  by rewrite Ascii.eqb_sym, H1.
Qed.

Lemma ReplaceByte_no_slash s : in_cutset (ReplaceByte s "/" "_") "/" = false.
Proof.
  induction s as [|c s IH]; [done|]. cbn [ReplaceByte in_cutset]. rewrite IH, orb_false_r.
  destruct (Ascii.eqb_spec c "/"); [done|]. by apply Ascii.eqb_neq.
Qed.

Lemma WKey_key w : plain_workload w ->
  ReplaceByte (WKey w) "/" "_" = w_Namespace w +:+ "_" +:+ w_Kind w +:+ "_" +:+ w_Name w.
Proof.
  intros ((_ & Hn & _) & (_ & Hk & _) & (_ & Hm & _)). unfold WKey. rewrite !ReplaceByte_app.
  change (ReplaceByte "/" "/" "_") with "_"%string. by rewrite !(ReplaceByte_none _ _ "_"%char) by done.
Qed.

(** The stamp ends in a letter, so the key is not trimmed. *)
Lemma Key_dump w t : plain_workload w ->
  ObjectStore.Key (w_Namespace w) (WKey w) (FormatStamp t) =
  w_Namespace w +:+ "/" +:+ ReplaceByte (WKey w) "/" "_" +:+ "/" +:+ FormatStamp t.
Proof.
  intros (((Hne & _) & Hn & _) & _). unfold ObjectStore.Key, Trim. assert (exists x, FormatStamp t = x +:+ "Z") as [x ->].
  { unfold FormatStamp. destruct (clock t) as [[h mi] s]. rewrite <- !app_assoc_str. by eexists. }
  rewrite <- !app_assoc_str. destruct (w_Namespace w) as [|c ns]; [done|]. cbn [in_cutset] in Hn.
  apply orb_false_iff in Hn as [Hc _]. rewrite !app_cons_str. apply Trim_framed; [|done].
  cbn [in_cutset]. rewrite orb_false_r. apply Ascii.eqb_neq. apply Ascii.eqb_neq in Hc. congruence.
Qed.

(** Dumps of different workloads are stored under different keys. *)
Lemma Key_apart w w' t t' : plain_workload w -> plain_workload w' ->
  ObjectStore.Key (w_Namespace w) (WKey w) (FormatStamp t) = ObjectStore.Key (w_Namespace w') (WKey w') (FormatStamp t') ->
  WKey w = WKey w'.
Proof.
  intros Hw Hw'. rewrite !Key_dump by done. pose proof Hw as ((_ & Hn & _) & _).
  pose proof Hw' as ((_ & Hn' & _) & _). intros E.
  apply (app_sep_inj "/" (w_Namespace w) _ (w_Namespace w') _ Hn Hn') in E as [_ E].
  apply (app_sep_inj "/" _ _ _ _ (ReplaceByte_no_slash _) (ReplaceByte_no_slash _)) in E as [E _].
  rewrite !WKey_key in E by done. unfold WKey. destruct Hw as ((_ & _ & H1) & (_ & _ & H2) & _).
  destruct Hw' as ((_ & _ & H1') & (_ & _ & H2') & _).
  apply (app_sep_inj "_" _ _ _ _ H1 H1') in E as [-> E].
  by apply (app_sep_inj "_" _ _ _ _ H2 H2') in E as [-> ->].
Qed.

(** The key of a dump of a workload with such names. *)
Definition dump_key (k : string) : Prop := exists w t,
  plain_workload w /\ k = ObjectStore.Key (w_Namespace w) (WKey w) (FormatStamp t).

(** ** The interface *)

Class BlobStore (T : Type) := {
  Put : T -> string -> string -> T * option err;
  Get : T -> string -> res string;
  (** A put that succeeds is read back. *)
  Get_Put t k d : snd (Put t k d) = None -> Get (fst (Put t k d)) k = Ok d;
  (** No put of a dump, successful or not, touches another's key. *)
  Get_Put_other t k k' d : dump_key k -> dump_key k' -> k <> k' -> Get (fst (Put t k' d)) k = Get t k }.

(** ** Memory *)

Module Memory.
(** [None] is the nil map of a fresh store. *)
Record t := mkMemory { data : option (gmap string string) }.

Definition put (m : t) (key d : string) : t * option err :=
  let cur := match data m with None => ∅ | Some x => x end in
  (mkMemory (Some (<[key := d]> cur)), None).

Definition get (m : t) (key : string) : res string :=
  match default ∅ (data m) !! key with
  | Some b => Ok b
  | None => Err (errorf ("objectstore: key " +:+ quoted key +:+ " not found"))
  end.
End Memory.

#[export, refine] Instance memory_store : BlobStore Memory.t := {
  Put := Memory.put; Get := Memory.get }.
Proof.
  - intros [m] k d _. unfold Memory.get. cbn. by rewrite lookup_insert_eq.
  - intros [m] k k' d _ _ Hk. unfold Memory.get, Memory.put. cbn. rewrite lookup_insert_ne by done. by destruct m.
Defined.

(** ** The environment in which one store keeps its contents *)

Section environment.
  Context {T : Type} {B : BlobStore T} (s : store).

(** What a call does to the contents of [s]; all else answers anything. *)
Definition keeps {X} (t : T) (e : ev X) : X -> T -> Prop :=
  match e in ev X return X -> T -> Prop with
  | storePut s' k d => fun x t' =>
      if bool_decide (s' = s) then Put t k d = (t', x) else t' = t
  | storeGet s' k => fun x t' => t' = t /\ (s' = s -> x = Get t k)
  | _ => fun _ t' => t' = t
  end.

(** The contents and the log of the calls. *)
Definition store_env (X : Type) (st : T * list (event ev)) (e : ev X) (x : X) (st' : T * list (event ev)) : Prop :=
  keeps (fst st) e x (fst st') /\ snd st' = snd st ++ [mkEvent e x].

(** The calls that put, if at all, a dump under another key. *)
Definition elsewhere (k : string) (X : Type) (e : ev X) : Prop :=
  match e with storePut s' k' _ => s' = s -> k <> k' /\ dump_key k' | _ => True end.

Lemma wp_elsewhere {A} k (m : io ev A) st : dump_key k -> only (elsewhere k) m ->
  wp store_env m st (fun st' _ => Get (fst st') k = Get (fst st) k /\ exists ext, snd st' = snd st ++ ext).
Proof.
  intros Hdump. revert st. induction m as [a|X e c IH]; intros st; cbn [wp only]; [intros _; split; [done|by exists []; rewrite app_nil_r]|].
  intros [He Hc] x st' [Hk Hl]. eapply wp_mono; [by apply IH|]. intros st2 a (-> & ext & ->).
  split; [|rewrite Hl, <- app_assoc; eauto]. destruct e; cbn in Hk, He; try by rewrite Hk.
  - case_if_in Hk; [|by rewrite Hk]. boolify. destruct (He Heqb) as [Hne Hd].
    pose proof (Get_Put_other (fst st) k key data Hdump Hd Hne) as E. by rewrite Hk in E.
  - destruct Hk as [-> _]. done.
Qed.

Lemma wp_store_call {X A} (e : ev X) (k : X -> io ev A) st Q :
  (forall x t', keeps (fst st) e x t' -> wp store_env (k x) (t', snd st ++ [mkEvent e x]) Q) ->
  wp store_env (bind (trigger e) k) st Q.
Proof. intros H x [t' l] [Hk Hl]. cbn in *. subst l. by apply H. Qed.
End environment.

(** ** Capturing and replaying *)

Section dumps.
  Context {T : Type} {B : BlobStore T} (s : store).

Lemma reads_elsewhere k {A} (m : io ev A) : reads_only m -> only (elsewhere s k) m.
Proof. apply only_mono. intros X e. by destruct e. Qed.

Lemma FirstReadyPod_elsewhere k c w : only (elsewhere s k) (FirstReadyPod c w).
Proof. apply reads_elsewhere. unfold FirstReadyPod, ListPods. reads. Qed.

(** Capturing another workload leaves the dump alone. *)
Lemma Capture_elsewhere k c x w t : plain_workload w -> ObjectStore.Key (w_Namespace w) (WKey w) (FormatStamp t) <> k ->
  only (elsewhere s k) (Capture c x (Some s) w t).
Proof.
  intros Hw Hk. unfold Capture. destruct (Command (w_Engine w)); [done|]. destruct x as [x|]; [|done].
  apply only_bind; [apply FirstReadyPod_elsewhere|]. intros [[p container]|e]; [|done].
  apply only_bind; [by split|]. intros [r [e|]]; [done|]. apply only_bind; [|done]. split; [|done].
  intros _. split; [by intros E; apply Hk|by exists w, t].
Qed.

Lemma Capture_stores c x w t st : Command (w_Engine w) <> [] ->
  wp (store_env s) (Capture c (Some x) (Some s) w t) st (fun st' r =>
    let '(key, _, _, e) := r in e = None ->
    key = ObjectStore.Key (w_Namespace w) (WKey w) (FormatStamp t) /\
    exists data, Get (fst st') key = Ok data /\
      (w_Namespace w, Command (w_Engine w), EmptyString, data) ∈ omap exec_done (snd st')).
Proof.
  intros Hc. unfold Capture. destruct (Command (w_Engine w)) as [|arg args]; [done|]. apply wp_bind.
  eapply wp_mono; [apply wp_trivial|].
  intros st1 [[p container]|e] _; [|by cbn]. apply wp_store_call. intros [r [e|]] t1 _; [by cbn|].
  apply wp_store_call. intros e t2 Hput. cbn [wp]. intros ->. cbn [keeps] in Hput.
  rewrite bool_decide_true in Hput by done. split; [done|]. exists (ex_Stdout r). split.
  - cbn [fst]. pose proof (Get_Put t1 (ObjectStore.Key (w_Namespace w) (WKey w) (FormatStamp t)) (ex_Stdout r)) as H.
    cbn [fst] in Hput. rewrite Hput in H. by apply H.
  - cbn [snd]. rewrite !omap_app. cbn. set_solver.
Qed.

Lemma Apply_elsewhere k c x w key : only (elsewhere s k) (Apply c (Some x) (Some s) w key).
Proof.
  unfold Apply. destruct (RestoreCommand (w_Engine w)); [done|]. case_if; [done|].
  apply only_bind; [by split|]. intros [d|e]; [|done].
  apply only_bind; [apply FirstReadyPod_elsewhere|]. intros [[p container]|e]; [|done].
  apply only_bind; [by split|]. by intros [].
Qed.

Lemma Apply_feeds c x w key data st : key <> EmptyString -> RestoreCommand (w_Engine w) <> [] ->
  Get (fst st) key = Ok data ->
  wp (store_env s) (Apply c (Some x) (Some s) w key) st (fun st' e => e = None ->
    exists out, (w_Namespace w, RestoreCommand (w_Engine w), data, out) ∈ omap exec_done (snd st')).
Proof.
  intros Hk Hc Hg. apply String.eqb_neq in Hk. unfold Apply.
  destruct (RestoreCommand (w_Engine w)) as [|arg args]; [done|]. rewrite Hk.
  apply wp_store_call. intros d t1 [-> Hd]. rewrite Hg in Hd. rewrite (Hd eq_refl). apply wp_bind.
  eapply wp_mono; [apply wp_trivial|].
  intros st1 [[p container]|e] _; [|by cbn]. apply wp_store_call. intros [r [e|]] t2 _; [by cbn|].
  cbn [wp]. intros _. exists (ex_Stdout r). cbn [snd]. rewrite omap_app. cbn. set_solver.
Qed.

Lemma restores_dumps engine : RestoreCommand engine <> [] -> Command engine <> [].
Proof. unfold RestoreCommand, Command. by repeat case_match. Qed.

(** Capturing a list of workloads. *)
Definition capture_all (c : kube) (x : execer) (ws : list (Workload * time)) : io ev unit :=
  foldM (fun _ p => let* _ := Capture c (Some x) (Some s) (fst p) (snd p) in Ret tt) tt ws.

Lemma capture_all_elsewhere c x ws w t :
  plain_workload w -> Forall (fun p => plain_workload (fst p) /\ WKey (fst p) <> WKey w) ws ->
  only (elsewhere s (ObjectStore.Key (w_Namespace w) (WKey w) (FormatStamp t))) (capture_all c x ws).
Proof.
  intros Hw Hws. unfold capture_all. induction Hws as [|[w' t'] ws [Hp Hk] _ IH]; [done|].
  cbn [foldM]. apply only_bind; [|by intros []]. apply only_bind; [|done]. apply Capture_elsewhere; [done|].
  intros E. by apply Key_apart in E.
Qed.
End dumps.

(** ** Properties *)

(** C10: what is replayed is what was dumped. With a store that keeps what it is
    given, capture a workload's dump, then those of any other workloads, then
    apply the key the capture returned: when neither reports an error, the
    engine's restore command was fed, byte for byte, the output of the engine's
    dump command of that very workload. *)
Theorem dump_roundtrip {T} {B : BlobStore T} s c x c' x' w t ws (contents : T) :
  plain_workload w -> Forall (fun p => plain_workload (fst p) /\ WKey (fst p) <> WKey w) ws ->
  RestoreCommand (w_Engine w) <> [] ->
  wp (store_env s)
    (let* ' (key, _, _, e) := Capture c (Some x) (Some s) w t in
     let* _ := capture_all s c x ws in
     let* e' := Apply c' (Some x') (Some s) w key in
     Ret (e, e')) (contents, [])
    (fun st r => r = (None, None) -> exists data out,
       (w_Namespace w, Command (w_Engine w), EmptyString, data) ∈ omap exec_done (snd st) /\
       (w_Namespace w, RestoreCommand (w_Engine w), data, out) ∈ omap exec_done (snd st)).
Proof.
  intros Hw Hws Hr. set (key := ObjectStore.Key (w_Namespace w) (WKey w) (FormatStamp t)).
  assert (dump_key key) as Hdk by by exists w, t.
  assert (key <> EmptyString) as Hk.
  { subst key. rewrite Key_dump by done. destruct Hw as (((Hn & _) & _) & _). by destruct (w_Namespace w). }
  apply wp_bind. eapply wp_mono; [by apply Capture_stores, restores_dumps|].
  intros st1 [[[k n] u] [e|]] H.
  { apply wp_bind. eapply wp_mono; [apply wp_trivial|]. intros st2 _ _. apply wp_bind.
    eapply wp_mono; [apply wp_trivial|]. by intros st3 e' _. }
  destruct (H eq_refl) as (-> & data & Hg & Hin). apply wp_bind.
  eapply wp_mono; [apply (wp_elsewhere s key); [done|by apply capture_all_elsewhere]|]. intros st2 _ [Hg2 [ext Hl2]].
  fold key in Hg. rewrite <- Hg2 in Hg. apply wp_bind.
  eapply wp_mono; [apply wp_and; [by apply Apply_feeds|apply (wp_elsewhere s key); [done|apply Apply_elsewhere]]|].
  intros st3 e' [Ha [_ [ext' Hl3]]]. cbn [wp]. intros [= ->]. destruct (Ha eq_refl) as [out Hout].
  exists data, out. split; [|done]. rewrite Hl3, Hl2, !omap_app. set_solver.
Qed.

Lemma dump_roundtrip_witness :
  let w name := mkWorkload "shop" name "StatefulSet" "apps/v1" ClassSQLLogical "postgres" [] [] false None None in
  let s := StoreMemory 0 in
  plain_workload (w "db") /\ WKey (w "orders") <> WKey (w "db") /\
  wp (store_env s)
    (let* ' (key, _, _, e) := Capture (Kube 0) (Some (Exec 0)) (Some s) (w "db") 0%Z in
     let* _ := capture_all s (Kube 0) (Exec 0) [(w "orders", 0%Z)] in
     let* e' := Apply (Kube 1) (Some (Exec 1)) (Some s) (w "db") key in
     Ret (e, e')) (Memory.mkMemory None, [])
    (fun st r => r = (None, None) -> exists data out,
       ("shop"%string, Command "postgres", EmptyString, data) ∈ omap exec_done (snd st) /\
       ("shop"%string, RestoreCommand "postgres", data, out) ∈ omap exec_done (snd st)).
Proof.
  intros w s. assert (forall n, n = "db"%string \/ n = "orders"%string -> plain_workload (w n)) as Hp
    by (intros n [->| ->]; by split_and!).
  split; [apply Hp; by left|]. split; [done|].
  apply (dump_roundtrip s (Kube 0) (Exec 0) (Kube 1) (Exec 1) (w "db"%string) 0%Z [(w "orders"%string, 0%Z)]
    (Memory.mkMemory None)); [apply Hp; by left| |done].
  apply List.Forall_cons; [|done]. split; [apply Hp; by right|done].
Defined.
