(* ===== verification/Transform.v ===== *)
(** * Sanitizing objects for another cluster: src/pkg/transform/sanitize.go

    [Object] rewrites an unstructured object in place; here each of its steps
    takes the tree and returns it. The three recursive steps share the
    recursion [Json.walk_maps], whose fuel is the depth of the tree. *)

From Stdlib Require Import ZArith Lia.
From S2P Require Import Prelude GoStrings Effects Api Json Kube Unstructured Classify.

Definition dropAnnotationExact : list string :=
  ["volume.kubernetes.io/selected-node"; "pv.kubernetes.io/bind-completed";
   "pv.kubernetes.io/bound-by-controller"; "volume.beta.kubernetes.io/storage-provisioner";
   "volume.kubernetes.io/storage-provisioner"; "velero.io/backup-name";
   "velero.io/restore-name"]%string.
Definition dropAnnotationPrefixes : list string :=
  ["service.beta.kubernetes.io/aws-load-balancer-"; "service.beta.kubernetes.io/azure-";
   "cloud.google.com/"; "kubernetes.digitalocean.com/"; "ovhcloud.com/";
   "metallb.universe.tf/"]%string.
Definition dropLabelKeys : list string :=
  ["topology.kubernetes.io/zone"; "topology.kubernetes.io/region";
   "failure-domain.beta.kubernetes.io/zone"; "failure-domain.beta.kubernetes.io/region";
   "topology.ebs.csi.aws.com/zone"; "topology.gke.io/zone"]%string.

Record Options := mkOptions {
  StorageClassMap : strmap; DefaultStorageClass : string; RuntimeClassMap : strmap }.

Definition hasPrefix (k : string) (prefixes : list string) : bool := existsb (HasPrefix k) prefixes.
Definition contains (l : list string) (k : string) : bool := existsb (fun x => String.eqb x k) l.

(** The entries of a string map that [keep] keeps; nil when none is left. *)
Definition filter_map (keep : string -> bool) (m : strmap) : strmap :=
  match m with
  | None => None
  | Some m =>
      let out := filter (fun kv => keep (fst kv) = true) m in
      if bool_decide (out = ∅) then None else Some out
  end.
Definition keepAnn (k : string) : bool :=
  negb (contains dropAnnotationExact k) && negb (hasPrefix k dropAnnotationPrefixes).
Definition keepLabel (k : string) : bool := negb (contains dropLabelKeys k).
Definition filterAnns : strmap -> strmap := filter_map keepAnn.
Definition filterLabels : strmap -> strmap := filter_map keepLabel.

Definition mapSC (src : string) (opt : Options) : string :=
  match match StorageClassMap opt with Some m => m !! src | None => None end with
  | Some dst => dst
  | None => if String.eqb (DefaultStorageClass opt) EmptyString then src
            else DefaultStorageClass opt
  end.

(** ** The recursive passes *)

Definition runtimeClass_here (opt : Options) (m : obj) : obj :=
  match oget m "runtimeClassName" with
  | Some (JStr src) =>
      if String.eqb src EmptyString then m
      else
        let dst := nmap_get EmptyString (RuntimeClassMap opt) src in
        if String.eqb dst EmptyString then odel m "runtimeClassName"
        else oset m "runtimeClassName" (JStr dst)
  | _ => m
  end.
Definition walkRuntimeClass (m : obj) (opt : Options) : obj :=
  walk_maps (runtimeClass_here opt) (obj_depth m) m.

Definition clusterLocalTolerationKey (key : string) : bool :=
  match key with
  | "sandbox.gke.io/runtime" | "nvidia.com/gpu" | "kubernetes.io/hostname" => true
  | _ => Contains key "runtimeclass" || HasSuffix key "/runtime"
  end%string.

Definition kept_toleration (t : json) : bool :=
  match t with
  | JObj tm => negb (clusterLocalTolerationKey (str_or_empty (oget tm "key")))
  | _ => true
  end.
Definition tolerations_here (m : obj) : obj :=
  match oget m "tolerations" with
  | Some (JArr tols) =>
      match List.filter kept_toleration tols with
      | [] => odel m "tolerations"
      | kept => oset m "tolerations" (JArr kept)
      end
  | _ => m
  end.
Definition stripClusterLocalTolerations (m : obj) : obj :=
  walk_maps tolerations_here (obj_depth m) m.

Definition is_Some_b {A} (o : option A) : bool := match o with Some _ => true | None => false end.
Definition podSpecSecurityContext (m : obj) : bool :=
  match oget m "securityContext" with
  | Some (JObj _) => is_Some_b (oget m "containers") || is_Some_b (oget m "initContainers")
  | _ => false
  end.

(** The conversion of a float64 to int64 truncates. *)
Definition intFromUnstructured (v : option json) : option Z :=
  match v with
  | Some (JInt n) => Some n
  | Some (JFloat num den) => Some (Z.quot num (Zpos den))
  | _ => None
  end.

Section passes.
  Context {U : Unstructured} (Catalog : list Engine).

Definition containersMatchPostgres (v : option json) : bool :=
  match v with
  | Some (JArr l) =>
      existsb (fun item =>
        match item with
        | JObj c => match MatchImage Catalog (str_or_empty (oget c "image")) with
                    | Some eng => String.eqb (eng_Name eng) "postgres"
                    | None => false
                    end
        | _ => false
        end) l
  | _ => false
  end.
Definition postgresContainers (spec : obj) : bool :=
  containersMatchPostgres (oget spec "containers") ||
  containersMatchPostgres (oget spec "initContainers").

Definition stripFSGroupOnPodSpec (spec : obj) : obj :=
  match oget spec "securityContext" with
  | Some (JObj sc) =>
      match intFromUnstructured (oget sc "fsGroup") with
      | None => spec
      | Some fg =>
          if negb (fg =? 0)%Z && negb (postgresContainers spec) then spec
          else match odel sc "fsGroup" with
               | [] => odel spec "securityContext"
               | sc' => oset spec "securityContext" (JObj sc')
               end
      end
  | _ => spec
  end.
Definition fsGroup_here (m : obj) : obj :=
  if podSpecSecurityContext m then stripFSGroupOnPodSpec m else m.
Definition stripPodFSGroup (m : obj) : obj := walk_maps fsGroup_here (obj_depth m) m.

(** ** Object *)

Definition remapStorageClass (m : obj) (opt : Options) : obj :=
  let '(sc, found) := NestedString m ["spec"; "storageClassName"]%string in
  if negb found || String.eqb sc EmptyString then
    if String.eqb (DefaultStorageClass opt) EmptyString then m
    else SetNested m (Some (JStr (DefaultStorageClass opt))) ["spec"; "storageClassName"]%string
  else SetNested m (Some (JStr (mapSC sc opt))) ["spec"; "storageClassName"]%string.

Definition affinity_fields : list (list string) :=
  [["spec"; "nodeSelector"]; ["spec"; "nodeName"]; ["spec"; "affinity"; "nodeAffinity"];
   ["spec"; "template"; "spec"; "nodeSelector"]; ["spec"; "template"; "spec"; "nodeName"];
   ["spec"; "template"; "spec"; "affinity"; "nodeAffinity"];
   ["spec"; "template"; "spec"; "topologySpreadConstraints"];
   ["spec"; "jobTemplate"; "spec"; "template"; "spec"; "nodeSelector"];
   ["spec"; "jobTemplate"; "spec"; "template"; "spec"; "nodeName"]]%string.
Definition remove_fields (fields : list (list string)) (m : obj) : obj :=
  fold_left RemoveNestedField fields m.
Definition stripAffinity (m : obj) : obj :=
  stripClusterLocalTolerations (remove_fields affinity_fields m).

(** The fields [Object] drops first: the metadata setters given a zero value,
    then the status and what the source cluster assigned. *)
Definition metadata_fields : list (list string) :=
  [["metadata"; "uid"]; ["metadata"; "resourceVersion"]; ["metadata"; "generation"];
   ["metadata"; "managedFields"]; ["metadata"; "ownerReferences"];
   ["metadata"; "deletionTimestamp"]; ["metadata"; "deletionGracePeriodSeconds"]]%string.
Definition status_fields : list (list string) :=
  [["status"]; ["spec"; "volumeName"]; ["spec"; "clusterIP"]; ["spec"; "clusterIPs"];
   ["spec"; "nodeName"]]%string.

Definition filter_meta (m : obj) : obj :=
  let m := SetAnnotations m (filterAnns (GetAnnotations m)) in
  SetLabels m (filterLabels (GetLabels m)).

Definition Object (m : obj) (opt : Options) : obj :=
  let m := remove_fields metadata_fields m in
  let m := remove_fields status_fields m in
  let m := filter_meta m in
  let m := remapStorageClass m opt in
  let m := walkRuntimeClass m opt in
  let m := stripAffinity m in
  stripPodFSGroup m.
End passes.

(** ** Typed objects *)

Definition DropMetaForCreate (m : ObjectMeta) : ObjectMeta :=
  mkMeta (om_Name m) (om_Namespace m) (filterLabels (om_Labels m)) (filterAnns (om_Annotations m))
    (om_OwnerReferences m) EmptyString EmptyString 0 [] (om_rest m).

Definition clean_meta (m : ObjectMeta) : ObjectMeta :=
  mkMeta (om_Name m) (om_Namespace m) (filterLabels (om_Labels m)) (filterAnns (om_Annotations m))
    [] EmptyString EmptyString 0 [] (om_rest m).

Definition sanitize_PVC (opt : Options) (p : PVC) : PVC :=
  mkPVC (clean_meta (pvc_Meta p)) (pvc_AccessModes p) (pvc_Storage p)
    (match pvc_StorageClassName p with
     | Some sc => Some (mapSC sc opt)
     | None => if String.eqb (DefaultStorageClass opt) EmptyString then None
               else Some (DefaultStorageClass opt)
     end)
    EmptyString (filterLabels <$> pvc_Selector p) None None EmptyString JNull.

(** ** Lemmas *)

Section lemmas.
  Context {U : Unstructured}.

Lemma remove_fields_prunes fields m :
  Forall (fun f => f <> []) fields -> prunes (JObj m) (JObj (remove_fields fields m)).
Proof.
  revert m. induction fields as [|f fields IH]; intros m Hne; [apply prunes_refl|].
  inv Hne. eapply prunes_trans; [by apply remove_prunes|by apply IH].
Qed.

Lemma remove_fields_gone fields m f :
  Forall (fun f => f <> []) fields -> f ∈ fields ->
  lookup_path (JObj (remove_fields fields m)) (keys f) = None.
Proof.
  revert m. induction fields as [|f' fields IH]; intros m Hne Hf; [by apply elem_of_nil in Hf|].
  inv Hne. apply elem_of_cons in Hf as [->|Hf]; [|by apply IH].
  eapply prunes_keys_None; [by apply (remove_fields_prunes fields)|].
  rewrite <- (app_nil_r (keys f')). by apply remove_gone.
Qed.

Lemma remove_fields_other fields m ks :
  forallb (fun f => apart f ks) fields = true ->
  lookup_path (JObj (remove_fields fields m)) (keys ks) = lookup_path (JObj m) (keys ks).
Proof.
  revert m. induction fields as [|f fields IH]; intros m H; [done|]. cbn in H. boolify.
  cbn [remove_fields fold_left]. fold (remove_fields fields (RemoveNestedField m f)).
  rewrite IH by done. by apply (SetNested_other m None).
Qed.

Lemma filter_meta_other m ks :
  apart ["metadata"; "annotations"]%string ks = true -> apart ["metadata"; "labels"]%string ks = true ->
  lookup_path (JObj (filter_meta m)) (keys ks) = lookup_path (JObj m) (keys ks).
Proof.
  intros H1 H2. unfold filter_meta, SetLabels, SetAnnotations, SetMeta.
  by rewrite !SetNested_other.
Qed.

(** Filtering a string map keeps exactly the entries [keep] keeps. *)
Lemma filter_map_lookup keep m k :
  default ∅ (filter_map keep m) !! k = if keep k then default ∅ m !! k else None.
Proof.
  destruct m as [m|]; cbn [filter_map default]; [|by rewrite lookup_empty; case_if].
  assert (filter (fun kv => keep (fst kv) = true) m !! k = if keep k then m !! k else None) as E.
  { rewrite map_lookup_filter. destruct (m !! k); cbn; [|by case_if].
    case_if; [by rewrite option_guard_True|by rewrite option_guard_False by congruence]. }
  case_bool_decide as He; cbn; [|done]. by rewrite <- E, He.
Qed.

(** A string map set under metadata has no other keys than its own. *)
Lemma set_strings_gone m field sm k : default ∅ sm !! k = None ->
  lookup_path (JObj (SetMeta m field (json_of_strings <$> sm))) (keys ["metadata"%string; field; k]) = None.
Proof.
  intros Hk. change (keys ["metadata"%string; field; k]) with (keys ["metadata"%string; field] ++ keys [k]).
  unfold SetMeta. destruct sm as [sm|]; [|by apply remove_gone]. cbn [fmap option_fmap option_map SetNested].
  destruct (SetNestedField m (json_of_strings sm) _) as [m'|] eqn:E; cbn [default from_option id]; rewrite lookup_path_app.
  - rewrite (set_here _ _ _ _ E) by done. cbn [keys List.map lookup_path child json_of_strings].
    destruct (oget _ k) as [v|] eqn:Ev; [|done]. apply oget_elem, list_elem_of_In, in_map_iff in Ev as ([k' s] & [= <- <-] & Hin).
    apply list_elem_of_In, elem_of_map_to_list in Hin. cbn in Hk. congruence.
  - destruct (lookup_path (JObj m) _) as [v0|] eqn:Ev; [|done].
    destruct (set_existing m (json_of_strings sm) _ v0 Ev) as [? ?]; [done|congruence].
Qed.

Lemma filter_meta_unpins m k :
  (keepLabel k = false -> lookup_path (JObj (filter_meta m)) (keys ["metadata"; "labels"; k]%string) = None) /\
  (keepAnn k = false -> lookup_path (JObj (filter_meta m)) (keys ["metadata"; "annotations"; k]%string) = None).
Proof.
  unfold filter_meta. split; intros Hk.
  - apply set_strings_gone. unfold filterLabels. by rewrite filter_map_lookup, Hk.
  - unfold SetLabels, SetMeta at 1. rewrite SetNested_other by done. apply set_strings_gone.
    unfold filterAnns. by rewrite filter_map_lookup, Hk.
Qed.

Lemma remapStorageClass_other m opt ks :
  apart ["spec"; "storageClassName"]%string ks = true ->
  lookup_path (JObj (remapStorageClass m opt)) (keys ks) = lookup_path (JObj m) (keys ks).
Proof.
  intros H. unfold remapStorageClass. destruct (NestedString m _) as [sc found].
  repeat case_if; first [done|by apply SetNested_other].
Qed.

(** *** The passes *)

Lemma odel_depth m k k' v : oget (odel m k) k' = Some v -> json_depth v < obj_depth m.
Proof. rewrite oget_odel. destruct (String.eqb k k'); [done|]. apply oget_depth. Qed.

Lemma runtimeClass_other opt m k : k <> "runtimeClassName"%string ->
  oget (runtimeClass_here opt m) k = oget m k.
Proof.
  intros Hk. unfold runtimeClass_here. destruct (oget m "runtimeClassName") as [[]|]; try done.
  repeat case_if; [done|by apply oget_odel_ne|by apply oget_oset_ne].
Qed.

Lemma tolerations_other m k : k <> "tolerations"%string -> oget (tolerations_here m) k = oget m k.
Proof.
  intros Hk. unfold tolerations_here. destruct (oget m "tolerations") as [[]|]; try done.
  destruct (List.filter _ _); [by apply oget_odel_ne|by apply oget_oset_ne].
Qed.

Lemma fsGroup_other Catalog m k : k <> "securityContext"%string ->
  oget (fsGroup_here Catalog m) k = oget m k.
Proof.
  intros Hk. unfold fsGroup_here, stripFSGroupOnPodSpec. case_if; [|done].
  destruct (oget m "securityContext") as [[]|]; try done. destruct (intFromUnstructured _); [|done].
  case_if; [done|]. destruct (odel _ _); [by apply oget_odel_ne|by apply oget_oset_ne].
Qed.

Lemma odel_prunes m k : prunes (JObj m) (JObj (odel m k)).
Proof.
  constructor. intros k' v'. rewrite oget_odel. destruct (String.eqb k k'); [done|].
  eauto using prunes_refl.
Qed.

Lemma oset_prunes m k v v' : oget m k = Some v -> prunes v v' -> prunes (JObj m) (JObj (oset m k v')).
Proof.
  intros Hm Hp. constructor. intros k' w. rewrite oget_oset.
  destruct (String.eqb_spec k k') as [<-|]; [intros [= <-]; eauto|eauto using prunes_refl].
Qed.

Lemma tolerations_prunes m : prunes (JObj m) (JObj (tolerations_here m)).
Proof.
  unfold tolerations_here. destruct (oget m "tolerations") as [[| | | | |tols|]|] eqn:E;
    try apply prunes_refl.
  destruct (List.filter kept_toleration tols) as [|t kept] eqn:Ef; [apply odel_prunes|].
  eapply oset_prunes; [done|]. rewrite <- Ef. constructor. intros i v' Hv.
  apply list_elem_of_lookup_2, list_elem_of_In, filter_In in Hv as [Hin _].
  apply list_elem_of_In, list_elem_of_lookup in Hin as [j Hj]. eauto using prunes_refl.
Qed.

Lemma fsGroup_prunes Catalog m : prunes (JObj m) (JObj (fsGroup_here Catalog m)).
Proof.
  unfold fsGroup_here, stripFSGroupOnPodSpec. case_if; [|apply prunes_refl].
  destruct (oget m "securityContext") as [[| | | | | |sc]|] eqn:E; try apply prunes_refl.
  destruct (intFromUnstructured _); [|apply prunes_refl].
  case_if; [apply prunes_refl|]. destruct (odel sc "fsGroup") eqn:Ed; [apply odel_prunes|].
  eapply oset_prunes; [done|]. rewrite <- Ed. apply odel_prunes.
Qed.

Lemma list_max_incl (l l' : list nat) : l' ⊆ l -> list_max l' <= list_max l.
Proof.
  intros Hl. apply list_max_le, List.Forall_forall. intros n Hn%list_elem_of_In.
  by apply list_max_le_elem, Hl.
Qed.

Lemma filter_depth {A} (d : A -> nat) f (l : list A) :
  list_max (List.map d (List.filter f l)) <= list_max (List.map d l).
Proof.
  apply list_max_incl. intros n. rewrite !list_elem_of_In, !in_map_iff.
  intros (x & <- & Hx). apply filter_In in Hx as [Hx _]. eauto.
Qed.

Lemma oset_depth m k v v' k' w : oget m k = Some v -> json_depth v' <= json_depth v ->
  oget (oset m k v') k' = Some w -> json_depth w < obj_depth m.
Proof.
  intros Hm Hd. rewrite oget_oset. destruct (String.eqb k k'); [|apply oget_depth].
  intros [= <-]. apply oget_depth in Hm. lia.
Qed.

Lemma runtimeClass_depth opt m k v :
  oget (runtimeClass_here opt m) k = Some v -> json_depth v < obj_depth m.
Proof.
  unfold runtimeClass_here. destruct (oget m "runtimeClassName") as [[]|] eqn:E; try apply oget_depth.
  repeat case_if; [apply oget_depth|apply odel_depth|by apply (oset_depth _ _ _ _ _ _ E)].
Qed.

Lemma tolerations_depth m k v : oget (tolerations_here m) k = Some v -> json_depth v < obj_depth m.
Proof.
  unfold tolerations_here. destruct (oget m "tolerations") as [[| | | | |tols|]|] eqn:E; try apply oget_depth.
  destruct (List.filter kept_toleration tols) eqn:Ef; [apply odel_depth|].
  apply (oset_depth _ _ _ _ _ _ E). rewrite <- Ef. cbn [json_depth].
  pose proof (filter_depth json_depth kept_toleration tols). lia.
Qed.

Lemma fsGroup_depth Catalog m k v :
  oget (fsGroup_here Catalog m) k = Some v -> json_depth v < obj_depth m.
Proof.
  unfold fsGroup_here, stripFSGroupOnPodSpec. case_if; [|apply oget_depth].
  destruct (oget m "securityContext") as [[| | | | | |sc]|] eqn:E; try apply oget_depth.
  destruct (intFromUnstructured _); [|apply oget_depth].
  case_if; [apply oget_depth|]. destruct (odel sc "fsGroup") eqn:Ed; [apply odel_depth|].
  apply (oset_depth _ _ _ _ _ _ E). rewrite <- Ed. cbn [json_depth].
  pose proof (filter_depth (fun kv : string * json => json_depth (snd kv))
    (fun kv => negb (String.eqb (fst kv) "fsGroup")) sc). unfold odel. lia.
Qed.

(** *** What each pass leaves at every map *)

Definition runtime_ok (opt : Options) (x : obj) : Prop :=
  forall s, oget x "runtimeClassName" = Some (JStr s) ->
    s = EmptyString \/ exists m src, RuntimeClassMap opt = Some m /\ m !! src = Some s.
Definition tolerations_ok (x : obj) : Prop :=
  forall tols i tm key, oget x "tolerations" = Some (JArr tols) -> tols !! i = Some (JObj tm) ->
    oget tm "key" = Some (JStr key) -> clusterLocalTolerationKey key = false.
Definition fsGroup_ok (Catalog : list Engine) (x : obj) : Prop :=
  forall sc n, oget x "securityContext" = Some (JObj sc) -> podSpecSecurityContext x = true ->
    intFromUnstructured (oget sc "fsGroup") = Some n ->
    n <> 0%Z /\ postgresContainers Catalog x = false.

Lemma runtime_everywhere opt m x : visited (walkRuntimeClass m opt) x -> runtime_ok opt x.
Proof.
  apply (walk_visited (runtimeClass_here opt) (runtime_ok opt) (fun _ _ => True));
    [done| |by apply runtimeClass_depth|done].
  intros rec t _ s. rewrite oget_map_values. unfold runtimeClass_here.
  destruct (oget t "runtimeClassName") as [[| | | |src| |]|] eqn:E; rewrite ?E; try done.
  destruct (String.eqb_spec src EmptyString) as [->|]; [rewrite E; intros [= <-]; by left|].
  case_if; [by rewrite oget_odel_eq|]. boolify. rewrite oget_oset_eq. intros [= <-]. right.
  unfold nmap_get, map_get in *. destruct (RuntimeClassMap opt) as [rm|]; [|done].
  destruct (rm !! src) eqn:Er; [by eauto|done].
Qed.

Lemma runtime_ok_prunes opt x x' : prunes (JObj x) (JObj x') -> runtime_ok opt x -> runtime_ok opt x'.
Proof.
  intros (x0 & [= <-] & Hp)%prunes_obj_inv Hx s Hs. destruct (Hp _ _ Hs) as (v & Hv & ->%prunes_str).
  by apply Hx.
Qed.

Lemma kept_prunes t tm key : kept_toleration t = true -> prunes t (JObj tm) ->
  oget tm "key" = Some (JStr key) -> clusterLocalTolerationKey key = false.
Proof.
  intros Ht (t0 & -> & Hp)%prunes_obj_inv Hk. destruct (Hp _ _ Hk) as (v & Hv & ->%prunes_str).
  cbn [kept_toleration] in Ht. rewrite Hv in Ht. by apply negb_true_iff in Ht.
Qed.

Lemma walk_child_prunes rec v : (forall t, prunes (JObj t) (JObj (rec t))) -> prunes v (walk_child rec v).
Proof.
  intros Hr. destruct v as [| | | | |l|t]; cbn [walk_child]; try apply prunes_refl; [|apply Hr].
  constructor. intros i v'. rewrite list_lookup_fmap. destruct (l !! i) as [w|] eqn:E; [|done].
  intros [= <-]. exists i, w. split; [done|]. destruct w; first [apply Hr|apply prunes_refl].
Qed.

Lemma tolerations_everywhere m x : visited (stripClusterLocalTolerations m) x -> tolerations_ok x.
Proof.
  apply (walk_visited tolerations_here tolerations_ok (fun t t' => prunes (JObj t) (JObj t')));
    [by apply walk_prunes, tolerations_prunes| |by apply tolerations_depth|done].
  intros rec t Hr tols i tm key. rewrite oget_map_values. intros Ht Hi.
  destruct (oget (tolerations_here t) "tolerations") as [v|] eqn:E; [|done].
  injection Ht as Ht. pose proof (walk_child_prunes rec v Hr) as Hp. rewrite Ht in Hp.
  apply prunes_arr_inv in Hp as (l & -> & Hp). destruct (Hp _ _ Hi) as (j & w & Hj & Hw).
  refine (kept_prunes w tm key _ Hw). revert E. unfold tolerations_here.
  destruct (oget t "tolerations") as [[| | | | |tols0|]|] eqn:E0; rewrite ?E0; try done.
  destruct (List.filter kept_toleration tols0) as [|t1 kept] eqn:Ef; [by rewrite oget_odel_eq|].
  rewrite oget_oset_eq. intros [= <-]. rewrite <- Ef in Hj.
  by apply list_elem_of_lookup_2, list_elem_of_In, filter_In in Hj as [_ ?].
Qed.

Lemma tolerations_ok_prunes x x' : prunes (JObj x) (JObj x') -> tolerations_ok x -> tolerations_ok x'.
Proof.
  intros (x0 & [= <-] & Hp)%prunes_obj_inv Hx tols i tm key Ht Hi Hk.
  destruct (Hp _ _ Ht) as (v & Hv & Hpv). apply prunes_arr_inv in Hpv as (l & -> & Hpl).
  destruct (Hpl _ _ Hi) as (j & w & Hj & Hw). apply prunes_obj_inv in Hw as (t0 & -> & Hw).
  destruct (Hw _ _ Hk) as (v & Hv' & ->%prunes_str). eauto.
Qed.

Lemma intFrom_prunes sc sc' k n : prunes (JObj sc) (JObj sc') ->
  intFromUnstructured (oget sc' k) = Some n -> intFromUnstructured (oget sc k) = Some n.
Proof.
  intros (x0 & [= <-] & Hp)%prunes_obj_inv Hn. destruct (oget sc' k) as [v'|] eqn:E; [|done].
  destruct (Hp _ _ E) as (v & Hv & Hpv%prunes_scalar). rewrite Hv. by destruct v'; subst.
Qed.

Lemma MatchImage_empty Catalog : MatchImage Catalog EmptyString = None.
Proof.
  unfold MatchImage. destruct (find _ _) as [e|] eqn:E; [|done]. apply List.find_some in E as [_ E].
  apply existsb_exists in E as (m & _ & E). by destruct m.
Qed.

Lemma postgres_prunes Catalog v v' : prunes v v' ->
  containersMatchPostgres Catalog (Some v') = true -> containersMatchPostgres Catalog (Some v) = true.
Proof.
  intros Hp H. destruct v' as [| | | | |l'|]; try done.
  apply prunes_arr_inv in Hp as (l & -> & Hp). cbn in H |- *.
  apply existsb_exists in H as (item' & Hin & H). apply list_elem_of_In, list_elem_of_lookup in Hin as [i Hi].
  destruct (Hp _ _ Hi) as (j & item & Hj & Hpi). apply existsb_exists. exists item.
  split; [by apply list_elem_of_lookup_2, list_elem_of_In in Hj|].
  destruct item' as [| | | | | |c']; try done. apply prunes_obj_inv in Hpi as (c & -> & Hc).
  destruct (oget c' "image") as [[| | | |s| |]|] eqn:E; cbn [str_or_empty as_str default from_option id] in H;
    try by rewrite MatchImage_empty in H.
  destruct (Hc _ _ E) as (w & -> & ->%prunes_str). done.
Qed.

Lemma postgresContainers_prunes Catalog x x' : prunes (JObj x) (JObj x') ->
  postgresContainers Catalog x' = true -> postgresContainers Catalog x = true.
Proof.
  intros (x0 & [= <-] & Hp)%prunes_obj_inv. unfold postgresContainers. rewrite !orb_true_iff.
  intros [H|H]; [left|right]; revert H;
    match goal with |- context [oget x' ?k] => destruct (oget x' k) as [v'|] eqn:E end; try done;
    destruct (Hp _ _ E) as (v & -> & Hv); by apply postgres_prunes.
Qed.

Lemma fsGroup_everywhere Catalog m x : visited (stripPodFSGroup Catalog m) x -> fsGroup_ok Catalog x.
Proof.
  apply (walk_visited (fsGroup_here Catalog) (fsGroup_ok Catalog) (fun t t' => prunes (JObj t) (JObj t')));
    [by apply walk_prunes, fsGroup_prunes| |by apply fsGroup_depth|done].
  intros rec t Hr sc n Hsc Hpod Hn. set (y := map_values _ _) in *.
  assert (prunes (JObj (fsGroup_here Catalog t)) (JObj y)) as Hy.
  { constructor. intros k v'. unfold y. rewrite oget_map_values.
    destruct (oget (fsGroup_here Catalog t) k) as [v|]; [|done]. intros [= <-].
    exists v. split; [done|]. by apply walk_child_prunes. }
  pose proof (fsGroup_prunes Catalog t) as Ht. pose proof (prunes_trans _ _ _ Ht Hy) as Hty.
  destruct (prunes_obj_inv _ _ Hy) as (z & [= <-] & Hz).
  destruct (Hz _ _ Hsc) as (v1 & Hv1 & (sc1 & -> & _)%prunes_obj_inv).
  destruct (Hz _ _ Hsc) as (v1' & Hv1' & Hp1). simplify_eq.
  apply (intFrom_prunes _ _ _ _ Hp1) in Hn. clear Hp1.
  destruct (prunes_obj_inv _ _ Ht) as (z & [= <-] & Hz').
  destruct (Hz' _ _ Hv1) as (v0 & Hv0 & Hp0). pose proof (prunes_obj_inv _ _ Hp0) as (sc0 & -> & _).
  assert (podSpecSecurityContext t = true) as Hpt.
  { unfold podSpecSecurityContext in *. rewrite Hsc in Hpod. rewrite Hv0.
    apply orb_true_iff in Hpod as [Hc|Hc]; apply orb_true_iff; [left|right]; revert Hc;
      match goal with |- context [oget y ?k] => destruct (oget y k) as [w'|] eqn:Ew end; try done;
      destruct (prunes_obj_inv _ _ Hty) as (z & [= <-] & Hzz);
      destruct (Hzz _ _ Ew) as (w & -> & _); done. }
  pose proof (intFrom_prunes _ _ _ _ Hp0 Hn) as Hn0.
  revert Hv1. unfold fsGroup_here, stripFSGroupOnPodSpec. rewrite Hpt, Hv0, Hn0. case_if.
  - intros _. boolify. split; [done|]. apply not_true_iff_false. intros Hc.
    apply (postgresContainers_prunes _ _ _ Hty) in Hc. congruence.
  - destruct (odel sc0 "fsGroup") eqn:Ed; [by rewrite oget_odel_eq|]. rewrite oget_oset_eq.
    intros [= <-]. rewrite <- Ed, oget_odel_eq in Hn. done.
Qed.

(** *** The stages of Object *)

Definition before_walks (opt : Options) (m : obj) : obj :=
  remapStorageClass (filter_meta (remove_fields status_fields (remove_fields metadata_fields m))) opt.
Definition walks (Catalog : list Engine) (opt : Options) (m : obj) : obj :=
  stripPodFSGroup Catalog (stripAffinity (walkRuntimeClass m opt)).

Lemma Object_stages Catalog m opt : Object Catalog m opt = walks Catalog opt (before_walks opt m).
Proof. done. Qed.

Lemma fields_nonempty fields : forallb (fun f => negb (bool_decide (f = []))) fields = true ->
  Forall (fun f : list string => f <> []) fields.
Proof.
  intros H. apply Forall_forall. intros f Hf. rewrite forallb_forall in H.
  specialize (H f). apply list_elem_of_In, H in Hf. by boolify.
Qed.

Lemma after_runtime Catalog m : prunes (JObj m) (JObj (stripPodFSGroup Catalog (stripAffinity m))).
Proof.
  eapply prunes_trans; [|apply walk_prunes, fsGroup_prunes].
  eapply prunes_trans; [|apply walk_prunes, tolerations_prunes].
  by apply remove_fields_prunes, fields_nonempty.
Qed.

Definition walk_keys : list string := ["runtimeClassName"; "tolerations"; "securityContext"]%string.

Lemma walks_shape Catalog opt m ks :
  forallb (fun f => apart f ks) affinity_fields = true ->
  (forall k, k ∈ walk_keys -> k ∉ ks) ->
  shape <$> lookup_path (JObj (walks Catalog opt m)) (keys ks) =
  shape <$> lookup_path (JObj m) (keys ks).
Proof.
  intros Hf Hk. unfold walks, stripPodFSGroup, stripAffinity, stripClusterLocalTolerations, walkRuntimeClass.
  rewrite (walk_shape _ "securityContext") by first [apply fsGroup_other|apply Hk; elem].
  rewrite (walk_shape _ "tolerations") by first [apply tolerations_other|apply Hk; elem].
  rewrite remove_fields_other by done.
  by rewrite (walk_shape _ "runtimeClassName") by first [apply runtimeClass_other|apply Hk; elem].
Qed.

(** The fields [Object] removes, and those it rewrites. *)
Definition removed_fields : list (list string) := metadata_fields ++ status_fields ++ affinity_fields.
(** Places that pin an object to the source cluster and that [Object] does not
    touch: a PersistentVolume's handle, its node affinity and the UID of its
    claim, the spread and the node affinity of a bare Pod or a CronJob where the
    other kinds lose theirs, and a zone label of the pod template. *)
Definition kept_pins : list (list string) :=
  [["spec"; "csi"; "volumeHandle"]; ["spec"; "nodeAffinity"]; ["spec"; "claimRef"; "uid"];
   ["spec"; "topologySpreadConstraints"];
   ["spec"; "jobTemplate"; "spec"; "template"; "spec"; "affinity"; "nodeAffinity"];
   ["spec"; "jobTemplate"; "spec"; "template"; "spec"; "topologySpreadConstraints"];
   ["spec"; "template"; "metadata"; "labels"; "topology.kubernetes.io/zone"]]%string.
Definition rewritten_fields : list (list string) :=
  [["metadata"; "annotations"]; ["metadata"; "labels"]; ["spec"; "storageClassName"]]%string.

Lemma before_walks_other opt m ks :
  forallb (fun f => apart f ks) (metadata_fields ++ status_fields ++ rewritten_fields) = true ->
  lookup_path (JObj (before_walks opt m)) (keys ks) = lookup_path (JObj m) (keys ks).
Proof.
  rewrite !forallb_app. intros H. boolify. cbn [forallb rewritten_fields] in *. boolify.
  unfold before_walks. by rewrite remapStorageClass_other, filter_meta_other, !remove_fields_other.
Qed.

Lemma shape_None (o : option json) : shape <$> o = None -> o = None.
Proof. by destruct o. Qed.

Lemma shape_str (o : option json) s : shape <$> o = Some (JStr s) -> o = Some (JStr s).
Proof. by destruct o as [[]|]. Qed.

Lemma walks_gone Catalog opt m ks : (forall k, k ∈ walk_keys -> k ∉ ks) ->
  lookup_path (JObj m) (keys ks) = None -> lookup_path (JObj (walks Catalog opt m)) (keys ks) = None.
Proof.
  intros Hk Hm. eapply prunes_keys_None; [apply after_runtime|]. apply shape_None.
  unfold walkRuntimeClass. rewrite (walk_shape _ "runtimeClassName"), Hm
    by first [apply runtimeClass_other|apply Hk; elem]. done.
Qed.

(** None of the removed fields passes through a key the walks rewrite. *)
Lemma removed_not_walked f k : f ∈ removed_fields -> k ∈ walk_keys -> k ∉ f.
Proof.
  intros Hf Hk. assert (forallb (fun f => forallb (fun k => bool_decide (k ∉ f)) walk_keys)
    removed_fields = true) as H by done.
  rewrite forallb_forall in H. specialize (H f (proj1 (list_elem_of_In _ _) Hf)).
  rewrite forallb_forall in H. specialize (H k (proj1 (list_elem_of_In _ _) Hk)). by boolify.
Qed.

Lemma before_walks_gone opt m f : f ∈ metadata_fields ++ status_fields ->
  lookup_path (JObj (before_walks opt m)) (keys f) = None.
Proof.
  intros Hf. assert (forallb (fun f => forallb (fun r => apart r f) rewritten_fields)
    (metadata_fields ++ status_fields) = true) as H by done.
  rewrite forallb_forall in H. specialize (H f (proj1 (list_elem_of_In _ _) Hf)).
  cbn [forallb rewritten_fields] in H. boolify. unfold before_walks.
  rewrite remapStorageClass_other, filter_meta_other by done.
  apply elem_of_app in Hf as [Hf|Hf].
  - eapply prunes_keys_None; [by apply remove_fields_prunes, fields_nonempty|].
    by apply remove_fields_gone; [apply fields_nonempty|].
  - by apply remove_fields_gone; [apply fields_nonempty|].
Qed.

Lemma walks_affinity_gone Catalog opt m f : f ∈ affinity_fields ->
  lookup_path (JObj (walks Catalog opt m)) (keys f) = None.
Proof.
  intros Hf. unfold walks. eapply prunes_keys_None; [apply walk_prunes, fsGroup_prunes|].
  eapply prunes_keys_None; [apply walk_prunes, tolerations_prunes|].
  by apply remove_fields_gone; [apply fields_nonempty|].
Qed.

Lemma remapStorageClass_maps m opt sc :
  lookup_path (JObj m) (keys ["spec"; "storageClassName"]%string) = Some (JStr sc) -> sc <> EmptyString ->
  lookup_path (JObj (remapStorageClass m opt)) (keys ["spec"; "storageClassName"]%string)
  = Some (JStr (mapSC sc opt)).
Proof.
  intros Hsc Hne. unfold remapStorageClass. rewrite NestedString_law, Hsc.
  destruct (String.eqb_spec sc EmptyString); [done|]. cbn [negb orb SetNested].
  destruct (set_existing m (JStr (mapSC sc opt)) _ _ Hsc) as [m' E]; [done|]. rewrite E.
  by apply (set_here _ _ _ _ E).
Qed.
End lemmas.

(** ** Properties *)

Section properties.
  Context {U : Unstructured} (Catalog : list Engine) (m : obj) (opt : Options).

(** The removed fields are gone. *)
Lemma Object_removes f : f ∈ removed_fields -> lookup_path (JObj (Object Catalog m opt)) (keys f) = None.
Proof.
  rewrite Object_stages. intros Hf. unfold removed_fields in Hf. rewrite (assoc_L (++)) in Hf.
  pose proof (removed_not_walked f) as Hk. unfold removed_fields in Hk. rewrite (assoc_L (++)) in Hk.
  apply elem_of_app in Hf as [Hf|Hf]; [|by apply walks_affinity_gone].
  apply walks_gone; [|by apply before_walks_gone]. intros k. apply Hk. apply elem_of_app. by left.
Qed.

(** The labels and annotations of the source's zones, nodes and clouds are gone
    from the object's own metadata. *)
Lemma Object_unpins k :
  (keepLabel k = false -> lookup_path (JObj (Object Catalog m opt)) (keys ["metadata"; "labels"; k]%string) = None) /\
  (keepAnn k = false -> lookup_path (JObj (Object Catalog m opt)) (keys ["metadata"; "annotations"; k]%string) = None).
Proof.
  rewrite Object_stages. unfold before_walks. split; intros Hk; apply walks_gone.
  1, 3: intros w Hw; repeat (apply elem_of_cons in Hw as [->|Hw]); [..|by apply elem_of_nil in Hw];
    intros Hin; repeat (apply elem_of_cons in Hin as [Hin|Hin]); try (by apply elem_of_nil in Hin); subst; done.
  all: rewrite remapStorageClass_other by done; by apply filter_meta_unpins.
Qed.

(** [Object] leaves none of the identity, status, placement and assigned
    address fields of the source cluster, whatever the object holds, and maps a
    non-empty storage class through the class map and the default. *)
Theorem Object_cleaned :
  (forall f, f ∈ removed_fields -> lookup_path (JObj (Object Catalog m opt)) (keys f) = None) /\
  (forall sc, lookup_path (JObj m) (keys ["spec"; "storageClassName"]%string) = Some (JStr sc) ->
     sc <> EmptyString ->
     lookup_path (JObj (Object Catalog m opt)) (keys ["spec"; "storageClassName"]%string)
     = Some (JStr (mapSC sc opt))).
Proof.
  split; [apply Object_removes|]. rewrite Object_stages.
  - intros sc Hsc Hne. apply shape_str.
    rewrite walks_shape; [|done|by intros k Hk Hin; repeat (apply elem_of_cons in Hk as [->|Hk]); set_solver].
    unfold before_walks. rewrite (remapStorageClass_maps _ _ sc); [done| |done].
    by rewrite filter_meta_other, !remove_fields_other.
Qed.

(** C37: at every map of the sanitized tree, however deep: a runtime class is
    one the destination map names, no toleration has a key that only makes
    sense on the source cluster, and a pod security context keeps an fsGroup
    only when it is not 0 and no container runs Postgres. *)
Theorem Object_portable x :
  visited (Object Catalog m opt) x -> runtime_ok opt x /\ tolerations_ok x /\ fsGroup_ok Catalog x.
Proof.
  rewrite Object_stages. intros Hx. split_and!; [| |by eapply fsGroup_everywhere].
  - destruct (prunes_visited _ _ _ Hx (after_runtime Catalog _)) as (y & Hy & Hp).
    eapply runtime_ok_prunes; [done|]. by eapply runtime_everywhere.
  - destruct (prunes_visited _ _ _ Hx (walk_prunes _ (fsGroup_prunes Catalog) _ _)) as (y & Hy & Hp).
    eapply tolerations_ok_prunes; [done|]. by eapply tolerations_everywhere.
Qed.

(** everything else is kept: a path of keys that meets no removed or
    rewritten field and none of the keys the walks rewrite leads, before and
    after, to the same scalar, to a map, to an array or to nothing. *)
Lemma Object_kept ks :
  forallb (fun f => apart f ks) (removed_fields ++ rewritten_fields) = true ->
  (forall k, k ∈ walk_keys -> k ∉ ks) ->
  shape <$> lookup_path (JObj (Object Catalog m opt)) (keys ks) =
  shape <$> lookup_path (JObj m) (keys ks).
Proof.
  unfold removed_fields. rewrite !forallb_app, !andb_true_iff. intros [(H1 & H2 & H3) H4] Hk.
  rewrite Object_stages, walks_shape by done.
  rewrite before_walks_other; [done|]. by rewrite !forallb_app, H1, H2, H4.
Qed.

Lemma Object_keeps_pins ks : ks ∈ kept_pins ->
  shape <$> lookup_path (JObj (Object Catalog m opt)) (keys ks) = shape <$> lookup_path (JObj m) (keys ks).
Proof.
  intros Hks. assert (forallb (fun ks => forallb (fun f => apart f ks) (removed_fields ++ rewritten_fields) &&
    forallb (fun k => bool_decide (k ∉ ks)) walk_keys) kept_pins = true) as H by done.
  rewrite forallb_forall in H. specialize (H ks (proj1 (list_elem_of_In _ _) Hks)).
  apply andb_true_iff in H as [H1 H2]. apply Object_kept; [exact H1|].
  intros k Hk. rewrite forallb_forall in H2. specialize (H2 k (proj1 (list_elem_of_In _ _) Hk)). by boolify.
Qed.
End properties.

(** A Postgres StatefulSet from a cluster with gVisor and zonal nodes. *)
Definition pg_sts : obj :=
  [("kind", JStr "StatefulSet");
   ("metadata", JObj [("name", JStr "pg"); ("uid", JStr "u-1")]);
   ("status", JObj []);
   ("spec", JObj [("template", JObj [("spec", JObj
      [("nodeName", JStr "node-a"); ("runtimeClassName", JStr "gvisor");
       ("tolerations", JArr [JObj [("key", JStr "nvidia.com/gpu")]; JObj [("key", JStr "team")]]);
       ("securityContext", JObj [("fsGroup", JInt 999); ("runAsUser", JInt 999)]);
       ("containers", JArr [JObj [("name", JStr "db"); ("image", JStr "postgres:16")]])])])])]%string.
Definition no_options : Options := mkOptions None "" None.
Definition pg_spec : obj := default [] (as_obj (lookup_path
  (JObj (Object (U := plain) builtin_catalog pg_sts no_options)) (keys ["spec"; "template"; "spec"]%string))).

Lemma Object_portable_witness :
  List.map fst pg_spec = ["securityContext"; "tolerations"; "containers"]%string /\
  runtime_ok no_options pg_spec /\ tolerations_ok pg_spec /\ fsGroup_ok builtin_catalog pg_spec.
Proof.
  split; [vm_compute; reflexivity|].
  apply (Object_portable (U := plain) builtin_catalog pg_sts no_options).
  apply (lookup_visited ["spec"; "template"; "spec"]%string). vm_compute. reflexivity.
Defined.

Example Object_kept_example :
  shape <$> lookup_path (JObj (Object (U := plain) builtin_catalog pg_sts no_options))
    (keys ["metadata"; "name"]%string) = Some (JStr "pg").
Proof.
  rewrite (Object_kept (U := plain) builtin_catalog pg_sts no_options ["metadata"; "name"]%string).
  - reflexivity.
  - reflexivity.
  - intros k Hk Hin. repeat (apply elem_of_cons in Hk as [->|Hk]); set_solver.
Defined.
