(* ===== verification/Heal.v ===== *)
(** * Healing objects already on the destination: src/pkg/heal/heal.go

    [PVC] and [PodSpec] mutate the object they get and return the names of the
    healers applied; here they return both. *)

From Stdlib Require Import ZArith Lia.
From S2P Require Import Prelude GoStrings Effects Api Json Kube Classify Transform.

Definition StripSelectedNode : string := "strip-selected-node".
Definition RemapStorageClass : string := "remap-storageclass".
Definition StripNodeAffinity : string := "strip-node-affinity".
Definition StripZoneLabels : string := "strip-zone-labels".
Definition BindPVCByName : string := "bind-pvc-by-name".
Definition StripRootFSGroup : string := "strip-root-fsgroup".

(** The first occurrence of each string. *)
Fixpoint unique_from (seen : list string) (l : list string) : list string :=
  match l with
  | [] => []
  | s :: l' => if bool_decide (s ∈ seen) then unique_from seen l' else s :: unique_from (s :: seen) l'
  end.
Definition unique (l : list string) : list string := unique_from [] l.

(** [f] when the condition holds, nothing otherwise. *)
Definition report (b : bool) (name : string) : list string := if b then [name] else [].

Definition has_key (m : strmap) (k : string) : bool :=
  match m with Some m => bool_decide (is_Some (m !! k)) | None => false end.
Definition del_key (k : string) (m : strmap) : strmap := delete k <$> m.

Definition pvc_pins (p : PVC) : list string :=
  report (has_key (om_Annotations (pvc_Meta p)) "volume.kubernetes.io/selected-node") StripSelectedNode ++
  report (has_key (om_Labels (pvc_Meta p)) "topology.kubernetes.io/zone") StripZoneLabels.

Definition with_pvc_phase (phase : string) (p : PVC) : PVC :=
  mkPVC (pvc_Meta p) (pvc_AccessModes p) (pvc_Storage p) (pvc_StorageClassName p)
    (pvc_VolumeName p) (pvc_Selector p) (pvc_DataSource p) (pvc_DataSourceRef p) phase (pvc_StatusRest p).

Definition unpin_meta (m : ObjectMeta) : ObjectMeta :=
  with_labels (del_key "topology.kubernetes.io/zone" (om_Labels m))
    (with_annotations (del_key "volume.kubernetes.io/selected-node" (om_Annotations m)) m).

Definition heal_PVC (opt : Options) (p : PVC) : PVC * list string :=
  let oldSC := default EmptyString (pvc_StorageClassName p) in
  if String.eqb (pvc_Phase p) "Bound" then (pvc_with_meta unpin_meta p, unique (pvc_pins p))
  else
    let p' := with_pvc_phase (pvc_Phase p) (sanitize_PVC opt p) in
    let remapped := match pvc_StorageClassName p' with
                    | Some sc => negb (String.eqb sc oldSC) && negb (String.eqb oldSC EmptyString)
                    | None => false
                    end in
    (p', unique (pvc_pins p ++ report remapped RemapStorageClass)).

(** ** PodSpec *)

Definition clusterLocalTol (key : string) : bool :=
  match key with
  | "sandbox.gke.io/runtime" | "nvidia.com/gpu" | "kubernetes.io/hostname" => true
  | _ => false
  end%string.

(** filterPodTolerations: the tolerations kept and how many were dropped. *)
Definition filterPodTolerations (tols : list Toleration) : list Toleration * nat :=
  let kept := List.filter (fun t => negb (clusterLocalTol (tol_Key t))) tols in
  (kept, length tols - length kept).

Section heal.
  Context (Catalog : list Engine).

Definition postgresImage (image : string) : bool :=
  match MatchImage Catalog image with
  | Some eng => String.eqb (eng_Name eng) "postgres"
  | None => false
  end.
Definition postgresPod (spec : PodSpec) : bool :=
  existsb (fun c => postgresImage (ct_Image c)) (sp_InitContainers spec) ||
  existsb (fun c => postgresImage (ct_Image c)) (sp_Containers spec).

(** stripVolumeFSGroup: the security context and whether it was changed. *)
Definition stripVolumeFSGroup (spec : PodSpec) : option PodSecurityContext * bool :=
  match sp_SecurityContext spec with
  | Some sc =>
      match psc_FSGroup sc with
      | Some fg => if negb (fg =? 0)%Z && negb (postgresPod spec) then (Some sc, false)
                   else (Some (mkPSC None (psc_RunAsUser sc) (psc_rest sc)), true)
      | None => (Some sc, false)
      end
  | None => (None, false)
  end.

Definition has_node_affinity (a : option Affinity) : bool :=
  match a with Some a => match af_NodeAffinity a with Some _ => true | None => false end | None => false end.
Definition non_empty (m : strmap) : bool :=
  match m with Some m => negb (bool_decide (m = ∅)) | None => false end.

Definition heal_PodSpec (spec : PodSpec) : PodSpec * list string :=
  let selector := non_empty (sp_NodeSelector spec) in
  let node := negb (String.eqb (sp_NodeName spec) EmptyString) in
  let affinity := has_node_affinity (sp_Affinity spec) in
  let '(tols, dropped) := filterPodTolerations (sp_Tolerations spec) in
  let '(sc, stripped) := stripVolumeFSGroup spec in
  (mkPodSpec (if selector then None else sp_NodeSelector spec)
     EmptyString
     ((fun a => mkAffinity None (af_rest a)) <$> sp_Affinity spec)
     []
     tols sc (sp_InitContainers spec) (sp_Containers spec) (sp_Volumes spec),
   unique (report selector StripNodeAffinity ++ report node StripNodeAffinity ++
           report affinity StripNodeAffinity ++ report (0 <? dropped) StripNodeAffinity ++
           report stripped StripRootFSGroup)).

(** ** Lemmas *)

Lemma elem_of_unique_from s seen l : s ∈ unique_from seen l <-> s ∈ l /\ s ∉ seen.
Proof.
  revert seen. induction l as [|x l IH]; intros seen; cbn [unique_from].
  - rewrite elem_of_nil. tauto.
  - case_bool_decide as Hx; rewrite ?elem_of_cons, IH, ?not_elem_of_cons; [naive_solver|].
    destruct (decide (s = x)); naive_solver.
Qed.

Lemma elem_of_unique s l : s ∈ unique l <-> s ∈ l.
Proof. unfold unique. rewrite elem_of_unique_from, elem_of_nil. tauto. Qed.

Lemma has_key_lookup m k : has_key m k = bool_decide (is_Some (default ∅ m !! k)).
Proof. destruct m as [m|]; cbn; [done|]. by rewrite lookup_empty. Qed.

(** Neither way of healing a claim leaves a pin. *)
Lemma unpinned p :
  pvc_pins (pvc_with_meta unpin_meta p) = [] /\
  forall opt, pvc_pins (with_pvc_phase (pvc_Phase p) (sanitize_PVC opt p)) = [].
Proof.
  unfold pvc_pins. split; intros; rewrite !has_key_lookup; cbn.
  - destruct (om_Annotations (pvc_Meta p)), (om_Labels (pvc_Meta p)); cbn;
      rewrite ?lookup_delete_eq, ?lookup_empty; done.
  - unfold filterAnns, filterLabels. rewrite !filter_map_lookup. done.
Qed.

Lemma unique_nil l : unique l = [] <-> l = [].
Proof. unfold unique. by destruct l. Qed.

Lemma report_nil b n : report b n = [] <-> b = false.
Proof. by destruct b. Qed.

Lemma filter_length_all {A} (f : A -> bool) l :
  length l - length (List.filter f l) = 0 <-> List.filter f l = l.
Proof.
  pose proof (List.filter_length_le f l) as Hl. split; [|intros ->; lia]. intros H.
  assert (length (List.filter f l) = length l) as E by lia. clear H Hl.
  by apply List.filter_length_forallb, List.forallb_filter_id in E.
Qed.

Definition clear_topology (spec : PodSpec) : PodSpec :=
  mkPodSpec (sp_NodeSelector spec) (sp_NodeName spec) (sp_Affinity spec) [] (sp_Tolerations spec)
    (sp_SecurityContext spec) (sp_InitContainers spec) (sp_Containers spec) (sp_Volumes spec).
(** A pod template nothing pins to the source. *)
Record healed (spec : PodSpec) : Prop := mkHealed {
  healed_selector : non_empty (sp_NodeSelector spec) = false;
  healed_node : sp_NodeName spec = EmptyString;
  healed_affinity : has_node_affinity (sp_Affinity spec) = false;
  healed_topology : sp_TopologySpread spec = [];
  healed_tolerations : Forall (fun t => clusterLocalTol (tol_Key t) = false) (sp_Tolerations spec);
  healed_fsGroup sc fg : sp_SecurityContext spec = Some sc -> psc_FSGroup sc = Some fg ->
    fg <> 0%Z /\ postgresPod spec = false }.

Lemma stripVolumeFSGroup_spec spec :
  let '(sc', stripped) := stripVolumeFSGroup spec in
  (stripped = false <-> sc' = sp_SecurityContext spec) /\
  (forall sc fg, sc' = Some sc -> psc_FSGroup sc = Some fg -> fg <> 0%Z /\ postgresPod spec = false).
Proof.
  unfold stripVolumeFSGroup. destruct (sp_SecurityContext spec) as [[[fg|] u r]|]; cbn.
  - case_if; boolify; (split; [split; congruence|]); intros sc f [= <-]; cbn; [|done].
    by intros [= <-].
  - split; [done|]. by intros sc f [= <-].
  - done.
Qed.

(** What a pod's security context becomes: only its fsGroup may go, when it is
    the root group or the pod runs Postgres. *)
Definition fsgroup_cleared (spec : PodSpec) (sc sc' : PodSecurityContext) : Prop :=
  psc_RunAsUser sc' = psc_RunAsUser sc /\ psc_rest sc' = psc_rest sc /\
  psc_FSGroup sc' = match psc_FSGroup sc with
                    | Some fg => if (fg =? 0)%Z || postgresPod spec then None else Some fg
                    | None => None
                    end.

Lemma stripVolumeFSGroup_cleared spec :
  option_Forall2 (fsgroup_cleared spec) (sp_SecurityContext spec) (fst (stripVolumeFSGroup spec)).
Proof.
  unfold stripVolumeFSGroup. destruct (sp_SecurityContext spec) as [[[fg|] u r]|]; cbn; [|by repeat constructor..].
  destruct (fg =? 0)%Z eqn:Ez, (postgresPod spec) eqn:Ep; cbn; constructor; unfold fsgroup_cleared; cbn;
    rewrite ?Ez, ?Ep; done.
Qed.

Lemma strip_healed spec : healed spec -> stripVolumeFSGroup spec = (sp_SecurityContext spec, false).
Proof.
  intros Hh. unfold stripVolumeFSGroup. destruct (sp_SecurityContext spec) as [sc|] eqn:E; [|done].
  destruct (psc_FSGroup sc) as [fg|] eqn:Ef; [|done].
  destruct (healed_fsGroup _ Hh _ _ E Ef) as [H1 H2]. rewrite H2.
  by rewrite (proj2 (Z.eqb_neq fg 0) H1).
Qed.

Lemma filter_healed tols :
  Forall (fun t => clusterLocalTol (tol_Key t) = false) tols <->
  List.filter (fun t => negb (clusterLocalTol (tol_Key t))) tols = tols.
Proof.
  split.
  - intros H. apply List.forallb_filter_id, forallb_forall. intros t Ht%list_elem_of_In.
    rewrite Forall_forall in H. by rewrite (H t).
  - intros <-. apply Forall_forall. intros t Ht%list_elem_of_In.
    apply filter_In in Ht as [_ Ht]. by apply negb_true_iff.
Qed.

(** Nothing is left to do, and nothing is done. *)
Lemma healed_noop spec : healed spec -> heal_PodSpec spec = (spec, []).
Proof.
  intros Hh. unfold heal_PodSpec, filterPodTolerations. rewrite (strip_healed _ Hh).
  destruct Hh as [H1 H2 H3 H4 H5%filter_healed _].
  rewrite H5, H1, H3, H2, Nat.sub_diag. cbn. f_equal.
  destruct spec as [sel node aff topo tols sc inits cts vols]; cbn in *. subst. f_equal.
  by destruct aff as [[[] ?]|].
Qed.

Lemma local_dropped tols :
  (0 <? snd (filterPodTolerations tols)) = false <-> fst (filterPodTolerations tols) = tols.
Proof. unfold filterPodTolerations. cbn [fst snd]. rewrite Nat.ltb_ge, <- filter_length_all. lia. Qed.

Lemma heal_PodSpec_healed spec : healed (fst (heal_PodSpec spec)).
Proof.
  unfold heal_PodSpec. pose proof (stripVolumeFSGroup_spec spec) as Hs.
  destruct (stripVolumeFSGroup spec) as [sc' stripped]. destruct Hs as [_ Hs]. constructor; cbn.
  - case_if; done.
  - done.
  - by destruct (sp_Affinity spec).
  - done.
  - apply Forall_forall. intros t Ht%list_elem_of_In. apply filter_In in Ht as [_ Ht].
    by apply negb_true_iff.
  - intros sc fg E Ef. by destruct (Hs _ _ E Ef).
Qed.

Lemma heal_PodSpec_report spec :
  snd (heal_PodSpec spec) = [] <-> fst (heal_PodSpec spec) = clear_topology spec.
Proof.
  unfold heal_PodSpec. pose proof (stripVolumeFSGroup_spec spec) as Hs.
  destruct (stripVolumeFSGroup spec) as [sc' stripped]. destruct Hs as [Hs _].
  pose proof (local_dropped (sp_Tolerations spec)) as Ht. cbn [filterPodTolerations fst snd] in *.
  rewrite unique_nil, !app_nil, !report_nil, Hs, Ht. unfold clear_topology.
  destruct spec as [sel node aff topo tols sc inits cts vols]; cbn in *.
  rewrite negb_false_iff, String.eqb_eq. split.
  - intros (-> & -> & Ha & -> & ->). f_equal. by destruct aff as [[[] ?]|].
  - intros [= E1 E2 E3 E4 E5]. split_and!; [|done| |done|done].
    + destruct (non_empty sel) eqn:En; [|done]. by subst.
    + destruct aff as [[na ?]|]; [|done]. cbn in *. by simplify_eq.
Qed.
End heal.

(** ** Properties *)

(** C39: healing a pod template removes every pin to the source's nodes and
    every fsGroup that would rewrite restored files, and nothing else: the
    affinity keeps everything but its nodeAffinity, the security context
    everything but such an fsGroup, the tolerations all but the cluster-local
    ones in their order, and the init containers, containers and volumes are as
    they were; neither an affinity nor a security context appears or disappears.
    A second pass changes and reports nothing. The report is empty exactly when
    nothing changed except that topology spread constraints, which are never
    reported, were dropped. *)
Theorem heal_PodSpec_spec Catalog spec :
  let '(spec', names) := heal_PodSpec Catalog spec in
  healed Catalog spec' /\
  sp_NodeSelector spec' = (if non_empty (sp_NodeSelector spec) then None else sp_NodeSelector spec) /\
  option_Forall2 (fun a a' => a' = mkAffinity None (af_rest a)) (sp_Affinity spec) (sp_Affinity spec') /\
  option_Forall2 (fsgroup_cleared Catalog spec) (sp_SecurityContext spec) (sp_SecurityContext spec') /\
  sp_Tolerations spec' = List.filter (fun t => negb (clusterLocalTol (tol_Key t))) (sp_Tolerations spec) /\
  sp_InitContainers spec' = sp_InitContainers spec /\ sp_Containers spec' = sp_Containers spec /\
  sp_Volumes spec' = sp_Volumes spec /\
  (names = [] <-> spec' = clear_topology spec) /\
  heal_PodSpec Catalog spec' = (spec', []).
Proof.
  pose proof (heal_PodSpec_healed Catalog spec) as Hh. pose proof (heal_PodSpec_report Catalog spec) as Hr.
  pose proof (stripVolumeFSGroup_cleared Catalog spec) as Hs.
  assert (fst (heal_PodSpec Catalog spec) = fst (heal_PodSpec Catalog spec)) as He by done.
  unfold heal_PodSpec at 2 in He.
  destruct (heal_PodSpec Catalog spec) as [spec' names]. cbn [fst snd] in *.
  destruct (filterPodTolerations (sp_Tolerations spec)) as [tols dropped] eqn:Et.
  destruct (stripVolumeFSGroup Catalog spec) as [sc stripped]. cbn [fst] in He, Hs.
  injection Et as <- <-. split_and!; try done; try (by rewrite He); [..|by apply healed_noop].
  rewrite He. cbn. destruct (sp_Affinity spec); by constructor.
Qed.

(** a claim that is not Bound is healed by sanitizing it, which maps its
    class again: a second pass reports nothing more exactly when the class map
    is stable on its own results. A Bound claim keeps its spec and loses only
    the two pins, once. *)
Theorem heal_PVC_again opt p :
  let '(p', names) := heal_PVC opt p in
  let '(_, again) := heal_PVC opt p' in
  pvc_Phase p' = pvc_Phase p /\
  (pvc_Phase p = "Bound"%string ->
     p' = pvc_with_meta unpin_meta p /\ again = []) /\
  (pvc_Phase p <> "Bound"%string -> forall sc, pvc_StorageClassName p = Some sc -> sc <> EmptyString ->
     pvc_StorageClassName p' = Some (mapSC sc opt) /\
     (RemapStorageClass ∈ names <-> mapSC sc opt <> sc) /\
     (again = [] <-> mapSC sc opt = EmptyString \/ mapSC (mapSC sc opt) opt = mapSC sc opt)).
Proof.
  destruct (unpinned p) as [Hb Hu]. unfold heal_PVC at 1.
  destruct (String.eqb_spec (pvc_Phase p) "Bound") as [Hp|Hp].
  - unfold heal_PVC. cbn [pvc_with_meta pvc_Phase]. rewrite Hp, String.eqb_refl, Hb. by split_and!.
  - unfold heal_PVC. cbn [with_pvc_phase pvc_Phase]. rewrite (proj2 (String.eqb_neq _ _) Hp), Hu.
    split_and!; [done|done|]. intros _ sc Hsc Hne. cbn. rewrite Hsc. cbn.
    rewrite (proj2 (String.eqb_neq _ _) Hne), unique_nil, report_nil, elem_of_unique. split_and!; [done| |].
    + rewrite elem_of_app. unfold pvc_pins, report. cbn.
      destruct (String.eqb_spec (mapSC sc opt) sc); repeat case_if; cbn;
        rewrite ?elem_of_cons, ?elem_of_nil; split; intros; naive_solver.
    + rewrite andb_false_iff, !negb_false_iff, !String.eqb_eq. tauto.
Qed.
