(* ===== verification/Snapshots.v ===== *)
(** * CSI snapshots: src/pkg/snapshots (csi.go, rehydrate.go)

    Creating VolumeSnapshots of a workload's claims on the source, and creating
    a destination claim from one. [resource.MustParse] is library code: a
    parameter giving the parsed quantity, or nothing when it would panic. *)

From Stdlib Require Import ZArith Lia.
From S2P Require Import Prelude GoStrings Effects Api GoTime Json Kube Unstructured Classify.
From S2P Require Import Transform Heal.

(** ** csi.go *)

Definition snapshotGVR : GVR := mkGVR "snapshot.storage.k8s.io" "v1" "volumesnapshots".
Definition snapshotClassGVR : GVR := mkGVR "snapshot.storage.k8s.io" "v1" "volumesnapshotclasses".

Definition labelName : string := "portage.io/name".
Definition labelNamespace : string := "portage.io/namespace".
Definition labelKind : string := "portage.io/kind".
Definition labelPVC : string := "portage.io/pvc".

Definition snapshotName (w : Workload) (pvc : string) (t : time) : string :=
  let base := ToLower ("portage-" +:+ w_Name w +:+ "-" +:+ pvc +:+ "-" +:+ FormatMinute t) in
  if (63 <? str_len base)%Z then TrimRight (take_str 63 base) "-" else base.

Definition snapshot_labels (w : Workload) (pvc : string) : list (string * string) :=
  [(labelName, w_Name w); (labelNamespace, w_Namespace w); (labelKind, w_Kind w); (labelPVC, pvc)].

Definition strings_obj (l : list (string * string)) : json :=
  JObj (List.map (fun kv => (fst kv, JStr (snd kv))) l).

Section snapshots.
  Context {U : Unstructured}.

Definition snapshot_object (w : Workload) (pvc name snapshotClass : string) : obj :=
  let o : obj :=
    [("apiVersion", JStr "snapshot.storage.k8s.io/v1"); ("kind", JStr "VolumeSnapshot");
     ("metadata", JObj [("name", JStr name); ("namespace", JStr (w_Namespace w));
                        ("labels", strings_obj (snapshot_labels w pvc))]);
     ("spec", JObj [("source", JObj [("persistentVolumeClaimName", JStr pvc)])])]%string in
  if String.eqb snapshotClass EmptyString then o
  else SetNested o (Some (JStr snapshotClass)) ["spec"; "volumeSnapshotClassName"]%string.

Definition defaultClass (d : dyn) : io ev string :=
  let* l := trigger (dList d snapshotClassGVR EmptyString EmptyString) in
  Ret (match l with
       | Err _ => EmptyString
       | Ok items =>
           match List.find (fun it => String.eqb
                   (nmap_get EmptyString (GetAnnotations it) "snapshot.storage.kubernetes.io/is-default-class")
                   "true") items with
           | Some it => GetName it
           | None => EmptyString
           end
       end).

(** One claim: the count so far, or the early return. *)
Definition snapshot_pvc (d : dyn) (w : Workload) (snapshotClass : string) (t : time) (n : Z) (pvc : string)
    : io ev (Z + (Z * option err)) :=
  let name := snapshotName w pvc t in
  let* r := trigger (dCreate d snapshotGVR (w_Namespace w) (snapshot_object w pvc name snapshotClass)) in
  let e := err_of r in
  if IsAlreadyExists e then Ret (inl (wrap64 (n + 1)))
  else if IsNotFound e then Ret (inr (n, None))
  else match e with
       | Some e => Ret (inr (n, Some (wrapf ("create VolumeSnapshot " +:+ w_Namespace w +:+ "/" +:+ name +:+ ": ") e)))
       | None => Ret (inl (wrap64 (n + 1)))
       end.

Definition CreateForWorkload (c : option dyn) (w : Workload) (snapshotClass : string) (t : time)
    : io ev (Z * option err) :=
  match c, w_PVCNames w with
  | Some d, (_ :: _) as pvcs =>
      let* snapshotClass :=
        if String.eqb snapshotClass EmptyString then defaultClass d else Ret snapshotClass in
      let* r := loopM (snapshot_pvc d w snapshotClass t) 0%Z pvcs in
      Ret (match r with inl n => (n, None) | inr r => r end)
  | _, _ => Ret (0%Z, None)
  end.

(** LatestReady: ready, name, error. *)
Definition snapshot_selector (w : Workload) : string :=
  labelName +:+ "=" +:+ w_Name w +:+ "," +:+ labelKind +:+ "=" +:+ w_Kind w.

Definition LatestReady (c : option dyn) (w : Workload) : io ev (bool * string * option err) :=
  match c with
  | None => Ret (false, EmptyString, None)
  | Some d =>
      let* l := trigger (dList d snapshotGVR (w_Namespace w) (snapshot_selector w)) in
      Ret (match l with
           | Err e => if IsNotFound (Some e) then (false, EmptyString, None)
                      else (false, EmptyString, Some e)
           | Ok items =>
               match List.find (fun it => fst (NestedBool it ["status"; "readyToUse"]%string)) items with
               | Some it => (true, GetName it, None)
               | None => match items with
                         | it :: _ => (false, GetName it, None)
                         | [] => (false, EmptyString, None)
                         end
               end
           end)
  end.

(** ** rehydrate.go *)

Record RehydrateOptions := mkRehydrate {
  ro_StorageClass : string; ro_NeverOverwrite : bool; ro_Transform : Options; ro_DefaultSize : string }.

Definition restoreSize (c : option dyn) (ns name : string) : io ev string :=
  match c with
  | None => Ret EmptyString
  | Some d =>
      let* o := trigger (dGet d snapshotGVR ns name) in
      Ret (match o with
           | Err _ => EmptyString
           | Ok o => fst (NestedString o ["status"; "restoreSize"]%string)
           end)
  end.

Definition snapshot_source (snapName : string) : option TypedRef :=
  Some (mkRef (Some "snapshot.storage.k8s.io"%string) "VolumeSnapshot" snapName).

(** The claim created from a snapshot. *)
Definition rehydrated_claim (w : Workload) (pvcName snapName quantity : string) (opt : RehydrateOptions) : PVC :=
  let sc := if String.eqb (ro_StorageClass opt) EmptyString
            then DefaultStorageClass (ro_Transform opt) else ro_StorageClass opt in
  let created := mkPVC
    (new_meta pvcName (w_Namespace w) (Some (list_to_map (snapshot_labels w pvcName)))
       (Some {[BindPVCByName := snapName]}))
    ["ReadWriteOnce"%string] quantity
    (if String.eqb sc EmptyString then None else Some sc)
    EmptyString None (snapshot_source snapName) None EmptyString JNull in
  let p := sanitize_PVC (ro_Transform opt) created in
  mkPVC (pvc_Meta p) (pvc_AccessModes p) (pvc_Storage p) (pvc_StorageClassName p) (pvc_VolumeName p)
    (pvc_Selector p) (snapshot_source snapName) (pvc_DataSourceRef p) (pvc_Phase p) (pvc_StatusRest p).

Section rehydrate.
  Context (MustParse : string -> option string).

(** EnsurePVCFromSnapshot: done, healers, error. *)
Definition EnsurePVCFromSnapshot (c : option dyn) (kube : option kube) (w : Workload) (pvcName : string)
    (opt : RehydrateOptions) : io ev (bool * list string * option err) :=
  match kube with
  | None => Ret (false, [], Some (errorf "rehydrate: kube client and pvc name required"))
  | Some k =>
      if String.eqb pvcName EmptyString
      then Ret (false, [], Some (errorf "rehydrate: kube client and pvc name required"))
      else
        let* pvc := trigger (kGet k KPVC (w_Namespace w) pvcName) in
        match pvc with
        | Ok pvc =>
            if String.eqb (pvc_Phase pvc) "Bound" then Ret (true, [], None)
            else if String.eqb (pvc_Phase pvc) "Pending" then Ret (false, [], None)
            else
              let '(pvc', healed) := heal_PVC (ro_Transform opt) pvc in
              match healed with
              | [] => Ret (false, healed, None)
              | _ =>
                  let* e := trigger (kUpdate k KPVC (w_Namespace w) pvc') in
                  Ret (false, healed, e)
              end
        | Err e =>
            if negb (IsNotFound (Some e)) then Ret (false, [], Some e)
            else
              let* ' (ready, snapName, e) := LatestReady c w in
              match e with
              | Some e => Ret (false, [], Some e)
              | None =>
                  if negb ready || String.eqb snapName EmptyString
                  then Ret (false, [], Some (errorf ("no ReadyToUse VolumeSnapshot for " +:+ WKey w +:+
                                                     " pvc " +:+ pvcName)))
                  else
                    let size := if String.eqb (ro_DefaultSize opt) EmptyString then "10Gi"%string
                                else ro_DefaultSize opt in
                    let* restore := restoreSize c (w_Namespace w) snapName in
                    let size := if String.eqb restore EmptyString then size else restore in
                    match MustParse size with
                    | None => panics "cannot parse quantity"
                    | Some quantity =>
                        let* e := trigger (kCreate k KPVC (w_Namespace w)
                                    (rehydrated_claim w pvcName snapName quantity opt)) in
                        match e with
                        | Some e => if IsAlreadyExists (Some e) then Ret (false, [BindPVCByName], None)
                                    else Ret (false, [], Some e)
                        | None => Ret (false, [BindPVCByName], None)
                        end
                    end
              end
        end
  end.
End rehydrate.
End snapshots.

(** ** Lemmas *)

Definition snapshot_prefix (w : Workload) (pvc : string) : string :=
  "portage-" +:+ w_Name w +:+ "-" +:+ pvc.

Lemma snapshot_base w pvc t :
  ToLower ("portage-" +:+ w_Name w +:+ "-" +:+ pvc +:+ "-" +:+ FormatMinute t) =
  ToLower (snapshot_prefix w pvc) +:+ ToLower ("-" +:+ FormatMinute t).
Proof. unfold snapshot_prefix. by rewrite <- ToLower_app, <- !app_assoc_str. Qed.

(** The answer to the creation of one snapshot, as the loop reads it. *)
Definition created_ok {A} (r : res A) : bool :=
  match r with Ok _ => true | Err e => IsAlreadyExists (Some e) end.

(** [LatestReady] and [restoreSize] only read. *)
Lemma LatestReady_wp {U : Unstructured} c w log :
  wp any_env (LatestReady c w) log (fun log' '(ready, name, _) =>
    written log' = written log /\
    (ready = true -> exists d items it, c = Some d /\
       mkEvent (dList d snapshotGVR (w_Namespace w) (snapshot_selector w)) (Ok items) ∈ log' /\
       it ∈ items /\ fst (NestedBool it ["status"; "readyToUse"]%string) = true /\ GetName it = name)).
Proof.
  unfold LatestReady. destruct c as [d|]; [|done]. wp_res; cbn [wp].
  - destruct (List.find _ a) as [it|] eqn:E.
    + rewrite written_app, app_nil_r. split; [done|]. intros _. apply find_Some_elem in E as [Hin Hr].
      exists d, a, it. split_and!; [done| |done..]. apply elem_of_app. right. by left.
    + destruct a; cbn [wp]; by rewrite written_app, app_nil_r.
  - case_if; by rewrite written_app, app_nil_r.
Qed.

Lemma restoreSize_wp {U : Unstructured} c ns name log :
  wp any_env (restoreSize c ns name) log (fun log' _ => written log' = written log).
Proof.
  unfold restoreSize. destruct c as [d|]; [|done]. wp_call r. cbn [wp]. by rewrite written_app, app_nil_r.
Qed.

(** ** Properties *)

(** a snapshot name fits a DNS label; when the workload and claim names
    leave no room, the stamp is what is cut, so later snapshots of the claim
    get the same name and count as already present. *)
Theorem snapshotName_fits w pvc t :
  (String.length (snapshotName w pvc t) <= 63)%nat /\
  ((63 <= String.length (ToLower (snapshot_prefix w pvc)))%nat ->
     forall t', snapshotName w pvc t' = snapshotName w pvc t).
Proof.
  unfold snapshotName. split.
  - case_if; boolify; unfold str_len in *; [|lia].
    eapply Nat.le_trans; [apply length_TrimRightFunc|]. rewrite length_take_str. lia.
  - intros Hp t'. rewrite !snapshot_base. set (p := ToLower (snapshot_prefix w pvc)) in *.
    assert (forall t, (63 <? str_len (p +:+ ToLower ("-" +:+ FormatMinute t)))%Z = true) as Hl.
    { intros t0. apply Z.ltb_lt. unfold str_len. rewrite length_app_str.
      assert (0 < String.length (ToLower ("-" +:+ FormatMinute t0)))%nat by (rewrite ToLower_app, length_app_str; apply Nat.lt_0_succ). lia. }
    rewrite !Hl. f_equal. by apply take_str_app_ge.
Qed.

(** The creation of the snapshot of a claim, as it appears in a log. *)
Definition snapshotted {U : Unstructured} (d : dyn) (w : Workload) (t : time) (log : list (event ev)) (pvc : string) : Prop :=
  exists cls r, mkEvent (dCreate d snapshotGVR (w_Namespace w)
                   (snapshot_object w pvc (snapshotName w pvc t) cls)) r ∈ log /\ created_ok r = true.

(** [CreateForWorkload] without error either asked for a snapshot of every
    claim and each was created or already there, counting them, or stopped at
    a NotFound answer (the snapshot CRD is missing); it never reports more
    snapshots than claims. *)
Theorem CreateForWorkload_counts {U : Unstructured} d w cls t :
  (Z.of_nat (length (w_PVCNames w)) < 2 ^ 63)%Z ->
  always (CreateForWorkload (Some d) w cls t) (fun log '(n, e) =>
    (0 <= n <= Z.of_nat (length (w_PVCNames w)))%Z /\
    (e = None ->
       (n = Z.of_nat (length (w_PVCNames w)) /\ forall pvc, pvc ∈ w_PVCNames w -> snapshotted d w t log pvc) \/
       exists o er, mkEvent (dCreate d snapshotGVR (w_Namespace w) o) (Err er) ∈ log /\
         err_reason er = NotFound)).
Proof.
  intros Hlen. unfold CreateForWorkload, always. destruct (w_PVCNames w) as [|pvc0 pvcs] eqn:Ep.
  { cbn. split; [done|]. intros _. left. split; [done|]. intros pvc Hpvc. by apply elem_of_nil in Hpvc. }
  rewrite <- Ep in *. clear Ep pvc0 pvcs. apply wp_bind. eapply wp_mono with (P := fun _ _ => True).
  { unfold defaultClass. case_if; [by wp_call r|done]. }
  intros log cls' _. apply wp_bind. eapply wp_mono.
  - apply (wp_loopM any_env (snapshot_pvc d w cls' t)
      (fun pre log n => n = Z.of_nat (length pre) /\ forall pvc, pvc ∈ pre -> snapshotted d w t log pvc)
      (fun log '(n, e) => (0 <= n <= Z.of_nat (length (w_PVCNames w)))%Z /\ (e = None ->
         exists o er, mkEvent (dCreate d snapshotGVR (w_Namespace w) o) (Err er) ∈ log /\
           err_reason er = NotFound)) _ []).
    { split; [done|]. intros pvc Hpvc. by apply elem_of_nil in Hpvc. }
    intros pre pvc post log' n Hsplit [-> Hpre]. cbn [app] in Hsplit. unfold snapshot_pvc.
    assert (length (w_PVCNames w) = length pre + S (length post)) as Hl
      by (rewrite Hsplit, length_app; done).
    wp_call r. set (log1 := log' ++ _).
    assert (created_ok r = true -> wrap64 (Z.of_nat (length pre) + 1) = Z.of_nat (length (pre ++ [pvc])) /\
      forall p, p ∈ pre ++ [pvc] -> snapshotted d w t log1 p) as Hok.
    { intros Hr. split.
      - rewrite length_app. cbn. unfold wrap64. rewrite wrap_small; lia.
      - intros p [Hp|Hp]%elem_of_app.
        + destruct (Hpre p Hp) as (c & r' & Hin & Hr'). exists c, r'.
          split; [apply elem_of_app; by left|done].
        + apply list_elem_of_singleton in Hp as ->. exists cls', r.
          split; [apply elem_of_app; right; by left|done]. }
    destruct r as [o|er]; [by apply Hok|]. cbn [err_of]. case_if; [by apply Hok|]. case_if.
    + cbn [wp]. split; [lia|]. intros _. exists (snapshot_object w pvc (snapshotName w pvc t) cls'), er.
      split; [apply elem_of_app; right; by left|]. cbn in *. by boolify.
    + cbn [wp]. split; [lia|done].
  - intros log' [n|[n e]]; cbn [app wp].
    + intros [-> H]. split; [lia|]. intros _. by left.
    + intros [H1 H2]. split; [done|]. intros E. right. auto.
Qed.

Lemma CreateForWorkload_counts_witness :
  let w := mkWorkload "shop" "pg" "StatefulSet" "apps/v1" ClassSQLLogical "postgres" [] ["data"] false None None in
  always (CreateForWorkload (U := plain) (Some (Dyn 0)) w "" 0%Z) (fun log '(n, e) => (0 <= n <= 1)%Z)%string.
Proof.
  intros w. eapply wp_mono; [apply (CreateForWorkload_counts (U := plain) (Dyn 0) w "" 0%Z); cbn; lia|].
  intros log [n e] [H _]. exact H.
Defined.

(** C40: rehydrating a claim never overwrites: a Bound or Pending claim is left
    alone, another one is only healed, and only a claim the API server says is
    missing is created, from a snapshot of the namespace that was listed as
    ready to use. It is done only when the claim was read as Bound. *)
Theorem EnsurePVC_safe {U : Unstructured} MustParse c k w pvcName opt :
  always (EnsurePVCFromSnapshot MustParse c (Some k) w pvcName opt) (fun log '(done, _, e) =>
    (done = true -> exists p, mkEvent (kGet k KPVC (w_Namespace w) pvcName) (Ok p) ∈ log /\
                             pvc_Phase p = "Bound"%string) /\
    (done = true -> e = None /\ written log = []) /\
    (forall ev, ev ∈ written log ->
      (exists p r, ev = mkEvent (kUpdate k KPVC (w_Namespace w) (fst (heal_PVC (ro_Transform opt) p))) r /\
         mkEvent (kGet k KPVC (w_Namespace w) pvcName) (Ok p) ∈ log /\
         pvc_Phase p <> "Bound"%string /\ pvc_Phase p <> "Pending"%string) \/
      (exists d snap quantity er items it r,
         ev = mkEvent (kCreate k KPVC (w_Namespace w) (rehydrated_claim w pvcName snap quantity opt)) r /\
         c = Some d /\ mkEvent (kGet k KPVC (w_Namespace w) pvcName) (Err er) ∈ log /\
         err_reason er = NotFound /\
         mkEvent (dList d snapshotGVR (w_Namespace w) (snapshot_selector w)) (Ok items) ∈ log /\
         it ∈ items /\ fst (NestedBool it ["status"; "readyToUse"]%string) = true /\
         GetName it = snap))).
Proof.
  unfold EnsurePVCFromSnapshot, always. case_if; [cbn [wp]; split_and!; [done..|by apply unwritten]|].
  wp_res.
  - destruct (String.eqb_spec (pvc_Phase a) "Bound") as [Hb|Hb].
    { cbn [wp]. split_and!; [|done|by apply unwritten]. intros _. exists a. split; [elem|done]. }
    destruct (String.eqb_spec (pvc_Phase a) "Pending") as [Hn|Hn].
    { cbn [wp]. split_and!; [done..|by apply unwritten]. }
    destruct (heal_PVC (ro_Transform opt) a) as [a' healed] eqn:Eh. destruct healed as [|h healed].
    { cbn [wp]. split_and!; [done..|by apply unwritten]. }
    wp_call r. cbn [wp]. split_and!; [done..|]. cbn. intros ev ->%list_elem_of_singleton. left.
    exists a, r. rewrite Eh. split_and!; [done|elem|done|done].
  - case_if; [cbn [wp]; split_and!; [done..|by apply unwritten]|]. boolify. set (log0 := [] ++ _).
    apply wp_bind. eapply wp_mono_ext; [apply LatestReady_wp|]. intros ext [[ready snap] e'] [Hw Hr].
    assert (written (log0 ++ ext) = []) as Hw0 by done.
    destruct e' as [e'|]; [cbn [wp]; split_and!; [done..|by apply unwritten]|].
    destruct ready; cbn [negb orb]; [|cbn [wp]; split_and!; [done..|by apply unwritten]].
    case_if; [cbn [wp]; split_and!; [done..|by apply unwritten]|].
    destruct (Hr eq_refl) as (d & items & it & -> & Hl & Hit & Hready & Hname).
    apply wp_bind. eapply wp_mono_ext; [apply restoreSize_wp|]. intros ext' size Hw'. cbv beta zeta.
    destruct (MustParse _) as [q|]; [|by intros []].
    set (log1 := (log0 ++ ext) ++ ext') in *. wp_call r. set (create := mkEvent _ r).
    assert (forall ev, ev ∈ written (log1 ++ [create]) -> ev = create) as Hev.
    { intros ev. rewrite written_app, Hw', Hw0. apply list_elem_of_singleton. }
    assert (log0 ++ ext ⊆ log1 ++ [create]) as Hsub by (intros x Hx; apply elem_of_app; left; apply elem_of_app; by left).
    assert (has_reason NotFound (Some e) = true) as Hnf by done. cbn in Hnf. boolify.
    destruct r as [er|]; [case_if|]; cbn [wp]; (split_and!; [done..|]); intros ev ->%Hev; right;
      exists d, snap, q, e, items, it; eexists; (split; [reflexivity|]);
      (split_and!; [done| |done|by apply Hsub|done..]); apply Hsub, elem_of_app; left; by left.
Qed.

(** A server where the claim [wal] of a StatefulSet is missing and the one
    ready snapshot of the workload is of its claim [data]. *)
Definition data_snapshot_only (X : Type) (e : ev X) : option X :=
  match e in ev X return option X with
  | kGet _ _ _ _ => Some (Err (mkErr NotFound "not found"))
  | dList _ _ _ _ => Some (Ok
      [[("metadata", JObj [("name", JStr "snap-of-data");
                           ("labels", JObj [(labelPVC, JStr "data")])]);
        ("status", JObj [("readyToUse", JBool true)])]]%string)
  | dGet _ _ _ _ => Some (Err (mkErr NotFound "not found"))
  | kCreate _ _ _ _ => Some None
  | _ => None
  end.

Definition two_claims : Workload :=
  mkWorkload "shop" "pg" "StatefulSet" "apps/v1" ClassSQLLogical "postgres" [] ["data"; "wal"]
    false None None.

(** [LatestReady] asks for the snapshots of the workload, not of the claim:
    a run in which the missing claim [wal] is created from the snapshot of
    [data]. *)
Theorem rehydrates_wrong_claim :
  exists log k,
    run data_snapshot_only (EnsurePVCFromSnapshot (U := plain) Some (Some (Dyn 0)) (Some (Kube 0))
      two_claims "wal" (mkRehydrate "" true (mkOptions None "" None) "")) []
    = Some (log, (false, [BindPVCByName], None)) /\
    written log = [mkEvent (kCreate k KPVC "shop"%string
      (rehydrated_claim two_claims "wal" "snap-of-data" "10Gi"
         (mkRehydrate "" true (mkOptions None "" None) ""))) None].
Proof. eexists _, (Kube 0). split; [vm_compute; reflexivity|vm_compute; reflexivity]. Qed.
