(* ===== verification/Graph.v ===== *)
(** * The object graph: src/pkg/clusterobjects (graph.go, exclude.go, snapshot.go)

    Which API resources and objects of the source belong to the graph, and
    their portable form. [schema.ParseGroupVersion] and the printed form of a
    resource are library code: parameters. An item's object is never nil: List
    and Unmarshal always set it. *)

From Stdlib Require Import ZArith Lia Ascii.
From S2P Require Import Prelude GoStrings Effects Api Json EncodingJson Kube Unstructured Classify Transform.

Record Item := mkItem {
  it_GVR : GVR; it_Namespaced : bool; it_Obj : obj; it_Deleting : bool }.
Record Ref := mkRef_ { rf_GVR : GVR; rf_Namespaced : bool }.

Definition skipResource : list string :=
  ["pods"; "replicasets"; "replicationcontrollers"; "endpoints"; "endpointslices"; "events";
   "bindings"; "componentstatuses"; "limitranges"; "tokenreviews"; "subjectaccessreviews";
   "selfsubjectaccessreviews"; "selfsubjectrulesreviews"; "localsubjectaccessreviews"; "leases";
   "nodes"; "persistentvolumes"; "persistentvolumeclaims"; "volumeattachments"; "csidrivers";
   "csinodes"; "csistoragecapacities"; "certificatesigningrequests"; "apiservices"; "flowschemas";
   "prioritylevelconfigurations"; "runtimeclasses"; "controllerrevisions"; "evictions";
   "podtemplates"; "statefulsets"; "deployments"; "daemonsets"; "storageclasses";
   "volumeattributesclasses"; "jobs"; "volumesnapshots"; "volumesnapshotcontents";
   "volumesnapshotclasses"; "servicecidrs"; "ipaddresses"; "capsuleconfigurations";
   "replicationsources"; "replicationdestinations"]%string.
Definition skipGroup : list string :=
  ["events.k8s.io"; "metrics.k8s.io"; "discovery.k8s.io"; "coordination.k8s.io"; "node.k8s.io";
   "authentication.k8s.io"; "authorization.k8s.io"; "portage.io"; "apiregistration.k8s.io";
   "flowcontrol.apiserver.k8s.io"; "admissionregistration.k8s.io"; "volsync.backube"; "k8up.io";
   "k8up.synextreme.com"; "backup.appuio.io"; "velero.io"; "stash.appscode.com"]%string.
Definition skipClusterRole : list string := ["cluster-admin"; "admin"; "edit"; "view"]%string.
Definition skipNS : list string := ["kube-system"; "kube-public"; "kube-node-lease"]%string.

Definition capsuleGroup : string := "capsule.clastix.io".

Definition Synthetic (ns : string) : Workload :=
  mkWorkload (if String.eqb ns EmptyString then "default" else ns) "cluster-objects" "ObjectGraph"
    "portage.io/v1alpha1" ClassClusterObjects EmptyString [] [] false None None.

Definition Is (w : Workload) : bool :=
  bool_decide (w_Class w = ClassClusterObjects) || String.eqb (w_Kind w) "ObjectGraph".

Definition includeClusterScoped (spec : ClusterObjectsSpec) : bool :=
  default true (co_IncludeClusterScoped spec).

(** ** exclude.go *)

Record excludePat := mkPat {
  ex_group : string; ex_version : string; ex_kind : string; ex_resource : string; ex_crdName : string }.

Definition parseExclude (s : string) : excludePat :=
  let s := TrimSpace s in
  match Split "/" s with
  | [g; v; k] => mkPat g v k "" ""
  | [g; k] => mkPat g "" k "" ""
  | _ => if Contains s "." then
           let '(res, group, _) := Cut "." s in mkPat group "" "" res s
         else mkPat "" "" "" s ""
  end.

Definition nonempty (s : string) : bool := negb (String.eqb s EmptyString).

Definition kindMatchesResource (kind resource : string) : bool :=
  if negb (nonempty kind) || negb (nonempty resource) then false
  else
    let k := ToLower kind in
    let r := ToLower resource in
    if String.eqb k r || String.eqb (k +:+ "s") r || String.eqb (k +:+ "es") r then true
    else if HasSuffix k "y" && String.eqb (take_str (String.length k - 1) k +:+ "ies") r then true
    else if HasSuffix k "ss" && String.eqb (k +:+ "es") r then true
    else HasSuffix k "class" && String.eqb (TrimSuffix k "class" +:+ "classes") r.

Definition matchGVR (p : excludePat) (ref : GVR) (kind : string) : bool :=
  let group := gvr_Group ref in
  let resource := gvr_Resource ref in
  if nonempty (ex_crdName p) && nonempty group &&
     (EqualFold (resource +:+ "." +:+ group) (ex_crdName p) ||
      EqualFold resource (ex_resource p) && EqualFold group (ex_group p)) then true
  else if nonempty (ex_resource p) && negb (nonempty (ex_group p)) &&
          EqualFold resource (ex_resource p) then true
  else if nonempty (ex_resource p) && nonempty (ex_group p) && negb (nonempty (ex_kind p)) &&
          negb (nonempty (ex_crdName p)) &&
          EqualFold resource (ex_resource p) && EqualFold group (ex_group p) then true
  else if negb (nonempty (ex_group p)) || negb (nonempty (ex_kind p)) then false
  else if negb (EqualFold group (ex_group p)) then false
  else if nonempty (ex_version p) && negb (EqualFold (gvr_Version ref) (ex_version p)) then false
  else if nonempty kind && EqualFold kind (ex_kind p) then true
  else kindMatchesResource (ex_kind p) resource.

Definition excludedGVR (ref : GVR) (kind : string) (exclude : list string) : bool :=
  existsb (fun raw => matchGVR (parseExclude raw) ref kind) exclude.

Section graph.
  Context {U : Unstructured}.

Definition matchCRD (p : excludePat) (o : obj) : bool :=
  let name := GetName o in
  if nonempty (ex_crdName p) && EqualFold name (ex_crdName p) then true
  else if nonempty (ex_resource p) && nonempty (ex_group p) &&
          EqualFold name (ex_resource p +:+ "." +:+ ex_group p) then true
  else
    let g := fst (NestedString o ["spec"; "group"]%string) in
    let k := fst (NestedString o ["spec"; "names"; "kind"]%string) in
    let plural := fst (NestedString o ["spec"; "names"; "plural"]%string) in
    if nonempty (ex_kind p) && nonempty (ex_group p) &&
       (EqualFold g (ex_group p) && EqualFold k (ex_kind p) ||
        EqualFold g (ex_group p) && kindMatchesResource (ex_kind p) plural ||
        let i := IndexByte name "." in
        (0 <? i)%Z && EqualFold (drop_str (Z.to_nat (i + 1)) name) (ex_group p) &&
        kindMatchesResource (ex_kind p) (take_str (Z.to_nat i) name)) then true
    else if nonempty (ex_resource p) && negb (nonempty (ex_group p)) &&
            EqualFold plural (ex_resource p) then true
    else nonempty (ex_crdName p) && nonempty g && nonempty plural &&
         EqualFold (plural +:+ "." +:+ g) (ex_crdName p).

Definition excludedObj (gvr : GVR) (o : obj) (exclude : list string) : bool :=
  existsb (fun raw =>
    let p := parseExclude raw in
    matchGVR p gvr (GetKind o) ||
    String.eqb (gvr_Resource gvr) "customresourcedefinitions" && matchCRD p o) exclude.

(** ** graph.go: objects *)

Definition skipListErr (e : option err) : bool :=
  IsForbidden e || IsNotFound e || IsMethodNotSupported e.

Definition forbiddenCapsuleTenant (gvr : GVR) (e : option err) : bool :=
  String.eqb (gvr_Group gvr) capsuleGroup && String.eqb (gvr_Resource gvr) "tenants" && IsForbidden e.

Definition skipObj (gvr : GVR) (o : obj) (exclude : list string) : bool :=
  let res := gvr_Resource gvr in
  let n := GetName o in
  excludedObj gvr o exclude ||
  String.eqb n "kube-root-ca.crt" ||
  (String.eqb res "secrets" &&
   String.eqb (fst (NestedString o ["type"%string])) "kubernetes.io/service-account-token") ||
  (String.eqb res "services" && String.eqb n "kubernetes" && String.eqb (GetNamespace o) "default") ||
  (String.eqb res "customresourcedefinitions" && HasSuffix n ".portage.io") ||
  ((String.eqb res "clusterroles" || String.eqb res "clusterrolebindings") &&
   (HasPrefix n "system:" || HasPrefix n "kubeadm:" || bool_decide (n ∈ skipClusterRole))).

Definition isDeleting (o : obj) : bool :=
  match GetDeletionTimestamp o with Some _ => true | None => false end.

(** ** graph.go: discovery and listing *)

Context (ParseGroupVersion : string -> res (string * string)) (gvr_String : GVR -> string).

(** One API resource of a group and version: the references so far, newest
    last, and the group/name pairs seen. *)
Definition discover_one (spec : ClusterObjectsSpec) (group version : string)
    (st : list Ref * gset string) (r : APIResource) : list Ref * gset string :=
  let '(out, seen) := st in
  let key := group +:+ "/" +:+ ar_Name r in
  let verbs := Join "," (ar_Verbs r) in
  let ref := mkRef_ (mkGVR group version (ar_Name r)) (ar_Namespaced r) in
  if Contains (ar_Name r) "/" then st
  else if bool_decide (ar_Name r ∈ skipResource) then st
  else if bool_decide (key ∈ seen) then st
  else if negb (ar_Namespaced r) && negb (String.eqb (ar_Name r) "customresourcedefinitions") &&
          negb (includeClusterScoped spec) then st
  else if negb (Contains verbs "list") || negb (Contains verbs "create") then st
  else if excludedGVR (rf_GVR ref) (ar_Kind r) (co_ExcludeGVKs spec) then st
  else (out ++ [ref], {[key]} ∪ seen).

Definition discover_list (spec : ClusterObjectsSpec) (st : list Ref * gset string)
    (l : APIResourceList) : list Ref * gset string :=
  match ParseGroupVersion (arl_GroupVersion l) with
  | Err _ => st
  | Ok (group, version) =>
      if bool_decide (group ∈ skipGroup) then st
      else fold_left (discover_one spec group version) (arl_APIResources l) st
  end.

Definition discover (c : kube) (spec : ClusterObjectsSpec) : io ev (res (list Ref)) :=
  let* ' (lists, e) := trigger (discoPreferred c) in
  let* ' (lists, e) := match lists with [] => trigger (discoAll c) | _ => Ret (lists, e) end in
  match e, lists with
  | Some e, [] => Ret (Err e)
  | _, _ => Ret (Ok (fst (fold_left (discover_list spec) lists ([], ∅))))
  end.

(** Discovery runs beside the context and is abandoned when it ends. *)
Definition Discover (c : kube) (spec : ClusterObjectsSpec) : io ev (res (list Ref)) :=
  let* e := trigger ctxErr in
  match e with
  | Some e => Ret (Err (wrapf "clusterobjects: discovery: " e))
  | None => discover c spec
  end.

Definition skipped_ns (spec : ClusterObjectsSpec) (ns : string) : bool :=
  bool_decide (ns ∈ skipNS ++ co_ExcludeNamespaces spec).

(** The listed objects of a resource that belong to the graph. *)
Definition keep_items (gvr : GVR) (namespaced : bool) (spec : ClusterObjectsSpec) (namespaces : list string)
    (objs : list obj) : list Item :=
  List.map (fun o => mkItem gvr namespaced o (isDeleting o))
    (List.filter (fun o =>
       negb (negb namespaced && String.eqb (gvr_Resource gvr) "namespaces" &&
             (skipped_ns spec (GetName o) || negb (bool_decide (GetName o ∈ namespaces)))) &&
       negb (skipObj gvr o (co_ExcludeGVKs spec))) objs).

Definition list_ns (d : dyn) (gvr : GVR) (namespaces : list string) (spec : ClusterObjectsSpec)
    (out : list Item) (ns : string) : io ev (list Item + err) :=
  if skipped_ns spec ns then Ret (inl out)
  else
    let* l := trigger (dList d gvr ns EmptyString) in
    match l with
    | Err e => if skipListErr (Some e) then Ret (inl out)
               else Ret (inr (wrapf ("list " +:+ ns +:+ " " +:+ gvr_String gvr +:+ ": ") e))
    | Ok objs => Ret (inl (out ++ keep_items gvr true spec namespaces objs))
    end.

Definition list_ref (d : dyn) (namespaces : list string) (spec : ClusterObjectsSpec)
    (out : list Item) (ref : Ref) : io ev (list Item + err) :=
  let gvr := rf_GVR ref in
  if negb (rf_Namespaced ref) then
    let* l := trigger (dList d gvr EmptyString EmptyString) in
    match l with
    | Err e =>
        if skipListErr (Some e) then
          if forbiddenCapsuleTenant gvr (Some e)
          then Ret (inr (wrapf ("list " +:+ gvr_String gvr +:+ ": ") e))
          else Ret (inl out)
        else Ret (inr (wrapf ("list " +:+ gvr_String gvr +:+ ": ") e))
    | Ok objs => Ret (inl (out ++ keep_items gvr false spec namespaces objs))
    end
  else loopM (list_ns d gvr namespaces spec) out namespaces.

Definition ListItems (d : option dyn) (gvrs : list Ref) (namespaces : list string) (spec : ClusterObjectsSpec)
    : io ev (res (list Item)) :=
  match d with
  | None => Ret (Err (errorf "clusterobjects: dynamic client required"))
  | Some d =>
      let* r := loopM (list_ref d namespaces spec) [] gvrs in
      Ret (match r with inl out => Ok out | inr e => Err e end)
  end.

Definition Sanitize (Catalog : list Engine) (items : list Item) (opt : Options) : list Item :=
  List.map (fun it => mkItem (it_GVR it) (it_Namespaced it) (Object Catalog (it_Obj it) opt) (it_Deleting it)) items.

Definition Capture (Catalog : list Engine) (c : kube) (d : option dyn) (spec : ClusterObjectsSpec)
    (namespaces : list string) (opt : Options) : io ev (res (list Item)) :=
  let* gvrs := Discover c spec in
  match gvrs with
  | Err e => Ret (Err e)
  | Ok gvrs =>
      let* items := ListItems d gvrs namespaces spec in
      Ret (match items with Err e => Err e | Ok items => Ok (Sanitize Catalog items opt) end)
  end.

End graph.

(** ** snapshot.go: the wire form, in bytes *)

Record wireItem := mkWire {
  Group : string; Version : string; Resource : string; Namespaced : bool; Object_ : obj }.
Definition zero_wire : wireItem := mkWire "" "" "" false [].

(** The struct is encoded field by field, by the names of its tags. *)
Definition wire_of (it : Item) : wireItem :=
  mkWire (gvr_Group (it_GVR it)) (gvr_Version (it_GVR it)) (gvr_Resource (it_GVR it)) (it_Namespaced it) (it_Obj it).
Definition wire (w : wireItem) : syntax :=
  SObj [("group", SStr (Group w)); ("version", SStr (Version w)); ("resource", SStr (Resource w));
        ("namespaced", SBool (Namespaced w)); ("object", encode (JObj (Object_ w)))]%string.

(** A float64 that is no number has no literal. *)
Definition Marshal (items : list Item) : res string :=
  if forallb (fun it => encodable (JObj (it_Obj it))) items
  then Ok (print (SArr (List.map (fun it => wire (wire_of it)) items)))
  else Err (errorf "json: unsupported value").

(** Field names are matched without case; the long s (U+017F) folds to s. *)
Fixpoint fold_name (s : string) : string :=
  match s with
  | String a s1 =>
      match s1 with
      | String b s2 => if (code a =? 197)%N && (code b =? 191)%N then String "s" (fold_name s2)
                       else String (ascii_lower a) (fold_name s1)
      | EmptyString => String (ascii_lower a) EmptyString
      end
  | EmptyString => EmptyString
  end.

(** A member of the object read into the struct: null leaves a field, a value
    of another type is an error, an unknown member is skipped, and a repeated
    [object] is read into the map that is there. *)
Definition set_field (w : wireItem) (member : string * syntax) : option wireItem :=
  let '(k, v) := member in
  let 'mkWire g ver r ns o := w in
  let k := fold_name k in
  let str (set : string -> wireItem) :=
    match v with SNull => Some w | SStr s => Some (set s) | _ => None end in
  if String.eqb k "group" then str (fun g => mkWire g ver r ns o)
  else if String.eqb k "version" then str (fun ver => mkWire g ver r ns o)
  else if String.eqb k "resource" then str (fun r => mkWire g ver r ns o)
  else if String.eqb k "namespaced" then
    match v with SNull => Some w | SBool b => Some (mkWire g ver r b o) | _ => None end
  else if String.eqb k "object" then
    match v with
    | SNull => Some (mkWire g ver r ns [])
    | SObj _ => match decode v with Some (JObj m) => Some (mkWire g ver r ns (go_map (o ++ m))) | _ => None end
    | _ => None
    end
  else Some w.

Definition unwire (v : syntax) : option wireItem :=
  match v with
  | SNull => Some zero_wire
  | SObj m => fold_left (fun w member => w ← w; set_field w member) m (Some zero_wire)
  | _ => None
  end.

Section decoding.
  Context {U : Unstructured}.

Definition item_of (w : wireItem) : Item :=
  let ns := Namespaced w || (nonempty (GetNamespace (Object_ w)) && negb (String.eqb (Resource w) "namespaces")) in
  mkItem (mkGVR (Group w) (Version w) (Resource w)) ns (Object_ w) false.

(** The text of the decoder's error is a parameter. *)
Definition Unmarshal (complaint : string -> string) (raw : string) : res (list Item) :=
  let wires := v ← parse raw;
    match v with SNull => Some [] | SArr l => mapM unwire l | _ => None end in
  match wires with
  | None => Err (errorf (complaint raw))
  | Some wires => Ok (List.map item_of wires)
  end.
End decoding.

(** ** Lemmas *)

Section listing.
  Context {U : Unstructured} (gvr_String : GVR -> string).
  Context (d : dyn) (nss : list string) (spec : ClusterObjectsSpec).

(** One listing was answered and all of it that belongs to the graph is in
    [items], or the resource cannot be listed there. *)
Definition listed_at (log : list (event ev)) (items : list Item) (gvr : GVR) (namespaced : bool)
    (ns : string) : Prop :=
  (exists objs, mkEvent (dList d gvr ns EmptyString) (Ok objs) ∈ log /\
     keep_items gvr namespaced spec nss objs ⊆ items) \/
  (exists e, mkEvent (dList d gvr ns EmptyString) (Err e) ∈ log /\ skipListErr (Some e) = true /\
     (namespaced = false -> forbiddenCapsuleTenant gvr (Some e) = false)).

Definition ref_listed (log : list (event ev)) (items : list Item) (ref : Ref) : Prop :=
  if rf_Namespaced ref
  then forall ns, ns ∈ nss -> skipped_ns spec ns = false -> listed_at log items (rf_GVR ref) true ns
  else listed_at log items (rf_GVR ref) false EmptyString.

(** An item comes from a listing of its resource. *)
Definition from_listed (log : list (event ev)) (it : Item) : Prop :=
  exists ns objs, mkEvent (dList d (it_GVR it) ns EmptyString) (Ok objs) ∈ log /\
    it ∈ keep_items (it_GVR it) (it_Namespaced it) spec nss objs /\
    (it_Namespaced it = true -> ns ∈ nss /\ skipped_ns spec ns = false).

Lemma listed_at_mono log ext items more gvr b ns :
  listed_at log items gvr b ns -> listed_at (log ++ ext) (items ++ more) gvr b ns.
Proof.
  intros [(objs & Hin & Hsub)|(e & Hin & He)]; [left; exists objs|right; exists e];
    (split; [apply elem_of_app; by left|]); [|done].
  intros it Hit. apply elem_of_app. auto.
Qed.

Lemma ref_listed_mono log ext items more ref :
  ref_listed log items ref -> ref_listed (log ++ ext) (items ++ more) ref.
Proof.
  unfold ref_listed. destruct (rf_Namespaced ref); [|apply listed_at_mono].
  intros H ns Hns Hs. by apply listed_at_mono, H.
Qed.

Lemma from_listed_mono log ext it : from_listed log it -> from_listed (log ++ ext) it.
Proof.
  intros (ns & objs & Hin & H). exists ns, objs. split; [apply elem_of_app; by left|done].
Qed.

Lemma keep_items_gvr gvr b objs it : it ∈ keep_items gvr b spec nss objs ->
  it_GVR it = gvr /\ it_Namespaced it = b.
Proof. unfold keep_items. intros (o & <- & _)%list_elem_of_In%in_map_iff. done. Qed.

(** The loop invariant: the log and the items cover what was asked so far. *)
Definition listing_inv (done : list Ref) (log : list (event ev)) (items : list Item) : Prop :=
  Forall (ref_listed log items) done /\ Forall (from_listed log) items.

Lemma from_listed_keep log gvr b ns objs :
  (b = true -> ns ∈ nss /\ skipped_ns spec ns = false) ->
  Forall (from_listed (log ++ [mkEvent (dList d gvr ns EmptyString) (Ok objs)]))
    (keep_items gvr b spec nss objs).
Proof.
  intros Hb. apply Forall_forall. intros it Hit. destruct (keep_items_gvr _ _ _ _ Hit) as [Hg Hn].
  exists ns, objs. rewrite Hg, Hn. split_and!; [apply elem_of_app; right; by left|done|done].
Qed.

Lemma list_ns_wp gvr out ns log :
  ns ∈ nss -> Forall (from_listed log) out ->
  wp any_env (list_ns gvr_String d gvr nss spec out ns) log (fun log' r =>
    match r with
    | inl out' => (exists ext more, log' = log ++ ext /\ out' = out ++ more) /\
                  Forall (from_listed log') out' /\
                  (skipped_ns spec ns = false -> listed_at log' out' gvr true ns)
    | inr _ => True
    end).
Proof.
  intros Hns Hf. unfold list_ns. destruct (skipped_ns spec ns) eqn:Es.
  { cbn [wp]. split_and!; [|done|done]. exists [], []. by rewrite !app_nil_r. }
  wp_call l. destruct l as [objs|e]; [|case_if; [|done]]; cbn [wp].
  - split_and!; [by eexists _, _| |].
    + apply Forall_app. split; [eapply Forall_impl; [done|]; intros; by apply from_listed_mono|].
      by apply from_listed_keep.
    + intros _. left. exists objs. split; [apply elem_of_app; right; by left|set_solver].
  - split_and!; [exists [mkEvent (dList d gvr ns EmptyString) (Err e)], []; by rewrite app_nil_r| |].
    + eapply Forall_impl; [done|]. intros. by apply from_listed_mono.
    + intros _. right. exists e. split_and!; [apply elem_of_app; right; by left|done|done].
Qed.

Lemma list_ref_wp ref done_ out log : listing_inv done_ log out ->
  wp any_env (list_ref gvr_String d nss spec out ref) log (fun log' r =>
    match r with inl out' => listing_inv (done_ ++ [ref]) log' out' | inr _ => True end).
Proof.
  intros [Hd Hf]. unfold list_ref. destruct (rf_Namespaced ref) eqn:En; cbn [negb].
  - eapply wp_mono.
    + apply (wp_loopM any_env (list_ns gvr_String d (rf_GVR ref) nss spec)
        (fun pre log' out' => (exists ext more, log' = log ++ ext /\ out' = out ++ more) /\
           Forall (from_listed log') out' /\
           Forall (fun ns => skipped_ns spec ns = false -> listed_at log' out' (rf_GVR ref) true ns) pre)
        (fun _ _ => True) nss []).
      { split_and!; [exists [], []; by rewrite !app_nil_r|done|done]. }
      intros pre ns post log' out' Hsplit ((ext & more & -> & ->) & Hf' & Hpre). cbn [app] in Hsplit.
      eapply wp_mono; [apply list_ns_wp; [rewrite Hsplit; set_solver|done]|].
      intros log'' [out''|e]; [|done]. intros ((ext' & more' & -> & ->) & Hf'' & Hl).
      split_and!; [exists (ext ++ ext'), (more ++ more'); by rewrite !(assoc_L (++))|done|].
      apply Forall_app. split; [|by apply Forall_singleton].
      eapply Forall_impl; [done|]. intros x Hx Hs. by apply listed_at_mono, Hx.
    + intros log' [out'|e]; [|done]. intros ((ext & more & -> & ->) & Hf' & Hall). split; [|done].
      apply Forall_app. split; [eapply Forall_impl; [done|]; intros; by apply ref_listed_mono|].
      apply Forall_singleton. unfold ref_listed. rewrite En. intros ns Hns.
      rewrite Forall_forall in Hall. cbn [app] in Hall. by apply Hall.
  - wp_call l. assert (forall log' more, listed_at (log ++ log') (out ++ more) (rf_GVR ref) false EmptyString ->
      Forall (from_listed (log ++ log')) more -> listing_inv (done_ ++ [ref]) (log ++ log') (out ++ more)) as Hfin.
    { intros log' more Hl Hm. split; apply Forall_app.
      - split; [|by apply Forall_singleton; unfold ref_listed; rewrite En].
        eapply Forall_impl; [done|]. intros. by apply ref_listed_mono.
      - split; [|done]. eapply Forall_impl; [done|]. intros. by apply from_listed_mono. }
    destruct l as [objs|e]; [|case_if; [case_if; [done|]|done]]; cbn [wp].
    + apply Hfin; [|by apply from_listed_keep]. left. exists objs.
      split; [apply elem_of_app; right; by left|set_solver].
    + rewrite <- (app_nil_r out). apply Hfin; [|done]. right. exists e.
      split_and!; [apply elem_of_app; right; by left|done|done].
Qed.
End listing.

(** ** Properties *)

(** for every answer of the API server, a listing of the graph that succeeds
    has, for each reference and each covered namespace, either every listed
    object that belongs to the graph, or an answer saying the resource cannot
    be listed (and never a forbidden list of Capsule Tenants); and it has
    nothing else. *)
Theorem ListItems_exact {U : Unstructured} gvr_String d gvrs nss spec :
  always (ListItems gvr_String (Some d) gvrs nss spec) (fun log r =>
    match r with
    | Ok items => Forall (ref_listed d nss spec log items) gvrs /\ Forall (from_listed d nss spec log) items
    | Err _ => True
    end).
Proof.
  unfold ListItems, always. apply wp_bind. eapply wp_mono.
  - apply (wp_loopM any_env _ (listing_inv d nss spec) (fun _ _ => True) gvrs []); [by split|].
    intros pre ref post log out _ Hinv. eapply wp_mono; [by apply list_ref_wp|]. by intros log' [].
  - intros log [out|e]; cbn [wp]; [|done]. intros [H1 H2]. done.
Qed.

(** What an item is once read back: its object's integers are float64, it is
    namespaced when its object has a namespace, and no longer being deleted. *)
Definition portable {U : Unstructured} (it : Item) : Item :=
  let w := wire_of it in
  item_of (mkWire (Group w) (Version w) (Resource w) (Namespaced w) (sort_keys (List.map (on_snd rounded) (it_Obj it)))).

(** An item a capture can hold: UTF-8, int64 and float64, no deeper than the
    decoder reads. *)
Definition item_ok (it : Item) : bool :=
  let o := JObj (it_Obj it) in
  encodable o && utf8 o && (json_depth o + 2 <=? max_nesting)%nat &&
  ValidString (gvr_Group (it_GVR it)) && ValidString (gvr_Version (it_GVR it)) && ValidString (gvr_Resource (it_GVR it)).

Lemma wire_readable d it : item_ok it = true -> (json_depth (JObj (it_Obj it)) <= d)%nat ->
  readable (S d) (wire (wire_of it)).
Proof.
  unfold item_ok. intros H Hd. rewrite !andb_true_iff in H. destruct H as [[[[[He Hu] _] Hg] Hv] Hr].
  constructor. repeat (constructor; [split; [done|]|]); [| | | | |done]; cbn [fst snd]; try by constructor.
  by apply encode_readable.
Qed.

Lemma set_wire g v r ns m :
  fold_left (fun w member => w ← w; set_field w member)
    [("group", SStr g); ("version", SStr v); ("resource", SStr r); ("namespaced", SBool ns); ("object", SObj m)]%string
    (Some zero_wire) =
  match decode (SObj m) with Some (JObj m) => Some (mkWire g v r ns (go_map ([] ++ m))) | _ => None end.
Proof. reflexivity. Qed.

Lemma unwire_wire it : item_ok it = true -> exists o, unwire (wire (wire_of it)) =
  Some (mkWire (gvr_Group (it_GVR it)) (gvr_Version (it_GVR it)) (gvr_Resource (it_GVR it)) (it_Namespaced it) o) /\
  o = sort_keys (List.map (on_snd rounded) (it_Obj it)).
Proof.
  unfold item_ok. intros H. rewrite !andb_true_iff in H. destruct H as [[[[[He _] _] _] _] _].
  eexists. split; [|reflexivity]. pose proof (decode_encode (JObj (it_Obj it)) He) as Hd.
  unfold wire, wire_of, unwire. cbn [Object_ Group Version Resource Namespaced].
  destruct (encode (JObj (it_Obj it))) eqn:E; try done. cbn [rounded] in Hd.
  rewrite set_wire, Hd. cbn [app]. by rewrite go_map_sorted by apply sort_keys_sorted.
Qed.


(** Texts with their quotes as apostrophes. *)
Definition text (s : string) : string := ReplaceByte s "'"%char quote_char.

Definition snapshot_items : list Item :=
  [mkItem (mkGVR "shop.io" "v1" "carts") false
     [("spec", JObj [("size", JInt 3); ("serial", JInt (2 ^ 53 + 1)); ("ratio", JFloat 1 2);
                     ("rule", JStr "a<b"); ("steps", JArr [JNull; JBool true; JObj []])]);
      ("metadata", JObj [("name", JStr "one"); ("namespace", JStr "shop")])]%string true].


(** Other texts: white space, escapes and folded names are read, null leaves a
    field or empties the map, a repeated object is merged; what is no JSON or
    has a value of another type is refused. *)
Example Unmarshal_texts :
  let read s := Unmarshal (U := plain) (fun _ => "refused"%string) (text s) in
  let cart o := Ok [mkItem (mkGVR "" "" "carts") false o false] in
  read "null" = Ok [] /\ read " [ ] " = Ok [] /\
  read "[null]" = Ok [mkItem (mkGVR "" "" "") false [] false] /\
  read "[{'RE\u017fource' : 'c\u0061rts', 'group' : null, 'other': 1e999}]" = cart [] /\
  read "[{'resource':'carts','object':{'a':1,'a':2,'b':-0.5e1},'Object':{'a':3}}]" =
    cart [("b", JFloat (-5) 1); ("a", JFloat 3 1)]%string /\
  read "[{'resource':'carts','object':{'a':1},'object':null}]" = cart [] /\
  Forall (fun s => read s = Err (errorf "refused"))
    [""; "[1,]"; "[01]"; "[{'resource':1}]"; "[{'object':[]}]"; "[{'object':{'a':1e999}}]"; "{}"; "[] []"; "['\q']"]%string.
Proof. cbv zeta. split_and!; repeat (apply Forall_cons_2 || apply Forall_nil_2); vm_compute; reflexivity. Qed.
