(* ===== verification/Capsule.v ===== *)
(** * Capsule tenants: src/pkg/clusterobjects (whoami.go, capsule*.go)

    Who the destination takes Portage for, whether Capsule will let that
    subject create a tenant's namespace, and registering it when it will not.
    SHA-256 is library code: a parameter. *)

From Stdlib Require Import ZArith Lia Ascii.
From S2P Require Import Prelude GoStrings Effects Api Json Kube Unstructured Classify Transform Graph.

Definition TenantLabel : string := "capsule.clastix.io/tenant".
Definition defaultCapsuleUserGroup : string := "projectcapsule.dev".

Definition tenantGVRs : list GVR :=
  [mkGVR capsuleGroup "v1beta2" "tenants"; mkGVR capsuleGroup "v1beta1" "tenants"].
Definition capsuleConfigGVRs : list GVR :=
  [mkGVR capsuleGroup "v1beta2" "capsuleconfigurations"; mkGVR capsuleGroup "v1beta1" "capsuleconfigurations"].
Definition tenantOwnerGVRs : list GVR :=
  [mkGVR capsuleGroup "v1beta2" "tenantowners"; mkGVR capsuleGroup "v1beta1" "tenantowners"].

(** ** whoami.go *)

Record Caller := mkCaller { cl_Kind : string; cl_Name : string; cl_Groups : list string }.
Definition no_caller : Caller := mkCaller "" "" [].

Definition subjectFromUsername (username : string) : Caller :=
  if String.eqb username EmptyString then no_caller
  else if HasPrefix username "system:serviceaccount:" then mkCaller "ServiceAccount" username []
  else mkCaller "User" username [].

Definition selfSubjectReviewGVR : GVR := mkGVR "authentication.k8s.io" "v1" "selfsubjectreviews".

Definition isNoMatch (e : option err) : bool :=
  match e with
  | None => false
  | Some e => Contains (err_msg e) "no matches for" ||
              Contains (err_msg e) "could not find the requested resource" ||
              Contains (err_msg e) "not registered"
  end.

(** The resource is not served, or the object is not there. *)
Definition absent (e : err) : bool := IsNotFound (Some e) || isNoMatch (Some e).

(** *** The messages for an operator *)

Definition text_register : string :=
  "Register it on Tenant %q spec.owners (kind: %s, name: %q, clusterRoles: [admin]) and" +:+
  " as a Capsule user. Capsule users are CapsuleConfiguration status.users, copied from" +:+
  " spec.users and from a TenantOwner whose spec.aggregate is left at the default true." +:+
  " Tenant spec.owners does not make the caller a Capsule user, and a TenantOwner does " +:+
  "not write Tenant spec.owners. Admission reads Tenant status.owners, which the Tenant" +:+
  " controller copies from spec.owners. Both lists have to contain this subject. The " +:+
  "default Capsule user group %s is not added to an Entra service principal token".
Definition text_both : string :=
  "Tenant %q status.owners and CapsuleConfiguration status.users both already list %s " +:+
  "%q. The namespace mutating webhook still did not stamp a Tenant ownerReference " +:+
  "before validation rejected the tenant label. Confirm that webhook is registered for " +:+
  "namespace CREATE and its failurePolicy is Fail".
Definition text_specnotstatus : string :=
  "Tenant %q status.owners lists %s %q. CapsuleConfiguration spec.users lists that " +:+
  "subject and status.users does not yet. The mutating webhook reads status.users. Wait" +:+
  " until the configuration controller copies spec.users into status.users".
Definition text_noconfig : string :=
  "Tenant %q status.owners already lists %s %q. This client could not read " +:+
  "CapsuleConfiguration. The namespace mutating webhook skips a caller who is absent " +:+
  "from its status.users, and the validating webhook then rejects the tenant label with" +:+
  " no ownerReference. Add that subject to CapsuleConfiguration spec.users (kind: %s, " +:+
  "name: %q) when status.users does not already list it.%s".
Definition text_notuser : string :=
  "Tenant %q status.owners already lists %s %q. %s, so the namespace mutating webhook " +:+
  "skips this caller and does not write the ownerReference. Add that subject to %s " +:+
  "(kind: %s, name: %q). The webhook reads status.users, which the configuration " +:+
  "controller copies from spec.users. The validating webhook then rejects the tenant " +:+
  "label with no ownerReference.%s".
Definition text_notowner : string :=
  "CapsuleConfiguration status.users already lists %s %q. Tenant %q spec.owners and " +:+
  "status.owners do not. A TenantOwner only adds a Capsule user. It does not write " +:+
  "Tenant spec.owners. Add that subject to Tenant %q spec.owners (kind: %s, name: %q). " +:+
  "The mutating webhook assigns the labeled tenant only when status.owners matches the " +:+
  "caller".
Definition text_lag : string :=
  "Tenant %q spec.owners lists %s %q and status.owners does not yet. The Tenant " +:+
  "controller copies spec.owners into status.owners before admission treats the subject" +:+
  " as an owner. Also add the subject to CapsuleConfiguration spec.users (kind: %s, " +:+
  "name: %q) when status.users does not already list it. The mutating webhook reads " +:+
  "that status, not Tenant spec.owners".
Definition text_nocaller : string :=
  "Capsule's namespace mutating webhook writes a Tenant ownerReference only for a " +:+
  "Capsule user or a Capsule administrator. Tenant %q spec.owners does not grant that, " +:+
  "so the validating webhook then rejects the tenant label with no ownerReference. " +:+
  "SelfSubjectReview did not return a username. When the destination is this cluster " +:+
  "the subject is kind ServiceAccount, name " +:+
  "system:serviceaccount:<portage-namespace>:<portage-sa>. When " +:+
  "destination.azure.credentialsSecret is set, the subject is kind User and the name is" +:+
  " the service principal object ID (the token oid claim, which kubectl auth whoami " +:+
  "prints). The kubeconfig user clusterUser and the application clientID are different " +:+
  "values. Register that subject on Tenant %q spec.owners and on CapsuleConfiguration " +:+
  "spec.users with the same kind and name. The default Capsule user group is " +:+
  "projectcapsule.dev, which an Entra service principal token does not carry".
Definition text_caller : string :=
  "The destination API server authenticated Portage as %s %q. SelfSubjectReview on the " +:+
  "destination client reported this subject. For an Entra token " +:+
  "(destination.azure.credentialsSecret) the username is the service principal object " +:+
  "ID, the token oid claim. %s".
Definition text_unmanaged : string :=
  "destination namespace %q exists without a Tenant ownerReference for %q. Capsule will" +:+
  " not adopt it when the label is added later. %s Then delete namespace %q and retry " +:+
  "so the next create is authenticated as that owner. Deleting the namespace also " +:+
  "deletes PVCs replicated into it".
Definition text_missing : string :=
  "Tenant %q is not on the destination, so Capsule cannot own namespace %q. Tenants are" +:+
  " cluster-scoped and are copied when clusterObjects.includeClusterScoped is true. " +:+
  "Confirm capsule.clastix.io/tenants can be listed on the source, create Tenant %q on " +:+
  "the destination if it was skipped, then retry".
Definition text_notyet : string :=
  "Tenant %q spec.owners lists kind: %s, name: %q and status.owners does not yet. " +:+
  "Capsule admission reads status.owners, which the Tenant controller copies from " +:+
  "spec.owners. A TenantOwner registers a Capsule user (CapsuleConfiguration " +:+
  "status.users, from spec.users or spec.aggregate) and does not write Tenant " +:+
  "spec.owners. Retrying until status.owners lists this subject".

Record capsuleAccess := mkAccess {
  ac_read : bool; ac_configRead : bool; ac_configName : string;
  ac_userInStatus : bool; ac_userInSpec : bool;
  ac_ownerInStatus : bool; ac_ownerInSpec : bool }.
Definition no_access : capsuleAccess := mkAccess false false "" false false false false.

Definition groupNote (c : Caller) : string :=
  if bool_decide (defaultCapsuleUserGroup ∈ cl_Groups c) then EmptyString
  else
    match cl_Groups c with
    | [] => " SelfSubjectReview returned no groups. The default Capsule user group " +:+
            defaultCapsuleUserGroup +:+ " is not on this token."
    | groups =>
        let extra := if (6 <? length groups)%nat
                     then " and " +:+ Itoa (Z.of_nat (length groups - 6)) +:+ " more" else EmptyString in
        " SelfSubjectReview groups are " +:+ Join ", " (take 6 groups) +:+ extra +:+
        ". The default Capsule user group " +:+ defaultCapsuleUserGroup +:+ " is not among them."
    end.

Definition capsuleGap (tenant : string) (c : Caller) (a : capsuleAccess) : string :=
  let kind := cl_Kind c in
  let name := cl_Name c in
  let register := Sprintf text_register [tenant; kind; name; defaultCapsuleUserGroup] in
  if negb (ac_read a) then register
  else if ac_userInStatus a && ac_ownerInStatus a then Sprintf text_both [tenant; kind; name]
  else if ac_userInSpec a && negb (ac_userInStatus a) && ac_ownerInStatus a then
    Sprintf text_specnotstatus [tenant; kind; name]
  else if ac_ownerInStatus a && negb (ac_userInStatus a) && negb (ac_configRead a) then
    Sprintf text_noconfig [tenant; kind; name; kind; name; groupNote c]
  else if ac_ownerInStatus a && negb (ac_userInStatus a) then
    let '(where_, target) :=
      if String.eqb (ac_configName a) EmptyString
      then ("No CapsuleConfiguration on the destination lists that subject in status.users"%string,
            "CapsuleConfiguration spec.users"%string)
      else ("CapsuleConfiguration " +:+ quoted (ac_configName a) +:+ " status.users does not",
            "CapsuleConfiguration " +:+ quoted (ac_configName a) +:+ " spec.users") in
    Sprintf text_notuser [tenant; kind; name; where_; target; kind; name; groupNote c]
  else if ac_userInStatus a && negb (ac_ownerInStatus a) then
    Sprintf text_notowner [kind; name; tenant; tenant; kind; name]
  else if ac_ownerInSpec a && negb (ac_ownerInStatus a) then
    Sprintf text_lag [tenant; kind; name; kind; name]
  else register.

Definition ownerHint (tenant : string) (c : Caller) (a : capsuleAccess) : string :=
  if String.eqb (cl_Name c) EmptyString then Sprintf text_nocaller [tenant; tenant]
  else Sprintf text_caller [cl_Kind c; cl_Name c; capsuleGap tenant c a].

Definition MissingTenant (namespace tenant : string) : string :=
  Sprintf text_missing [tenant; namespace; tenant].

Definition unmanagedNamespace (namespace tenant : string) (c : Caller) (a : capsuleAccess) : string :=
  Sprintf text_unmanaged [namespace; tenant; ownerHint tenant c a; namespace].

Definition ownerNotYetAdmitted (tenant : string) (c : Caller) : string :=
  Sprintf text_notyet [tenant; cl_Kind c; cl_Name c].

(** [fmt.Errorf] of the error, a full stop and the hint: the error is wrapped. *)
Definition with_hint (e : err) (hint : string) : err := wrapf_post e (". " +:+ hint).

Definition annotateNamespaceError (e : err) (namespace tenant : string) (c : Caller) (a : capsuleAccess) : err :=
  if String.eqb tenant EmptyString then e
  else
    let s := err_msg e in
    if Contains s "non-owned Tenant" || Contains s "only tenant owners" ||
       Contains s "no Tenant ownerReference" then with_hint e (ownerHint tenant c a)
    else if Contains s "patched into a tenant" || Contains s "both be set" then
      with_hint e (unmanagedNamespace namespace tenant c a)
    else if Contains s "not found" && Contains s "tenants.capsule" then
      with_hint e (MissingTenant namespace tenant)
    else if Contains s "projectcapsule" || Contains s "admission webhook" then
      with_hint e (ownerHint tenant c a)
    else e.

Section capsule.
  Context {U : Unstructured} (sha256 : string -> string).

Definition review_caller (r : res obj) : Caller :=
  match r with
  | Err _ => no_caller
  | Ok created =>
      let c := subjectFromUsername (fst (NestedString created ["status"; "userInfo"; "username"]%string)) in
      mkCaller (cl_Kind c) (cl_Name c) (NestedStringSlice created ["status"; "userInfo"; "groups"]%string)
  end.

Definition review : obj :=
  [("apiVersion", JStr "authentication.k8s.io/v1"); ("kind", JStr "SelfSubjectReview")]%string.

Definition CallerFromDynamic (d : dyn) : io ev Caller :=
  let* r := trigger (dCreate d selfSubjectReviewGVR EmptyString review) in Ret (review_caller r).

(** ** capsule.go *)

Definition CapsuleTenant (o : obj) : string := nmap_get EmptyString (GetLabels o) TenantLabel.

Definition capsuleOwnerRef (r : OwnerRef) : bool :=
  String.eqb (ow_Kind r) "Tenant" && HasPrefix (ow_APIVersion r) (capsuleGroup +:+ "/").

Definition HasCapsuleOwner (o : obj) : bool := existsb capsuleOwnerRef (GetOwnerReferences o).

Definition KeepDestCapsuleOwners (o cur : obj) : obj :=
  if negb (HasCapsuleOwner cur) then o
  else if negb (String.eqb (GetKind o) "Namespace") && nonempty (GetKind o) then o
  else SetOwnerReferences o
         (List.filter capsuleOwnerRef (GetOwnerReferences cur) ++
          List.filter (fun r => negb (capsuleOwnerRef r)) (GetOwnerReferences o)).

Definition ownerIdentity (owner : json) : option string :=
  match owner with
  | JObj m =>
      let kind := fst (NestedString m ["kind"%string]) in
      let name := fst (NestedString m ["name"%string]) in
      if String.eqb kind EmptyString || String.eqb name EmptyString then None
      else Some (kind +:+ nul +:+ name)
  | _ => None
  end.

(** Adding an owner of the destination unless one with its identity is there. *)
Definition add_owner (st : list json * gset string) (owner : json) : list json * gset string :=
  let '(merged, seen) := st in
  match ownerIdentity owner with
  | Some key => if bool_decide (key ∈ seen) then st else (merged ++ [owner], {[key]} ∪ seen)
  | None => (merged ++ [owner], seen)
  end.

Definition KeepDestTenantOwners (o cur : obj) : obj :=
  if negb (String.eqb (GetKind o) "Tenant") then o
  else if negb (HasPrefix (GetAPIVersion o) (capsuleGroup +:+ "/")) then o
  else
    match default [] (NestedSlice cur ["spec"; "owners"]%string) with
    | [] => o
    | curOwners =>
        let objOwners := default [] (NestedSlice o ["spec"; "owners"]%string) in
        let merged := fst (fold_left add_owner curOwners
                             (objOwners, list_to_set (omap ownerIdentity objOwners))) in
        SetNested o (Some (JArr merged)) ["spec"; "owners"]%string
    end.

(** ** capsule_access.go *)

Definition subjectListed (items : list json) (caller : Caller) : bool :=
  existsb (fun item =>
    match item with
    | JObj m =>
        let kind := fst (NestedString m ["kind"%string]) in
        let name := fst (NestedString m ["name"%string]) in
        if String.eqb name EmptyString then false
        else if String.eqb kind "User" || String.eqb kind "ServiceAccount" then String.eqb name (cl_Name caller)
        else if String.eqb kind "Group" then bool_decide (name ∈ cl_Groups caller)
        else false
    | _ => false
    end) items.

Definition legacyCapsuleUsers (o : obj) (caller : Caller) : bool :=
  bool_decide (cl_Name caller ∈ NestedStringSlice o ["spec"; "userNames"]%string) ||
  existsb (fun g => bool_decide (g ∈ cl_Groups caller)) (NestedStringSlice o ["spec"; "userGroups"]%string).

(** The configurations, or that they could not be read. *)
Definition listCapsuleConfigurations (d : dyn) : io ev (option (list obj)) :=
  let* r := loopM (fun sawSuccess gvr =>
      let* l := trigger (dList d gvr EmptyString EmptyString) in
      Ret (match l with
           | Ok (o :: l) => inr (Some (o :: l))
           | Ok [] => inl true
           | Err e => if absent e then inl sawSuccess else inr None
           end)) false capsuleConfigGVRs in
  Ret (match r with
       | inl true => Some []
       | inl false => None
       | inr r => r
       end).

Definition pickCapsuleConfiguration (items : list obj) : option obj :=
  match List.find (fun o => String.eqb (GetName o) "default") items with
  | Some o => Some o
  | None => List.hd_error items
  end.

(** The first served version that answers; the last refusal otherwise. The
    three lookups of the source (destTenantExists, getDestTenant,
    findDestTenant) differ in what they return when nothing answered. *)
Definition lookupTenant (d : dyn) (name : string) : io ev (option (obj * GVR) * option err) :=
  let* r := loopM (fun denied gvr =>
      let* o := trigger (dGet d gvr EmptyString name) in
      Ret (match o with
           | Ok o => inr (o, gvr)
           | Err e => inl (if absent e then denied else Some e)
           end)) None tenantGVRs in
  Ret (match r with inr found => (Some found, None) | inl denied => (None, denied) end).

Definition destTenantExists (d : dyn) (name : string) : io ev (res bool) :=
  let* ' (found, denied) := lookupTenant d name in
  Ret (match found, denied with
       | Some _, _ => Ok true
       | None, Some e => Err e
       | None, None => Ok false
       end).

Definition getDestTenant (d : dyn) (name : string) : io ev (option obj) :=
  let* ' (found, _) := lookupTenant d name in Ret (fst <$> found).

Definition findDestTenant (d : dyn) (name : string) : io ev (res (obj * GVR)) :=
  let* ' (found, denied) := lookupTenant d name in
  Ret (match found, denied with
       | Some f, _ => Ok f
       | None, Some e => Err e
       | None, None => Err (mkErr NotFound ("tenants.capsule.clastix.io " +:+ quoted name +:+ " not found"))
       end).

Definition slice (o : obj) (ks : list string) : list json := default [] (NestedSlice o ks).

Definition observeCapsuleCaller (d : dyn) (tenant : string) (caller : Caller) : io ev capsuleAccess :=
  if String.eqb (cl_Name caller) EmptyString || String.eqb tenant EmptyString then Ret no_access
  else
    let* configs := listCapsuleConfigurations d in
    let a := match configs with
             | None => no_access
             | Some configs =>
                 match pickCapsuleConfiguration configs with
                 | None => mkAccess true true "" false false false false
                 | Some pick =>
                     mkAccess true true (GetName pick)
                       (subjectListed (slice pick ["status"; "users"]%string) caller)
                       (subjectListed (slice pick ["spec"; "users"]%string) caller ||
                        legacyCapsuleUsers pick caller) false false
                 end
             end in
    let* tnt := getDestTenant d tenant in
    Ret (match tnt with
         | None => a
         | Some tnt =>
             mkAccess true (ac_configRead a) (ac_configName a) (ac_userInStatus a) (ac_userInSpec a)
               (subjectListed (slice tnt ["status"; "owners"]%string) caller)
               (subjectListed (slice tnt ["spec"; "owners"]%string) caller)
         end).

(** ** capsule_ensure.go *)

Definition tenantOwnerLabel : string := "projectcapsule.dev/tenant".
Definition managedByLabel : string := "app.kubernetes.io/managed-by".
Definition managedByPortage : string := "portage".

Definition owner_entry (c : Caller) : json := JObj
  [("kind", JStr (cl_Kind c)); ("name", JStr (cl_Name c)); ("clusterRoles", JArr [JStr "admin"])]%string.

Definition ensureTenantSpecOwnerOnce (d : dyn) (tenant : string) (c : Caller) : io ev (option err) :=
  let* f := findDestTenant d tenant in
  match f with
  | Err e => Ret (Some (wrapf ("get Tenant " +:+ quoted tenant +:+ ": ") e))
  | Ok (o, gvr) =>
      let owners := slice o ["spec"; "owners"]%string in
      if subjectListed owners c then Ret None
      else
        match SetNestedField o (JArr (owners ++ [owner_entry c])) ["spec"; "owners"]%string with
        | None => Ret (Some (errorf ("set Tenant " +:+ quoted tenant +:+ " spec.owners: not a map")))
        | Some o =>
            let* e := trigger (dUpdate d gvr EmptyString o) in
            Ret (option_map (wrapf ("update Tenant " +:+ quoted tenant +:+ " spec.owners: ")) e)
        end
  end.

Definition ensureTenantSpecOwner (d : dyn) (tenant : string) (c : Caller) : io ev (option err) :=
  let* r := loopM (fun _ (_ : nat) =>
      let* e := ensureTenantSpecOwnerOnce d tenant c in
      Ret (match e with
           | Some e => if IsConflict (Some e) then inl (Some e) else inr (Some e)
           | None => inr None
           end)) None (seq 0 4) in
  Ret (match r with inl e => e | inr e => e end).

(** listed, known *)
Definition capsuleUserListed (d : dyn) (c : Caller) : io ev (bool * bool) :=
  let* configs := listCapsuleConfigurations d in
  Ret (match configs with
       | None => (false, false)
       | Some configs =>
           match pickCapsuleConfiguration configs with
           | None => (false, true)
           | Some pick => (subjectListed (slice pick ["status"; "users"]%string) c, true)
           end
       end).

Definition tenantOwnerName (tenant suffix : string) : string :=
  let base := "portage-" +:+ tenant in
  let base := if String.eqb suffix EmptyString then base else base +:+ "-" +:+ suffix in
  TrimRight (cap_len 253 base) "-.".

Definition callerSuffix (c : Caller) : string :=
  EncodeToString (take_str 4 (sha256 (cl_Kind c +:+ nul +:+ cl_Name c))).

Definition tenantOwnerGVR (d : dyn) (name : string) : io ev (res GVR) :=
  let* r := loopM (fun last gvr =>
      let* o := trigger (dGet d gvr EmptyString name) in
      Ret (match o with
           | Ok _ => inr (Ok gvr)
           | Err e => if IsNotFound (Some e) then inr (Ok gvr)
                      else if isNoMatch (Some e) then inl (Some e)
                      else inr (Err e)
           end)) None tenantOwnerGVRs in
  Ret (match r with
       | inr r => r
       | inl (Some e) => Err e
       | inl None => Err (errorf "tenantowners.capsule.clastix.io not found")
       end).

Definition getTenantOwner (d : dyn) (name : string) : io ev (res obj) :=
  let* gvr := tenantOwnerGVR d name in
  match gvr with
  | Err e => Ret (Err e)
  | Ok gvr => trigger (dGet d gvr EmptyString name)
  end.

Definition tenantOwnerSubject (o : obj) (c : Caller) : bool :=
  String.eqb (fst (NestedString o ["spec"; "kind"]%string)) (cl_Kind c) &&
  String.eqb (fst (NestedString o ["spec"; "name"]%string)) (cl_Name c).

Definition pickTenantOwnerName (d : dyn) (primary alt : string) (c : Caller) : io ev (res string) :=
  let* existing := getTenantOwner d primary in
  match existing with
  | Err e => Ret (if absent e then Ok primary
                  else Err (wrapf ("get TenantOwner " +:+ primary +:+ ": ") e))
  | Ok o =>
      if tenantOwnerSubject o c then Ret (Ok EmptyString)
      else if String.eqb alt primary then
        Ret (Err (errorf ("TenantOwner " +:+ quoted primary +:+
                          " belongs to a different subject and an alternate name does not fit")))
      else
        let* other := getTenantOwner d alt in
        Ret (match other with
             | Err e => if absent e then Ok alt else Err (wrapf ("get TenantOwner " +:+ alt +:+ ": ") e)
             | Ok o => if tenantOwnerSubject o c then Ok EmptyString
                       else Err (errorf ("TenantOwner " +:+ quoted primary +:+ " and " +:+ quoted alt +:+
                                         " belong to other subjects"))
             end)
  end.

Definition tenantOwner_object (gvr : GVR) (name tenant : string) (c : Caller) : obj :=
  [("apiVersion", JStr (gvr_Group gvr +:+ "/" +:+ gvr_Version gvr)); ("kind", JStr "TenantOwner");
   ("metadata", JObj [("name", JStr name);
      ("labels", JObj [(tenantOwnerLabel, JStr tenant); (managedByLabel, JStr managedByPortage)])]);
   ("spec", owner_entry c)]%string.

Definition ensureTenantOwner (d : dyn) (tenant : string) (c : Caller) : io ev (option err) :=
  let* name := pickTenantOwnerName d (tenantOwnerName tenant "") (tenantOwnerName tenant (callerSuffix c)) c in
  match name with
  | Err e => Ret (Some e)
  | Ok name =>
      if String.eqb name EmptyString then Ret None
      else
        let* gvr := tenantOwnerGVR d name in
        match gvr with
        | Err e => Ret (Some (wrapf_post (wrapf ("create TenantOwner " +:+ name +:+ ": ") e)
                     (". Add the subject to CapsuleConfiguration spec.users (kind: " +:+ cl_Kind c +:+
                      ", name: " +:+ quoted (cl_Name c) +:+ ") so status.users lists them")))
        | Ok gvr =>
            let* r := trigger (dCreate d gvr EmptyString (tenantOwner_object gvr name tenant c)) in
            Ret (match r with
                 | Ok _ => None
                 | Err e => if IsAlreadyExists (Some e) then None
                            else Some (wrapf ("create TenantOwner " +:+ name +:+ ": ") e)
                 end)
        end
  end.

Definition ensureCapsuleCaller (d : dyn) (tenant : string) (c : Caller) : io ev (option err) :=
  if String.eqb tenant EmptyString || String.eqb (cl_Name c) EmptyString then Ret None
  else
    let* e := ensureTenantSpecOwner d tenant c in
    match e with
    | Some e => Ret (Some e)
    | None =>
        let* ' (listed, known) := capsuleUserListed d c in
        if known && listed then Ret None else ensureTenantOwner d tenant c
    end.
End capsule.
