(* ===== verification/DestPins.v ===== *)
(** * The destination side of a VolSync pair: src/pkg/movers/volsync
    (dest_pins.go, dest_pvc.go, scratch.go)

    Node pins that belong to the source cluster, the claim and the namespace
    the destination needs, and the movers' scratch claims. The mover is seen
    through its two typed clients. *)

From Stdlib Require Import ZArith Lia Ascii.
From S2P Require Import Prelude GoStrings Effects Api Json Kube Unstructured Classify Transform Heal Graph Capsule.

(** ** dest_pins.go *)

Definition hostnameLabel : string := "kubernetes.io/hostname".

Definition nodeReady (n : Node) : bool :=
  existsb (fun c => String.eqb (cond_Type c) "Ready" && String.eqb (cond_Status c) "True") (nd_Conditions n).

Definition add_hostnames (out : gset string) (n : Node) : gset string :=
  if negb (nodeReady n) then out
  else
    let h := nmap_get EmptyString (om_Labels (nd_Meta n)) hostnameLabel in
    let out := {[om_Name (nd_Meta n)]} ∪ out in
    if String.eqb h EmptyString then out else {[h]} ∪ out.

Definition destHostnames (c : kube) : io ev (gset string) :=
  let* nodes := trigger (kList c KNode EmptyString) in
  Ret (match nodes with Err _ => ∅ | Ok nodes => fold_left add_hostnames nodes ∅ end).

(** The first value of the first requirement that names a host. *)
Definition pin_of (is_pin : string -> bool) (exprs : list NodeSelectorRequirement) : option string :=
  match List.find (fun r => is_pin (nsr_Key r) && match nsr_Values r with [] => false | _ => true end) exprs with
  | Some r => List.hd_error (nsr_Values r)
  | None => None
  end.

Definition term_pin (t : NodeSelectorTerm) : option string :=
  match pin_of (fun k => String.eqb k hostnameLabel) (nst_MatchExpressions t) with
  | Some h => Some h
  | None => pin_of (fun k => String.eqb k "metadata.name" || String.eqb k hostnameLabel) (nst_MatchFields t)
  end.

Fixpoint first_pin (terms : list NodeSelectorTerm) : string :=
  match terms with
  | [] => EmptyString
  | t :: terms' => match term_pin t with Some h => h | None => first_pin terms' end
  end.

Definition hostnamePin (spec : PodSpec) : string :=
  let h := nmap_get EmptyString (sp_NodeSelector spec) hostnameLabel in
  if negb (String.eqb h EmptyString) then h
  else if negb (String.eqb (sp_NodeName spec) EmptyString) then sp_NodeName spec
  else match sp_Affinity spec with
       | Some a => match af_NodeAffinity a with
                   | Some na => first_pin (default [] (na_Required na))
                   | None => EmptyString
                   end
       | None => EmptyString
       end.

Definition isVolSyncMoverJob (name : string) : bool :=
  HasPrefix name "volsync-src-" || HasPrefix name "volsync-dst-".

(** A pin to a host that is not one of the nodes. *)
Definition foreign (nodes : gset string) (spec : PodSpec) : bool :=
  let host := hostnamePin spec in
  negb (String.eqb host EmptyString) && negb (bool_decide (host ∈ nodes)).

Definition pinned_pod (nodes : gset string) (p : Pod) : bool :=
  negb (isVolSyncMoverJob (om_Name (pod_Meta p))) && foreign nodes (pod_Spec p).
Definition pinned_job (nodes : gset string) (j : Job) : bool :=
  isVolSyncMoverJob (om_Name (job_Meta j)) && foreign nodes (job_Template j).

(** Deleting each object of a list, whatever the answers. *)
Definition delete_all (c : kube) (k : kind) (ns : string) (names : list string) : io ev unit :=
  foldM (fun _ name => let* _ := trigger (kDelete c k ns name) in Ret tt) tt names.

Definition deletePinnedDestPods (c : kube) (ns : string) (nodes : gset string) : io ev unit :=
  let* pods := trigger (kList c KPod ns) in
  match pods with
  | Err _ => Ret tt
  | Ok pods => delete_all c KPod ns
      (List.map (fun p => om_Name (pod_Meta p)) (List.filter (pinned_pod nodes) pods))
  end.

Definition deletePinnedMoverJobs (c : kube) (ns : string) (nodes : gset string) : io ev unit :=
  let* jobs := trigger (kList c KJob ns) in
  match jobs with
  | Err _ => Ret tt
  | Ok jobs => delete_all c KJob ns
      (List.map (fun j => om_Name (job_Meta j)) (List.filter (pinned_job nodes) jobs))
  end.

Definition mounts_claim (pvc : string) (p : Pod) : bool :=
  existsb (fun v => match vol_PVC v with Some n => String.eqb n pvc | None => false end)
    (sp_Volumes (pod_Spec p)).

(** A Running pod of a user mounts the claim. *)
Definition user_mounts (pvc : string) (pods : list Pod) : bool :=
  existsb (fun p => negb (isVolSyncMoverJob (om_Name (pod_Meta p))) &&
    String.eqb (pod_Phase p) "Running" && mounts_claim pvc p) pods.

Definition destUserMounted (c : option kube) (ns pvc : string) : io ev bool :=
  match c with
  | None => Ret false
  | Some c =>
      if String.eqb ns EmptyString || String.eqb pvc EmptyString then Ret false
      else
        let* pods := trigger (kList c KPod ns) in
        Ret (match pods with
             | Err _ => false
             | Ok pods => user_mounts pvc pods
             end)
  end.

(** A mover Job whose name has the replication's followed by a dash, or at the
    end. *)
Definition mover_job_of (rsName : string) (j : Job) : bool :=
  let n := om_Name (job_Meta j) in
  isVolSyncMoverJob n && (Contains n (rsName +:+ "-") || HasSuffix n rsName).

Definition deleteWorkloadMoverJobs (c : option kube) (ns rsName : string) : io ev unit :=
  match c with
  | None => Ret tt
  | Some c =>
      if String.eqb ns EmptyString || String.eqb rsName EmptyString then Ret tt
      else
        let* jobs := trigger (kList c KJob ns) in
        match jobs with
        | Err _ => Ret tt
        | Ok jobs => delete_all c KJob ns
            (List.map (fun j => om_Name (job_Meta j)) (List.filter (mover_job_of rsName) jobs))
        end
  end.

Section dest.
  Context (Catalog : list Engine).

(** Updating each listed object whose pod spec the healers change. *)
Definition strip_kind (c : kube) (k : kind) (ns : string) (spec : kobj k -> PodSpec)
    (with_spec : PodSpec -> kobj k -> kobj k) : io ev unit :=
  let* os := trigger (kList c k ns) in
  match os with
  | Err _ => Ret tt
  | Ok os =>
      foldM (fun _ o =>
        let '(healed, names) := heal_PodSpec Catalog (spec o) in
        match names with
        | [] => Ret tt
        | _ => let* _ := trigger (kUpdate c k ns (with_spec healed o)) in Ret tt
        end) tt os
  end.

Definition stripDestWorkloads (c : kube) (ns : string) : io ev unit :=
  strip_kind c KStatefulSet ns sts_Template sts_with_template ;;;
  strip_kind c KDeployment ns dep_Template dep_with_template ;;;
  strip_kind c KDaemonSet ns ds_Template ds_with_template.

(** The destination client of a mover, and whether it is another cluster. *)
Definition dest_kube (src dst : option kube) : option kube :=
  match dst with Some _ => dst | None => src end.
Definition remote_dest (src dst : option kube) : bool :=
  match src, dst with Some s, Some d => negb (bool_decide (d = s)) | _, _ => false end.

Definition stripDestScheduling (src dst : option kube) (ns : string) : io ev unit :=
  match dest_kube src dst with
  | None => Ret tt
  | Some dk =>
      if negb (remote_dest src dst) || String.eqb ns EmptyString then Ret tt
      else
        let* nodes := destHostnames dk in
        stripDestWorkloads dk ns ;;;
        deletePinnedDestPods dk ns nodes ;;;
        deletePinnedMoverJobs dk ns nodes
  end.

Definition pin_message (what name host : string) : string :=
  "dest " +:+ what +:+ " " +:+ name +:+ " pinned to source-only node " +:+ host.

Definition destMoverPinMessage (src dst : option kube) (ns : string) : io ev string :=
  match remote_dest src dst, dest_kube src dst with
  | true, Some dk =>
      if String.eqb ns EmptyString then Ret EmptyString
      else
        let* nodes := destHostnames dk in
        let* jobs := trigger (kList dk KJob ns) in
        match jobs with
        | Err _ => Ret EmptyString
        | Ok jobs =>
            match List.find (pinned_job nodes) jobs with
            | Some j => Ret (pin_message "mover job" (om_Name (job_Meta j)) (hostnamePin (job_Template j)))
            | None =>
                let* pods := trigger (kList dk KPod ns) in
                Ret (match pods with
                     | Err _ => EmptyString
                     | Ok pods =>
                         match List.find (pinned_pod nodes) pods with
                         | Some p => pin_message "pod" (om_Name (pod_Meta p)) (hostnamePin (pod_Spec p))
                         | None => EmptyString
                         end
                     end)
            end
        end
  | _, _ => Ret EmptyString
  end.
End dest.

(** ** dest_pvc.go *)

Definition sourceCapsuleLabels (c : option kube) (ns : string) : io ev (res strmap) :=
  match c with
  | None => Ret (Ok None)
  | Some c =>
      if String.eqb ns EmptyString then Ret (Ok None)
      else
        let* src := trigger (kGet c KNamespace EmptyString ns) in
        Ret (match src with
             | Err e => Err (wrapf ("source namespace " +:+ ns +:+ ": ") e)
             | Ok src =>
                 let v := nmap_get EmptyString (om_Labels (ns_Meta src)) TenantLabel in
                 Ok (if String.eqb v EmptyString then None else Some {[TenantLabel := v]})
             end)
  end.

Definition labelled_namespace (ns : string) (labels : strmap) : Namespace :=
  mkNs (new_meta ns EmptyString labels None).

(** What a typed client is told about itself; an error is no answer. *)
Definition CallerFromKube (c : kube) : io ev Caller :=
  let* r := trigger (kSelfSubjectReview c) in
  Ret (match r with
       | Err _ => no_caller
       | Ok (username, groups) =>
           let c := subjectFromUsername username in mkCaller (cl_Kind c) (cl_Name c) groups
       end).

Definition AnnotateNamespaceError (e : err) (namespace tenant : string) (c : Caller) : err :=
  annotateNamespaceError e namespace tenant c no_access.

Definition ensureNamespace (c : option kube) (ns : string) (labels : strmap) : io ev (option err) :=
  match c with
  | None => Ret None
  | Some c =>
      if String.eqb ns EmptyString then Ret None
      else
        let* cur := trigger (kGet c KNamespace EmptyString ns) in
        match cur with
        | Ok _ => Ret None
        | Err e =>
            if negb (IsNotFound (Some e)) then Ret (Some e)
            else
              let* e := trigger (kCreate c KNamespace EmptyString (labelled_namespace ns labels)) in
              match e with
              | None => Ret None
              | Some err =>
                  if IsAlreadyExists e then Ret None
                  else
                    let tenant := nmap_get EmptyString labels TenantLabel in
                    let* caller := if String.eqb tenant EmptyString then Ret no_caller else CallerFromKube c in
                    Ret (Some (AnnotateNamespaceError err ns tenant caller))
              end
        end
  end.

(** The claim of the destination: the source's, sanitized, under Portage's label. *)
Definition dest_claim (opt : Options) (namespace name : string) (src : PVC) : PVC :=
  pvc_with_meta (fun m =>
    with_labels (Some (<["app.kubernetes.io/managed-by" := "portage"]> (default ∅ (om_Labels m))))
      (with_namespace namespace (with_name name m)))%string (sanitize_PVC opt src).

Definition ensureDestPVC (src dst : option kube) (scMap : strmap) (namespace name : string) : io ev (option err) :=
  match src, dest_kube src dst with
  | Some s, Some d =>
      if bool_decide (s = d) || String.eqb name EmptyString then Ret None
      else
        let full := namespace +:+ "/" +:+ name +:+ ": " in
        let* cur := trigger (kGet d KPVC namespace name) in
        match cur with
        | Ok _ => Ret None
        | Err e =>
            if negb (IsNotFound (Some e)) then Ret (Some (wrapf ("volsync dest pvc get " +:+ full) e))
            else
              let* p := trigger (kGet s KPVC namespace name) in
              match p with
              | Err e => Ret (Some (wrapf ("volsync dest pvc: source " +:+ full) e))
              | Ok p =>
                  let out := dest_claim (mkOptions scMap EmptyString None) namespace name p in
                  let* e := trigger (kCreate d KPVC namespace out) in
                  Ret (option_map (wrapf ("volsync dest pvc create " +:+ full)) e)
              end
        end
  | _, _ => Ret None
  end.

(** ** Lemmas *)

Lemma elem_of_hostnames h nodes :
  h ∈ fold_left add_hostnames nodes (∅ : gset string) <->
  exists n, n ∈ nodes /\ nodeReady n = true /\
    (h = om_Name (nd_Meta n) \/ h = nmap_get EmptyString (om_Labels (nd_Meta n)) hostnameLabel /\ h <> EmptyString).
Proof.
  assert (forall out, h ∈ fold_left add_hostnames nodes out <-> h ∈ out \/
    exists n, n ∈ nodes /\ nodeReady n = true /\
      (h = om_Name (nd_Meta n) \/ h = nmap_get EmptyString (om_Labels (nd_Meta n)) hostnameLabel /\ h <> EmptyString)) as ->.
  2: { rewrite elem_of_empty. naive_solver. }
  induction nodes as [|n nodes IH]; intros out; cbn [fold_left].
  - split; [by left|]. intros [H|(n & Hn & _)]; [done|]. by apply elem_of_nil in Hn.
  - rewrite IH. assert (h ∈ add_hostnames out n <-> h ∈ out \/ nodeReady n = true /\
      (h = om_Name (nd_Meta n) \/ h = nmap_get EmptyString (om_Labels (nd_Meta n)) hostnameLabel /\ h <> EmptyString)) as ->.
    { unfold add_hostnames. destruct (nodeReady n); cbn [negb]; [|intuition congruence].
      destruct (String.eqb_spec (nmap_get EmptyString (om_Labels (nd_Meta n)) hostnameLabel) EmptyString) as [He|Hne];
        rewrite !elem_of_union, ?elem_of_singleton; intuition congruence. }
    split.
    + intros [[H|H]|(n' & Hn & H)]; [by left|right; exists n; split; [by left|done]|right; exists n'; split; [by right|done]].
    + intros [H|(n' & [-> |Hn]%elem_of_cons & H)]; [by do 2 left|left; by right|right; by exists n'].
Qed.

(** No Pod is listed or deleted. *)
Definition podless (X : Type) (e : ev X) : Prop :=
  match e with kList _ KPod _ | kDelete _ KPod _ _ => False | _ => True end.

Definition pod_event (e : event ev) : Prop := ~ podless _ (ev_call e).

(** The pod calls of a run do not change over a podless program. *)
Lemma wp_podless {A} (p : io ev A) log : only podless p ->
  wp any_env p log (fun log' _ => forall e, pod_event e -> e ∈ log' <-> e ∈ log).
Proof.
  intros Hp. eapply wp_mono; [exact (wp_only_ext podless p log Hp)|]. intros log' a (ext & -> & Hext) e He.
  rewrite elem_of_app. split; [intros [H|H]; [done|]|by left]. rewrite Forall_forall in Hext. destruct He. by apply Hext.
Qed.

Definition pod_listing (e : event ev) : option (kube * string * res (list Pod)) :=
  let '(mkEvent e a) := e in
  match e in ev X return X -> option (kube * string * res (list Pod)) with
  | kList c k ns => match k return res (list (kobj k)) -> option (kube * string * res (list Pod)) with
                    | KPod => fun a => Some (c, ns, a)
                    | _ => fun _ => None
                    end
  | _ => fun _ => None
  end a.
Definition deletion (e : event ev) : option (kube * string * string) :=
  match ev_call e with kDelete c _ ns n => Some (c, ns, n) | _ => None end.

(** Deleting a list of pods by name: the pod calls added are these deletions. *)
Lemma delete_all_wp c ns names log :
  wp any_env (delete_all c KPod ns names) log (fun log' _ =>
    (forall c' ns' r, mkEvent (kList c' KPod ns') r ∈ log' <-> mkEvent (kList c' KPod ns') r ∈ log) /\
    forall c' ns' n, (exists r, mkEvent (kDelete c' KPod ns' n) r ∈ log') <->
      (exists r, mkEvent (kDelete c' KPod ns' n) r ∈ log) \/ c' = c /\ ns' = ns /\ n ∈ names).
Proof.
  unfold delete_all. eapply wp_mono; [apply (wp_foldM any_env _ (fun pre log' _ =>
    (forall c' ns' r, mkEvent (kList c' KPod ns') r ∈ log' <-> mkEvent (kList c' KPod ns') r ∈ log) /\
    forall c' ns' n, (exists r, mkEvent (kDelete c' KPod ns' n) r ∈ log') <->
      (exists r, mkEvent (kDelete c' KPod ns' n) r ∈ log) \/ c' = c /\ ns' = ns /\ n ∈ pre) names [])|done].
  - split; [done|]. intros. rewrite elem_of_nil. tauto.
  - intros pre x post log' [] _ [Hl Hd]. wp_call r. cbn [wp]. split.
    + intros c' ns' r'. rewrite elem_of_app, list_elem_of_singleton, Hl. split; [|by left].
      intros [H|H]; [done|]. by apply (f_equal deletion) in H.
    + intros c' ns' n. rewrite elem_of_app, list_elem_of_singleton. setoid_rewrite elem_of_app.
      setoid_rewrite list_elem_of_singleton. split.
      * intros (r' & [H|H]); [|].
        -- destruct (proj1 (Hd c' ns' n)) as [H'|H']; [by exists r'|by left|right]. naive_solver.
        -- right. apply (f_equal deletion) in H as [= -> -> ->]. split_and!; [done|done|by right].
      * intros [H|(-> & -> & [H| ->])].
        -- destruct (proj2 (Hd c' ns' n)) as [r' H']; [by left|]. exists r'. by left.
        -- destruct (proj2 (Hd c ns n)) as [r' H']; [by right|]. exists r'. by left.
        -- exists r. by right.
Qed.

(** The hosts a listing of the nodes tells. *)
Definition hosts (nodes : res (list Node)) : gset string :=
  match nodes with Err _ => ∅ | Ok nodes => fold_left add_hostnames nodes ∅ end.

Lemma strip_kind_podless Catalog c k ns f g : k <> KPod -> only podless (strip_kind Catalog c k ns f g).
Proof.
  intros Hk. unfold strip_kind. apply only_bind; [apply only_trigger; by destruct k|].
  intros [os|e]; [|done]. apply only_foldM. intros [] o.
  destruct (heal_PodSpec Catalog (f o)) as [healed [|n ns']]; [done|]. by apply only_bind.
Qed.

Lemma stripDestWorkloads_podless Catalog c ns : only podless (stripDestWorkloads Catalog c ns).
Proof. apply only_bind; [|intros _; apply only_bind; [|intros _]]; by apply strip_kind_podless. Qed.

Lemma deletePinnedMoverJobs_podless c ns nodes : only podless (deletePinnedMoverJobs c ns nodes).
Proof.
  unfold deletePinnedMoverJobs, delete_all. apply only_bind; [done|]. intros [js|e]; [|done].
  apply only_foldM. intros. by apply only_bind.
Qed.

Lemma hostnamePin_scheduled spec : sp_NodeName spec <> EmptyString -> hostnamePin spec <> EmptyString.
Proof.
  intros H. unfold hostnamePin. case_if; [by apply negb_true_iff, String.eqb_neq in Heqb|].
  by rewrite (proj2 (String.eqb_neq _ _) H).
Qed.

(** The Jobs of a replication whose name extends another's are taken for its
    own. *)
Lemma mover_job_prefix rs j more :
  om_Name (job_Meta j) = "volsync-dst-" +:+ rs +:+ "-" +:+ more -> mover_job_of rs j = true.
Proof.
  intros E. unfold mover_job_of. rewrite E. apply andb_true_iff. split.
  - unfold isVolSyncMoverJob. apply orb_true_iff. right. apply HasPrefix_app.
  - apply orb_true_iff. left. rewrite <- (app_assoc_str rs). apply Contains_app_l, Contains_app_r, Contains_refl.
Qed.

(** ** Properties *)

(** C28: whatever the destination answers, the pods a replication deletes to
    strip pins are exactly the listed pods, VolSync's own excepted, pinned to a
    host that is not the name or hostname label of a listed Ready node. So when
    the nodes cannot be listed every pod that has been scheduled is deleted. *)
Theorem strip_deletes Catalog src dst ns :
  always (stripDestScheduling Catalog src dst ns) (fun log _ =>
    forall c pods, mkEvent (kList c KPod ns) (Ok pods) ∈ log -> exists nodes,
      mkEvent (kList c KNode EmptyString) nodes ∈ log /\
      (forall name, (exists r, mkEvent (kDelete c KPod ns name) r ∈ log) <->
         exists p, p ∈ pods /\ om_Name (pod_Meta p) = name /\ pinned_pod (hosts nodes) p = true) /\
      (forall e p, nodes = Err e -> p ∈ pods -> isVolSyncMoverJob (om_Name (pod_Meta p)) = false ->
         sp_NodeName (pod_Spec p) <> EmptyString ->
         exists r, mkEvent (kDelete c KPod ns (om_Name (pod_Meta p))) r ∈ log)).
Proof.
  unfold stripDestScheduling, always. assert (forall c r, mkEvent (kList c KPod ns) r ∉ ([] : list (event ev))) as Hnil
    by (intros; apply not_elem_of_nil).
  destruct (dest_kube src dst) as [d|]; [|intros c pods H; by destruct (Hnil c (Ok pods))].
  case_if; [intros c pods H; by destruct (Hnil c (Ok pods))|].
  unfold destHostnames. apply wp_bind. wp_call nodes. cbn [wp]. fold (hosts nodes). apply wp_bind.
  eapply wp_mono_ext; [apply wp_podless, stripDestWorkloads_podless|]. intros ext [] Hp2. cbv beta in Hp2.
  set (log2 := _ ++ ext) in *. apply wp_bind. unfold deletePinnedDestPods. wp_call pods. set (log3 := log2 ++ _).
  assert (forall e, pod_event e -> e ∈ log3 -> e = mkEvent (kList d KPod ns) pods) as H3.
  { intros e He [H|H%list_elem_of_singleton]%elem_of_app; [|done].
    apply Hp2, list_elem_of_singleton in H; [|done]. subst e. by destruct He. }
  assert (mkEvent (kList d KNode EmptyString) nodes ∈ log3) as Hn by (apply elem_of_app; left; apply elem_of_app; left; by left).
  destruct pods as [pods|e].
  - eapply wp_mono_ext; [apply delete_all_wp|]. intros ext3 [] [Hl Hd]. cbv beta in Hl, Hd.
    eapply wp_mono_ext; [apply wp_podless, deletePinnedMoverJobs_podless|]. intros ext4 [] Hp4. cbv beta in Hp4.
    intros c pods' H. apply Hp4 in H; [|intros F; exact F]. apply Hl, H3 in H; [|intros F; exact F].
    apply (f_equal pod_listing) in H as [= -> ->].
    assert (forall name, (exists r, mkEvent (kDelete d KPod ns name) r ∈ ((log3 ++ ext3) ++ ext4)) <->
      exists p, p ∈ pods /\ om_Name (pod_Meta p) = name /\ pinned_pod (hosts nodes) p = true) as Hiff.
    { intros name. transitivity (exists r, mkEvent (kDelete d KPod ns name) r ∈ (log3 ++ ext3)).
      - split; intros [r Hr]; exists r; (apply Hp4; [intros F; exact F|done]).
      - rewrite Hd. split.
        + intros [[r Hr]|(_ & _ & Hr)].
          * apply H3 in Hr; [|intros F; exact F]. by apply (f_equal deletion) in Hr.
          * apply list_elem_of_In, in_map_iff in Hr as (p & <- & [Hp Hpp]%filter_In). exists p. by rewrite list_elem_of_In.
        + intros (p & Hp & <- & Hpp). right. split_and!; [done|done|]. apply list_elem_of_In, in_map_iff.
          exists p. split; [done|]. apply filter_In. by rewrite <- list_elem_of_In. }
    exists nodes. split; [apply elem_of_app; left; apply elem_of_app; by left|]. split; [done|].
    intros e p -> Hp Hm Hs. apply Hiff. exists p. split_and!; [done|done|]. unfold pinned_pod, foreign. rewrite Hm.
    cbn [negb andb hosts]. rewrite bool_decide_false by apply not_elem_of_empty. rewrite andb_true_r.
    by apply negb_true_iff, String.eqb_neq, hostnamePin_scheduled.
  - cbn [wp]. eapply wp_mono_ext; [apply wp_podless, deletePinnedMoverJobs_podless|]. intros ext4 [] Hp4. cbv beta in Hp4.
    intros c pods' H. apply Hp4, H3 in H; [|intros F; exact F..]. by apply (f_equal pod_listing) in H.
Qed.
