(* ===== verification/Scratch.v ===== *)
(** * Scratch claims of the movers: src/pkg/movers/volsync/scratch.go

    VolSync's cache and clone claims are marked so that other backup tools
    skip them, and backup pods already attached to one are deleted.
    Iterating over the set of Jobs is in no particular order in Go; here it is
    the order of [elements]. *)

From Stdlib Require Import ZArith Lia.
From S2P Require Import Prelude GoStrings Effects Api Json Kube Classify DestPins.

Definition scratch_annotations : list (string * string) :=
  [("k8up.io/backup", "false"); ("k8up.synextreme.com/backup", "false");
   ("backup.appuio.io/backup", "false"); ("stash.appscode.com/skip", "true")]%string.
Definition scratch_labels : list (string * string) :=
  [("velero.io/exclude-from-backup", "true"); ("portage.io/scratch", "true")]%string.

(** Setting the entries that differ: the map and whether one did. *)
Definition set_marks (marks : list (string * string)) (m : strmap) : strmap * bool :=
  let '(m, changed) := fold_left (fun '(m, changed) '(k, v) =>
      if String.eqb (map_get EmptyString m k) v then (m, changed) else (<[k := v]> m, true))
    marks (default ∅ m, false) in
  (Some m, changed).

Definition ensureScratchMarks (p : PVC) : PVC * bool :=
  let '(anns, changed1) := set_marks scratch_annotations (om_Annotations (pvc_Meta p)) in
  let '(labels, changed2) := set_marks scratch_labels (om_Labels (pvc_Meta p)) in
  (pvc_with_meta (fun m => with_labels labels (with_annotations anns m)) p, changed1 || changed2).

Definition markScratchPVC (c : kube) (p : PVC) : io ev (option err) :=
  let ns := om_Namespace (pvc_Meta p) in
  let* cur := trigger (kGet c KPVC ns (om_Name (pvc_Meta p))) in
  match cur with
  | Err e => Ret (Some e)
  | Ok cur => let '(cur, changed) := ensureScratchMarks cur in
              if negb changed then Ret None else trigger (kUpdate c KPVC ns cur)
  end.

Definition podMountsScratch (p : Pod) (scratch : gset string) : bool :=
  existsb (fun v => match vol_PVC v with Some n => bool_decide (n ∈ scratch) | None => false end)
    (sp_Volumes (pod_Spec p)).

Definition jobOwner (p : Pod) : string :=
  match List.find (fun o => String.eqb (or_Kind o) "Job" && negb (String.eqb (or_Name o) EmptyString))
          (om_OwnerReferences (pod_Meta p)) with
  | Some o => or_Name o
  | None => EmptyString
  end.

Definition isBackupToolPod (p : Pod) : bool :=
  let n := om_Name (pod_Meta p) in
  let l k := nmap_get EmptyString (om_Labels (pod_Meta p)) k in
  let set k := negb (String.eqb (l k) EmptyString) in
  if isVolSyncMoverJob n then false
  else
    set "k8up.io/type"%string || set "k8upjob"%string ||
    bool_decide (l "app.kubernetes.io/managed-by"%string ∈ ["k8up"; "velero"; "stash"]%string) ||
    set "velero.io/backup-name"%string || set "velero.io/restore-name"%string ||
    HasPrefix n "backup-" ||
    existsb (fun c => let img := ToLower (ct_Image c) in
               Contains img "k8up" || Contains img "velero" || Contains img "stash")
      (sp_InitContainers (pod_Spec p) ++ sp_Containers (pod_Spec p)).

Definition evictBackupPodsFromScratch (c : kube) (ns : string) (scratch : gset string) : io ev unit :=
  let* pods := trigger (kList c KPod ns) in
  match pods with
  | Err _ => Ret tt
  | Ok pods =>
      let* jobs := foldM (fun jobs p =>
          if negb (podMountsScratch p scratch) || negb (isBackupToolPod p) then Ret jobs
          else
            let job := jobOwner p in
            if negb (String.eqb job EmptyString) then Ret ({[job]} ∪ jobs)
            else let* _ := trigger (kDelete c KPod ns (om_Name (pod_Meta p))) in Ret jobs)
        (∅ : gset string) pods in
      delete_all c KJob ns (elements jobs)
  end.

(** [errors.Join]: the messages on their own lines. *)
Definition join_errors (es : list err) : option err :=
  match es with
  | [] => None
  | _ => Some (errorf (Join nl (List.map err_msg es)))
  end.

Definition ProtectScratchPVCs (c : option kube) (ns : string) : io ev (option err) :=
  match c with
  | None => Ret None
  | Some c =>
      if String.eqb ns EmptyString then Ret None
      else
        let* pvcs := trigger (kList c KPVC ns) in
        match pvcs with
        | Err e => Ret (Some (wrapf ("list PVCs in " +:+ ns +:+ ": ") e))
        | Ok pvcs =>
            let* ' (scratch, errs) := foldM (fun '(scratch, errs) p =>
                if negb (IsMoverScratchPVC p) then Ret (scratch, errs)
                else
                  let name := om_Name (pvc_Meta p) in
                  let* e := markScratchPVC c p in
                  Ret ({[name]} ∪ scratch,
                       match e with
                       | Some err => if IsNotFound e then errs
                                     else errs ++ [wrapf ("mark scratch PVC " +:+ ns +:+ "/" +:+ name +:+ ": ") err]
                       | None => errs
                       end))
              ((∅ : gset string), []) pvcs in
            let* _ := if bool_decide (scratch = ∅) then Ret tt else evictBackupPodsFromScratch c ns scratch in
            Ret (join_errors errs)
        end
  end.

Definition protectCaches (src dst : option kube) (ns : string) : io ev (option err) :=
  let* e := ProtectScratchPVCs src ns in
  match e with
  | Some e => Ret (Some e)
  | None =>
      let dk := dest_kube src dst in
      match dk with
      | None => Ret None
      | Some _ => if bool_decide (dk = src) then Ret None else ProtectScratchPVCs dk ns
      end
  end.
