(* ===== verification/Secrets.v ===== *)
(** * The mover's secrets: src/pkg/movers/volsync/secrets.go

    The rclone configuration, the restic repository of a workload and the key
    of rsyncTLS: created, kept stable, and copied to the destination. Names are
    ASCII (Kubernetes object names are). *)

From Stdlib Require Import ZArith Lia Ascii.
From S2P Require Import Prelude GoStrings Effects ObjectStore Api Json Kube.

Definition rcloneSecretName : string := "portage-rclone".
Definition tlsSecretName : string := "portage-rsync-tls".
Definition resticSecretPrefix : string := "portage-restic-".

Definition alnum (c : ascii) : bool :=
  let n := N_of_ascii c in
  ((97 <=? n) && (n <=? 122))%N || ((48 <=? n) && (n <=? 57))%N.

(** The loop over the name: [prevDash], and whether something was written. *)
Fixpoint dashed (prevDash wrote : bool) (s : string) : string :=
  match s with
  | EmptyString => EmptyString
  | String c s' =>
      if alnum c then String c (dashed false true s')
      else if negb prevDash && wrote then String "-" (dashed true true s')
      else dashed prevDash wrote s'
  end.

Definition dns1123 (name : string) : string :=
  let out := Trim (dashed false false (ToLower name)) "-" in
  let out := if String.eqb out EmptyString then "workload"%string else out in
  let max := 253 - String.length resticSecretPrefix in
  if (max <? String.length out)%nat then
    let out := Trim (take_str max out) "-" in
    if String.eqb out EmptyString then "workload"%string else out
  else out.

Definition ResticSecretName (workload : string) : string := resticSecretPrefix +:+ dns1123 workload.

Definition orRegion (r : string) : string := or_else r "us-east-1".

Definition RcloneINI (c : Creds) : string :=
  let provider := if String.eqb (cr_Endpoint c) EmptyString then "AWS"%string else "Minio"%string in
  Join nl ["[rclone]"; "type = s3"; "provider = " +:+ provider; "env_auth = false";
           "access_key_id = " +:+ cr_AccessKey c; "secret_access_key = " +:+ cr_SecretKey c;
           "endpoint = " +:+ cr_Endpoint c; "region = " +:+ orRegion (cr_Region c); EmptyString]%string.

Definition ignoreExists (e : option err) : option err := if IsAlreadyExists e then None else e.

Definition managed_labels : strmap := Some {["app.kubernetes.io/managed-by" := "portage"]}%string.

Definition new_secret (name ns : string) (data : strmap) : Secret :=
  mkSecret (new_meta name ns managed_labels None) "Opaque" data.

Definition sec_with_data (data : strmap) (s : Secret) : Secret := mkSecret (sec_Meta s) (sec_Type s) data.

Section secrets.
  Context (url_Parse : string -> option (string * string * string)).

Definition upsertSecret (c : kube) (sec : Secret) : io ev (option err) :=
  let ns := om_Namespace (sec_Meta sec) in
  let* e := trigger (kCreate c KSecret ns sec) in
  if IsAlreadyExists e then trigger (kUpdate c KSecret ns sec) else Ret e.

(** The data of a repository secret with a password. *)
Definition restic_data (cr : Creds) (destPath pw : string) : gmap string string :=
  <["RESTIC_REPOSITORY" := ResticRepository url_Parse cr destPath]>
  (<["RESTIC_PASSWORD" := pw]>
  (<["AWS_ACCESS_KEY_ID" := cr_AccessKey cr]>
  (<["AWS_SECRET_ACCESS_KEY" := cr_SecretKey cr]>
  (<["AWS_DEFAULT_REGION" := orRegion (cr_Region cr)]> ∅))))%string.

Definition ensureResticSecret (c : kube) (namespace : string) (cr : Creds) (destPath workload : string)
    : io ev (option err) :=
  let* pw := trigger (randRead 16) in
  match pw with
  | Err e => Ret (Some e)
  | Ok pw =>
      let name := ResticSecretName workload in
      let pw := EncodeToString pw in
      let* cur := trigger (kGet c KSecret namespace name) in
      match cur with
      | Ok cur =>
          let old := nmap_get EmptyString (sec_Data cur) "RESTIC_PASSWORD" in
          let pw := if String.eqb old EmptyString then pw else old in
          trigger (kUpdate c KSecret namespace (sec_with_data (Some (restic_data cr destPath pw)) cur))
      | Err e =>
          if negb (IsNotFound (Some e)) then Ret (Some e)
          else
            let* e := trigger (kCreate c KSecret namespace
                         (new_secret name namespace (Some (restic_data cr destPath pw)))) in
            Ret (ignoreExists e)
      end
  end.

Definition ensureTLSSecret (c : kube) (namespace : string) : io ev (option err) :=
  let* psk := trigger (randRead 32) in
  match psk with
  | Err e => Ret (Some e)
  | Ok psk =>
      let* cur := trigger (kGet c KSecret namespace tlsSecretName) in
      let* e := if IsNotFound (err_of cur)
                then trigger (kCreate c KSecret namespace
                       (new_secret tlsSecretName namespace (Some {["psk" := EncodeToString psk]}%string)))
                else Ret (err_of cur) in
      Ret (ignoreExists e)
  end.

Definition EnsureSecrets (c : option kube) (namespace : string) (cr : Creds) (destPath workload : string)
    : io ev (option err) :=
  match c with
  | None => Ret None
  | Some c =>
      if String.eqb namespace EmptyString then Ret None
      else
        let* e :=
          if String.eqb (cr_AccessKey cr) EmptyString then Ret None
          else
            let* e := upsertSecret c (new_secret rcloneSecretName namespace
                        (Some {["rclone.conf" := RcloneINI cr]}%string)) in
            match e with
            | Some e => Ret (Some e)
            | None => ensureResticSecret c namespace cr destPath workload
            end in
        match e with Some e => Ret (Some e) | None => ensureTLSSecret c namespace end
  end.

(** One secret, from the source to the destination. *)
Definition copySecret (src dst : kube) (namespace name : string) : io ev (option err) :=
  let* sec := trigger (kGet src KSecret namespace name) in
  match sec with
  | Err e => Ret (if IsNotFound (Some e) then None else Some e)
  | Ok sec =>
      let copied (e : option err) := option_map (wrapf ("copy " +:+ name +:+ ": ")) e in
      let* cur := trigger (kGet dst KSecret namespace name) in
      match cur with
      | Err e =>
          if IsNotFound (Some e) then
            let* e := trigger (kCreate dst KSecret namespace
                        (mkSecret (new_meta name namespace managed_labels None) (sec_Type sec) (sec_Data sec))) in
            Ret (copied (ignoreExists e))
          else Ret (copied (Some e))
      | Ok cur =>
          let* e := trigger (kUpdate dst KSecret namespace (sec_with_data (sec_Data sec) cur)) in
          Ret (copied e)
      end
  end.

Definition CopySecrets (src dst : option kube) (namespace workload : string) : io ev (option err) :=
  match src, dst with
  | Some src, Some dst =>
      if bool_decide (src = dst) || String.eqb namespace EmptyString then Ret None
      else
        let* r := loopM (fun _ name =>
            let* e := copySecret src dst namespace name in
            Ret (match e with None => inl tt | Some e => inr e end))
          tt [rcloneSecretName; ResticSecretName workload; tlsSecretName] in
        Ret (match r with inl _ => None | inr e => Some e end)
  | _, _ => Ret None
  end.
End secrets.

(** ** Lemmas *)

Definition password (s : Secret) : string := nmap_get EmptyString (sec_Data s) "RESTIC_PASSWORD".

Lemma restic_password url_Parse cr path pw sec :
  password (sec_with_data (Some (restic_data url_Parse cr path pw)) sec) = pw.
Proof.
  unfold password, restic_data. cbn. unfold map_get.
  rewrite lookup_insert_ne, lookup_insert_eq by done. done.
Qed.

(** A read of a secret that was answered. *)
Definition secret_read (c : kube) (ns name : string) (r : res Secret) (log : list (event ev)) : Prop :=
  mkEvent (kGet c KSecret ns name) r ∈ log.

Definition was_absent (c : kube) (ns name : string) (log : list (event ev)) : Prop :=
  exists e, secret_read c ns name (Err e) log /\ IsNotFound (Some e) = true.

(** What may be written to the secrets of a workload: rclone's configuration,
    a repository that was not there or that keeps its password, a key that was
    not there. *)
Definition stable_secret (c : kube) (ns workload : string) (log : list (event ev)) (e : event ev) : Prop :=
  match ev_call e with
  | kCreate c' k _ o => match k return kobj k -> Prop with
      | KSecret => fun s =>
          let name := om_Name (sec_Meta s) in
          c' = c /\ (name = rcloneSecretName \/
            (name = ResticSecretName workload \/ name = tlsSecretName) /\ was_absent c ns name log)
      | _ => fun _ => False
      end o
  | kUpdate c' k _ o => match k return kobj k -> Prop with
      | KSecret => fun s => c' = c /\
          (om_Name (sec_Meta s) = rcloneSecretName \/
           exists cur, secret_read c ns (ResticSecretName workload) (Ok cur) log /\ sec_Meta s = sec_Meta cur /\
             (password cur <> EmptyString -> password s = password cur))
      | _ => fun _ => False
      end o
  | e => writes e = false
  end.

(** What may be written when copying: the data of a secret of the source. *)
Definition copied_secret (src dst : kube) (ns : string) (log : list (event ev)) (e : event ev) : Prop :=
  let same c' s := c' = dst /\ exists name sec, secret_read src ns name (Ok sec) log /\ sec_Data s = sec_Data sec in
  match ev_call e with
  | kCreate c' k _ o => match k return kobj k -> Prop with KSecret => fun s => same c' s | _ => fun _ => False end o
  | kUpdate c' k _ o => match k return kobj k -> Prop with KSecret => fun s => same c' s | _ => fun _ => False end o
  | e => writes e = false
  end.

(** The secret is the source's on the destination, or not there to copy. *)
Definition secret_copied (src dst : kube) (ns name : string) (log : list (event ev)) : Prop :=
  was_absent src ns name log \/
  exists sec s, secret_read src ns name (Ok sec) log /\ sec_Data s = sec_Data sec /\
    (mkEvent (kUpdate dst KSecret ns s) None ∈ log \/
     exists e, mkEvent (kCreate dst KSecret ns s) e ∈ log /\ ignoreExists e = None).

(** ** Properties *)

Section properties.
  Context (url_Parse : string -> option (string * string * string)).

Lemma upsert_stable c ns workload data log : each (stable_secret c ns workload) log ->
  wp any_env (upsertSecret c (new_secret rcloneSecretName ns data)) log (fun log' _ =>
    each (stable_secret c ns workload) log').
Proof.
  intros Hl. unfold upsertSecret. wp_call e.
  assert (each (stable_secret c ns workload) (log ++ [mkEvent (kCreate c KSecret
    (om_Namespace (sec_Meta (new_secret rcloneSecretName ns data))) (new_secret rcloneSecretName ns data)) e])) as Hl1
    by (apply each_snoc; [done|]; split; [done|by left]).
  case_if; [|done]. intros x s' ->. apply each_snoc; [done|]. split; [done|by left].
Qed.

Lemma restic_stable c ns cr path workload log : each (stable_secret c ns workload) log ->
  wp any_env (ensureResticSecret url_Parse c ns cr path workload) log (fun log' _ =>
    each (stable_secret c ns workload) log').
Proof.
  intros Hl. unfold ensureResticSecret. wp_call pw.
  assert (each (stable_secret c ns workload) (log ++ [mkEvent (randRead 16) pw])) as Hl1 by by apply each_snoc.
  destruct pw as [pw|e]; [|exact Hl1]. wp_call cur. set (log2 := _ ++ _).
  assert (each (stable_secret c ns workload) log2) as Hl2 by by apply each_snoc.
  assert (secret_read c ns (ResticSecretName workload) cur log2) as Hr by (apply elem_of_app; right; by left).
  destruct cur as [cur|e].
  - intros x s' ->. apply each_snoc; [done|]. split; [done|right]. exists cur. split_and!; [done|done|].
    intros Hp. rewrite restic_password. fold (password cur). by rewrite (proj2 (String.eqb_neq _ _) Hp).
  - destruct (IsNotFound (Some e)) eqn:En; cbn [negb]; [|done]. wp_call x. apply each_snoc; [done|].
    split; [done|right]. split; [by left|]. exists e. done.
Qed.

Lemma tls_stable c ns workload log : each (stable_secret c ns workload) log ->
  wp any_env (ensureTLSSecret c ns) log (fun log' _ => each (stable_secret c ns workload) log').
Proof.
  intros Hl. unfold ensureTLSSecret. wp_call psk.
  assert (each (stable_secret c ns workload) (log ++ [mkEvent (randRead 32) psk])) as Hl1 by by apply each_snoc.
  destruct psk as [psk|e]; [|exact Hl1]. wp_call cur. set (log2 := _ ++ _).
  assert (each (stable_secret c ns workload) log2) as Hl2 by by apply each_snoc.
  case_if; [|exact Hl2]. apply wp_bind. intros x s' ->. cbn [wp].
  apply each_snoc; [done|]. split; [done|right]. split; [by right|].
  destruct cur as [cur|e]; [done|]. exists e. split; [apply elem_of_app; right; by left|done].
Qed.
End properties.

(** C25: whatever the cluster answers, ensuring a workload's secrets never
    changes a restic password that is set nor an existing rsyncTLS key: a
    repository is updated only with the password that was read, and a
    repository or a key is created only after it was read to be absent. *)
Theorem EnsureSecrets_stable url_Parse c ns cr path workload :
  always (EnsureSecrets url_Parse (Some c) ns cr path workload) (fun log _ =>
    each (stable_secret c ns workload) log).
Proof.
  unfold EnsureSecrets, always. case_if; [apply each_nil|]. apply wp_bind.
  eapply wp_mono with (P := fun log _ => each (stable_secret c ns workload) log).
  - case_if; [apply each_nil|]. apply wp_bind. eapply wp_mono; [apply upsert_stable, each_nil|].
    intros log [e|] Hl; [done|by apply restic_stable].
  - intros log [e|] Hl; [done|by apply tls_stable].
Qed.

Section copy.
  Context (src dst : kube) (ns : string).

Lemma was_absent_mono c name log ext : was_absent c ns name log -> was_absent c ns name (log ++ ext).
Proof. intros (e & Hr & He). exists e. split; [apply elem_of_app; by left|done]. Qed.

Lemma secret_copied_mono name log ext : secret_copied src dst ns name log -> secret_copied src dst ns name (log ++ ext).
Proof.
  intros [H|(sec & s & Hr & Hd & Hw)]; [left; by apply was_absent_mono|right]. exists sec, s.
  split_and!; [apply elem_of_app; by left|done|]. destruct Hw as [Hw|(e & Hw & He)].
  - left. apply elem_of_app. by left.
  - right. exists e. split; [apply elem_of_app; by left|done].
Qed.

Lemma copySecret_wp name log : each (copied_secret src dst ns) log ->
  wp any_env (copySecret src dst ns name) log (fun log' r =>
    each (copied_secret src dst ns) log' /\ (r = None -> secret_copied src dst ns name log')).
Proof.
  intros Hl. unfold copySecret. wp_call sec. set (log1 := _ ++ _).
  assert (each (copied_secret src dst ns) log1) as Hl1 by by apply each_snoc.
  assert (secret_read src ns name sec log1) as Hr by (apply elem_of_app; right; by left).
  destruct sec as [sec|e].
  2: { cbn [wp]. split; [done|]. case_if; [|done]. intros _. left. by exists e. }
  wp_call cur. set (log2 := log1 ++ _). assert (each (copied_secret src dst ns) log2) as Hl2 by by apply each_snoc.
  assert (secret_read src ns name (Ok sec) log2) as Hr2 by (apply elem_of_app; by left).
  assert (forall s, sec_Data s = sec_Data sec -> exists name sec0, secret_read src ns name (Ok sec0) log2 /\
    sec_Data s = sec_Data sec0) as Hs by eauto.
  destruct cur as [cur|e]; [|case_if; [|done]]; wp_call x; cbn [wp].
  - split; [apply each_snoc; [done|]; split; [done|by apply Hs]|]. intros Hx. destruct x as [x|]; [done|].
    right. exists sec, (sec_with_data (sec_Data sec) cur). split_and!; [apply elem_of_app; by left|done|].
    left. apply elem_of_app. right. by left.
  - split; [apply each_snoc; [done|]; split; [done|by apply Hs]|]. intros Hx. right. eexists sec, _.
    split_and!; [apply elem_of_app; by left| |right; exists x; split; [apply elem_of_app; right; by left|]]; [done|].
    by destruct (ignoreExists x).
Qed.
End copy.

(** whatever the clusters answer, copying a workload's secrets writes on the
    destination only, and only data read from a secret of the source; and when
    it succeeds each of the three secrets was absent on the source or was
    written to the destination with the source's data (or created there by
    someone else meanwhile). *)
Theorem CopySecrets_same src dst ns workload :
  always (CopySecrets (Some src) (Some dst) ns workload) (fun log r =>
    each (copied_secret src dst ns) log /\
    (r = None -> src <> dst -> ns <> EmptyString -> forall name,
       name ∈ [rcloneSecretName; ResticSecretName workload; tlsSecretName] -> secret_copied src dst ns name log)).
Proof.
  unfold CopySecrets, always. destruct (bool_decide (src = dst)) eqn:Esd.
  { cbn [orb wp]. split; [apply each_nil|]. boolify. by intros _ ?. }
  destruct (String.eqb_spec ns EmptyString) as [->|]; cbn [orb].
  { split; [apply each_nil|]. by intros _ _ ?. }
  set (names := [_; _; _]). apply wp_bind. eapply wp_mono.
  - apply (wp_loopM any_env _ (fun pre log _ => each (copied_secret src dst ns) log /\
        forall name, name ∈ pre -> secret_copied src dst ns name log)
      (fun log _ => each (copied_secret src dst ns) log) names []); [split; [apply each_nil|set_solver]|].
    intros pre name post log [] _ [Hl Hp]. apply wp_bind. eapply wp_mono_ext; [by apply copySecret_wp|].
    intros ext [e|] [Hl' Hc]; cbn [wp]; [done|]. split; [done|].
    intros nm [Hn| ->%list_elem_of_singleton]%elem_of_app; [by apply secret_copied_mono, Hp|by apply Hc].
  - intros log [[]|e] H; cbn [wp]; [|by split]. destruct H as [H1 H2]. split; [done|]. intros _ _ _. apply H2.
Qed.

(** ** The names of the repositories *)

(** A DNS-1123 subdomain as the API server takes it for a Secret: lower-case
    letters, digits and dashes, a letter or digit at either end, 253 at most. *)
Definition name_char (c : ascii) : bool := alnum c || Ascii.eqb c "-".
Definition valid_name (s : string) : Prop :=
  all_chars name_char s = true /\ (String.length s <= 253)%nat /\
  exists a t c, s = String a t +:+ String c EmptyString /\ alnum a = true /\ alnum c = true.

(** A name with dashes only between letters or digits, one at a time. *)
Fixpoint tidy (prevDash : bool) (s : string) : bool :=
  match s with
  | EmptyString => negb prevDash
  | String c s' => if alnum c then tidy false s' else Ascii.eqb c "-" && negb prevDash && tidy true s'
  end.

Lemma dashed_chars p w s : all_chars name_char (dashed p w s) = true.
Proof.
  revert p w. induction s as [|c s IH]; intros p w; [done|]. cbn. case_if; [|case_if; [|done]]; cbn.
  - unfold name_char at 1. by rewrite Heqb, IH.
  - by rewrite IH.
Qed.

(** Trimmed of dashes, such a string is empty or ends in a letter or digit. *)
Lemma trimmed_last s : all_chars name_char s = true -> Trim s "-" = EmptyString \/
  exists t c, Trim s "-" = t +:+ String c EmptyString /\ alnum c = true.
Proof.
  intros H. unfold Trim, TrimFunc. pose proof (all_chars_TrimFunc name_char (in_cutset "-") s H) as Ha.
  destruct (TrimRightFunc_last (in_cutset "-") (TrimLeftFunc (in_cutset "-") s)) as [E|(t & c & E & Hc)]; [by left|].
  right. exists t, c. split; [done|]. unfold TrimFunc in Ha. rewrite E, all_chars_app in Ha.
  apply andb_true_iff in Ha as [_ Ha]. cbn in Ha, Hc. unfold name_char in Ha.
  rewrite andb_true_r in Ha. rewrite orb_false_r in Hc. by rewrite Hc, orb_false_r in Ha.
Qed.

Definition fits (s : string) : Prop :=
  all_chars name_char s = true /\ (String.length s <= 253 - String.length resticSecretPrefix)%nat /\
  exists t c, s = t +:+ String c EmptyString /\ alnum c = true.

Lemma workload_fits : fits "workload".
Proof. split_and!; [done|cbn; lia|]. by exists "workloa"%string, "d"%char. Qed.

Lemma dns1123_fits name : fits (dns1123 name).
Proof.
  unfold dns1123. set (d := dashed false false (ToLower name)).
  assert (all_chars name_char d = true) as Hd by apply dashed_chars. clearbody d.
  pose proof (all_chars_TrimFunc name_char (in_cutset "-") d Hd) as Ht.
  set (out := if String.eqb (Trim d "-") EmptyString then "workload"%string else Trim d "-").
  assert (all_chars name_char out = true /\ exists t c, out = t +:+ String c EmptyString /\ alnum c = true) as [Ho Hl].
  { subst out. destruct (trimmed_last d Hd) as [E|(t & c & E & Hc)]; rewrite E.
    - split; [done|]. by exists "workloa"%string, "d"%char.
    - destruct (String.eqb_spec (t +:+ String c EmptyString) EmptyString) as [E'|_];
        [by destruct t|]. unfold Trim in E. rewrite <- E at 1. split; [done|]. by exists t, c. }
  clearbody out. cbv zeta. destruct (Nat.ltb_spec (253 - String.length resticSecretPrefix) (String.length out)) as [Hlt|Hle].
  - set (cut := take_str _ out). assert (all_chars name_char cut = true) as Hc by by apply all_chars_take.
    destruct (trimmed_last cut Hc) as [E|(t & c & E & Hlast)]; rewrite E; [apply workload_fits|].
    destruct (String.eqb_spec (t +:+ String c EmptyString) EmptyString) as [E'|_]; [by destruct t|].
    rewrite <- E. split_and!; [by apply all_chars_TrimFunc| |by exists t, c].
    etrans; [apply length_TrimFunc|]. subst cut. rewrite length_take_str. lia.
  - by split_and!.
Qed.


Lemma alnum_lower c : alnum c = true -> ascii_lower c = c.
Proof.
  unfold alnum, ascii_lower. intros H. case_if; [|done]. exfalso.
  apply andb_true_iff in Heqb as [H1%N.leb_le H2%N.leb_le].
  apply orb_true_iff in H as [[H3%N.leb_le H4%N.leb_le]%andb_true_iff|[H3%N.leb_le H4%N.leb_le]%andb_true_iff]; lia.
Qed.

Lemma tidy_lower p s : tidy p s = true -> ToLower s = s.
Proof.
  revert p. induction s as [|c s IH]; intros p; cbn; [done|]. destruct (alnum c) eqn:E.
  - intros H. by rewrite alnum_lower, (IH false).
  - intros [[Hc _]%andb_true_iff H]%andb_true_iff. apply Ascii.eqb_eq in Hc as ->. by rewrite (IH true).
Qed.

Lemma tidy_dashed p s : tidy p s = true -> dashed p true s = s.
Proof.
  revert p. induction s as [|c s IH]; intros p; cbn; [done|]. destruct (alnum c) eqn:E.
  - intros H. by rewrite IH.
  - intros [[Hc Hp]%andb_true_iff H]%andb_true_iff. apply Ascii.eqb_eq in Hc as ->. rewrite Hp. cbn. by rewrite IH.
Qed.

Lemma tidy_right p s : tidy p s = true -> TrimRightFunc (in_cutset "-") s = s.
Proof.
  revert p. induction s as [|c s IH]; intros p; [done|]. cbn [tidy TrimRightFunc]. destruct (alnum c) eqn:E.
  - intros H. rewrite (IH false H). destruct s; [|done]. cbn. rewrite orb_false_r.
    destruct (Ascii.eqb_spec c "-") as [->|]; done.
  - intros [_ H]%andb_true_iff. rewrite (IH true H). by destruct s.
Qed.

(** A tidy name that fits is kept as it is. *)
Lemma dns1123_tidy s : tidy true s = true -> (String.length s <= 238)%nat -> dns1123 s = s.
Proof.
  intros H Hl. unfold dns1123. rewrite (tidy_lower true) by done.
  destruct s as [|c s]; [done|]. cbn [tidy] in H. destruct (alnum c) eqn:E; [|by rewrite andb_false_r in H].
  assert (Trim (dashed false false (String c s)) "-" = String c s) as ->.
  { cbn [dashed]. rewrite E, (tidy_dashed false) by done. unfold Trim, TrimFunc. cbn [TrimLeftFunc].
    destruct (in_cutset "-" c) eqn:Ec.
    - cbn in Ec. rewrite orb_false_r in Ec. by apply Ascii.eqb_eq in Ec as ->.
    - apply (tidy_right true). cbn [tidy]. by rewrite E. }
  cbv zeta. change (String.eqb (String c s) EmptyString) with false. cbv iota.
  assert ((253 - String.length resticSecretPrefix <? String.length (String c s))%nat = false) as ->; [|done].
  apply Nat.ltb_ge. exact Hl.
Qed.

(** C27: the name of a repository secret is well formed. Whatever the workload is
    called, the name is a DNS-1123 subdomain of at most 253 characters; and
    workloads whose names are letters and digits separated by single dashes, up
    to 238 characters, have secrets of their own. (Names with a dot or a double
    dash do not: [dotted_names_collide].) *)
Theorem ResticSecretName_valid :
  (forall name, valid_name (ResticSecretName name)) /\
  (forall a b, tidy true a = true -> tidy true b = true -> (String.length a <= 238)%nat ->
     (String.length b <= 238)%nat -> ResticSecretName a = ResticSecretName b -> a = b).
Proof.
  split.
  - intros name. destruct (dns1123_fits name) as (Ha & Hl & t & c & E & Hc). unfold ResticSecretName.
    split_and!.
    + by rewrite all_chars_app, Ha.
    + rewrite length_app_str. cbn in *. lia.
    + rewrite E. exists "p"%char, ("ortage-restic-" +:+ t), c. split_and!; [|done|done]. by rewrite <- !app_assoc_str.
  - intros a b Ha Hb Hla Hlb E. unfold ResticSecretName in E. apply app_inj_l_str in E. by rewrite !dns1123_tidy in E.
Qed.

Example dotted_names_collide :
  ResticSecretName "shop-db.v1" = ResticSecretName "shop-db-v1" /\ ResticSecretName "a--b" = ResticSecretName "a-b".
Proof. split; vm_compute; reflexivity. Qed.
