(* ===== verification/Volsync.v ===== *)
(** * The VolSync mover: src/pkg/movers/volsync (volsync.go, artifact.go) and
    src/pkg/movers/rclone

    ReplicationSource and ReplicationDestination resources per workload, and
    what their status says. [url.Parse] is a parameter, as in ObjectStore.v. *)

From Stdlib Require Import ZArith Lia Ascii.
From S2P Require Import Prelude GoStrings Effects ObjectStore Api Json Kube Unstructured Classify Movers Usefulness.
From S2P Require Import Transform Heal Graph Capsule DestPins Scratch Secrets.

Definition srcGVR : GVR := mkGVR "volsync.backube" "v1alpha1" "replicationsources".
Definition dstGVR : GVR := mkGVR "volsync.backube" "v1alpha1" "replicationdestinations".

Record VolsyncMover := mkVolsync {
  vs_Dynamic : option dyn;
  vs_DestDynamic : option dyn;
  vs_Kube : option kube;
  vs_DestKube : option kube;
  vs_Transport : TransportType;
  vs_DestPath : string;
  vs_Schedule : string;
  vs_Creds : Creds;
  vs_CopyMethod : string;
  vs_SnapshotClass : string;
  vs_ObjectMover : string;
  vs_StorageClassMap : strmap }.

(** The zero [objectstore.Creds]. *)
Definition no_creds : Creds := mkCreds "" "" "" "" "" "" "".

(** rclone.New *)
Definition New (d : option dyn) (destPath : string) : VolsyncMover :=
  mkVolsync d None None None TransportObjectStore destPath "" no_creds "" "" "rclone" None.

Definition remoteDest (m : VolsyncMover) : bool := remote_dest (vs_Kube m) (vs_DestKube m).
Definition destKube (m : VolsyncMover) : option kube := dest_kube (vs_Kube m) (vs_DestKube m).
Definition destDyn (m : VolsyncMover) : option dyn :=
  match vs_DestDynamic m with
  | Some d => Some d
  | None => if remoteDest m then None else vs_Dynamic m
  end.

Definition Name (m : VolsyncMover) : string :=
  if String.eqb (vs_ObjectMover m) "rclone" then "rclone" else "volsync".

Definition Classes : list WorkloadClass :=
  [ClassGenericPVC; ClassUnknownStateful; ClassSearchFS; ClassQueueDurable; ClassObjectStore;
   ClassSQLLogical; ClassKVLogical].

Definition Discover (w : Workload) : Capability :=
  match w_PVCNames w with [] => no_cap | _ => mkCap true true true end.

(** ** The resources *)

Definition firstDataPVC (names : list string) : string :=
  match List.find (fun n => negb (String.eqb n EmptyString) && negb (ScratchPVCName n)) names with
  | Some n => n
  | None => EmptyString
  end.

Definition pair_name (w : Workload) : string := "portage-" +:+ w_Name w.

Definition resticCopy (m : VolsyncMover) : bool :=
  bool_decide (vs_Transport m = TransportObjectStore) && negb (String.eqb (vs_ObjectMover m) "rclone").

Definition copyMethod (m : VolsyncMover) : string :=
  if negb (String.eqb (vs_CopyMethod m) EmptyString) then vs_CopyMethod m
  else if negb (String.eqb (vs_SnapshotClass m) EmptyString) then "Snapshot" else "Direct".

Definition schedule (m : VolsyncMover) : string := or_else (vs_Schedule m) "*/5 * * * *".

Definition trigger_spec (m : VolsyncMover) : json := JObj [("schedule", JStr (schedule m))]%string.

Definition objectPath (m : VolsyncMover) (w : Workload) : string :=
  let base := or_else (TrimRight (vs_DestPath m) "/") "s3://portage" in
  base +:+ "/" +:+ or_else (w_Namespace w) "default" +:+ "/" +:+ or_else (w_Name w) "workload".

Definition moverSecurityContext (w : Workload) : option obj :=
  match w_FSGroup w, w_RunAsUser w with
  | None, None => None
  | fs, ru => Some (match fs with Some g => [("fsGroup"%string, JInt g)] | None => [] end ++
                    match ru with Some u => [("runAsUser"%string, JInt u)] | None => [] end)
  end.

Definition engineRestoreUID (w : Workload) : Z :=
  match w_Engine w with
  | "mysql" | "mariadb" => 27
  | "postgres" | "redis" | "mongo" | "mongodb" => 999
  | _ => match w_Class w with ClassSQLLogical | ClassKVLogical => 999 | _ => 0 end
  end%string%Z.

Definition destMoverSecurityContext (w : Workload) : option obj :=
  let uid := match w_RunAsUser w with
             | Some u => if (u =? 0)%Z then engineRestoreUID w else u
             | None => engineRestoreUID w
             end in
  if (uid =? 0)%Z then None else Some [("runAsUser", JInt uid)]%string.

Definition field_of (k : string) (o : option obj) : obj :=
  match o with Some o => [(k, JObj o)] | None => [] end.

Definition snapshot_class_field (m : VolsyncMover) : obj :=
  if String.eqb (copyMethod m) "Snapshot" && negb (String.eqb (vs_SnapshotClass m) EmptyString)
  then [("volumeSnapshotClassName", JStr (vs_SnapshotClass m))]%string else [].

Definition resticSpec (m : VolsyncMover) (w : Workload) : obj :=
  [("repository", JStr (ResticSecretName (w_Name w))); ("copyMethod", JStr (copyMethod m));
   ("cacheCapacity", JStr "1Gi"); ("pruneIntervalDays", JInt 7);
   ("retain", JObj [("hourly", JInt 3); ("daily", JInt 1)])]%string ++
  snapshot_class_field m ++ field_of "moverSecurityContext" (moverSecurityContext w).

(** [stripDestMoverScheduling] *)
Definition stripDestMoverScheduling (spec : obj) : obj := oset spec "moverTolerations" (JArr []).

Definition destResticSpec (m : VolsyncMover) (w : Workload) : obj :=
  let pvc := firstDataPVC (w_PVCNames w) in
  stripDestMoverScheduling (
    [("repository", JStr (ResticSecretName (w_Name w))); ("copyMethod", JStr (copyMethod m));
     ("cacheCapacity", JStr "1Gi")]%string ++
    (if negb (String.eqb pvc EmptyString) then [("destinationPVC", JStr pvc)]%string
     else [("accessModes", JArr [JStr "ReadWriteOnce"]); ("capacity", JStr "1Gi")]%string) ++
    snapshot_class_field m ++ field_of "moverSecurityContext" (destMoverSecurityContext w)).

Definition rcloneSpec (m : VolsyncMover) (w : Workload) : obj :=
  [("rcloneConfigSection", JStr "rclone"); ("rcloneConfig", JStr rcloneSecretName);
   ("rcloneDestPath", JStr (objectPath m w)); ("copyMethod", JStr (copyMethod m))]%string.

Definition is_rclone (m : VolsyncMover) : bool := String.eqb (vs_ObjectMover m) "rclone".
Definition is_object_store (m : VolsyncMover) : bool := bool_decide (vs_Transport m = TransportObjectStore).

Definition volsync_object (kind : string) (w : Workload) (name : string) (spec : obj) : obj :=
  [("apiVersion", JStr "volsync.backube/v1alpha1"); ("kind", JStr kind);
   ("metadata", JObj [("name", JStr name); ("namespace", JStr (w_Namespace w));
                      ("labels", JObj [("portage.io/name", JStr (w_Name w))])]);
   ("spec", JObj spec)]%string.

Definition source (m : VolsyncMover) (w : Workload) (name pvc : string) : obj :=
  volsync_object "ReplicationSource" w name (
    [("sourcePVC", JStr pvc); ("trigger", trigger_spec m)]%string ++
    (if is_object_store m then
       if is_rclone m then [("rclone", JObj (rcloneSpec m w))]%string
       else [("restic", JObj (resticSpec m w))]%string
     else [("rsyncTLS", JObj [("copyMethod", JStr (copyMethod m)); ("keySecret", JStr tlsSecretName)])]%string)).

Definition destination (m : VolsyncMover) (w : Workload) (name : string) : obj :=
  volsync_object "ReplicationDestination" w name (
    if is_object_store m then
      ("trigger"%string, trigger_spec m) ::
      (if is_rclone m then [("rclone", JObj (stripDestMoverScheduling (rcloneSpec m w)))]%string
       else [("restic", JObj (destResticSpec m w))]%string)
    else [("rsyncTLS", JObj (stripDestMoverScheduling
             [("serviceType", JStr "LoadBalancer"); ("keySecret", JStr tlsSecretName)]))]%string).

(** ** Privileged movers *)

Definition privilegedMoversAnnotation : string := "volsync.backube/privileged-movers".

Definition needsPrivilegedMover (w : Workload) : bool :=
  match w_RunAsUser w with
  | Some u => if negb (u =? 0)%Z then false else match w_FSGroup w with Some g => (g =? 0)%Z | None => true end
  | None => match w_FSGroup w with Some g => (g =? 0)%Z | None => true end
  end.

Definition ns_with_annotation (k v : string) (n : Namespace) : Namespace :=
  mkNs (with_annotations (Some (<[k := v]> (default ∅ (om_Annotations (ns_Meta n))))) (ns_Meta n)).

Definition enablePrivilegedMovers (c : option kube) (ns : string) : io ev (option err) :=
  match c with
  | None => Ret None
  | Some c =>
      if String.eqb ns EmptyString then Ret None
      else
        let* cur := trigger (kGet c KNamespace EmptyString ns) in
        match cur with
        | Err e => Ret (Some e)
        | Ok cur =>
            if String.eqb (nmap_get EmptyString (om_Annotations (ns_Meta cur)) privilegedMoversAnnotation) "true"
            then Ret None
            else trigger (kUpdate c KNamespace EmptyString (ns_with_annotation privilegedMoversAnnotation "true" cur))
        end
  end.

(** ** artifact.go *)

(** RE2's [\s]. *)
Definition re_space (c : ascii) : bool :=
  let n := N_of_ascii c in ((9 <=? n) && (n <=? 10))%N || ((12 <=? n) && (n <=? 13))%N || (n =? 32)%N.
Definition is_digit (c : ascii) : bool := match digit_of c with Some _ => true | None => false end.
Definition numeric (c : ascii) : bool := is_digit c || Ascii.eqb c ".".

(** The longest prefix of a class, and the rest. *)
Fixpoint span_str (f : ascii -> bool) (s : string) : string * string :=
  match s with
  | EmptyString => (EmptyString, EmptyString)
  | String c s' => if f c then let '(a, b) := span_str f s' in (String c a, b) else (EmptyString, s)
  end.

(** One or more of a class. The classes that follow one another in the pattern
    are disjoint, so the longest match is the only one. *)
Definition many (f : ascii -> bool) (s : string) : option (string * string) :=
  let '(a, b) := span_str f s in if String.eqb a EmptyString then None else Some (a, b).

Definition lit (p s : string) : option string :=
  if HasPrefix (ToLower s) p then Some (drop_str (String.length p) s) else None.

Definition optional (f : ascii -> bool) (s : string) : string * string :=
  match s with
  | String c s' => if f (ascii_lower c) then (String c EmptyString, s') else (EmptyString, s)
  | EmptyString => (EmptyString, EmptyString)
  end.

Definition match_unit (s : string) : option string :=
  let '(a, s) := optional (in_cutset "kmgt") s in
  let '(b, s) := optional (in_cutset "i") s in
  let '(c, _) := optional (in_cutset "b") s in
  if String.eqb c EmptyString then None else Some (a +:+ b +:+ c).

(** [(?i)processed\s+\d+\s+files,\s+([0-9.]+)\s+([KMGT]?i?B)] at the start. *)
Definition match_here (s : string) : option (string * string) :=
  s ← lit "processed" s; '(_, s) ← many re_space s; '(_, s) ← many is_digit s;
  '(_, s) ← many re_space s; s ← lit "files," s; '(_, s) ← many re_space s;
  '(n, s) ← many numeric s; '(_, s) ← many re_space s;
  u ← match_unit s; Some (n, u).

Fixpoint resticProcessed (s : string) : option (string * string) :=
  match match_here s with
  | Some r => Some r
  | None => match s with EmptyString => None | String _ s' => resticProcessed s' end
  end.

(** A decimal of digits with at most one point, as a fraction. *)
Definition parse_decimal (s : string) : option (Z * Z) :=
  let '(whole, frac, _) := Cut "." s in
  if String.eqb (whole +:+ frac) EmptyString then None
  else match parse_digits 0 (whole +:+ frac) with
       | Some n => Some (n, 10 ^ Z.of_nat (String.length frac))%Z
       | None => None
       end.

(** The nearest float64 of a positive fraction, ties to even: a mantissa of at
    most 53 bits and an exponent. *)
Definition nearest (num den : Z) : Z :=
  let q := (num / den)%Z in
  let r := (num mod den)%Z in
  match (2 * r ?= den)%Z with
  | Lt => q
  | Gt => q + 1
  | Eq => if Z.even q then q else q + 1
  end%Z.

Definition float64 (num den : Z) : Z * Z :=
  if (num =? 0)%Z then (0, 0)%Z
  else
    let scaled e := if (e <? 0)%Z then (num * 2 ^ (- e), den)%Z else (num, den * 2 ^ e)%Z in
    let e := (Z.log2 num - Z.log2 den - 53)%Z in
    let '(n, d) := scaled e in
    let e := if (2 ^ 53 <=? n / d)%Z then (e + 1)%Z else e in
    let '(n, d) := scaled e in
    (nearest n d, e).

(** [int64(n * float64(mult))] for a power of two; a value out of range is the
    smallest int64, as on amd64. *)
Definition int64_of_product (num den mult : Z) : Z :=
  let '(mant, e) := float64 num den in
  let v := if (e <? 0)%Z then (mant * mult / 2 ^ (- e))%Z else (mant * mult * 2 ^ e)%Z in
  if (v <? 2 ^ 63)%Z then v else (- 2 ^ 63)%Z.

Definition unit_mult (u : string) : Z :=
  match ToLower u with
  | "kib" | "kb" => 1024
  | "mib" | "mb" => 1024 * 1024
  | "gib" | "gb" => 1024 * 1024 * 1024
  | "tib" | "tb" => 1024 * 1024 * 1024 * 1024
  | _ => 1
  end%string%Z.

Definition parseResticBytes (logs : string) : Z :=
  match resticProcessed logs with
  | None => 0%Z
  | Some (n, u) => match parse_decimal n with
                   | Some (num, den) => int64_of_product num den (unit_mult u)
                   | None => 0%Z
                   end
  end.

(** ** volsync.go: the operations *)

Section volsync.
  Context {U : Unstructured} (Catalog : list Engine).
  Context (url_Parse : string -> option (string * string * string)).

Definition protect (m : VolsyncMover) (ns : string) : io ev (option err) :=
  protectCaches (vs_Kube m) (vs_DestKube m) ns.

Definition applyNamespaced (d : option dyn) (gvr : GVR) (o : obj) : io ev (option err) :=
  match d with
  | None => Ret (Some (errorf "client required"))
  | Some d =>
      let ns := GetNamespace o in
      let* created := trigger (dCreate d gvr ns o) in
      if negb (IsAlreadyExists (err_of created)) then Ret (err_of created)
      else
        let* cur := trigger (dGet d gvr ns (GetName o)) in
        match cur with
        | Err e => Ret (Some e)
        | Ok cur =>
            let o := SetUID (SetResourceVersion o (GetResourceVersion cur)) (GetUID cur) in
            let o := match oget cur "status" with Some st => oset o "status" st | None => o end in
            trigger (dUpdate d gvr ns o)
        end
  end.

Definition sourcePVCMissing (m : VolsyncMover) (ns pvc : string) : io ev (res bool) :=
  match vs_Kube m with
  | None => Ret (Ok false)
  | Some c =>
      if String.eqb ns EmptyString || String.eqb pvc EmptyString then Ret (Ok false)
      else
        let* p := trigger (kGet c KPVC ns pvc) in
        Ret (match p with
             | Ok _ => Ok false
             | Err e => if IsNotFound (Some e) then Ok true
                        else Err (wrapf ("volsync source pvc " +:+ ns +:+ "/" +:+ pvc +:+ ": ") e)
             end)
  end.

(** Deleting, when there is a client; the answer is dropped. *)
Definition delete_at (d : option dyn) (gvr : GVR) (ns name : string) : io ev unit :=
  match d with
  | None => Ret tt
  | Some d => let* _ := trigger (dDelete d gvr ns name) in Ret tt
  end.

Definition deletePair (m : VolsyncMover) (ns name : string) : io ev unit :=
  if String.eqb ns EmptyString || String.eqb name EmptyString then Ret tt
  else delete_at (vs_Dynamic m) srcGVR ns name ;;; delete_at (destDyn m) dstGVR ns name.

(** [meta.IsNoMatchError] is library code: the resource is not served. *)
Context (IsNoMatchError : err -> bool).

Definition prune_one (m : VolsyncMover) (ns : string) (keep : gset string) (item : obj)
    : io ev (option err) :=
  let owner := nmap_get EmptyString (GetLabels item) "portage.io/name" in
  if String.eqb owner EmptyString then Ret None
  else
    let* missing := if bool_decide (owner ∈ keep)
                    then sourcePVCMissing m ns (fst (NestedString item ["spec"; "sourcePVC"]%string))
                    else Ret (Ok true) in
    match missing with
    | Err e => Ret (Some e)
    | Ok false => Ret None
    | Ok true => deletePair m ns (GetName item) ;;; Ret None
    end.

Definition Prune (m : VolsyncMover) (ns : string) (keep : gset string) : io ev (option err) :=
  match vs_Dynamic m with
  | None => Ret None
  | Some d =>
      if String.eqb ns EmptyString then Ret None
      else
        let* items := trigger (dList d srcGVR ns EmptyString) in
        match items with
        | Err e => Ret (if IsNotFound (Some e) || IsNoMatchError e then None else Some e)
        | Ok items =>
            let* r := loopM (fun _ item =>
                let* e := prune_one m ns keep item in
                Ret (match e with None => inl tt | Some e => inr e end)) tt items in
            Ret (match r with inl _ => None | inr e => Some e end)
        end
  end.

Definition scrubMisplaced (m : VolsyncMover) (ns name : string) : io ev unit :=
  match destDyn m with
  | None => Ret tt
  | Some _ =>
      if bool_decide (destDyn m = vs_Dynamic m) then Ret tt
      else delete_at (destDyn m) srcGVR ns name ;;; delete_at (vs_Dynamic m) dstGVR ns name
  end.

Definition lastSyncTime (o : obj) : string := fst (NestedString o ["status"; "lastSyncTime"]%string).

Definition sourceHasSnapshot (m : VolsyncMover) (ns name : string) : io ev (res bool) :=
  match vs_Dynamic m with
  | None => Ret (Ok false)
  | Some d =>
      if String.eqb ns EmptyString || String.eqb name EmptyString then Ret (Ok false)
      else
        let* o := trigger (dGet d srcGVR ns name) in
        Ret (match o with
             | Ok o => Ok (negb (String.eqb (lastSyncTime o) EmptyString))
             | Err e => if IsNotFound (Some e) then Ok false else Err (wrapf "volsync source sync: " e)
             end)
  end.

(** [NestedFieldNoCopy] finds the field when every field on the way is a map. *)
Definition synced (d : option dyn) (gvr : GVR) (ns name : string) : io ev bool :=
  match d with
  | None => Ret false
  | Some d =>
      let* o := trigger (dGet d gvr ns name) in
      Ret (match o with
           | Err _ => false
           | Ok o => negb (String.eqb (lastSyncTime o) EmptyString) ||
                     is_set (lookup_path (JObj o) (keys ["status"; "latestImage"]%string))
           end)
  end.

Definition LagZero (m : VolsyncMover) (w : Workload) : io ev bool :=
  let* s := synced (vs_Dynamic m) srcGVR (w_Namespace w) (pair_name w) in
  let* d := synced (destDyn m) dstGVR (w_Namespace w) (pair_name w) in
  Ret (s && d).

Definition Probe (m : VolsyncMover) (w : Workload) : io ev (ProbeResult * option err) :=
  let* pin := destMoverPinMessage (vs_Kube m) (vs_DestKube m) (w_Namespace w) in
  if negb (String.eqb pin EmptyString) then Ret (mkProbe false pin, None)
  else
    let* ok := LagZero m w in
    Ret ((if ok then mkProbe true "volsync lastSyncTime set on source and dest"
          else mkProbe false "volsync lastSyncTime not set on source and dest"), None).

Definition with_mover (mv id : string) (a : Artifact) : Artifact :=
  mkArtifact id mv (art_SizeBytes a) (art_Useful a) (art_Message a).

Definition artifactFromSource (m : VolsyncMover) (w : Workload) (name : string) : io ev Artifact :=
  match vs_Dynamic m with
  | None => panics "nil dynamic.Interface"
  | Some d =>
      let waiting size msg := mkArtifact EmptyString (Name m) size false msg in
      let* o := trigger (dGet d srcGVR (w_Namespace w) name) in
      Ret (match o with
           | Err _ => waiting 0%Z "volsync restic waiting for ReplicationSource"
           | Ok o =>
               let lastSync := lastSyncTime o in
               let size := parseResticBytes (fst (NestedString o ["status"; "latestMoverStatus"; "logs"]%string)) in
               if String.eqb lastSync EmptyString then waiting size "volsync restic waiting for lastSyncTime"
               else
                 let a := ForWorkload w (mkInput (w_Class w) EmptyString size [] true true) in
                 let msg := if String.eqb (art_Message a) EmptyString || HasPrefix (art_Message a) "CSI snapshot"
                            then "volsync restic " +:+ lastSync else art_Message a in
                 mkArtifact lastSync (Name m) (if (0 <? size)%Z then size else art_SizeBytes a) (art_Useful a) msg
           end)
  end.

(** The secrets and the privileges on the source. *)
Definition source_ready (m : VolsyncMover) (w : Workload) : io ev (option err) :=
  wrapping "volsync source secrets: "
    (EnsureSecrets url_Parse (vs_Kube m) (w_Namespace w) (vs_Creds m) (objectPath m w) (w_Name w)) ;;?
  (if needsPrivilegedMover w
   then wrapping "volsync privileged movers: " (enablePrivilegedMovers (vs_Kube m) (w_Namespace w))
   else Ret None).

Definition Backup (m : VolsyncMover) (w : Workload) : io ev (Artifact * option err) :=
  let art msg := mkArtifact EmptyString (Name m) 0 false msg in
  match vs_Dynamic m with
  | None => let msg := "volsync: dynamic client required"%string in Ret (art msg, Some (errorf msg))
  | Some d =>
      let pvc := firstDataPVC (w_PVCNames w) in
      if String.eqb pvc EmptyString then Ret (art "no pvc"%string, None)
      else
        let* e :=
          source_ready m w ;;?
          (let* created := trigger (dCreate d srcGVR (w_Namespace w) (source m w (pair_name w) pvc)) in
           Ret (option_map (wrapf "volsync source: ")
                  (if IsAlreadyExists (err_of created) then None else err_of created))) ;;?
          wrapping "volsync scratch PVCs: " (protect m (w_Namespace w)) in
        match e with
        | Some e => Ret (art EmptyString, Some e)
        | None => let* a := artifactFromSource m w (pair_name w) in Ret (a, None)
        end
  end.

(** *** Replicate *)

(** What another destination cluster needs first. *)
Definition dest_ready (m : VolsyncMover) (w : Workload) : io ev (option err) :=
  let ns := w_Namespace w in
  let dk := destKube m in
  if bool_decide (dk = None) || bool_decide (dk = vs_Kube m) then Ret None
  else
    let* labels := sourceCapsuleLabels (vs_Kube m) ns in
    match labels with
    | Err e => Ret (Some (wrapf "volsync dest namespace: " e))
    | Ok labels =>
        wrapping "volsync dest namespace: " (ensureNamespace dk ns labels) ;;?
        (if needsPrivilegedMover w
         then wrapping "volsync dest privileged movers: " (enablePrivilegedMovers dk ns) else Ret None) ;;?
        wrapping "volsync dest secrets: " (CopySecrets (vs_Kube m) dk ns (w_Name w)) ;;?
        (let* r := loopM (fun _ claim =>
             if ScratchPVCName claim then Ret (inl tt)
             else
               let* e := ensureDestPVC (vs_Kube m) (vs_DestKube m) (vs_StorageClassMap m) ns claim in
               Ret (match e with None => inl tt | Some e => inr e end)) tt (w_PVCNames w) in
         Ret (match r with inl _ => None | inr e => Some e end)) ;;?
        (stripDestScheduling Catalog (vs_Kube m) (vs_DestKube m) ns ;;; Ret None)
    end.

(** The ReplicationDestination, paused while a Running pod mounts the claim. *)
Definition apply_destination (m : VolsyncMover) (w : Workload) (pvc : string) : io ev (option err) :=
  let ns := w_Namespace w in
  let name := pair_name w in
  let dst := destination m w name in
  let* mounted := destUserMounted (destKube m) ns pvc in
  let* dst := if mounted
              then deleteWorkloadMoverJobs (destKube m) ns name ;;;
                   Ret (SetNested dst (Some (JBool true)) ["spec"; "paused"]%string)
              else Ret dst in
  wrapping "volsync destination: " (applyNamespaced (destDyn m) dstGVR dst).

(** The pair, once both sides are prepared. *)
Definition apply_pair (m : VolsyncMover) (w : Workload) (pvc : string) : io ev (option err) :=
  let ns := w_Namespace w in
  let name := pair_name w in
  if bool_decide (destDyn m = None) then Ret (Some (errorf "volsync: dest dynamic client required"))
  else if bool_decide (destDyn m = vs_Dynamic m) && remoteDest m then
    Ret (Some (errorf "volsync: dest dynamic client is the source cluster; refusing to write ReplicationDestination in-cluster"))
  else
    scrubMisplaced m ns name ;;;
    let* sync := if resticCopy m then sourceHasSnapshot m ns name else Ret (Ok true) in
    match sync with
    | Err e => Ret (Some e)
    | Ok sync =>
        wrapping "volsync source: " (applyNamespaced (vs_Dynamic m) srcGVR (source m w name pvc)) ;;?
        if resticCopy m && negb sync then protect m ns
        else apply_destination m w pvc ;;? protect m ns
    end.

Definition Replicate (m : VolsyncMover) (w : Workload) : io ev (option err) :=
  match vs_Dynamic m with
  | None => Ret (Some (errorf "volsync: dynamic client required"))
  | Some _ =>
      match w_PVCNames w with
      | [] => Ret None
      | _ =>
          let pvc := firstDataPVC (w_PVCNames w) in
          if String.eqb pvc EmptyString then protect m (w_Namespace w)
          else
            let* missing := sourcePVCMissing m (w_Namespace w) pvc in
            match missing with
            | Err e => Ret (Some e)
            | Ok true => deletePair m (w_Namespace w) (pair_name w) ;;; Ret None
            | Ok false => source_ready m w ;;? dest_ready m w ;;? apply_pair m w pvc
            end
      end
  end.

(** The mover as the registry sees it. *)
Definition mover (m : VolsyncMover) : Movers.Mover := mkMover (Name m) Classes
  (fun w => Ret (Discover w, None)) (fun w _ => Backup m w) (fun w _ _ => Replicate m w)
  (fun _ _ _ => Ret None) (fun _ => Ret None) (fun _ _ => Ret None) (fun w _ => Probe m w).
End volsync.

(** ** What a replication writes *)

Section writes.
  Context {U : Unstructured} (Catalog : list Engine).
  Context (url_Parse : string -> option (string * string * string)).
  Context (m : VolsyncMover) (w : Workload).

(** No dynamic object is created or updated. *)
Definition quiet (X : Type) (e : ev X) : Prop :=
  match e with dCreate _ _ _ _ | dUpdate _ _ _ _ => False | _ => True end.

(** Every claim is read, the secrets are ensured, ... without such a write. *)
Lemma deletes_quiet c k ns names : only quiet (delete_all c k ns names).
Proof. unfold delete_all. reads. Qed.
Lemma protectScratch_quiet c ns : only quiet (ProtectScratchPVCs c ns).
Proof.
  unfold ProtectScratchPVCs. destruct c as [c|]; [|done]. case_if; [done|]. apply only_bind; [done|].
  intros [pvcs|e]; [|done]. apply only_bind.
  - apply only_foldM. intros [sc errs] p. case_if; [done|]. apply only_bind; [|reads].
    unfold markScratchPVC. apply only_bind; [done|]. intros [cur|e]; [|done].
    destruct (ensureScratchMarks cur) as [p' []]; done.
  - intros [sc errs]. apply only_bind; [|done]. case_bool_decide; [done|].
    unfold evictBackupPodsFromScratch. apply only_bind; [done|]. intros [pods|e]; [|done].
    apply only_bind; [|intros; apply deletes_quiet]. apply only_foldM. intros jobs p.
    case_if; [done|]. case_if; [done|]. by apply only_bind.
Qed.
Lemma protect_quiet ns : only quiet (protect m ns).
Proof.
  unfold protect, protectCaches. apply only_bind; [apply protectScratch_quiet|]. intros [e|]; [done|].
  destruct (dest_kube _ _); [|done]. case_bool_decide; [done|]. apply protectScratch_quiet.
Qed.
Lemma secrets_quiet c ns cr path n : only quiet (EnsureSecrets url_Parse c ns cr path n).
Proof.
  unfold EnsureSecrets. destruct c as [c|]; [|done]. case_if; [done|]. apply only_bind.
  - case_if; [done|]. apply only_bind.
    + unfold upsertSecret. apply only_bind; [done|]. intros e. by case_if.
    + intros [e|]; [done|]. unfold ensureResticSecret. reads.
  - intros [e|]; [done|]. unfold ensureTLSSecret. reads.
Qed.
Lemma privileged_quiet c ns : only quiet (enablePrivilegedMovers c ns).
Proof. unfold enablePrivilegedMovers. reads. Qed.
Lemma source_ready_quiet : only quiet (source_ready url_Parse m w).
Proof.
  apply check_only; [apply wrapping_only, secrets_quiet|]. case_if; [|done].
  apply wrapping_only, privileged_quiet.
Qed.
Lemma strip_kind_quiet c k ns f g : only quiet (strip_kind Catalog c k ns f g).
Proof.
  unfold strip_kind. apply only_bind; [done|]. intros [os|e]; [|done]. apply only_foldM. intros [] o.
  destruct (heal_PodSpec Catalog (f o)) as [healed [|n ns']]; [done|]. by apply only_bind.
Qed.
Lemma stripDest_quiet src dst ns : only quiet (stripDestScheduling Catalog src dst ns).
Proof.
  unfold stripDestScheduling. destruct (dest_kube src dst) as [dk|]; [|done]. case_if; [done|].
  apply only_bind; [unfold destHostnames; reads|]. intros nodes. apply only_bind.
  - apply only_bind; [apply strip_kind_quiet|]. intros _. apply only_bind; [apply strip_kind_quiet|].
    intros _. apply strip_kind_quiet.
  - intros _. apply only_bind; [|intros _]; unfold deletePinnedDestPods, deletePinnedMoverJobs;
      (apply only_bind; [done|]); intros [l|e]; try done; apply deletes_quiet.
Qed.
Lemma dest_ready_quiet : only quiet (dest_ready Catalog m w).
Proof.
  unfold dest_ready. case_if; [done|]. apply only_bind; [unfold sourceCapsuleLabels; reads|].
  intros [labels|e]; [|done]. apply check_only.
  { apply wrapping_only. unfold ensureNamespace, CallerFromKube. reads. }
  apply check_only; [case_if; [apply wrapping_only, privileged_quiet|done]|].
  apply check_only; [apply wrapping_only; unfold CopySecrets, copySecret; reads|].
  apply check_only; [|apply only_bind; [apply stripDest_quiet|done]].
  apply only_bind; [|reads]. apply only_loopM. intros [] claim. case_if; [done|].
  apply only_bind; [|reads]. unfold ensureDestPVC. reads.
Qed.

Lemma scrub_quiet : only quiet (scrubMisplaced m (w_Namespace w) (pair_name w)).
Proof. unfold scrubMisplaced, delete_at. reads. Qed.

(** The source's replication was read with a lastSyncTime. *)
Definition source_synced (log : list (event ev)) : Prop :=
  exists d o, vs_Dynamic m = Some d /\ mkEvent (dGet d srcGVR (w_Namespace w) (pair_name w)) (Ok o) ∈ log /\
    lastSyncTime o <> EmptyString.

Definition paused (o : obj) : option json := lookup_path (JObj o) (keys ["spec"; "paused"]%string).

(** A listing of the destination's pods decided whether it is paused. *)
Definition pause_decided (log : list (event ev)) (o : obj) : Prop :=
  forall c, destKube m = Some c -> w_Namespace w <> EmptyString -> exists r,
    mkEvent (kList c KPod (w_Namespace w)) r ∈ log /\
    paused o = match r with
               | Ok pods => if user_mounts (firstDataPVC (w_PVCNames w)) pods then Some (JBool true) else None
               | Err _ => None
               end.

Definition pair_rule (log : list (event ev)) (e : event ev) : Prop :=
  match ev_call e with
  | dCreate d g _ o | dUpdate d g _ o =>
      g = srcGVR /\ Some d = vs_Dynamic m \/
      g = dstGVR /\ Some d = destDyn m /\ (remoteDest m = true -> Some d <> vs_Dynamic m) /\
      (resticCopy m = true -> source_synced log) /\ pause_decided log o
  | _ => True
  end.

Lemma wp_quiet {A} (p : io ev A) log :
  only quiet p -> each pair_rule log -> wp any_env p log (fun log' _ => each pair_rule log').
Proof.
  intros Hp. apply (wp_only quiet); [done|]. intros l X e x He Hl. apply each_snoc; [done|]. by destruct e.
Qed.

(** The object an update sends differs from the one created in its identity
    and status. *)
Lemma merged_paused o cur :
  paused (match oget cur "status" with
          | Some st => oset (SetUID (SetResourceVersion o (GetResourceVersion cur)) (GetUID cur)) "status" st
          | None => SetUID (SetResourceVersion o (GetResourceVersion cur)) (GetUID cur)
          end) = paused o.
Proof.
  assert (forall o rv uid, paused (SetUID (SetResourceVersion o rv) uid) = paused o) as Hid
    by (intros; unfold paused, SetUID, SetResourceVersion, SetMeta; by rewrite !SetNested_other).
  destruct (oget cur "status"); [|apply Hid]. rewrite <- (Hid o (GetResourceVersion cur) (GetUID cur)).
  unfold paused. cbn [keys List.map lookup_path child]. by rewrite oget_oset.
Qed.

Lemma applyNamespaced_wp d gvr o log : each pair_rule log ->
  (forall log' o', paused o' = paused o -> forall dd, d = Some dd ->
     pair_rule (log ++ log') (mkEvent (dCreate dd gvr (GetNamespace o) o') (Err (errorf EmptyString)))) ->
  wp any_env (applyNamespaced d gvr o) log (fun log' _ => each pair_rule log').
Proof.
  intros Hl Hr. unfold applyNamespaced. destruct d as [d|]; [|done]. wp_call created.
  assert (each pair_rule (log ++ [mkEvent (dCreate d gvr (GetNamespace o) o) created])) as Hl1.
  { apply each_snoc; [done|]. pose proof (Hr [] o eq_refl d eq_refl) as H. rewrite app_nil_r in H. exact H. }
  case_if; [exact Hl1|]. wp_call cur. set (log2 := (log ++ _) ++ _).
  assert (each pair_rule log2) as Hl2 by by apply each_snoc.
  destruct cur as [cur|e]; cbn [wp]; [|done].
  unfold log2 in *. rewrite <- app_assoc in *. intros x s' ->. apply each_snoc; [exact Hl2|].
  apply (Hr _ _ (merged_paused o cur) d eq_refl).
Qed.

Lemma source_synced_mono log ext : source_synced log -> source_synced (log ++ ext).
Proof. intros (d & o & Hd & Hin & H). exists d, o. split_and!; [done|apply elem_of_app; by left|done]. Qed.

Lemma pause_decided_mono log ext o : pause_decided log o -> pause_decided (log ++ ext) o.
Proof. intros H c Hc Hns. destruct (H c Hc Hns) as (r & Hin & Hp). exists r. split; [apply elem_of_app; by left|done]. Qed.

Lemma destination_unpaused : paused (destination m w (pair_name w)) = None.
Proof. unfold destination, paused. destruct (is_object_store m), (is_rclone m); done. Qed.

Lemma destination_paused :
  paused (SetNested (destination m w (pair_name w)) (Some (JBool true)) ["spec"; "paused"]%string) = Some (JBool true).
Proof.
  unfold SetNested, paused. set (o := destination _ _ _).
  pose proof (Set_deeper o (JBool true) "spec" "paused" []) as HD.
  assert (exists t, oget o "spec" = Some (JObj t)) as [t Ht] by by eexists.
  rewrite Ht in HD. cbn [as_obj default from_option id] in HD.
  destruct (Set_last t (JBool true) "paused") as (t' & Et & _). rewrite Et in HD.
  destruct HD as (o' & Eo & _). rewrite Eo. cbn [default from_option id]. by apply (set_here o _ _ o').
Qed.

Lemma destUserMounted_wp pvc log : pvc <> EmptyString ->
  wp any_env (destUserMounted (destKube m) (w_Namespace w) pvc) log (fun log' b =>
    forall c, destKube m = Some c -> w_Namespace w <> EmptyString -> exists r,
      mkEvent (kList c KPod (w_Namespace w)) r ∈ log' /\
      b = match r with Ok pods => user_mounts pvc pods | Err _ => false end).
Proof.
  intros Hp. unfold destUserMounted. destruct (destKube m) as [c|]; [|by intros c].
  destruct (String.eqb_spec (w_Namespace w) EmptyString); [by intros ???|].
  destruct (String.eqb_spec pvc EmptyString); [done|]. cbn [orb]. wp_call r. cbn [wp]. intros c' [= <-] _.
  exists r. split; [apply elem_of_app; right; by left|done].
Qed.

Lemma destUserMounted_quiet pvc : only quiet (destUserMounted (destKube m) (w_Namespace w) pvc).
Proof. unfold destUserMounted. reads. Qed.

Lemma apply_destination_wp log : each pair_rule log -> firstDataPVC (w_PVCNames w) <> EmptyString ->
  (resticCopy m = true -> source_synced log) -> (remoteDest m = true -> destDyn m <> vs_Dynamic m) ->
  wp any_env (apply_destination m w (firstDataPVC (w_PVCNames w))) log (fun log' _ => each pair_rule log').
Proof.
  intros Hl Hp Hs Hr. unfold apply_destination. apply wp_bind.
  eapply wp_mono_ext; [apply wp_and; [apply wp_quiet; [apply destUserMounted_quiet|done]|by apply destUserMounted_wp]|].
  intros ext b [Hl1 Hb]. apply wp_bind.
  eapply wp_mono_ext with (P := fun log' o => each pair_rule log' /\ paused o = if b then Some (JBool true) else None).
  { destruct b; [|cbn [wp]; by rewrite destination_unpaused]. apply wp_bind.
    eapply wp_mono; [apply wp_quiet; [|done]|intros log' [] H; cbn [wp]; by rewrite destination_paused].
    unfold deleteWorkloadMoverJobs. destruct (destKube m); [|done]. case_if; [done|].
    apply only_bind; [done|]. intros [js|e]; [apply deletes_quiet|done]. }
  intros ext2 o [Hl2 Ho]. apply wp_wrapping, applyNamespaced_wp; [done|].
  intros log' o' Ho' dd Hd. right. split_and!; [done|done|intros H; rewrite <- Hd; by apply Hr| |].
  - intros Hc. by do 3 apply source_synced_mono; apply Hs.
  - do 2 apply pause_decided_mono. intros c Hc Hns. destruct (Hb c Hc Hns) as (r & Hin & ->). exists r.
    split; [done|]. rewrite Ho', Ho. by destruct r.
Qed.

Lemma sourceHasSnapshot_wp log :
  wp any_env (sourceHasSnapshot m (w_Namespace w) (pair_name w)) log (fun log' r =>
    r = Ok true -> source_synced log').
Proof.
  unfold sourceHasSnapshot, source_synced. destruct (vs_Dynamic m) as [d|]; [|done]. case_if; [done|].
  wp_call o. cbn [wp]. destruct o as [o|e]; [|by case_if]. intros [= H%negb_true_iff%String.eqb_neq].
  exists d, o. split_and!; [done|apply elem_of_app; right; by left|done].
Qed.

Lemma apply_pair_wp log : each pair_rule log -> firstDataPVC (w_PVCNames w) <> EmptyString ->
  wp any_env (apply_pair m w (firstDataPVC (w_PVCNames w))) log (fun log' _ => each pair_rule log').
Proof.
  intros Hl Hp. unfold apply_pair. case_bool_decide as Hd; [done|]. case_if; [done|].
  assert (remoteDest m = true -> destDyn m <> vs_Dynamic m) as Hr.
  { intros H1 H2. rewrite H1, bool_decide_true in Heqb by done. done. }
  apply wp_bind. eapply wp_mono; [apply wp_quiet; [apply scrub_quiet|done]|]. intros log1 [] Hl1.
  apply wp_bind. eapply wp_mono_ext with (P := fun log' r => each pair_rule log' /\
      (r = Ok true -> resticCopy m = true -> source_synced log')).
  { destruct (resticCopy m); [|by split].
    eapply wp_mono; [apply wp_and; [apply wp_quiet; [|done]|apply sourceHasSnapshot_wp]|].
    - unfold sourceHasSnapshot. reads.
    - intros log' r [H1 H2]. auto. }
  intros ext [sync|e] [Hl2 Hs]; [|done]. set (log2 := log1 ++ ext) in *.
  apply wp_bind. eapply wp_mono_ext.
  { apply (wp_wrapping (each pair_rule)), applyNamespaced_wp; [done|]. intros log' o' _ dd Hdd. by left. }
  intros ext2 [e|] Hl3; [done|]. case_if; [by apply wp_quiet; [apply protect_quiet|]|].
  apply wp_check; [|intros log' H; by apply wp_quiet; [apply protect_quiet|]].
  apply apply_destination_wp; [done|done| |done]. intros Hc. apply source_synced_mono, Hs; [|done].
  rewrite Hc in Heqb0. cbn in Heqb0. by destruct sync.
Qed.
End writes.

(** ** Properties *)

(** C20: whatever the clusters answer, a replication creates or updates a
    ReplicationSource only on the source and a ReplicationDestination only on
    the destination, never on the source when the destination is another
    cluster; with restic, only after the source's replication was read with a
    lastSyncTime (so both sides never initialise one repository); and the
    destination is paused exactly when the listing read for it shows a Running
    pod of a user with the claim mounted. *)
Theorem Replicate_pairs {U : Unstructured} Catalog url_Parse m w :
  always (Replicate Catalog url_Parse m w) (fun log _ => each (pair_rule m w) log).
Proof.
  unfold Replicate, always. pose proof (each_nil (pair_rule m w)) as Hnil.
  destruct (vs_Dynamic m) as [d|] eqn:Ed; [|done].
  destruct (w_PVCNames w) as [|n ns] eqn:Ep; [done|]. rewrite <- Ep.
  destruct (String.eqb_spec (firstDataPVC (w_PVCNames w)) EmptyString) as [|Hp].
  { apply wp_quiet; [apply protect_quiet|done]. }
  apply wp_bind. eapply wp_mono; [apply wp_quiet; [unfold sourcePVCMissing; reads|done]|].
  intros log1 [[]|e] Hl1; [| |exact Hl1].
  - apply wp_quiet; [|done]. unfold deletePair, delete_at. reads.
  - apply wp_check; [apply wp_quiet; [apply source_ready_quiet|done]|]. intros log2 Hl2.
    apply wp_check; [apply wp_quiet; [apply dest_ready_quiet|done]|]. intros log3 Hl3.
    by apply apply_pair_wp.
Qed.

(** A workload with only its first data claim. *)
Definition first_claim_only (w : Workload) : Workload :=
  mkWorkload (w_Namespace w) (w_Name w) (w_Kind w) (w_APIVersion w) (w_Class w) (w_Engine w)
    (w_Images w) [firstDataPVC (w_PVCNames w)] (w_Unclassified w) (w_FSGroup w) (w_RunAsUser w).

(** What VolSync is told about a workload, and how its replication is judged,
    depend on no claim but the first data claim. *)
Lemma one_claim_moved {U : Unstructured} m w : firstDataPVC (w_PVCNames w) <> EmptyString ->
  let w' := first_claim_only w in
  destination m w (pair_name w) = destination m w' (pair_name w') /\
  source m w (pair_name w) (firstDataPVC (w_PVCNames w)) = source m w' (pair_name w') (firstDataPVC (w_PVCNames w')) /\
  Probe m w = Probe m w'.
Proof.
  intros Hp. cbn zeta. assert (firstDataPVC [firstDataPVC (w_PVCNames w)] = firstDataPVC (w_PVCNames w)) as E.
  { unfold firstDataPVC in *. destruct (List.find _ (w_PVCNames w)) as [n|] eqn:Ef; [|done].
    apply List.find_some in Ef as [_ Ef]. cbn [List.find]. by rewrite Ef. }
  split_and!; [|by cbn [first_claim_only w_PVCNames]; rewrite E|done].
  unfold destination, destResticSpec. cbn [first_claim_only w_PVCNames]. by rewrite E.
Qed.

(** with one object-store URL, two workloads have the same repository path
    exactly when they have the same namespace and the same name (the defaults
    standing for empty ones): no tenant opens another one's repository, but two
    workloads of different kinds and one name share theirs. *)
Theorem objectPath_shared m w w' :
  no_slash (w_Namespace w) -> no_slash (w_Namespace w') ->
  objectPath m w = objectPath m w' <->
  or_else (w_Namespace w) "default" = or_else (w_Namespace w') "default" /\
  or_else (w_Name w) "workload" = or_else (w_Name w') "workload".
Proof.
  intros Hn Hn'. unfold objectPath. split; [|by intros [-> ->]]. intros E%app_inj_l_str%app_inj_l_str.
  assert (forall s, no_slash s -> no_slash (or_else s "default")) as Hor by (intros s Hs; unfold or_else; by case_if).
  eapply app_sep_inj; [by apply Hor|by apply Hor|exact E].
Qed.

Lemma objectPath_shared_witness :
  let w ns kind := mkWorkload ns "db" kind "apps/v1" ClassSQLLogical "postgres" [] ["data"] false None None in
  objectPath (New None "s3://b") (w "shop" "StatefulSet") <> objectPath (New None "s3://b") (w "blog" "StatefulSet") /\
  objectPath (New None "s3://b") (w "shop" "StatefulSet") = objectPath (New None "s3://b") (w "shop" "Deployment").
Proof.
  intros w. split.
  - intros E. by apply (objectPath_shared (New None "s3://b")) in E as [? _].
  - by apply (objectPath_shared (New None "s3://b")).
Defined.
