(* ===== verification/Postgres.v ===== *)
(** * Streaming replication: src/pkg/movers/postgres

    postgres.go (the mover: replicate, promote, probe, lag) and standby.go (the
    Service of the primary, the replication role, the pg_basebackup Job and the
    standby's StatefulSet). A nil client or execer is [None].

    [net.SplitHostPort] and [fmt.Sscanf] are Go's standard library and written
    out as far as the code uses them. *)

From Stdlib Require Import ZArith Lia Ascii.
From S2P Require Import Prelude GoStrings Effects Api Json Kube Classify Movers Workloads.

(** ** net.SplitHostPort *)

(** The two last checks: no stray bracket in the host or the port. *)
Definition no_brackets (hostport : string) (j k i : Z) (host : string) : option (string * string) :=
  if has_byte (from j hostport) "[" then None
  else if has_byte (from k hostport) "]" then None
  else Some (host, from (i + 1) hostport).

Definition SplitHostPort (hostport : string) : option (string * string) :=
  let i := LastIndexByte hostport ":" in
  if (i <? 0)%Z then None
  else if HasPrefix hostport "[" then
    let close := IndexByte hostport "]" in
    if (close <? 0)%Z then None
    else if (close + 1 =? i)%Z
    then no_brackets hostport 1 (close + 1) i (upto (close - 1) (from 1 hostport))
    else None
  else
    let host := upto i hostport in
    if has_byte host ":" then None else no_brackets hostport 0 0 i host.

(** ** fmt.Sscanf(s, "%d", &n) for an int of value 0 *)

Fixpoint take_digits (s : string) : string :=
  match s with
  | EmptyString => EmptyString
  | String c s' => match digit_of c with Some _ => String c (take_digits s') | None => EmptyString end
  end.

(** An optional sign and the digits; anything else, and a value out of range,
    leaves the variable alone. *)
Definition Sscanf_d (s : string) : Z :=
  let s := TrimLeftFunc is_space s in
  let '(sign, rest) := match s with
                       | String c s' => if Ascii.eqb c "-" || Ascii.eqb c "+"
                                        then (String c EmptyString, s') else (EmptyString, s)
                       | EmptyString => (EmptyString, EmptyString)
                       end in
  default 0%Z (ParseInt64 (sign +:+ take_digits rest)).

(** ** Commands *)

Definition PromoteCmd : list string := ["/bin/sh"; "-c";
  "if command -v psql >/dev/null; then psql -U postgres -c " +:+ quoted "SELECT pg_promote();" +:+
  "; else pg_ctl promote; fi"].

Definition ReplicaLagCmd : list string := ["/bin/sh"; "-c";
  "psql -U postgres -tAc " +:+
  quoted "SELECT COALESCE(EXTRACT(EPOCH FROM (now() - pg_last_xact_replay_timestamp()))::int, 0);"].

Definition replPass : string := "portage-repl".
Definition svcName : string := "portage-pg-primary".

Definition createReplicatorCmd : list string := ["/bin/sh"; "-c";
  "psql -U postgres -v ON_ERROR_STOP=1 -c " +:+
  quoted "DO \$\$ BEGIN CREATE ROLE replicator WITH REPLICATION LOGIN PASSWORD 'portage-repl'; EXCEPTION WHEN duplicate_object THEN NULL; END \$\$;"].

Definition basebackupCmd : list string := ["/bin/sh"; "-c";
  nl +:+ "set -e" +:+ nl +:+
  "mkdir -p " +:+ quoted "$PGDATA" +:+ nl +:+
  "if [ -f " +:+ quoted "$PGDATA/standby.signal" +:+ " ] || [ -f " +:+ quoted "$PGDATA/backup_label" +:+
  " ]; then" +:+ nl +:+ "  exit 0" +:+ nl +:+ "fi" +:+ nl +:+
  "pg_basebackup -h " +:+ quoted "$PRIMARY_HOST" +:+ " -p " +:+ quoted "${PRIMARY_PORT:-5432}" +:+
  " -U replicator -D " +:+ quoted "$PGDATA" +:+ " -Fp -Xs -P -R" +:+ nl].

(** ** The mover *)

Record PostgresMover := mkPostgres {
  pg_Kube : option kube;
  pg_Dest : option kube;
  pg_Exec : option execer }.

Definition Name : string := "postgres-streaming".
Definition Classes : list WorkloadClass := [ClassSQLLogical].

Definition Discover (w : Workload) : Capability :=
  if negb (String.eqb (w_Engine w) "postgres") && negb (String.eqb (w_Engine w) "timescale")
  then no_cap else mkCap false true true.

Definition Backup : Artifact :=
  mkArtifact EmptyString Name 0 false "use logical dump + CSI for backup".

Definition destKube (m : PostgresMover) : option kube :=
  match pg_Dest m with Some d => Some d | None => pg_Kube m end.

Definition splitHostPort (addr : string) : string * string :=
  let port := "5432"%string in
  let addr := TrimSpace addr in
  if String.eqb addr EmptyString then (EmptyString, port)
  else
    match SplitHostPort addr with
    | None => (addr, port)
    | Some (h, p) => (h, if negb (String.eqb p EmptyString) then p else port)
    end.

(** ** standby.go *)

Definition pg_labels (w : Workload) (role : string) : strmap :=
  Some (<["portage.io/name" := w_Name w]> {["portage.io/role" := role]}).

Definition primary_port (address : string) : ServicePort :=
  let node := if String.eqb address EmptyString then 0%Z
              else match Atoi (snd (splitHostPort address)) with
                   | Some n => if (30000 <=? n)%Z && (n <=? 32767)%Z then n else 0%Z
                   | None => 0%Z
                   end in
  mkPort "pg" 5432 5432 node.

Definition primary_service (w : Workload) (address : string) : Service :=
  mkSvc (new_meta svcName (w_Namespace w) (pg_labels w "primary") None)
    (if String.eqb address EmptyString then "ClusterIP" else "NodePort")
    (Some {["app" := w_Name w]}) [primary_port address].

(** An object that is already there is as good as created. *)
Definition unless_exists (e : option err) : option err := if IsAlreadyExists e then None else e.

Definition ensurePrimaryService (m : PostgresMover) (w : Workload) (address : string) : io ev (option err) :=
  match pg_Kube m with
  | None => Ret None
  | Some c =>
      let* e := trigger (kCreate c KService (w_Namespace w) (primary_service w address)) in
      Ret (unless_exists e)
  end.

Definition ensureReplicatorRole (m : PostgresMover) (w : Workload) : io ev (option err) :=
  match pg_Exec m, pg_Kube m with
  | Some x, Some c =>
      let* p := FirstReadyPod c w in
      match p with
      | Err e => Ret (Some e)
      | Ok (pod, container) =>
          let* ' (_, e) := trigger (exec x (w_Namespace w) (om_Name (pod_Meta pod)) container
                                      createReplicatorCmd EmptyString) in
          Ret e
      end
  | _, _ => Ret None
  end.

Definition basebackup_job (w : Workload) (primaryHost primaryPort : string) : Job :=
  mkJob (new_meta ("portage-basebackup-" +:+ w_Name w) (w_Namespace w)
           (Some {["portage.io/name" := w_Name w]}) None)
    (mkPodSpec None EmptyString None [] [] None []
       [mkContainer "basebackup" "postgres:16" None basebackupCmd
          [mkEnv "PGDATA" "/var/lib/postgresql/data/pgdata"; mkEnv "PRIMARY_HOST" primaryHost;
           mkEnv "PRIMARY_PORT" primaryPort; mkEnv "PGPASSWORD" replPass] []] [])
    (Some 6%Z) 0 0.

Definition ensureBasebackupJob (m : PostgresMover) (w : Workload) (primaryHost primaryPort : string)
    : io ev (option err) :=
  match destKube m with
  | None => Ret (Some (errorf "postgres-streaming: dest kube required for basebackup"))
  | Some c =>
      let* e := trigger (kCreate c KJob (w_Namespace w) (basebackup_job w primaryHost primaryPort)) in
      Ret (unless_exists e)
  end.

Definition standby_volume : string := "portage-standby".

(** The first container gets the mount and the variable. *)
Definition mount_standby (cs : list Container) : list Container :=
  match cs with
  | [] => []
  | c :: cs' =>
      mkContainer (ct_Name c) (ct_Image c) (ct_SecurityContext c) (ct_Command c)
        (ct_Env c ++ [mkEnv "PRIMARY_CONNINFO_FILE" "/etc/portage-standby/primary_conninfo"])
        (ct_VolumeMounts c ++ [mkMount standby_volume "/etc/portage-standby" true]) :: cs'
  end.

Definition addCMVolume (p : PodSpec) (cmName : string) : PodSpec :=
  if existsb (fun v => String.eqb (vol_Name v) standby_volume) (sp_Volumes p) then p
  else mkPodSpec (sp_NodeSelector p) (sp_NodeName p) (sp_Affinity p) (sp_TopologySpread p)
         (sp_Tolerations p) (sp_SecurityContext p) (sp_InitContainers p)
         (mount_standby (sp_Containers p)) (sp_Volumes p ++ [mkVolume standby_volume None (Some cmName)]).

Definition standby_sts (w : Workload) (s : StatefulSet) : StatefulSet :=
  mkSts (sts_Meta s) (sts_Replicas s)
    (Some (<["portage.io/standby" := "true"]> (default ∅ (sts_TemplateAnnotations s))))
    (addCMVolume (sts_Template s) ("portage-standby-" +:+ w_Name w))
    (sts_VolumeClaimTemplates s) (sts_ReadyReplicas s) (sts_rest s).

Definition patchDestStandby (m : PostgresMover) (w : Workload) : io ev (option err) :=
  match destKube m with
  | None => Ret None
  | Some c =>
      let* s := trigger (kGet c KStatefulSet (w_Namespace w) (w_Name w)) in
      match s with
      | Err _ => Ret None
      | Ok s => trigger (kUpdate c KStatefulSet (w_Namespace w) (standby_sts w s))
      end
  end.

(** ** postgres.go: the operations *)

Definition standby_config (w : Workload) (dst : ClusterHandle) (host port : string) : ConfigMap :=
  mkCM (new_meta ("portage-standby-" +:+ w_Name w) (w_Namespace w) (pg_labels w "standby") None)
    (Some (<["primary_conninfo" := Sprintf "host=%s port=%s user=replicator application_name=portage" [host; port]]>
          (<["primary_cluster" := ch_Name dst]> {["hot_standby" := "on"]}))).

(** Where the standby finds the primary. *)
Definition primary_at (w : Workload) (src : ClusterHandle) : string * string :=
  let '(host, port) := splitHostPort (ch_Address src) in
  if String.eqb host EmptyString then (svcName +:+ "." +:+ w_Namespace w +:+ ".svc", "5432") else (host, port).

(** Created; on any error updated. *)
Definition apply_config (c : kube) (ns : string) (cm : ConfigMap) : io ev (option err) :=
  let* e := trigger (kCreate c KConfigMap ns cm) in
  match e with
  | None => Ret None
  | Some _ => trigger (kUpdate c KConfigMap ns cm)
  end.

Definition Replicate (m : PostgresMover) (w : Workload) (src dst : ClusterHandle) : io ev (option err) :=
  match destKube m with
  | None => Ret (Some (errorf "postgres-streaming: dest kube required"))
  | Some c =>
      let '(host, port) := primary_at w src in
      apply_config c (w_Namespace w) (standby_config w dst host port) ;;?
      ensurePrimaryService m w (ch_Address src) ;;?
      (ensureReplicatorRole m w ;;;
       ensureBasebackupJob m w host port ;;? patchDestStandby m w)
  end.

Definition Quiesce (m : PostgresMover) (w : Workload) : io ev (option err) :=
  match pg_Kube m with None => Ret None | Some c => Scale c w 0 end.

Definition Promote (m : PostgresMover) (w : Workload) : io ev (option err) :=
  match pg_Exec m, destKube m with
  | Some x, Some c =>
      Scale c w 1 ;;?
      (let* p := FirstReadyPod c w in
       match p with
       | Err e => Ret (Some (wrapf "promote: " e))
       | Ok (pod, container) =>
           let* ' (_, e) := trigger (exec x (w_Namespace w) (om_Name (pod_Meta pod)) container PromoteCmd EmptyString) in
           Ret e
       end)
  | _, _ => Ret (Some (errorf "postgres-streaming: dest kube/exec required to promote"))
  end.

(** [pg_isready] in the first Ready pod; [false] when any step fails. *)
Definition is_ready (m : PostgresMover) (c : kube) (w : Workload) : io ev bool :=
  match pg_Exec m with
  | None => Ret false
  | Some x =>
      let* p := FirstReadyPod c w in
      match p with
      | Err _ => Ret false
      | Ok (pod, container) =>
          let* ' (_, e) := trigger (exec x (w_Namespace w) (om_Name (pod_Meta pod)) container ["pg_isready"%string] EmptyString) in
          Ret (match e with None => true | Some _ => false end)
      end
  end.

Definition Probe (m : PostgresMover) (w : Workload) : io ev ProbeResult :=
  match destKube m with
  | None => Ret (mkProbe false "postgres-streaming: dest kube required")
  | Some c =>
      let* ready := is_ready m c w in
      if ready then Ret (mkProbe true "pg_isready")
      else
        let* cm := trigger (kGet c KConfigMap (w_Namespace w) ("portage-standby-" +:+ w_Name w)) in
        match cm with
        | Err _ => Ret (mkProbe false "standby config missing")
        | Ok _ =>
            let* job := trigger (kGet c KJob (w_Namespace w) ("portage-basebackup-" +:+ w_Name w)) in
            match job with
            | Err _ => Ret (mkProbe false "basebackup job missing")
            | Ok job => Ret (if (job_Succeeded job <? 1)%Z then mkProbe false "waiting for pg_basebackup"
                             else mkProbe true "basebackup complete; standby configured")
            end
        end
  end.

(** The lag in seconds and whether it is known. *)
Definition LagSeconds (m : PostgresMover) (w : Workload) : io ev (Z * bool * option err) :=
  match pg_Exec m, destKube m with
  | Some x, Some c =>
      let* p := FirstReadyPod c w in
      match p with
      | Err e => Ret (0%Z, false, Some e)
      | Ok (pod, container) =>
          let* ' (r, e) := trigger (exec x (w_Namespace w) (om_Name (pod_Meta pod)) container ReplicaLagCmd EmptyString) in
          match e with
          | Some e => Ret (0%Z, false, Some e)
          | None => Ret (Sscanf_d (TrimSpace (ex_Stdout r)), true, None)
          end
      end
  | _, _ => Ret (0%Z, false, None)
  end.

(** The mover as the registry sees it. *)
Definition mover (m : PostgresMover) : Movers.Mover := mkMover Name Classes
  (fun w => Ret (Discover w, None)) (fun _ _ => Ret (Backup, None)) (Replicate m)
  (fun _ _ _ => Ret None) (Quiesce m) (fun w _ => Promote m w) (fun w _ => let* r := Probe m w in Ret (r, None)).

(** ** Addresses *)

(** A host and a port joined by a colon. *)
Lemma SplitHostPort_join h p :
  has_byte h ":" = false -> has_byte h "[" = false -> has_byte h "]" = false ->
  has_byte p ":" = false -> has_byte p "[" = false -> has_byte p "]" = false ->
  SplitHostPort (h +:+ ":" +:+ p) = Some (h, p).
Proof.
  intros. change (":" +:+ p) with (String ":" p).
  assert (forall c, has_byte h c = false -> has_byte p c = false -> c <> ":"%char ->
    has_byte (h +:+ String ":" p) c = false) as Hall.
  { intros c Hh Hp Hc. rewrite has_byte_app, has_byte_cons, Hh, Hp.
    destruct (Ascii.eqb_spec ":" c); [by subst|done]. }
  unfold SplitHostPort, no_brackets. rewrite LastIndexByte_app by done.
  destruct (Z.ltb_spec (str_len h) 0); [unfold str_len in *; lia|].
  rewrite has_byte_prefix by (by apply Hall).
  rewrite upto_app, from_app. change (from 0 ?s) with s.
  rewrite !Hall by done. replace (has_byte h ":") with false. done.
Qed.

(** ** What a replication writes *)

Section standby.
  Context (m : PostgresMover) (w : Workload) (src dst : ClusterHandle).

Definition at_primary : string * string := primary_at w src.
Definition config : ConfigMap := standby_config w dst (fst at_primary) (snd at_primary).
Definition job : Job := basebackup_job w (fst at_primary) (snd at_primary).

(** The writes on the destination; the one on the source; and the creation of
    the replication role, through the mover's one exec client, in a pod the run
    found Ready through the source's client. *)
Definition dest_write (e : event ev) : Prop := exists c x, destKube m = Some c /\
  (e = mkEvent (kCreate c KConfigMap (w_Namespace w) config) x \/
   e = mkEvent (kUpdate c KConfigMap (w_Namespace w) config) x \/
   e = mkEvent (kCreate c KJob (w_Namespace w) job) x \/
   exists s, e = mkEvent (kUpdate c KStatefulSet (w_Namespace w) (standby_sts w s)) x).

Definition service_write (e : event ev) : Prop := exists c x, pg_Kube m = Some c /\
  e = mkEvent (kCreate c KService (w_Namespace w) (primary_service w (ch_Address src))) x.

Definition role_write (log : list (event ev)) (e : event ev) : Prop := exists x c pod container r,
  pg_Exec m = Some x /\ pg_Kube m = Some c /\ did (FirstReadyPod c w) (Ok (pod, container)) log /\
  e = mkEvent (exec x (w_Namespace w) (om_Name (pod_Meta pod)) container createReplicatorCmd EmptyString) r.

Definition confined (log : list (event ev)) : Prop :=
  Forall (fun e => dest_write e \/ service_write e \/ role_write log e) (written log).

Lemma role_write_mono log ext e : role_write log e -> role_write (log ++ ext) e.
Proof. intros (x & c & pod & ct & r & ? & ? & ? & ?). exists x, c, pod, ct, r. eauto using did_app. Qed.

Lemma confined_ext log ext : confined log ->
  Forall (fun e => dest_write e \/ service_write e \/ role_write (log ++ ext) e) (written ext) -> confined (log ++ ext).
Proof.
  intros Hl He. unfold confined. rewrite written_app. apply Forall_app. split; [|done].
  eapply Forall_impl; [exact Hl|]. intros e [?|[?|?]]; eauto using role_write_mono.
Qed.

Lemma confined_snoc {X} (e : ev X) x log : confined log ->
  (writes e = true -> dest_write (mkEvent e x) \/ service_write (mkEvent e x) \/
     role_write (log ++ [mkEvent e x]) (mkEvent e x)) ->
  confined (log ++ [mkEvent e x]).
Proof.
  intros Hl He. apply confined_ext; [done|]. rewrite written_one.
  destruct (writes e); [|done]. apply Forall_singleton. auto.
Qed.

Lemma confined_reads {A} (p : io ev A) log : reads_only p -> confined log ->
  wp any_env p log (fun log' a => confined log' /\ did p a log').
Proof.
  intros Hp Hl. eapply wp_mono_ext; [apply wp_and; [by apply wp_reads|apply wp_did]|].
  intros ext a [H Hd]. split; [|done]. apply confined_ext; [done|]. rewrite written_app in H.
  rewrite (app_inv_head (written log) (written ext) []) by (by rewrite app_nil_r). done.
Qed.

(** What was created, or found created. *)
Definition present (c : kube) (k : kind) (o : kobj k) (log : list (event ev)) : Prop :=
  exists e, mkEvent (kCreate c k (w_Namespace w) o) e ∈ log /\ unless_exists e = None.
Definition config_stored (c : kube) (log : list (event ev)) : Prop :=
  mkEvent (kCreate c KConfigMap (w_Namespace w) config) None ∈ log \/
  mkEvent (kUpdate c KConfigMap (w_Namespace w) config) None ∈ log.
(** The StatefulSet is a standby, unless it could not be read. *)
Definition patched (c : kube) (log : list (event ev)) : Prop :=
  (exists e, mkEvent (kGet c KStatefulSet (w_Namespace w) (w_Name w)) (Err e) ∈ log) \/
  (exists s, mkEvent (kGet c KStatefulSet (w_Namespace w) (w_Name w)) (Ok s) ∈ log /\
             mkEvent (kUpdate c KStatefulSet (w_Namespace w) (standby_sts w s)) None ∈ log).

Lemma apply_config_wp c log : destKube m = Some c -> confined log ->
  wp any_env (apply_config c (w_Namespace w) config) log (fun log' r =>
    confined log' /\ (r = None -> config_stored c log')).
Proof.
  intros Hc Hl. wp_call e. assert (confined (log ++ [mkEvent (kCreate c KConfigMap (w_Namespace w) config) e])).
  { apply confined_snoc; [done|]. left. exists c, e. auto. }
  destruct e as [e|].
  - intros e' s' ->. split.
    + apply confined_snoc; [done|]. left. exists c, e'. auto.
    + intros ->. right. set_solver.
  - split; [done|]. left. set_solver.
Qed.

Lemma ensurePrimaryService_wp log : confined log ->
  wp any_env (ensurePrimaryService m w (ch_Address src)) log (fun log' r =>
    confined log' /\ (r = None -> forall c, pg_Kube m = Some c ->
      present c KService (primary_service w (ch_Address src)) log')).
Proof.
  intros Hl. unfold ensurePrimaryService. destruct (pg_Kube m) as [c|] eqn:Hc; [|done].
  wp_call e. split.
  - apply confined_snoc; [done|]. right. left. by exists c, e.
  - intros Hn c' [= <-]. exists e. split; [set_solver|done].
Qed.

Lemma ensureReplicatorRole_wp log : confined log ->
  wp any_env (ensureReplicatorRole m w) log (fun log' _ => confined log').
Proof.
  intros Hl. unfold ensureReplicatorRole. destruct (pg_Exec m) as [x|] eqn:Hx; [|done].
  destruct (pg_Kube m) as [c|] eqn:Hk; [|done]. apply wp_bind.
  eapply wp_mono; [by apply confined_reads; [apply FirstReadyPod_reads|]|].
  intros log' [[pod container]|e] [Hl' Hd]; [|done]. wp_call r. destruct r as [r e].
  apply confined_snoc; [done|]. right. right. exists x, c, pod, container, (r, e). eauto using did_app.
Qed.

Lemma ensureBasebackupJob_wp c log : destKube m = Some c -> confined log ->
  wp any_env (ensureBasebackupJob m w (fst at_primary) (snd at_primary)) log (fun log' r =>
    confined log' /\ (r = None -> present c KJob job log')).
Proof.
  intros Hc Hl. unfold ensureBasebackupJob. rewrite Hc. wp_call e. split.
  - apply confined_snoc; [done|]. left. exists c, e. auto.
  - intros Hn. exists e. split; [set_solver|done].
Qed.

Lemma patchDestStandby_wp c log : destKube m = Some c -> confined log ->
  wp any_env (patchDestStandby m w) log (fun log' r => confined log' /\ (r = None -> patched c log')).
Proof.
  intros Hc Hl. unfold patchDestStandby. rewrite Hc. wp_call s.
  assert (confined (log ++ [mkEvent (kGet c KStatefulSet (w_Namespace w) (w_Name w)) s])) as Hl'
    by by apply confined_snoc.
  destruct s as [s|e].
  - intros e s' ->. split.
    + apply confined_snoc; [done|]. left. exists c, e. split; [done|]. eauto 6.
    + intros ->. right. exists s. split; set_solver.
  - split; [done|]. intros _. left. exists e. set_solver.
Qed.
End standby.

(** The volume is added once: a second replication changes nothing. *)
Lemma addCMVolume_again p n n' : addCMVolume (addCMVolume p n) n' = addCMVolume p n.
Proof.
  unfold addCMVolume at 2 3.
  destruct (existsb (fun v => String.eqb (vol_Name v) standby_volume) (sp_Volumes p)) eqn:H;
    unfold addCMVolume; [by rewrite H|].
  cbn. by rewrite existsb_app, H.
Qed.

Lemma standby_sts_again w s : standby_sts w (standby_sts w s) = standby_sts w s.
Proof. unfold standby_sts. cbn. by rewrite insert_insert_eq, addCMVolume_again. Qed.

(** ** Properties *)

(** C29: what streaming replication writes. Whatever the clusters answer, every
    write of [Replicate] is one of these: through the destination's client (the
    source's when it has none) the standby's ConfigMap, the pg_basebackup Job and
    the StatefulSet made a standby; through the source's client the Service of
    the primary; and through the mover's exec client the command that creates
    the replication role, in a pod found Ready on the source. The registry gives
    the mover the destination's exec client ([ActionFacts.postgres_mover]), so
    on a pair of two clusters that pod is looked for in the other one. When it
    succeeds, the ConfigMap was stored with the address the Job dials, creating
    the Job and the Service was answered by success or by AlreadyExists (an
    object that is there is left as it is, whatever address it has), and the
    StatefulSet, unless reading it answered an error, was updated to a standby;
    the role's creation may have failed. *)
Theorem Replicate_standby m w src dst :
  always (Replicate m w src dst) (fun log r =>
    confined m w src dst log /\
    (r = None -> exists c, destKube m = Some c /\ config_stored w src dst c log /\
       (forall s, pg_Kube m = Some s -> present w s KService (primary_service w (ch_Address src)) log) /\
       present w c KJob (job w src) log /\ patched w c log)).
Proof.
  unfold always, Replicate. destruct (destKube m) as [c|] eqn:Hc; [|by split; [apply Forall_nil|]].
  pose proof (surjective_pairing (primary_at w src)) as Hp. fold (at_primary w src) in Hp.
  unfold at_primary at 1 in Hp. rewrite Hp.
  apply wp_check_then. eapply wp_mono_ext; [apply apply_config_wp; [apply Hc|by apply Forall_nil]|].
  intros l1 [e|] [Hl1 H1]; [by split|]. specialize (H1 eq_refl).
  apply wp_check_then. eapply wp_mono_ext; [by apply ensurePrimaryService_wp|].
  intros l2 [e|] [Hl2 H2]; [by split|]. specialize (H2 eq_refl).
  apply wp_bind. eapply wp_mono_ext; [by apply ensureReplicatorRole_wp|]. intros l3 r3 Hl3.
  apply wp_check_then. eapply wp_mono_ext; [by apply (ensureBasebackupJob_wp m w src dst c)|].
  intros l4 [e|] [Hl4 H4]; [by split|]. specialize (H4 eq_refl).
  eapply wp_mono_ext; [by apply (patchDestStandby_wp m w src dst c)|].
  intros l5 r [Hl5 H5]. split; [done|]. intros Hr. specialize (H5 Hr).
  exists c. split_and!; [done| | | |done].
  - destruct H1 as [H1|H1]; [left|right]; set_solver.
  - intros s Hs. destruct (H2 s Hs) as (e & He & Hn). exists e. split; [set_solver|done].
  - destruct H4 as (e & He & Hn). exists e. split; [set_solver|done].
Qed.

(** the address of a remote primary. A host and a port joined by a colon,
    with no further delimiters and no space around, are taken apart again; an
    empty port is 5432; an address with no colon is a host with port 5432, and
    an empty one has no host. *)
Theorem splitHostPort_join h p :
  Forall (fun c => has_byte h c = false /\ has_byte p c = false) [":"%char; "["%char; "]"%char] ->
  TrimSpace (h +:+ ":" +:+ p) = h +:+ ":" +:+ p -> TrimSpace h = h ->
  splitHostPort (h +:+ ":" +:+ p) = (h, if String.eqb p EmptyString then "5432" else p)%string /\
  splitHostPort h = (h, "5432"%string).
Proof.
  intros Hd Hs Hh. rewrite !Forall_cons in Hd. destruct Hd as ([] & [] & [] & _).
  unfold splitHostPort. rewrite Hs, Hh. split.
  - replace (String.eqb (h +:+ ":" +:+ p) EmptyString) with false by (by destruct h).
    rewrite SplitHostPort_join by done. by destruct p.
  - destruct (String.eqb_spec h EmptyString) as [->|]; [done|].
    unfold SplitHostPort. by rewrite LastIndexByte_absent.
Qed.

Lemma splitHostPort_join_witness : splitHostPort "db.shop:30432" = ("db.shop", "30432")%string.
Proof.
  refine (proj1 (splitHostPort_join "db.shop" "30432" _ _ _)); [|reflexivity|reflexivity].
  repeat constructor.
Defined.

Example lag_12 : Sscanf_d "12" = 12%Z. Proof. reflexivity. Qed.
Example lag_text : Sscanf_d "psql: error" = 0%Z. Proof. reflexivity. Qed.
Example ipv6 : splitHostPort "[::1]:5433" = ("::1", "5433")%string. Proof. reflexivity. Qed.
