(* ===== verification/Traffic.v ===== *)
(** * Traffic hooks: src/pkg/traffic

    The hook a cutover calls when it promotes and when it rolls back: nothing
    by default, or a POST to a URL. *)

From Stdlib Require Import ZArith Lia.
From S2P Require Import Prelude GoStrings Effects Api Json Kube.

Record Event := mkTrafficEvent {
  te_Action : string; te_Policy : string; te_Source : string; te_Destination : string }.

(** json.Marshal of an [Event]. *)
Definition event_json (e : Event) : json := JObj
  [("action", JStr (te_Action e)); ("policy", JStr (te_Policy e));
   ("source", JStr (te_Source e)); ("destination", JStr (te_Destination e))]%string.

(** The two hooks; [Webhook] is the URL. *)
Inductive Hook := Noop | Webhook (url : string).

Definition Name (h : Hook) : string :=
  match h with Noop => "noop" | Webhook _ => "webhook" end.

(** [w.Client] is set by tests only. *)
Definition post (url : string) (e : Event) : io ev (option err) :=
  if String.eqb url EmptyString then Ret (Some (errorf "traffic webhook: empty URL"))
  else
    let* bad := trigger (httpNewRequest url) in
    match bad with
    | Some e => Ret (Some e)
    | None =>
        let* r := trigger (httpPost url (event_json e) (15 * Second)%Z) in
        match r with
        | Err e => Ret (Some (wrapf "traffic webhook: " e))
        | Ok (code, status, _) =>
            if (code <? 200)%Z || (299 <? code)%Z
            then Ret (Some (errorf ("traffic webhook: unexpected status " +:+ status)))
            else Ret None
        end
    end.

Definition Switch (h : Hook) (e : Event) : io ev (option err) :=
  match h with Noop => Ret None | Webhook url => post url e end.

Definition Rollback (h : Hook) (e : Event) : io ev (option err) :=
  match h with
  | Noop => Ret None
  | Webhook url => post url (mkTrafficEvent "rollback" (te_Policy e) (te_Source e) (te_Destination e))
  end.

(** ** What a hook says *)

(** A POST that was answered with a 2xx status. *)
Definition accepted_post (url : string) (body : json) (log : list (event ev)) : Prop :=
  exists code status decoded, (200 <= code <= 299)%Z /\
    mkEvent (httpPost url body (15 * Second)%Z) (Ok (code, status, decoded)) ∈ log.

Lemma post_wp url e log :
  wp any_env (post url e) log (fun log' r => r = None -> accepted_post url (event_json e) log').
Proof.
  unfold post. case_if; [done|]. wp_call bad. destruct bad; [done|]. wp_call r.
  destruct r as [[[code status] decoded]|]; [|done]. case_if; [done|]. boolify. intros _.
  exists code, status, decoded. split; [lia|]. apply elem_of_app. right. by left.
Qed.

Lemma Switch_wp h e log :
  wp any_env (Switch h e) log (fun log' r => r = None ->
    match h with Noop => True | Webhook url => accepted_post url (event_json e) log' end).
Proof. destruct h as [|url]; [done|]. apply post_wp. Qed.

(** A hook only posts. *)
Lemma post_reads url e : reads_only (post url e).
Proof. unfold post. reads. Qed.

Lemma Switch_reads h e : reads_only (Switch h e).
Proof. destruct h; [done|apply post_reads]. Qed.

Lemma Rollback_reads h e : reads_only (Rollback h e).
Proof. destruct h; [done|apply post_reads]. Qed.
