(* ===== verification/Export.v ===== *)
(** * Export and apply: src/pkg/export and src/pkg/apply

    export.go reads the live objects of a workload; apply.go and typed.go
    create them on the destination, through the dynamic and through the typed
    client. [runtime.DefaultUnstructuredConverter] is library code: the class
    [Converter], about which nothing is assumed. *)

From Stdlib Require Import ZArith Lia Sorted.
From S2P Require Import Prelude GoStrings Effects Api Json Kube Unstructured Classify.

Class Converter := {
  FromUnstructured : forall k : kind, obj -> res (kobj k);
  ToUnstructured : forall k : kind, kobj k -> res obj;
  FromUnstructured_plain k o e : FromUnstructured k o = Err e -> err_reason e = OtherReason }.

(** ** export.go *)

Section export.
  Context {U : Unstructured} {C : Converter}.

(** The switch over the Go type. *)
Definition type_meta (k : kind) : string * string :=
  match k with
  | KStatefulSet => ("apps/v1", "StatefulSet")
  | KDeployment => ("apps/v1", "Deployment")
  | KDaemonSet => ("apps/v1", "DaemonSet")
  | _ => ("v1", "PersistentVolumeClaim")
  end%string.

Definition toUnstructured (k : kind) (o : kobj k) : res obj :=
  match ToUnstructured k o with
  | Err e => Err e
  | Ok m => Ok (SetKind (SetAPIVersion m (fst (type_meta k))) (snd (type_meta k)))
  end.

(** One claim: an unreadable one is skipped, one that does not convert ends
    the export. *)
Definition export_claim (c : kube) (ns : string) (out : list obj) (name : string)
    : io ev (list obj + err) :=
  let* pvc := trigger (kGet c KPVC ns name) in
  Ret (match pvc with
       | Err _ => inl out
       | Ok p => match toUnstructured KPVC p with Ok u => inl (out ++ [u]) | Err e => inr e end
       end).

(** The controller: skipped on any error. *)
Definition export_controller (c : kube) (k : kind) (w : Workload) (out : list obj) : io ev (list obj) :=
  let* o := trigger (kGet c k (w_Namespace w) (w_Name w)) in
  Ret (match o with
       | Err _ => out
       | Ok o => match toUnstructured k o with Ok u => out ++ [u] | Err _ => out end
       end).

Definition controller_kind (kind : string) : option Kube.kind :=
  match kind with
  | "StatefulSet" => Some KStatefulSet
  | "Deployment" => Some KDeployment
  | "DaemonSet" => Some KDaemonSet
  | _ => None
  end%string.

Definition export_Workload (c : kube) (w : Workload) : io ev (res (list obj)) :=
  let* r := loopM (export_claim c (w_Namespace w)) [] (w_PVCNames w) in
  match r with
  | inr e => Ret (Err e)
  | inl out => match controller_kind (w_Kind w) with
               | None => Ret (Ok out)
               | Some k => let* out := export_controller c k w out in Ret (Ok out)
               end
  end.
End export.

(** ** apply.go *)

(** A kind the map does not name has the order of a missing key. *)
Definition order (kind : string) : Z :=
  match kind with
  | "Namespace" => 0
  | "PersistentVolumeClaim" => 1
  | "Secret" => 2
  | "ConfigMap" => 3
  | "Service" => 4
  | "StatefulSet" => 5
  | "Deployment" => 6
  | "DaemonSet" => 7
  | _ => 0
  end%string%Z.

Definition gvrFor (kind : string) : GVR :=
  match kind with
  | "Namespace" => mkGVR "" "v1" "namespaces"
  | "PersistentVolumeClaim" => mkGVR "" "v1" "persistentvolumeclaims"
  | "Secret" => mkGVR "" "v1" "secrets"
  | "ConfigMap" => mkGVR "" "v1" "configmaps"
  | "Service" => mkGVR "" "v1" "services"
  | "StatefulSet" => mkGVR "apps" "v1" "statefulsets"
  | "Deployment" => mkGVR "apps" "v1" "deployments"
  | "DaemonSet" => mkGVR "apps" "v1" "daemonsets"
  | _ => mkGVR "" "" ""
  end%string.

Section apply.
  Context {U : Unstructured} {C : Converter}.

Definition kind_leb (a b : obj) : bool := (order (GetKind a) <=? order (GetKind b))%Z.

(** sort.SliceStable *)
Definition sorted (objs : list obj) : list obj := isort kind_leb objs.

Definition apply_error (o : obj) (e : err) : err :=
  wrapf ("apply " +:+ GetKind o +:+ "/" +:+ GetName o +:+ ": ") e.

(** One object through the dynamic client: created, or left when it is there. *)
Definition create_object (d : dyn) (o : obj) : io ev (option err) :=
  let gvr := gvrFor (GetKind o) in
  if String.eqb (gvr_Resource gvr) EmptyString then Ret None
  else
    let ns := if String.eqb (GetKind o) "Namespace" then EmptyString else GetNamespace o in
    let* r := trigger (dCreate d gvr ns o) in
    Ret (if IsAlreadyExists (err_of r) then None else option_map (apply_error o) (err_of r)).

(** The loop that ends at the first error. *)
Definition all_of (f : obj -> io ev (option err)) (objs : list obj) : io ev (option err) :=
  let* r := loopM (fun _ o => let* e := f o in Ret (match e with None => inl tt | Some e => inr e end)) tt objs in
  Ret (match r with inl _ => None | inr e => Some e end).

Definition Objects (d : option dyn) (objs : list obj) : io ev (option err) :=
  match d with
  | None => Ret (Some (errorf "apply: dynamic client required"))
  | Some d => all_of (create_object d) (sorted objs)
  end.

(** ** typed.go *)

(** A claim that is there, whatever it is, is left alone. *)
Definition create_claim (c : kube) (p : PVC) : io ev (option err) :=
  let ns := om_Namespace (pvc_Meta p) in
  let* cur := trigger (kGet c KPVC ns (om_Name (pvc_Meta p))) in
  match cur with
  | Ok _ => Ret None
  | Err e => if IsNotFound (Some e) then trigger (kCreate c KPVC ns p) else Ret (Some e)
  end.

(** Created; when it is there, updated with the identity (and what else
    [merge] keeps) of the live object. *)
Definition create_or_update (c : kube) (k : kind) (merge : kobj k -> kobj k -> kobj k) (o : kobj k)
    : io ev (option err) :=
  let ns := om_Namespace (kmeta o) in
  let* e := trigger (kCreate c k ns o) in
  if IsAlreadyExists e then
    let* cur := trigger (kGet c k ns (om_Name (kmeta o))) in
    match cur with
    | Err e => Ret (Some e)
    | Ok cur => trigger (kUpdate c k ns (merge o cur))
    end
  else Ret e.

Definition identity_of (m cur : ObjectMeta) : ObjectMeta :=
  with_identity (om_UID cur) (om_ResourceVersion cur) m.
Definition merge_cm (o cur : ConfigMap) : ConfigMap :=
  mkCM (identity_of (cm_Meta o) (cm_Meta cur)) (cm_Data o).
Definition merge_secret (o cur : Secret) : Secret :=
  mkSecret (identity_of (sec_Meta o) (sec_Meta cur)) (sec_Type o) (sec_Data o).

(** [o.Status = cur.Status]: the status is [..._ReadyReplicas] and the field
    [status] of what travels along. *)
Definition with_status (rest cur : json) : json :=
  let m := default [] (as_obj (Some rest)) in
  JObj (match oget (default [] (as_obj (Some cur))) "status" with
        | Some st => oset m "status" st
        | None => odel m "status"
        end).
Definition merge_sts (o cur : StatefulSet) : StatefulSet :=
  mkSts (identity_of (sts_Meta o) (sts_Meta cur)) (sts_Replicas o) (sts_TemplateAnnotations o)
    (sts_Template o) (sts_VolumeClaimTemplates o) (sts_ReadyReplicas cur)
    (with_status (sts_rest o) (sts_rest cur)).
Definition merge_dep (o cur : Deployment) : Deployment :=
  mkDep (identity_of (dep_Meta o) (dep_Meta cur)) (dep_Replicas o) (dep_Template o)
    (dep_ReadyReplicas cur) (with_status (dep_rest o) (dep_rest cur)).

Definition converted (k : kind) (o : obj) (f : kobj k -> io ev (option err)) : io ev (option err) :=
  match FromUnstructured k o with Err e => Ret (Some e) | Ok o => f o end.

(** The switch over the kind: what [createTyped] does not name is nil. *)
Definition typed_kind (kind : string) : option Kube.kind :=
  if String.eqb kind "PersistentVolumeClaim" then Some KPVC
  else if String.eqb kind "ConfigMap" then Some KConfigMap
  else if String.eqb kind "Secret" then Some KSecret
  else if String.eqb kind "Service" then Some KService
  else if String.eqb kind "StatefulSet" then Some KStatefulSet
  else if String.eqb kind "Deployment" then Some KDeployment
  else None.

Definition createTyped (c : kube) (o : obj) : io ev (option err) :=
  match typed_kind (GetKind o) with
  | Some KPVC => converted KPVC o (create_claim c)
  | Some KConfigMap => converted KConfigMap o (create_or_update c KConfigMap merge_cm)
  | Some KSecret => converted KSecret o (create_or_update c KSecret merge_secret)
  | Some KService => converted KService o (fun s => trigger (kCreate c KService (om_Namespace (svc_Meta s)) s))
  | Some KStatefulSet => converted KStatefulSet o (create_or_update c KStatefulSet merge_sts)
  | Some KDeployment => converted KDeployment o (create_or_update c KDeployment merge_dep)
  | _ => Ret None
  end.

Definition typed_one (c : kube) (o : obj) : io ev (option err) :=
  let* e := createTyped c o in
  Ret (if IsAlreadyExists e then None else option_map (apply_error o) e).

Definition Typed (c : option kube) (objs : list obj) : io ev (option err) :=
  match c with
  | None => Ret (Some (errorf "apply: kube client required"))
  | Some c => all_of (typed_one c) (sorted objs)
  end.
End apply.

(** ** What is exported *)

(** The kinds [export_Workload] reads. *)
Definition exported_kind (k : kind) : Prop :=
  match k with KPVC | KStatefulSet | KDeployment | KDaemonSet => True | _ => False end.

Lemma controller_exported s k : controller_kind s = Some k -> exported_kind k.
Proof.
  unfold controller_kind. intros H. by repeat (case_match; try discriminate H); simplify_eq.
Qed.

(** What [createTyped] converts of a manifest. *)
Definition convertible {U : Unstructured} {C : Converter} (m : obj) : Prop :=
  forall k, typed_kind (GetKind m) = Some k -> exists o, FromUnstructured k m = Ok o.

(** Every manifest exported is the conversion of an object of those kinds. *)
Lemma export_Workload_exports {U : Unstructured} {C : Converter} c w :
  returns (fun x => forall objs, x = Ok objs ->
    Forall (fun m => exists k o, exported_kind k /\ toUnstructured k o = Ok m) objs) (export_Workload c w).
Proof.
  set (ok := fun m => exists k o, exported_kind k /\ toUnstructured k o = Ok m). unfold export_Workload.
  eapply returns_bind with (P := fun x => match x with inl out => Forall ok out | inr _ => True end).
  - unfold returns. eapply wp_mono;
      [apply wp_loopM_inv with (I := fun _ out => Forall ok out)
         (Q := fun _ x => match x with inl out => Forall ok out | inr _ => True end); [by constructor|done|]|].
    + intros name [] out _ Ho. unfold export_claim. intros p [] _. cbn. destruct p as [p|e]; cbn; [|done].
      destruct (toUnstructured KPVC p) as [u|e] eqn:E; [|done]. apply Forall_app. split; [done|].
      apply Forall_singleton. by exists KPVC, p.
    + by intros [] [out|e].
  - intros [out|e] Ho; [|done]. destruct (controller_kind (w_Kind w)) as [k|] eqn:Ek; [|by intros objs [= <-]].
    eapply returns_bind with (P := Forall ok); [|by intros out' Ho' objs [= <-]].
    unfold export_controller. apply returns_call. intros o. cbn. destruct o as [o|e]; [|done].
    destruct (toUnstructured k o) as [u|e] eqn:E; [|done]. apply Forall_app. split; [done|].
    apply Forall_singleton. exists k, o. split; [|done]. by eapply controller_exported.
Qed.

(** ** What is written, and in which order *)

(** The order of a kind of the typed client. *)
Definition korder (k : kind) : Z :=
  match k with
  | KNamespace => 0 | KPVC => 1 | KSecret => 2 | KConfigMap => 3 | KService => 4
  | KStatefulSet => 5 | KDeployment => 6 | KDaemonSet => 7 | _ => 0
  end%Z.

Definition write_order {X} (e : ev X) : Z :=
  match e with kCreate _ k _ _ | kUpdate _ k _ _ => korder k | _ => 0%Z end.

Section typed.
  Context {U : Unstructured} {C : Converter} (c : kube).

Lemma typed_order s k : typed_kind s = Some k -> order s = korder k.
Proof. unfold typed_kind. repeat (case_if; [boolify; subst; by intros [= <-]|]). done. Qed.

(** The calls for an object of kind [k]: reads, the creation, and for a kind
    other than a claim the update. *)
Definition typed_call (k : kind) (X : Type) (e : ev X) : Prop :=
  writes e = true ->
  match e with
  | kCreate c' k' _ _ => c' = c /\ k' = k
  | kUpdate c' k' _ _ => c' = c /\ k' = k /\ k <> KPVC
  | _ => False
  end.

Lemma converted_only k o f : (forall p, only (typed_call k) (f p)) -> only (typed_call k) (converted k o f).
Proof. intros H. unfold converted. by destruct (FromUnstructured k o). Qed.

Lemma create_or_update_only k merge o : k <> KPVC -> only (typed_call k) (create_or_update c k merge o).
Proof. intros Hk. unfold create_or_update. reads; unfold typed_call; auto. Qed.

Lemma createTyped_only o :
  match typed_kind (GetKind o) with
  | Some k => only (typed_call k) (typed_one c o)
  | None => typed_one c o = Ret None
  end.
Proof.
  destruct (typed_kind (GetKind o)) as [k|] eqn:Hk; unfold typed_one, createTyped; rewrite Hk; [|done].
  apply only_bind; [|done].
  destruct k; try done; apply converted_only; intros p; try (by apply create_or_update_only);
    [unfold create_claim|]; reads; unfold typed_call; auto.
Qed.

Definition write_leb (a b : event ev) : Prop := (write_order (ev_call a) <= write_order (ev_call b))%Z.

(** The writes are in order, and each is one of an object done. *)
Definition in_order (pre : list obj) (log : list (event ev)) : Prop :=
  StronglySorted write_leb (written log) /\
  Forall (fun e => exists o k, o ∈ pre /\ typed_kind (GetKind o) = Some k /\ typed_call k _ (ev_call e)) (written log).

Lemma StronglySorted_app {A} (R : A -> A -> Prop) l1 l2 :
  StronglySorted R l1 -> StronglySorted R l2 -> (forall x y, x ∈ l1 -> y ∈ l2 -> R x y) ->
  StronglySorted R (l1 ++ l2).
Proof.
  intros H1 H2 H. induction H1 as [|x l1 H1 IH Hx]; [done|]. cbn. constructor.
  - apply IH. intros y z Hy. apply H. by right.
  - apply Forall_app. split; [done|]. apply Forall_forall. intros y Hy. apply H; [by left|done].
Qed.

Lemma typed_call_order k {X} (e : ev X) : typed_call k X e -> writes e = true -> write_order e = korder k.
Proof. intros H Hw. specialize (H Hw). destruct e; try done; cbn; destruct H as [_ H]; intuition congruence. Qed.

Lemma written_calls k ext :
  Forall (fun e => typed_call k _ (ev_call e)) ext ->
  Forall (fun e => typed_call k _ (ev_call e) /\ write_order (ev_call e) = korder k) (written ext).
Proof.
  intros H. apply Forall_forall. intros e He. unfold written in He. rewrite list_elem_of_In, filter_In in He.
  destruct He as [He Hw]. rewrite <- list_elem_of_In in He. rewrite Forall_forall in H.
  specialize (H e He). split; [done|]. by apply typed_call_order.
Qed.

(** What one object adds. *)
Lemma in_order_step pre o k log ext :
  in_order pre log -> (forall a, a ∈ pre -> kind_leb a o = true) -> typed_kind (GetKind o) = Some k ->
  Forall (fun e => typed_call k _ (ev_call e)) ext -> in_order (pre ++ [o]) (log ++ ext).
Proof.
  intros [Hs Hf] Hle Hk Hext. apply written_calls in Hext. unfold in_order. rewrite written_app. split.
  - apply StronglySorted_app; [done| |].
    + clear -Hext. induction (written ext) as [|e l IH]; [constructor|].
      rewrite Forall_cons in Hext. destruct Hext as [[_ He] Hl]. constructor; [by apply IH|].
      eapply Forall_impl; [done|]. intros e' [_ He']. unfold write_leb. lia.
    + intros e e' He He'. rewrite Forall_forall in Hf, Hext.
      destruct (Hf e He) as (a & ka & Ha & Hka & Hc). destruct (Hext e' He') as [_ Ho].
      assert (writes (ev_call e) = true) as Hw
        by (unfold written in He; rewrite list_elem_of_In, filter_In in He; tauto).
      apply typed_call_order in Hc; [|done]. specialize (Hle a Ha). unfold kind_leb in Hle.
      apply typed_order in Hka, Hk. unfold write_leb. lia.
  - apply Forall_app. split.
    + eapply Forall_impl; [done|]. intros e (a & ka & Ha & H). exists a, ka.
      split; [apply elem_of_app; by left|done].
    + eapply Forall_impl; [done|]. intros e [He _]. exists o, k. split; [|done].
      apply elem_of_app. right. by left.
Qed.

Lemma in_order_skip pre o log : in_order pre log -> in_order (pre ++ [o]) log.
Proof.
  intros [Hs Hf]. split; [done|]. eapply Forall_impl; [done|]. intros e (a & ka & Ha & H).
  exists a, ka. split; [apply elem_of_app; by left|done].
Qed.

(** A server answers AlreadyExists to creations only. *)
Definition sane (e : event ev) : Prop :=
  match ev_call e in ev X return X -> Prop with
  | kGet _ _ _ _ => fun r => IsAlreadyExists (err_of r) = false
  | kUpdate _ _ _ _ => fun r => IsAlreadyExists r = false
  | _ => fun _ => True
  end (ev_answer e).

Definition merged (k : kind) : kobj k -> kobj k -> kobj k :=
  match k with
  | KConfigMap => merge_cm | KSecret => merge_secret
  | KStatefulSet => merge_sts | KDeployment => merge_dep
  | _ => fun o _ => o
  end.

(** An object of kind [k] is on the destination: created; or, for a claim or a
    Service, there before; or updated from the live one. *)
Definition on_dest (k : kind) (p : kobj k) (log : list (event ev)) : Prop :=
  let ns := om_Namespace (kmeta p) in
  let there := mkEvent (kCreate c k ns p) in
  there None ∈ log \/
  (k = KPVC /\ exists cur, mkEvent (kGet c k ns (om_Name (kmeta p))) (Ok cur) ∈ log) \/
  ((k = KPVC \/ k = KService) /\ exists e, IsAlreadyExists e = true /\ there e ∈ log) \/
  (exists cur, mkEvent (kGet c k ns (om_Name (kmeta p))) (Ok cur) ∈ log /\
               mkEvent (kUpdate c k ns (merged k p cur)) None ∈ log).

Definition applied (o : obj) (log : list (event ev)) : Prop :=
  forall k, typed_kind (GetKind o) = Some k -> exists p, FromUnstructured k o = Ok p /\ on_dest k p log.

Lemma on_dest_mono k p l1 l2 : on_dest k p l1 -> on_dest k p (l1 ++ l2).
Proof.
  assert (forall x : event ev, x ∈ l1 -> x ∈ l1 ++ l2) as Hm by (intros; apply elem_of_app; auto).
  unfold on_dest. intros [H|[(Hk & cur & H)|[(Hk & e & He & H)|(cur & H1 & H2)]]]; eauto 10.
Qed.

Lemma applied_mono o l1 l2 : applied o l1 -> applied o (l1 ++ l2).
Proof. intros H k Hk. destruct (H k Hk) as (p & Hp & Hd). exists p. split; [done|by apply on_dest_mono]. Qed.

Definition settles (k : kind) (p : kobj k) (m : io ev (option err)) : Prop := forall log,
  wp any_env m log (fun log' r => Forall sane log' -> r = None \/ IsAlreadyExists r = true -> on_dest k p log').

Lemma create_claim_settles p : settles KPVC p (create_claim c p).
Proof.
  intros log. unfold create_claim. wp_call cur. destruct cur as [cur|e].
  - intros _ _. right. left. split; [done|]. exists cur. set_solver.
  - case_if.
    + intros r log' ->. intros _ [->|Hr]; [left; set_solver|].
      right. right. left. split; [auto|]. exists r. split; [done|set_solver].
    + intros Hs [Hr|Hr]; [done|]. apply Forall_app in Hs as [_ Hs]. rewrite Forall_singleton in Hs.
      cbn in Hs, Hr. congruence.
Qed.

Lemma create_or_update_settles k p : settles k p (create_or_update c k (merged k) p).
Proof.
  intros log. unfold create_or_update. wp_call e. case_if.
  - wp_call cur. destruct cur as [cur|e'].
    + intros r log' ->. intros Hs Hr. assert (r = None) as ->.
      { destruct Hr as [Hr|Hr]; [done|]. apply Forall_app in Hs as [_ Hs]. rewrite Forall_singleton in Hs.
        cbn in Hs. congruence. }
      right. right. right. exists cur. split; set_solver.
    + intros Hs [Hr|Hr]; [done|]. apply Forall_app in Hs as [_ Hs]. rewrite Forall_singleton in Hs.
      cbn in Hs, Hr. congruence.
  - intros _ [->|Hr]; [left; set_solver|]. congruence.
Qed.

Lemma create_settles s : settles KService s (trigger (kCreate c KService (om_Namespace (svc_Meta s)) s)).
Proof.
  intros log e log' ->. intros _ [->|Hr]; [left; set_solver|].
  right. right. left. split; [auto|]. exists e. split; [done|]. cbn. set_solver.
Qed.

Lemma typed_one_settles o log :
  wp any_env (typed_one c o) log (fun log' r => Forall sane log' -> r = None -> applied o log').
Proof.
  assert (forall k (f : kobj k -> io ev (option err)),
    typed_kind (GetKind o) = Some k -> (forall p, settles k p (f p)) ->
    wp any_env (converted k o f) log (fun log' r => Forall sane log' ->
      r = None \/ IsAlreadyExists r = true -> applied o log')) as Hconv.
  { intros k f Hk Hf. unfold converted. destruct (FromUnstructured k o) as [p|e] eqn:Hp.
    - eapply wp_mono; [apply Hf|]. cbn beta. intros log' r H Hs Hr k' Hk'.
      rewrite Hk in Hk'. injection Hk' as <-. exists p. split; [done|]. by apply H.
    - intros _ [Hr|Hr]; [done|]. cbn in Hr. by rewrite (FromUnstructured_plain _ _ _ Hp) in Hr. }
  unfold typed_one. apply wp_bind. eapply wp_mono with (P := fun log' r => Forall sane log' ->
    r = None \/ IsAlreadyExists r = true -> applied o log').
  - unfold createTyped. destruct (typed_kind (GetKind o)) as [k|] eqn:Hk;
      [|intros _ _ k Hk'; congruence].
    destruct k; try done; try (apply Hconv; [done|intros p; first
      [apply create_claim_settles | exact (create_or_update_settles _ p) | apply create_settles]]);
      unfold typed_kind in Hk; repeat (case_if_in Hk; [done|]); done.
  - intros log' r H. cbn [wp]. case_if; [auto|]. destruct r; [done|auto].
Qed.

Lemma in_order_mono pre pre' log : pre ⊆ pre' -> in_order pre log -> in_order pre' log.
Proof.
  intros Hsub [Hs Hf]. split; [done|]. eapply Forall_impl; [done|]. intros e (o & k & Ho & H).
  exists o, k. split; [by apply Hsub|done].
Qed.

(** One object, in its turn. *)
Lemma typed_one_wp pre o log :
  in_order pre log -> (forall a, a ∈ pre -> kind_leb a o = true) ->
  wp any_env (typed_one c o) log (fun log' _ => in_order (pre ++ [o]) log').
Proof.
  intros Hin Hle. pose proof (createTyped_only o) as Ho.
  destruct (typed_kind (GetKind o)) as [k|] eqn:Hk.
  - eapply wp_mono; [by apply wp_only_ext|]. intros log' r (ext & -> & Hext). by eapply in_order_step.
  - rewrite Ho. by apply in_order_skip.
Qed.

Lemma order_leb_total a b : kind_leb a b = true \/ kind_leb b a = true.
Proof. unfold kind_leb. lia. Qed.
Lemma order_leb_trans x y z : kind_leb x y = true -> kind_leb y z = true -> kind_leb x z = true.
Proof. unfold kind_leb. lia. Qed.

Lemma sorted_before pre o post objs : sorted objs = pre ++ o :: post ->
  forall a, a ∈ pre -> kind_leb a o = true.
Proof.
  intros Heq a Ha. pose proof (isort_Sorted kind_leb order_leb_total order_leb_trans objs) as Hs.
  fold (sorted objs) in Hs. rewrite Heq in Hs. clear Heq. revert Ha Hs.
  induction pre as [|b pre IH]; intros Ha Hs; [by apply elem_of_nil in Ha|].
  inversion Hs as [|? ? Hs' Hb]; subst. apply elem_of_cons in Ha as [->|Ha]; [|by apply IH].
  rewrite Forall_forall in Hb. apply Is_true_true, Hb, elem_of_app. right. by left.
Qed.
End typed.

(** ** Properties *)

(** C30: applying manifests on the destination. Whatever it answers, everything
    written is a creation of a submitted object's kind or an update of one that
    is not a claim: a claim is never updated, nothing is deleted, and objects
    of other kinds (a DaemonSet, a Namespace) write nothing. The writes are in
    the order claims, Secrets, ConfigMaps, Services, StatefulSets, Deployments.
    When the server answers AlreadyExists to creations only and the result is
    no error, every object of the six kinds is on the destination. *)
Theorem Typed_applies {U : Unstructured} {C : Converter} c objs :
  always (Typed (Some c) objs) (fun log r =>
    in_order c objs log /\
    (Forall sane log -> r = None -> Forall (fun o => applied c o log) objs)).
Proof.
  unfold always, Typed, all_of. apply wp_bind.
  pose (I := fun (pre : list obj) (log : list (event ev)) (_ : unit) => in_order c pre log /\
    (Forall sane log -> Forall (fun o => applied c o log) pre)).
  pose proof (isort_Permutation kind_leb objs) as Hperm. fold (sorted objs) in Hperm.
  assert (forall pre, pre ⊆ sorted objs -> pre ⊆ objs) as Hsub by (intros pre H o Ho; rewrite <- Hperm; auto).
  eapply wp_mono; [apply (wp_loopM any_env _ I (fun log _ => in_order c objs log) (sorted objs) [])|].
  - split; [|by constructor]. split; constructor.
  - intros pre o post log [] Heq [Hin Happ]. cbn in Heq. apply wp_bind.
    eapply wp_mono_ext; [apply wp_and; [by eapply typed_one_wp; [|apply (sorted_before _ _ _ _ Heq)]|apply typed_one_settles]|].
    intros ext r [Hin' Hr]. destruct r as [e|]; cbn.
    + eapply in_order_mono; [|done]. apply Hsub. rewrite Heq. intros x.
      rewrite !elem_of_app, list_elem_of_singleton, elem_of_cons. tauto.
    + split; [done|]. intros Hs. pose proof Hs as Hs'. apply Forall_app in Hs' as [Hs' _].
      apply Forall_app. split; [|by apply Forall_singleton, Hr].
      eapply Forall_impl; [by apply Happ|]. intros a. apply applied_mono.
  - intros log [[]|e] H; cbn in *.
    + destruct H as [Hin Happ]. split; [by eapply in_order_mono; [apply Hsub|]|].
      intros Hs _. rewrite <- Hperm. by apply Happ.
    + by split.
Qed.

(** The exporter reads DaemonSets, the typed client never creates one. *)
Lemma daemonset_skipped {U : Unstructured} {C : Converter} c o :
  GetKind o = "DaemonSet"%string -> typed_one c o = Ret None.
Proof. intros H. unfold typed_one, createTyped. by rewrite H. Qed.
