(* ===== verification/Render.v ===== *)
(** * Rendering destination manifests: src/pkg/render

    render.go (the built-in renderer), webhook.go, git.go and select.go. The
    YAML decoder is library code and a parameter: the documents it yields
    before the end of a file or its first error. File system and process calls
    are events of the model. *)

From Stdlib Require Import ZArith Lia Ascii.
From S2P Require Import Prelude GoStrings Effects Api Json Kube Unstructured Classify Transform.

(** ** render.go *)

Record Request := mkRequest {
  rq_Policy : option Policy; rq_Pair : option ClusterPair; rq_SourceObjects : list obj }.

Definition unless_set (a b : strmap) : strmap := match a with Some _ => a | None => b end.

Definition pairOptions (opt : Options) (pair : option ClusterPair) : Options :=
  match pair with
  | None => opt
  | Some p => mkOptions (unless_set (StorageClassMap opt) (cps_StorageClassMap (cp_Spec p)))
                (DefaultStorageClass opt)
                (unless_set (RuntimeClassMap opt) (cps_RuntimeClassMap (cp_Spec p)))
  end.

(** ** filepath *)

(** filepath.Ext: the suffix from the last point of the last element. *)
Definition Ext (path : string) : string :=
  let base := from (LastIndexByte path "/" + 1) path in
  let i := LastIndexByte base "." in
  if (i <? 0)%Z then EmptyString else from i base.

(** One element of a path onto the cleaned ones, the last first. *)
Definition clean_elem (rooted : bool) (out : list string) (e : string) : list string :=
  if String.eqb e EmptyString || String.eqb e "." then out
  else if String.eqb e ".." then
    match out with
    | [] => if rooted then [] else [".."%string]
    | t :: out' => if String.eqb t ".." then ".."%string :: out else out'
    end
  else e :: out.

(** filepath.Clean on Unix. *)
Definition Clean (path : string) : string :=
  if String.eqb path EmptyString then "."
  else
    let rooted := HasPrefix path "/" in
    let body := Join "/" (rev (fold_left (clean_elem rooted) (Split "/" path) [])) in
    if rooted then "/" +:+ body else if String.eqb body EmptyString then "." else body.

(** filepath.Join of two elements. *)
Definition path_Join (a b : string) : string :=
  if String.eqb a EmptyString then if String.eqb b EmptyString then EmptyString else Clean b
  else if String.eqb b EmptyString then Clean a
  else Clean (a +:+ "/" +:+ b).

Section render.
  Context {U : Unstructured} (Catalog : list Engine).
  Context (yaml_documents : string -> list obj * option err).

Definition transformed (opt : Options) (o : obj) : obj := Object Catalog o opt.

(** Sanitize.Render *)
Definition Sanitize (opt : Options) (req : Request) : list obj :=
  List.map (transformed (pairOptions opt (rq_Pair req))) (rq_SourceObjects req).

(** ** webhook.go *)

Definition webhook_request (req : Request) : json := JObj
  [("policy", JStr (match rq_Policy req with Some p => pol_Name p | None => EmptyString end));
   ("objects", JArr (List.map JObj (rq_SourceObjects req)))]%string.

(** Decoding [objects]: absent or null is none; a null element is the empty
    map; another type is an error. *)
Definition decode_object (j : json) : option obj :=
  match j with JObj m => Some m | JNull => Some [] | _ => None end.
Definition decode_objects (j : json) : option (list obj) :=
  match j with
  | JNull => Some []
  | JObj m => match oget m "objects" with
              | None | Some JNull => Some []
              | Some (JArr l) => mapM decode_object l
              | Some _ => None
              end
  | _ => None
  end.

Definition Webhook (url : string) (opt : Options) (req : Request) : io ev (res (list obj)) :=
  let url := match rq_Policy req with
             | Some p => if String.eqb url EmptyString then rd_WebhookURL (ps_Renderer (pol_Spec p)) else url
             | None => url
             end in
  if String.eqb url EmptyString then
    Ret (Err (errorf "webhook renderer: spec.renderer.webhookURL is required"))
  else
    let* bad := trigger (httpNewRequest url) in
    match bad with
    | Some e => Ret (Err e)
    | None =>
        let* r := trigger (httpPost url (webhook_request req) (30 * Second)%Z) in
        match r with
        | Err e => Ret (Err (wrapf "webhook renderer: " e))
        | Ok (code, status, body) =>
            if (code <? 200)%Z || (299 <? code)%Z
            then Ret (Err (errorf ("webhook renderer: unexpected status " +:+ status)))
            else
              match body with
              | Err e => Ret (Err (wrapf "webhook renderer: decode: " e))
              | Ok j => match decode_objects j with
                        | None => Ret (Err (errorf "webhook renderer: decode: type mismatch"))
                        | Some objs => Ret (Ok (List.map (transformed (pairOptions opt (rq_Pair req))) objs))
                        end
              end
        end
    end.

(** ** git.go *)

(** The tree, and the temporary directory to remove afterwards. *)
Definition clone_args (src : GitSource) (tmp : string) : list string :=
  ["clone"; "--depth"; "1"]%string ++
  (if String.eqb (git_Ref src) EmptyString then [] else ["--branch"%string; git_Ref src]) ++
  [git_URL src; tmp].

Definition clone (src : GitSource) (tmp : string) : io ev (res (string * option string)) :=
  let* ' (out, e) := trigger (runCommand "git" (clone_args src tmp)) in
  match e with
  | None => Ret (Ok (tmp, Some tmp))
  | Some e =>
      let* _ := trigger (removeAll tmp) in
      Ret (Err (wrapf_post (wrapf "git clone: " e) (": " +:+ TrimSpace out)))
  end.

Definition checkout (src : GitSource) : io ev (res (string * option string)) :=
  let url := TrimPrefix (git_URL src) "file://" in
  let* st := trigger (osStat url) in
  match st with
  | Ok true => Ret (Ok (url, None))
  | _ =>
      let* tmp := trigger (mkdirTemp "portage-git-*") in
      match tmp with
      | Err e => Ret (Err e)
      | Ok tmp => clone src tmp
      end
  end.

Definition is_yaml (path : string) : bool :=
  let e := ToLower (Ext path) in String.eqb e ".yaml" || String.eqb e ".yml".

(** The documents of one file that have a kind; the first error stops. *)
Definition load_file (out : list obj) (f : string) : io ev (list obj + err) :=
  let* raw := trigger (readFile f) in
  Ret (match raw with
       | Err e => inr e
       | Ok raw => let '(docs, e) := yaml_documents raw in
                   match e with
                   | Some e => inr (wrapf (f +:+ ": ") e)
                   | None => inl (out ++ List.filter (fun o => negb (String.eqb (GetKind o) EmptyString)) docs)
                   end
       end).

Definition loadYAMLTree (root : string) : io ev (res (list obj)) :=
  let* st := trigger (osStat root) in
  match st with
  | Err e => Ret (Err (wrapf "git renderer: " e) : res (list obj))
  | Ok dir =>
      let* files := if (dir : bool)
                    then let* fs := trigger (walkFiles root) in
                         Ret (res_map (List.filter is_yaml) fs)
                    else Ret (Ok [root]) in
      match files with
      | Err e => Ret (Err e)
      | Ok files =>
          let* r := loopM load_file [] files in
          Ret (match r with inl out => Ok out | inr e => Err e end)
      end
  end.

(** [defer cleanup()] *)
Definition cleaned {A} (tmp : option string) (m : io ev A) : io ev A :=
  let* r := m in
  match tmp with
  | None => Ret r
  | Some tmp => let* _ := trigger (removeAll tmp) in Ret r
  end.

Definition Git (source : option GitSource) (opt : Options) (req : Request) : io ev (res (list obj)) :=
  let src := match source, rq_Policy req with
             | None, Some p => rd_Git (ps_Renderer (pol_Spec p))
             | _, _ => source
             end in
  let required : io ev (res (list obj)) := Ret (Err (errorf "git renderer: spec.renderer.git.url is required")) in
  match src with
  | None => required
  | Some src =>
      if String.eqb (git_URL src) EmptyString then required
      else
        let* c := checkout src in
        match c with
        | Err e => Ret (Err e)
        | Ok (root, tmp) =>
            let dir := if String.eqb (git_Path src) EmptyString then root else path_Join root (git_Path src) in
            cleaned tmp (
              let* objs := loadYAMLTree dir in
              Ret (res_map (List.map (transformed (pairOptions opt (rq_Pair req)))) objs))
        end
  end.

(** ** select.go *)

Inductive Renderer :=
| RSanitize (opt : Options)
| RGit (source : option GitSource) (opt : Options)
| RWebhook (url : string) (opt : Options).

Definition For (pol : option Policy) (opt : Options) : Renderer :=
  match pol with
  | None => RSanitize opt
  | Some p =>
      let rd := ps_Renderer (pol_Spec p) in
      match rd_Kind rd with
      | RendererGit => RGit (rd_Git rd) opt
      | RendererWebhook => RWebhook (rd_WebhookURL rd) opt
      | _ => RSanitize opt
      end
  end.

Definition Kind (r : Renderer) : RendererKind :=
  match r with
  | RSanitize _ => RendererSanitize
  | RGit _ _ => RendererGit
  | RWebhook _ _ => RendererWebhook
  end.

Definition Render (r : Renderer) (req : Request) : io ev (res (list obj)) :=
  match r with
  | RSanitize opt => Ret (Ok (Sanitize opt req))
  | RGit source opt => Git source opt req
  | RWebhook url opt => Webhook url opt req
  end.
End render.

(** ** What a renderer promises *)

Section contract.
  Context {U : Unstructured} (Catalog : list Engine).
  Context (yaml_documents : string -> list obj * option err).

(** A temporary directory of the run was removed. *)
Definition tmp_removed (log : list (event ev)) (e : event ev) : Prop :=
  match ev_call e in ev X return X -> Prop with
  | mkdirTemp _ => fun r => forall tmp, r = Ok tmp -> exists x, mkEvent (removeAll tmp) x ∈ log
  | _ => fun _ => True
  end (ev_answer e).
Definition tidy (log : list (event ev)) : Prop := Forall (tmp_removed log) log.

(** No cluster is written, no directory is left, and the objects returned come
    out of the sanitizer. *)
Definition promised (opt : Options) (log : list (event ev)) (r : res (list obj)) : Prop :=
  written log = [] /\ tidy log /\
  forall out, r = Ok out -> exists srcs, out = List.map (transformed Catalog opt) srcs.

Lemma tmp_removed_mono l1 l2 e : tmp_removed l1 e -> tmp_removed (l1 ++ l2) e.
Proof.
  destruct e as [X e x]. unfold tmp_removed. cbn. destruct e; try done. intros H tmp Htmp.
  destruct (H tmp Htmp) as [y Hy]. exists y. apply elem_of_app. by left.
Qed.

(** Calls that write no cluster and make no directory keep a log as it is. *)
Definition plain_call (X : Type) (e : ev X) : Prop :=
  writes e = false /\ match e with mkdirTemp _ => False | _ => True end.

Lemma plain_ext log ext : Forall (fun e => plain_call _ (ev_call e)) ext ->
  written (log ++ ext) = written log /\ (forall l, tidy l -> tidy (l ++ ext)).
Proof.
  intros H. split.
  - rewrite written_app. replace (written ext) with (@nil (event ev)); [by rewrite app_nil_r|].
    induction H as [|e ext [He _] _ IH]; [done|]. cbn. by rewrite He.
  - intros l Hl. apply Forall_app. split.
    + eapply Forall_impl; [done|]. intros e. apply tmp_removed_mono.
    + eapply Forall_impl; [done|]. intros [X e x] [_ He]. unfold tmp_removed. cbn. by destruct e.
Qed.

Lemma load_only root : only plain_call (loadYAMLTree yaml_documents root).
Proof. unfold loadYAMLTree, load_file. reads; by split. Qed.

Lemma Webhook_only url opt req : only plain_call (Webhook Catalog url opt req).
Proof. unfold Webhook. reads; by split. Qed.

(** Removing [tmp] is all that is left to do. *)
Definition pending (tmp : option string) (log : list (event ev)) : Prop :=
  match tmp with
  | None => tidy log
  | Some tmp => forall ext, Forall (fun e => plain_call _ (ev_call e)) ext ->
      (exists x, mkEvent (removeAll tmp) x ∈ ext) -> tidy (log ++ ext)
  end.

Lemma clone_wp st0 src tmp :
  (forall l, tmp_removed l st0) -> writes (ev_call st0) = false ->
  wp any_env (clone src tmp) [st0; mkEvent (mkdirTemp "portage-git-*") (Ok tmp)]
    (fun log r => written log = [] /\
      match r with Ok (_, tmp) => pending tmp log | Err _ => tidy log end).
Proof.
  intros Hst Hw. assert (forall l x, mkEvent (removeAll tmp) x ∈ l ->
    tmp_removed l (mkEvent (mkdirTemp "portage-git-*") (Ok tmp))) as Hrm by (intros l x Hx tmp' [= <-]; eauto).
  unfold clone. wp_call r. destruct r as [out [e|]]; cbn [app].
  - intros x log' ->. split; [unfold written; cbn; by rewrite Hw|]. cbn [app].
    repeat (apply Forall_cons; split); try done. apply (Hrm _ x). set_solver.
  - split; [unfold written; cbn; by rewrite Hw|]. intros ext Hext [x Hx]. cbn [app].
    repeat (apply Forall_cons; split); try done; [apply (Hrm _ x); set_solver|].
    eapply Forall_impl; [exact Hext|]. intros [X e0 y] [_ He]. unfold tmp_removed. cbn. by destruct e0.
Qed.

Lemma checkout_wp src :
  wp any_env (checkout src) [] (fun log r => written log = [] /\
    match r with Ok (_, tmp) => pending tmp log | Err _ => tidy log end).
Proof.
  unfold checkout. wp_call st. set (st0 := mkEvent (osStat _) st).
  assert (forall l, tmp_removed l st0) as Hst by done.
  destruct st as [[|]|]; [by split; [|apply Forall_singleton]| |];
    (wp_call tmp; destruct tmp as [tmp|e1]; [by apply clone_wp|];
     split; [done|]; cbn [app]; repeat (apply Forall_cons; split); done).
Qed.

Lemma Webhook_wp url opt req :
  wp any_env (Webhook Catalog url opt req) [] (promised (pairOptions opt (rq_Pair req))).
Proof.
  apply wp_mono with (P := fun log r => (written log = [] /\ tidy log) /\
    forall out, r = Ok out -> exists srcs, out = List.map (transformed Catalog (pairOptions opt (rq_Pair req))) srcs);
    [apply wp_and|by intros log r [[? ?] ?]; split_and!].
  - eapply wp_mono; [apply wp_only_ext, Webhook_only|]. intros log r (ext & -> & Hext).
    destruct (plain_ext [] ext Hext) as [Hw Ht]. split; [done|]. apply Ht. by constructor.
  - unfold Webhook. set (u := match rq_Policy req with Some _ => _ | None => _ end). clearbody u.
    case_if; [done|]. wp_call bad. destruct bad; [done|]. wp_call r.
    destruct r as [[[code status] body]|]; [|done]. case_if; [done|]. destruct body as [j|]; [|done].
    destruct (decode_objects j) as [objs|]; [|done]. intros out [= <-]. eauto.
Qed.

Lemma Git_wp source opt req :
  wp any_env (Git Catalog yaml_documents source opt req) [] (promised (pairOptions opt (rq_Pair req))).
Proof.
  assert (forall e, promised (pairOptions opt (rq_Pair req)) [] (Err e)) as Hnone
    by (intros e; split_and!; [done|by constructor|done]).
  unfold Git. destruct (match source with Some _ => _ | None => _ end) as [src|]; [|apply Hnone].
  case_if; [apply Hnone|]. apply wp_bind. eapply wp_mono; [apply checkout_wp|].
  intros log [[root tmp]|e] [Hw Hp]; [|by split_and!]. unfold cleaned. rewrite wp_bind, wp_bind.
  eapply wp_mono; [apply wp_only_ext, load_only|]. intros log' objs (ext & -> & Hext).
  destruct (plain_ext log ext Hext) as [Hw' Ht]. rewrite Hw in Hw'.
  assert (forall out, res_map (List.map (transformed Catalog (pairOptions opt (rq_Pair req)))) objs = Ok out ->
    exists srcs, out = List.map (transformed Catalog (pairOptions opt (rq_Pair req))) srcs) as Ho.
  { intros out. destruct objs as [objs|]; [|done]. intros [= <-]. eauto. }
  destruct tmp as [tmp|]; cbn [wp]; [|by split_and!; [|apply Ht|]].
  intros x log' ->. split_and!; [|rewrite <- app_assoc|done].
  - by rewrite written_app, Hw'.
  - apply Hp; [|set_solver]. apply Forall_app. split; [done|]. apply Forall_singleton. by split.
Qed.

End contract.
