(* ===== verification/BlobStores.v ===== *)
(** * The stores of production: src/pkg/objectstore/store.go (Dir) and s3.go

    The directory store and the S3 store as implementations of [BlobStore], so
    that what StoredDumps.v proves of dumps holds of them. The file system and
    the S3 client are given by the classes [FileSystem] and [S3API], with the
    part of their documented behaviour the stores rely on. *)

From Stdlib Require Import ZArith Lia Ascii.
From S2P Require Import Prelude GoStrings Effects ObjectStore Api GoTime Kube Classify StoredDumps.
From S2P Require Render.

(** ** S3 *)

(** PutObject and GetObject of one bucket; the body read is a second result. A
    put that succeeds is what a later get returns, and no put touches another
    object. *)
Class S3API (T : Type) := {
  PutObject : T -> string -> string -> string -> T * option err;
  GetObject : T -> string -> string -> res (res string);
  GetObject_same t b k d : snd (PutObject t b k d) = None -> GetObject (fst (PutObject t b k d)) b k = Ok (Ok d);
  GetObject_other t b k k' d : k <> k' -> GetObject (fst (PutObject t b k' d)) b k = GetObject t b k }.

Module S3.
(** [Prefix] is trimmed by NewS3. *)
Record S3 (T : Type) := mkS3 { API : T; Bucket : string; Prefix : string }.
Arguments mkS3 {T}. Arguments API {T}. Arguments Bucket {T}. Arguments Prefix {T}.

Definition key (prefix k : string) : string :=
  let k := TrimPrefix k "/" in
  if String.eqb prefix EmptyString then k else prefix +:+ "/" +:+ k.

Definition put {T} `{S3API T} (s : S3 T) (k data : string) : S3 T * option err :=
  let '(api, e) := PutObject (API s) (Bucket s) (key (Prefix s) k) data in
  (mkS3 api (Bucket s) (Prefix s), option_map (wrapf ("s3 put " +:+ k +:+ ": ")) e).

Definition get {T} `{S3API T} (s : S3 T) (k : string) : res string :=
  match GetObject (API s) (Bucket s) (key (Prefix s) k) with
  | Err e => Err (wrapf ("s3 get " +:+ k +:+ ": ") e)
  | Ok body => body
  end.
End S3.

(** ** Dir *)

(** os.MkdirAll, os.WriteFile and os.ReadFile by cleaned path. Making
    directories changes no file's contents; a write that succeeds is read back,
    and no write touches the file of another path (there are no links). *)
Class FileSystem (T : Type) := {
  MkdirAll : T -> string -> T * option err;
  WriteFile : T -> string -> string -> T * option err;
  ReadFile : T -> string -> res string;
  ReadFile_mkdir t d p : ReadFile (fst (MkdirAll t d)) p = ReadFile t p;
  ReadFile_same t p d : snd (WriteFile t p d) = None -> ReadFile (fst (WriteFile t p d)) p = Ok d;
  ReadFile_other t p p' d : p <> p' -> ReadFile (fst (WriteFile t p' d)) p = ReadFile t p }.

Module Dir.
Record Dir (T : Type) := mkDir { FS : T; Root : string }.
Arguments mkDir {T}. Arguments FS {T}. Arguments Root {T}.

(** filepath.Dir. *)
Definition path_Dir (p : string) : string :=
  Render.Clean (take_str (Z.to_nat (LastIndexByte p "/" + 1)) p).

Definition put {T} `{FileSystem T} (d : Dir T) (k data : string) : Dir T * option err :=
  let path := Render.path_Join (Root d) k in
  let '(fs, e) := MkdirAll (FS d) (path_Dir path) in
  match e with
  | Some e => (mkDir fs (Root d), Some e)
  | None => let '(fs, e) := WriteFile fs path data in (mkDir fs (Root d), e)
  end.

Definition get {T} `{FileSystem T} (d : Dir T) (k : string) : res string :=
  ReadFile (FS d) (Render.path_Join (Root d) k).
End Dir.

(** ** Lemmas *)

(** An element that filepath.Clean keeps. *)
Definition good_elem (e : string) : Prop :=
  (e <> EmptyString /\ e <> "." /\ e <> "..")%string /\ in_cutset e "/" = false.

Lemma digit_no_slash d : (d < 10)%N -> Ascii.eqb "/" (ascii_of_N (48 + d)) = false.
Proof.
  intros H. assert (d = 0 \/ d = 1 \/ d = 2 \/ d = 3 \/ d = 4 \/ d = 5 \/ d = 6 \/ d = 7 \/ d = 8 \/ d = 9)%N as Hd by lia.
  by repeat (destruct Hd as [->|Hd]; [done|]); subst.
Qed.

Lemma digits_no_slash fuel n acc : in_cutset acc "/" = false -> in_cutset (digits_fuel fuel n acc) "/" = false.
Proof.
  revert n acc. induction fuel as [|fuel IH]; intros n acc H; cbn [digits_fuel]; [done|].
  assert (in_cutset (String (ascii_of_N (48 + n mod 10)) acc) "/" = false) as H'.
  { cbn [in_cutset]. rewrite H, orb_false_r. apply digit_no_slash. by apply N.mod_lt. }
  case_if; [exact H'|]. by apply IH.
Qed.

Lemma Itoa_no_slash z : in_cutset (Itoa z) "/" = false.
Proof.
  unfold Itoa. assert (forall n, in_cutset (Itoa_N n) "/" = false) as H by (intros n; by apply digits_no_slash).
  case_if; [|apply H]. cbn [in_cutset]. by rewrite H.
Qed.

Lemma pad_no_slash w n : in_cutset (pad w n) "/" = false.
Proof.
  unfold pad. rewrite in_cutset_app, Itoa_no_slash, orb_false_r.
  by induction (w - String.length (Itoa n)) as [|k IH].
Qed.

Lemma FormatStamp_no_slash t : in_cutset (FormatStamp t) "/" = false.
Proof.
  unfold FormatStamp, date_string. destruct (clock t) as [[h mi] s]. destruct (civil _) as [[y m] d].
  by rewrite !in_cutset_app, !pad_no_slash.
Qed.

(** A dump key is three such elements. *)
Lemma dump_key_parts k : dump_key k -> exists a b c,
  good_elem a /\ good_elem b /\ good_elem c /\ k = Join "/" [a; b; c].
Proof.
  intros (w & t & Hw & ->). exists (w_Namespace w), (ReplaceByte (WKey w) "/" "_"), (FormatStamp t).
  pose proof Hw as ((Hne & Hn & _) & _). split_and!.
  - by split.
  - split; [|apply ReplaceByte_no_slash]. rewrite WKey_key by done.
    assert (in_cutset (w_Namespace w +:+ "_" +:+ w_Kind w +:+ "_" +:+ w_Name w) "_" = true) as H
      by (rewrite !in_cutset_app; cbn; by rewrite orb_true_r).
    split_and!; intros E; by rewrite E in H.
  - split; [|apply FormatStamp_no_slash].
    assert (in_cutset (FormatStamp t) "Z" = true) as H.
    { unfold FormatStamp. destruct (clock t) as [[h mi] s]. rewrite !in_cutset_app. cbn. by rewrite !orb_true_r. }
    split_and!; intros E; by rewrite E in H.
  - by rewrite Key_dump.
Qed.

Lemma good_keeps rooted out e : good_elem e -> Render.clean_elem rooted out e = e :: out.
Proof.
  intros [(H1 & H2 & H3) _]. unfold Render.clean_elem. apply String.eqb_neq in H1, H2, H3. by rewrite H1, H2, H3.
Qed.

Lemma Split_join (es : list string) : es <> [] -> Forall (fun e => in_cutset e "/" = false) es ->
  Split "/" (Join "/" es) = es.
Proof.
  induction es as [|e es IH]; [done|]. intros _ [He Hes]%Forall_cons. destruct es as [|e' es].
  - by apply Split_no_sep.
  - cbn [Join]. change ("/" +:+ ?x) with (String "/" x). rewrite Split_app, (Split_no_sep _ e) by done.
    cbn [app]. f_equal. by apply IH.
Qed.

Lemma Join_inj (l l' : list string) : l <> [] -> l' <> [] -> Forall (fun e => in_cutset e "/" = false) l ->
  Forall (fun e => in_cutset e "/" = false) l' -> Join "/" l = Join "/" l' -> l = l'.
Proof. intros H1 H2 H3 H4 E. by rewrite <- (Split_join l), <- (Split_join l'), E. Qed.

(** The elements cleaning keeps have no slash. *)
Lemma clean_no_slash rooted es : Forall (fun e => in_cutset e "/" = false) es ->
  forall out, Forall (fun e => in_cutset e "/" = false) out ->
  Forall (fun e => in_cutset e "/" = false) (fold_left (Render.clean_elem rooted) es out).
Proof.
  induction 1 as [|e es He _ IH]; intros out Ho; [done|]. cbn. apply IH. unfold Render.clean_elem.
  destruct (String.eqb e EmptyString || String.eqb e "."); [done|].
  destruct (String.eqb e ".."); [|by constructor]. destruct out as [|x out]; [destruct rooted; by repeat constructor|].
  apply Forall_cons in Ho as [Hx Ho]. destruct (String.eqb x ".."); [|done]. by repeat constructor.
Qed.

(** The path of a dump under a root: the root's elements, then the key's. *)
Lemma dump_path root a b c : root <> EmptyString -> good_elem a -> good_elem b -> good_elem c ->
  let r := fold_left (Render.clean_elem (HasPrefix root "/")) (Split "/" root) [] in
  Render.path_Join root (Join "/" [a; b; c]) =
  (if HasPrefix root "/" then "/" else EmptyString) +:+ Join "/" (rev r ++ [a; b; c]).
Proof.
  intros Hr Ha Hb Hc. cbv zeta. unfold Render.path_Join. apply String.eqb_neq in Hr as Hr'. rewrite Hr'.
  assert (String.eqb (Join "/" [a; b; c]) EmptyString = false) as ->.
  { destruct Ha as [(Hne & _) _]. by destruct a. }
  unfold Render.Clean. assert (String.eqb (root +:+ "/" +:+ Join "/" [a; b; c]) EmptyString = false) as ->
    by by destruct root.
  assert (HasPrefix (root +:+ "/" +:+ Join "/" [a; b; c]) "/" = HasPrefix root "/") as ->
    by (destruct root as [|x root]; [done|]; cbn; by destruct root).
  change ("/" +:+ Join "/" [a; b; c]) with (String "/" (Join "/" [a; b; c])).
  rewrite Split_app, fold_left_app, (Split_join [a; b; c]) by (done || by repeat constructor; apply Ha || apply Hb || apply Hc).
  cbn [fold_left]. rewrite !good_keeps by done. cbn [rev]. rewrite <- !app_assoc. cbn [app].
  case_if; [done|]. set (j := Join "/" _). assert (String.eqb j EmptyString = false) as ->; [|done].
  apply String.eqb_neq. subst j. intros E. apply (f_equal (Split "/")) in E. rewrite Split_join in E.
  - cbn in E. destruct (rev _) as [|x [|y l]]; [by injection E; intros; destruct Ha as [(? & _) _]| |]; done.
  - by destruct (rev _).
  - apply Forall_app. split; [apply Forall_rev, clean_no_slash; [|constructor]|repeat constructor; apply Ha || apply Hb || apply Hc].
    apply Forall_forall. intros e He. by eapply Split_parts.
Qed.

Lemma good_elems_slash a b c : good_elem a -> good_elem b -> good_elem c ->
  Forall (fun e => in_cutset e "/" = false) [a; b; c].
Proof. intros [_ Ha] [_ Hb] [_ Hc]. by repeat constructor. Qed.

Lemma no_slash_prefix a b : a <> EmptyString -> in_cutset a "/" = false -> HasPrefix (a +:+ b) "/" = false.
Proof.
  destruct a as [|x a]; [done|]. cbn [in_cutset]. intros _ [Hx _]%orb_false_iff. unfold HasPrefix.
  rewrite app_cons_str. cbn [String.prefix]. destruct (ascii_dec "/" x) as [<-|Hne]; [by rewrite Ascii.eqb_refl in Hx|done].
Qed.

Lemma dump_path_here a b c : good_elem a -> good_elem b -> good_elem c ->
  Render.path_Join EmptyString (Join "/" [a; b; c]) = Join "/" [a; b; c].
Proof.
  intros Ha Hb Hc. pose proof Ha as [(Hne & _) Hs]. unfold Render.path_Join, Render.Clean. cbn [String.eqb].
  assert (String.eqb (Join "/" [a; b; c]) EmptyString = false) as -> by by destruct a.
  assert (HasPrefix (Join "/" [a; b; c]) "/" = false) as -> by by apply no_slash_prefix.
  rewrite Split_join by (done || by apply good_elems_slash). cbn [fold_left]. rewrite !good_keeps by done.
  cbn [rev app]. assert (String.eqb (Join "/" [a; b; c]) EmptyString = false) as ->; [by destruct a|done].
Qed.

(** Different dumps go to different files. *)
Lemma dump_paths_apart root k k' : dump_key k -> dump_key k' -> k <> k' ->
  Render.path_Join root k <> Render.path_Join root k'.
Proof.
  intros (a & b & c & Ha & Hb & Hc & ->)%dump_key_parts (a' & b' & c' & Ha' & Hb' & Hc' & ->)%dump_key_parts Hne.
  destruct (decide (root = EmptyString)) as [->|Hr]; [by rewrite !dump_path_here|].
  rewrite !dump_path by done. cbv zeta. intros E. apply Hne. f_equal.
  set (r := rev (fold_left _ _ [])) in E.
  assert (Forall (fun e => in_cutset e "/" = false) r) as Hrs.
  { apply Forall_rev, clean_no_slash; [|constructor]. apply Forall_forall. intros e He. by eapply Split_parts. }
  assert (Join "/" (r ++ [a; b; c]) = Join "/" (r ++ [a'; b'; c'])) as E'
    by (destruct (HasPrefix root "/"); [by injection E|done]).
  apply Join_inj in E'; [by apply app_inv_head in E'|by destruct r|by destruct r| |];
    (apply Forall_app; split; [done|by apply good_elems_slash]).
Qed.

(** Dump keys begin with a name, so nothing is trimmed from them. *)
Lemma s3_keys_apart prefix k k' : dump_key k -> dump_key k' -> k <> k' -> S3.key prefix k <> S3.key prefix k'.
Proof.
  assert (forall k, dump_key k -> TrimPrefix k "/" = k) as Ht.
  { intros x (a & b & c & [(Hne & _) Hs] & _ & _ & ->)%dump_key_parts. 
    unfold TrimPrefix. cbn [Join]. by rewrite no_slash_prefix. }
  intros Hk Hk' Hne. unfold S3.key. rewrite !Ht by done. case_if; [done|]. intros E. apply Hne.
  apply app_inj_l_str in E. by injection E.
Qed.

(** ** The implementations *)

#[export, refine] Instance s3_store {T} `{S3API T} : BlobStore (S3.S3 T) := {
  Put := S3.put; Get := S3.get }.
Proof.
  - intros [api b p] k d. unfold S3.put, S3.get. cbn [S3.API S3.Bucket S3.Prefix].
    pose proof (GetObject_same api b (S3.key p k) d) as Hs.
    destruct (PutObject api b (S3.key p k) d) as [api' [e|]]; [done|]. intros _. cbn in *. by rewrite Hs.
  - intros [api b p] k k' d Hk Hk' Hne. unfold S3.put, S3.get. cbn [S3.API S3.Bucket S3.Prefix].
    pose proof (GetObject_other api b (S3.key p k) (S3.key p k') d (s3_keys_apart p k k' Hk Hk' Hne)) as Ho.
    destruct (PutObject api b (S3.key p k') d) as [api' e]. cbn in *. by rewrite Ho.
Defined.

#[export, refine] Instance dir_store {T} `{FileSystem T} : BlobStore (Dir.Dir T) := {
  Put := Dir.put; Get := Dir.get }.
Proof.
  - intros [fs root] k d. unfold Dir.put, Dir.get. cbn [Dir.FS Dir.Root]. set (p := Render.path_Join root k).
    destruct (MkdirAll fs (Dir.path_Dir p)) as [fs' [e|]]; [done|]. pose proof (ReadFile_same fs' p d) as Hs.
    destruct (WriteFile fs' p d) as [fs2 e]. cbn in *. exact Hs.
  - intros [fs root] k k' d Hk Hk' Hne. unfold Dir.put, Dir.get. cbn [Dir.FS Dir.Root].
    pose proof (dump_paths_apart root k k' Hk Hk' Hne) as Hp. set (p := Render.path_Join root k) in *.
    set (p' := Render.path_Join root k') in *. pose proof (ReadFile_mkdir fs (Dir.path_Dir p') p) as Hm.
    destruct (MkdirAll fs (Dir.path_Dir p')) as [fs' [e|]]; [exact Hm|]. cbn in Hm. rewrite <- Hm.
    pose proof (ReadFile_other fs' p p' d Hp) as Ho. destruct (WriteFile fs' p' d) as [fs2 e]. exact Ho.
Defined.

(** A key with ".." leaves the directory. *)
Example Dir_escapes : Render.path_Join "/var/portage" "../../etc/passwd" = "/etc/passwd"%string.
Proof. reflexivity. Qed.

(** ** Concrete servers *)

(** A file system and a bucket that are maps. *)
#[export, refine] Instance map_fs : FileSystem (gmap string string) := {
  MkdirAll t d := (t, None);
  WriteFile t p d := (<[p := d]> t, None);
  ReadFile t p := match t !! p with Some d => Ok d | None => Err (mkErr NotFound ("open " +:+ p)) end }.
Proof.
  - done.
  - intros t p d _. cbn. by rewrite lookup_insert_eq.
  - intros t p p' d Hp. cbn. by rewrite lookup_insert_ne.
Defined.

#[export, refine] Instance map_s3 : S3API (gmap (string * string) string) := {
  PutObject t b k d := (<[(b, k) := d]> t, None);
  GetObject t b k := match t !! (b, k) with Some d => Ok (Ok d) | None => Err (mkErr NotFound "NoSuchKey") end }.
Proof.
  - intros t b k d _. cbn. by rewrite lookup_insert_eq.
  - intros t b k k' d Hk. cbn. rewrite lookup_insert_ne by congruence. done.
Defined.

Example dir_put_get :
  let d := fst (Put (Dir.mkDir (∅ : gmap string string) "/var/portage") "shop/shop_StatefulSet_db/20240229T123456Z" "bytes") in
  Get d "shop/shop_StatefulSet_db/20240229T123456Z" = Ok "bytes"%string /\
  Dir.FS d !! "/var/portage/shop/shop_StatefulSet_db/20240229T123456Z"%string = Some "bytes"%string.
Proof. vm_compute. done. Qed.
