(* ===== verification/Sync.v ===== *)
(** * Sending the object graph to the destination: src/pkg/clusterobjects/sync.go

    The order, one object, a namespace with its Capsule tenant, the update
    that retries on a conflict, and the probe of the result. *)

From Stdlib Require Import ZArith Lia Sorting.Sorted.
From S2P Require Import Prelude GoStrings Effects Api Json Kube Unstructured Classify Transform Graph Capsule.

Definition applyOrder : list (string * Z) :=
  [("tenants", -1); ("namespaces", 0); ("customresourcedefinitions", 1); ("clusterroles", 2);
   ("clusterrolebindings", 3); ("serviceaccounts", 4); ("secrets", 5); ("configmaps", 6); ("roles", 7);
   ("rolebindings", 8); ("services", 9); ("ingresses", 10); ("networkpolicies", 11)]%Z%string.

Definition rank (resource : string) : Z :=
  match List.find (fun '(r, _) => String.eqb r resource) applyOrder with
  | Some (_, n) => n
  | None => 50
  end.

Section sync.
  Context {U : Unstructured} (sha256 : string -> string).

(** [ri]: the namespace the client is scoped to, empty for none. *)
Definition ri (it : Item) : string :=
  if negb (it_Namespaced it) || String.eqb (GetNamespace (it_Obj it)) EmptyString ||
     String.eqb (gvr_Resource (it_GVR it)) "namespaces"
  then EmptyString else GetNamespace (it_Obj it).

Definition item_leb (a b : Item) : bool :=
  let oi := rank (gvr_Resource (it_GVR a)) in
  let oj := rank (gvr_Resource (it_GVR b)) in
  if Z.eqb oi oj then str_leb (GetName (it_Obj a)) (GetName (it_Obj b)) else Z.ltb oi oj.

(** The object as it is sent: what the destination's object has to keep. *)
Definition onto (o cur : obj) : obj :=
  KeepDestTenantOwners (KeepDestCapsuleOwners
    (SetUID (SetResourceVersion o (GetResourceVersion cur)) (GetUID cur)) cur) cur.

Definition updateWithRetry (d : dyn) (gvr : GVR) (ns : string) (o : obj) (attempts : nat) : io ev (option err) :=
  let* r := loopM (fun '(o, _) (_ : nat) =>
      let* cur := trigger (dGet d gvr ns (GetName o)) in
      match cur with
      | Err getErr => Ret (inr (Some getErr))
      | Ok cur =>
          let o := onto o cur in
          let* e := trigger (dUpdate d gvr ns o) in
          Ret (match e with
               | None => inr None
               | Some err => if IsNotFound e || IsMethodNotSupported e then inr None
                             else if negb (IsConflict e) then inr e
                             else inl (o, e)
               end)
      end) (o, None) (seq 0 attempts) in
  Ret (match r with inl (_, e) => e | inr e => e end).

(** [subject]: the first call asks, the others remember; no tenant, no call. *)
Definition subject (d : dyn) (tenant : string) (asked : option Caller) : io ev Caller :=
  match asked with
  | Some c => Ret c
  | None => if String.eqb tenant EmptyString then Ret no_caller else CallerFromDynamic d
  end.

Definition sync_failed (kind name : string) (e : err) : err :=
  wrapf ("sync " +:+ kind +:+ "/" +:+ name +:+ ": ") e.

Definition annotated (d : dyn) (name tenant : string) (asked : option Caller) (e : err) : io ev err :=
  let* c := subject d tenant asked in
  let* a := observeCapsuleCaller d tenant c in
  Ret (sync_failed "Namespace" name (annotateNamespaceError e name tenant c a)).

(** The checks before a namespace of a tenant is created: the caller, or the
    error to return. *)
Definition admitTenant (d : dyn) (name tenant : string) : io ev (option Caller + err) :=
  if String.eqb tenant EmptyString then Ret (inl None)
  else
    let* ok := destTenantExists d tenant in
    match ok with
    | Err e => let* r := annotated d name tenant None e in Ret (inr r)
    | Ok false => Ret (inr (sync_failed "Namespace" name (errorf (MissingTenant name tenant))))
    | Ok true =>
        let* c := subject d tenant None in
        if String.eqb (cl_Name c) EmptyString then Ret (inl (Some c))
        else
          let* e := ensureCapsuleCaller sha256 d tenant c in
          match e with
          | Some e => Ret (inr (sync_failed "Namespace" name e))
          | None =>
              let* access := observeCapsuleCaller d tenant c in
              Ret (if negb (ac_ownerInStatus access)
                   then inr (sync_failed "Namespace" name (errorf (ownerNotYetAdmitted tenant c)))
                   else inl (Some c))
          end
    end.

Definition syncNamespace (d : dyn) (gvr : GVR) (ns : string) (o : obj) : io ev (option err) :=
  let name := GetName o in
  let tenant := CapsuleTenant o in
  let* admitted := admitTenant d name tenant in
  match admitted with
  | inr e => Ret (Some e)
  | inl asked =>
      let finish (e : option err) :=
        if IsNotFound e || IsMethodNotSupported e then Ret None
        else match e with
             | None => Ret None
             | Some e => let* e := annotated d name tenant asked e in Ret (Some e)
             end in
      let* created := trigger (dCreate d gvr ns o) in
      if IsAlreadyExists (err_of created) then
        let* cur := trigger (dGet d gvr ns name) in
        match cur with
        | Err getErr => Ret (Some (sync_failed "Namespace" name getErr))
        | Ok cur =>
            if nonempty tenant && negb (HasCapsuleOwner cur) then
              let* c := subject d tenant asked in
              let* a := observeCapsuleCaller d tenant c in
              Ret (Some (sync_failed "Namespace" name (errorf (unmanagedNamespace name tenant c a))))
            else
              let* e := updateWithRetry d gvr ns o 4 in
              finish e
        end
      else finish (err_of created)
  end.

(** [SetDeletionTimestamp(nil)] and [SetDeletionGracePeriodSeconds(nil)]. *)
Definition alive (o : obj) : obj :=
  SetMeta (SetMeta o "deletionTimestamp" None) "deletionGracePeriodSeconds" None.

Definition gone (it : Item) : bool := it_Deleting it || isDeleting (it_Obj it).

Definition syncOne (d : dyn) (it : Item) : io ev (option err) :=
  let gvr := it_GVR it in
  if gone it then
    let* e := trigger (dDelete d gvr (ri it) (GetName (it_Obj it))) in
    Ret (if IsNotFound e || skipListErr e then None
         else option_map (wrapf ("delete dest " +:+ GetKind (it_Obj it) +:+ "/" +:+ GetName (it_Obj it) +:+ ": ")) e)
  else
    let o := alive (it_Obj it) in
    if String.eqb (gvr_Resource gvr) "namespaces" then syncNamespace d gvr (ri it) o
    else
      let* created := trigger (dCreate d gvr (ri it) o) in
      let* e := if IsAlreadyExists (err_of created) then updateWithRetry d gvr (ri it) o 4
                else Ret (err_of created) in
      Ret (if skipListErr e then None
           else option_map (sync_failed (GetKind o) (GetName o)) e).

Definition Sync (d : option dyn) (items : list Item) : io ev (option err) :=
  match d with
  | None => Ret (Some (errorf "clusterobjects: dest dynamic client required"))
  | Some d =>
      foldM (fun first it =>
        let* e := syncOne d it in
        Ret (match first with Some _ => first | None => e end)) None (isort item_leb items)
  end.

(** ** The probe *)

Definition is_str (j : option json) (s : string) : bool :=
  match j with Some (JStr x) => String.eqb x s | _ => false end.

Definition crdEstablished (o : obj) : bool :=
  match lookup_path (JObj o) (keys ["status"; "conditions"]%string) with
  | Some (JArr conds) =>
      existsb (fun c => match c with
        | JObj m => is_str (oget m "type") "Established" &&
                    (is_str (oget m "status") "True" || match oget m "status" with Some (JBool b) => b | _ => false end)
        | _ => false
        end) conds
  | _ => false
  end.

Definition attest_one (d : dyn) (st : Z * Z * string) (it : Item) : io ev (Z * Z * string) :=
  let '(live, missing, first) := st in
  if it_Deleting it then Ret st
  else
    let fails (why : string) := (live + 1, missing + 1, if String.eqb first EmptyString then why else first)%Z in
    let* r := trigger (dGet d (it_GVR it) (ri it) (GetName (it_Obj it))) in
    Ret (match r with
         | Err e => fails (GetKind (it_Obj it) +:+ "/" +:+ GetName (it_Obj it) +:+ ": " +:+ err_msg e)
         | Ok o => if String.eqb (gvr_Resource (it_GVR it)) "customresourcedefinitions" && negb (crdEstablished o)
                   then fails (GetName (it_Obj it) +:+ " CRD not Established")
                   else (live + 1, missing, first)%Z
         end).

Definition Attest (d : option dyn) (items : list Item) : io ev (bool * string) :=
  match d with
  | None => Ret (false, "dest dynamic client required"%string)
  | Some d =>
      match items with
      | [] => Ret (true, "no cluster objects"%string)
      | _ =>
          let* ' (live, missing, first) := foldM (attest_one d) (0, 0, EmptyString)%Z items in
          Ret (if Z.eqb live 0 then (true, "no cluster objects"%string)
               else if (0 <? missing)%Z
               then (false, Itoa missing +:+ "/" +:+ Itoa live +:+ " dest objects missing (" +:+ first +:+ ")")
               else (true, Itoa live +:+ " dest objects attested"))
      end
  end.
End sync.

(** ** What Sync may write to a namespace *)

Section owned.
  Context {U : Unstructured} (sha256 : string -> string) (d : dyn).

(** A Get of the tenant answered this object. *)
Definition tenant_read (log : list (event ev)) (tenant : string) (tnt : obj) : Prop :=
  exists gvr, gvr ∈ tenantGVRs /\ mkEvent (dGet d gvr EmptyString tenant) (Ok tnt) ∈ log.

(** The destination said who Portage is. *)
Definition caller_known (log : list (event ev)) (c : Caller) : Prop :=
  exists r, mkEvent (dCreate d selfSubjectReviewGVR EmptyString review) r ∈ log /\ c = review_caller r.

(** The tenant is there and, when the caller is known, lists it as an owner. *)
Definition admits (log : list (event ev)) (tenant : string) : Prop :=
  (exists tnt, tenant_read log tenant tnt) /\
  exists c, caller_known log c /\
    (cl_Name c = EmptyString \/
     exists tnt, tenant_read log tenant tnt /\ subjectListed (slice tnt ["status"; "owners"]%string) c = true).

Lemma tenant_read_mono log ext tenant tnt : tenant_read log tenant tnt -> tenant_read (log ++ ext) tenant tnt.
Proof. intros (g & Hg & Hin). exists g. split; [done|]. apply elem_of_app. by left. Qed.

Lemma caller_known_mono log ext c : caller_known log c -> caller_known (log ++ ext) c.
Proof. intros (r & Hin & ->). exists r. split; [|done]. apply elem_of_app. by left. Qed.

Lemma lookupTenant_wp tenant log :
  wp any_env (lookupTenant d tenant) log (fun log' r =>
    match fst r with Some (o, _) => tenant_read log' tenant o | None => True end).
Proof.
  unfold lookupTenant. apply wp_bind. eapply (wp_loopM_inv _ _ (fun _ _ => True)); [done|by intros|].
  intros gvr log' denied Hg _. wp_call o. destruct o as [o|e]; cbn [wp fst]; [|done].
  exists gvr. split; [done|]. apply elem_of_app. right. by left.
Qed.

Lemma lookupTenant_known tenant : returns (fun r =>
  match fst r with Some (_, gvr) => gvr ∈ tenantGVRs | None => True end) (lookupTenant d tenant).
Proof.
  unfold returns, lookupTenant. apply wp_bind. eapply (wp_loopM_inv _ _ (fun _ _ => True)); [done|by intros|].
  intros gvr [] denied Hg _ o [] _. destruct o as [o|e]; cbn [wp fst]; done.
Qed.

Lemma observe_wp tenant c log :
  wp any_env (observeCapsuleCaller d tenant c) log (fun log' a =>
    ac_ownerInStatus a = true -> exists tnt, tenant_read log' tenant tnt /\
      subjectListed (slice tnt ["status"; "owners"]%string) c = true).
Proof.
  unfold observeCapsuleCaller. case_if; [done|]. apply wp_bind.
  eapply wp_mono; [apply wp_True|]. intros log1 configs _. cbn beta zeta.
  unfold getDestTenant. apply wp_bind, wp_bind.
  eapply wp_mono; [apply lookupTenant_wp|]. intros log2 [[[o g]|] denied] H; cbn [wp fst fmap option_fmap option_map] in *.
  - intros Ho. eauto.
  - destruct configs as [cs|]; [destruct (pickCapsuleConfiguration cs)|]; done.
Qed.

(** The calls that are not a write to a namespace. *)
Definition ns_free (X : Type) (e : ev X) : Prop :=
  match e with
  | dCreate _ gvr _ _ | dUpdate _ gvr _ _ => gvr_Resource gvr <> "namespaces"%string
  | _ => True
  end.

(** [T] is what must have been seen before a tenant's namespace is created. *)
Context (T : list (event ev) -> Prop) (T_mono : forall log ext, T log -> T (log ++ ext)).

Definition ns_rule (log : list (event ev)) (e : event ev) : Prop :=
  match ev_call e with
  | dCreate _ gvr _ o => gvr_Resource gvr = "namespaces"%string -> CapsuleTenant o <> EmptyString ->
      T log /\ admits log (CapsuleTenant o)
  | dUpdate _ gvr ns o => gvr_Resource gvr = "namespaces"%string -> CapsuleTenant o <> EmptyString ->
      exists cur, mkEvent (dGet d gvr ns (GetName o)) (Ok cur) ∈ log /\ HasCapsuleOwner cur = true
  | _ => True
  end.

Lemma ns_free_each l X (e : ev X) x : ns_free X e -> each ns_rule l -> each ns_rule (l ++ [mkEvent e x]).
Proof.
  intros He Hl. apply each_snoc; [done|].
  destruct e; cbn in He; try exact I; intros Hr; by destruct (He Hr).
Qed.

Lemma wp_ns_free {A} (m : io ev A) log :
  only ns_free m -> each ns_rule log -> wp any_env m log (fun log' _ => each ns_rule log').
Proof. intros Hm. apply (wp_only ns_free); [done|]. apply ns_free_each. Qed.

Lemma CallerFromDynamic_free : only ns_free (CallerFromDynamic d).
Proof. by apply only_bind. Qed.
Lemma subject_free tenant asked : only ns_free (subject d tenant asked).
Proof. unfold subject. destruct asked; [done|]. case_if; [done|]. apply CallerFromDynamic_free. Qed.
Lemma lookupTenant_free tenant : only ns_free (lookupTenant d tenant).
Proof. unfold lookupTenant. reads. Qed.
Lemma listConfigs_free : only ns_free (listCapsuleConfigurations d).
Proof. unfold listCapsuleConfigurations. reads. Qed.
Lemma observe_free tenant c : only ns_free (observeCapsuleCaller d tenant c).
Proof.
  unfold observeCapsuleCaller. case_if; [done|]. apply only_bind; [apply listConfigs_free|]. intros.
  apply only_bind; [|done]. apply only_bind; [apply lookupTenant_free|]. reads.
Qed.
Lemma annotated_free name tenant asked e : only ns_free (annotated d name tenant asked e).
Proof.
  apply only_bind; [apply subject_free|]. intros. apply only_bind; [apply observe_free|]. reads.
Qed.

Lemma tenantOwnerGVR_known name : returns (fun r =>
  match r with Ok gvr => gvr ∈ tenantOwnerGVRs | Err _ => True end) (tenantOwnerGVR d name).
Proof.
  unfold returns, tenantOwnerGVR. apply wp_bind. eapply (wp_loopM_inv _ _ (fun _ _ => True)); [exact I| |].
  - intros s' [e|] _; exact I.
  - intros gvr [] last Hg _ o [] _. destruct o as [o|e]; cbn; [done|].
    case_if; [exact Hg|]. case_if; exact I.
Qed.

Lemma tenant_gvr_free gvr : gvr ∈ tenantGVRs ++ tenantOwnerGVRs -> gvr_Resource gvr <> "namespaces"%string.
Proof. revert gvr. apply Forall_forall. by repeat constructor. Qed.

Lemma ensure_free tenant c : only ns_free (ensureCapsuleCaller sha256 d tenant c).
Proof.
  unfold ensureCapsuleCaller. case_if; [done|]. apply only_bind.
  - apply only_bind; [|reads]. apply only_loopM. intros. apply only_bind; [|reads].
    unfold ensureTenantSpecOwnerOnce, findDestTenant. 
    eapply (only_bind_returns _ (fun f => match f with Ok (_, g) => g ∈ tenantGVRs | Err _ => True end)).
    + apply only_bind; [apply lookupTenant_free|]. reads.
    + apply wp_bind. eapply wp_mono; [apply lookupTenant_known|]. by intros [] [[[o g]|] [e|]] H.
    + intros [[o g]|e] Hg; [|done]. cbn beta iota zeta. case_if; [done|]. destruct (SetNestedField _ _ _); [|done].
      apply only_bind; [|done]. apply only_trigger. apply tenant_gvr_free, elem_of_app. by left.
  - intros [e|]; [done|]. apply only_bind; [apply only_bind; [apply listConfigs_free|reads]|].
    intros [l k]. case_if; [done|]. unfold ensureTenantOwner, pickTenantOwnerName, getTenantOwner, tenantOwnerGVR.
    apply only_bind; [reads|]. intros [n|e]; [|done]. case_if; [done|].
    eapply only_bind_returns; [|apply tenantOwnerGVR_known|]; [unfold tenantOwnerGVR; reads|].
    intros [g|e] Hg; [|done]. apply only_bind; [|reads]. apply only_trigger.
    apply tenant_gvr_free, elem_of_app. by right.
Qed.

Lemma admitTenant_free name tenant : only ns_free (admitTenant sha256 d name tenant).
Proof.
  unfold admitTenant. case_if; [done|]. apply only_bind.
  { apply only_bind; [apply lookupTenant_free|reads]. }
  intros [[]|e]; [|done|apply only_bind; [apply annotated_free|done]].
  apply only_bind; [apply subject_free|]. intros c. case_if; [done|].
  apply only_bind; [apply ensure_free|]. intros [e|]; [done|].
  apply only_bind; [apply observe_free|done].
Qed.

Lemma admitTenant_wp name tenant log :
  wp any_env (admitTenant sha256 d name tenant) log (fun log' r =>
    match r with inl _ => tenant = EmptyString \/ admits log' tenant | inr _ => True end).
Proof.
  unfold admitTenant. case_if; [left; by apply String.eqb_eq|]. apply wp_bind.
  unfold destTenantExists. apply wp_bind. eapply wp_mono; [apply lookupTenant_wp|].
  intros log1 [found denied] Ht. cbn [fst] in Ht. destruct found as [[tnt g]|]; cbn [wp].
  2: { destruct denied as [e|]; cbn [wp]; [|done]. apply wp_bind. eapply wp_mono; [apply wp_True|]. done. }
  unfold subject. rewrite Heqb. apply wp_bind. unfold CallerFromDynamic. wp_call r. cbn [wp].
  set (log2 := log1 ++ _).
  assert (caller_known log2 (review_caller r)) as Hc by (exists r; split; [apply elem_of_app; right; by left|done]).
  assert (exists tnt, tenant_read log2 tenant tnt) as Hr by (exists tnt; by apply tenant_read_mono).
  case_if; cbn [wp].
  { right. split; [done|]. exists (review_caller r). split; [done|]. left. by apply String.eqb_eq. }
  apply wp_bind. eapply wp_mono_ext; [apply wp_True|]. intros ext1 [e|] _; cbn [wp]; [done|].
  apply wp_bind. eapply wp_mono_ext; [apply observe_wp|]. intros ext2 a Ho.
  destruct (ac_ownerInStatus a) eqn:Ea; cbn [negb wp]; [|done]. right.
  destruct Hr as [t Hr]. split; [exists t; by do 2 apply tenant_read_mono|].
  exists (review_caller r). split; [by do 2 apply caller_known_mono|]. right. by apply Ho.
Qed.

(** The identity and the owners are what [onto] touches. *)
Lemma onto_other o cur ks :
  apart ["metadata"; "uid"]%string ks = true -> apart ["metadata"; "resourceVersion"]%string ks = true ->
  apart ["metadata"; "ownerReferences"]%string ks = true -> apart ["spec"; "owners"]%string ks = true ->
  lookup_path (JObj (onto o cur)) (keys ks) = lookup_path (JObj o) (keys ks).
Proof.
  intros Hu Hr Ho Hs. unfold onto.
  assert (forall o cur, lookup_path (JObj (KeepDestTenantOwners o cur)) (keys ks) = lookup_path (JObj o) (keys ks)) as ->.
  { intros o' cur'. unfold KeepDestTenantOwners. case_if; [done|]. case_if; [done|].
    destruct (default [] _); [done|]. by apply SetNested_other. }
  assert (forall o cur, lookup_path (JObj (KeepDestCapsuleOwners o cur)) (keys ks) = lookup_path (JObj o) (keys ks)) as ->.
  { intros o' cur'. unfold KeepDestCapsuleOwners. case_if; [done|]. case_if; [done|]. by apply Owners_other. }
  unfold SetUID, SetResourceVersion, SetMeta. by rewrite !SetNested_other.
Qed.

Lemma onto_name o cur : GetName (onto o cur) = GetName o.
Proof. unfold GetName, GetMeta. by rewrite !NestedString_law, onto_other. Qed.

Lemma onto_tenant o cur : CapsuleTenant (onto o cur) = CapsuleTenant o.
Proof. unfold CapsuleTenant, GetLabels. by rewrite !NestedStringMap_law, onto_other. Qed.

(** An update of a namespace is allowed once it was read with its owner. *)
Definition owner_seen (log : list (event ev)) (gvr : GVR) (ns : string) (o : obj) : Prop :=
  gvr_Resource gvr = "namespaces"%string -> CapsuleTenant o <> EmptyString ->
  exists cur, mkEvent (dGet d gvr ns (GetName o)) (Ok cur) ∈ log /\ HasCapsuleOwner cur = true.

Lemma owner_seen_mono log ext gvr ns o : owner_seen log gvr ns o -> owner_seen (log ++ ext) gvr ns o.
Proof. intros H Hr Ht. destruct (H Hr Ht) as (cur & Hin & Ho). exists cur. split; [|done]. apply elem_of_app. by left. Qed.

Lemma owner_seen_onto log gvr ns o cur : owner_seen log gvr ns o -> owner_seen log gvr ns (onto o cur).
Proof. unfold owner_seen. by rewrite onto_name, onto_tenant. Qed.

Lemma updateWithRetry_wp gvr ns o n log : each ns_rule log -> owner_seen log gvr ns o ->
  wp any_env (updateWithRetry d gvr ns o n) log (fun log' _ => each ns_rule log').
Proof.
  intros Hl Ho. unfold updateWithRetry. apply wp_bind.
  eapply (wp_loopM_inv _ _ (fun log' '(o', _) => each ns_rule log' /\ owner_seen log' gvr ns o')); [done| |].
  { intros log' [o' e] [H _]. exact H. }
  clear log o Hl Ho. intros _ log [o e] _ [Hl Ho]. wp_call r.
  assert (each ns_rule (log ++ [mkEvent (dGet d gvr ns (GetName o)) r])) as Hl2 by by apply ns_free_each.
  destruct r as [cur|ge]; cbn [wp]; [|exact Hl2]. wp_call x.
  apply (owner_seen_mono _ [mkEvent (dGet d gvr ns (GetName o)) (Ok cur)]), (owner_seen_onto _ _ _ _ cur) in Ho.
  assert (each ns_rule ((log ++ [mkEvent (dGet d gvr ns (GetName o)) (Ok cur)]) ++
            [mkEvent (dUpdate d gvr ns (onto o cur)) x])) as Hl3 by (apply each_snoc; [exact Hl2|exact Ho]).
  destruct x as [x|]; cbn [wp]; [|exact Hl3]. case_if; [exact Hl3|]. case_if; [exact Hl3|].
  split; [exact Hl3|by apply owner_seen_mono].
Qed.

Lemma syncNamespace_wp gvr ns o log : each ns_rule log -> T log ->
  wp any_env (syncNamespace sha256 d gvr ns o) log (fun log' _ => each ns_rule log').
Proof.
  intros Hl HT. unfold syncNamespace. apply wp_bind.
  eapply wp_mono_ext; [apply wp_and; [apply wp_ns_free; [apply admitTenant_free|done]|apply admitTenant_wp]|].
  intros ext [asked|e] [Hl1 Ha]; [|done]. cbv beta iota zeta. wp_call created.
  set (log2 := (log ++ ext) ++ _).
  assert (each ns_rule log2) as Hl2.
  { apply each_snoc; [done|]. intros _ Ht. split; [by apply T_mono|]. destruct Ha as [Ha|Ha]; [by destruct Ht|done]. }
  assert (forall log e, each ns_rule log -> wp any_env
    (if IsNotFound e || IsMethodNotSupported e then Ret None
     else match e with
          | None => Ret None
          | Some e => let* e := annotated d (GetName o) (CapsuleTenant o) asked e in Ret (Some e)
          end) log
    (fun log' _ => each ns_rule log')) as Hfin.
  { intros log' e Hl'. case_if; [done|]. destruct e as [e|]; [|done].
    apply wp_ns_free; [apply only_bind; [apply annotated_free|done]|done]. }
  case_if; [|by apply Hfin]. wp_call cur. set (log3 := log2 ++ _).
  assert (each ns_rule log3) as Hl3 by by apply ns_free_each.
  destruct cur as [cur|ge]; cbn [wp]; [|done]. case_if.
  - apply wp_ns_free; [|done]. apply only_bind; [apply subject_free|]. intros. apply only_bind; [apply observe_free|reads].
  - apply wp_bind. eapply wp_mono; [apply updateWithRetry_wp; [done|]|intros; by apply Hfin].
    intros _ Ht. exists cur. split; [apply elem_of_app; right; by left|].
    apply andb_false_iff in Heqb0 as [H|H]; [|by boolify]. unfold nonempty in H. boolify. done.
Qed.
End owned.

(** ** Every item is handled *)

Lemma item_leb_total {U : Unstructured} a b : item_leb a b = true \/ item_leb b a = true.
Proof.
  unfold item_leb. rewrite (Z.eqb_sym (rank (gvr_Resource (it_GVR b)))).
  destruct (Z.eqb_spec (rank (gvr_Resource (it_GVR a))) (rank (gvr_Resource (it_GVR b)))).
  - apply str_leb_total.
  - rewrite !Z.ltb_lt. lia.
Qed.

Lemma item_leb_trans {U : Unstructured} a b c :
  item_leb a b = true -> item_leb b c = true -> item_leb a c = true.
Proof.
  unfold item_leb. generalize (rank (gvr_Resource (it_GVR a))), (rank (gvr_Resource (it_GVR b))),
    (rank (gvr_Resource (it_GVR c))). intros x y z.
  destruct (Z.eqb_spec x y), (Z.eqb_spec y z), (Z.eqb_spec x z); rewrite ?Z.ltb_lt; try lia.
  apply str_leb_trans.
Qed.

Section handled.
  Context {U : Unstructured} (sha256 : string -> string) (d : dyn).

Definition is_ns (it : Item) : bool := String.eqb (gvr_Resource (it_GVR it)) "namespaces".

(** A refusal that counts as nothing to do; a namespace's has to be that the
    resource is not there. *)
Definition accepted (ns : bool) (e : option err) : Prop :=
  e = None \/ IsNotFound e || IsMethodNotSupported e = true \/ ns = false /\ IsForbidden e = true.

(** The request for the item was sent. *)
Definition tried (log : list (event ev)) (it : Item) : Prop :=
  if gone it then exists e, mkEvent (dDelete d (it_GVR it) (ri it) (GetName (it_Obj it))) e ∈ log
  else exists r, mkEvent (dCreate d (it_GVR it) (ri it) (alive (it_Obj it))) r ∈ log.

(** The update of an existing object was taken. *)
Definition updated (log : list (event ev)) (ns : bool) (gvr : GVR) (scope : string) (o : obj) : Prop :=
  (exists o' e, mkEvent (dUpdate d gvr scope o') e ∈ log /\ GetName o' = GetName o /\ accepted ns e) \/
  (exists e, mkEvent (dGet d gvr scope (GetName o)) (Err e) ∈ log /\ accepted ns (Some e)).

Definition sent (log : list (event ev)) (it : Item) : Prop :=
  exists r, mkEvent (dCreate d (it_GVR it) (ri it) (alive (it_Obj it))) r ∈ log /\
    (accepted (is_ns it) (err_of r) \/
     IsAlreadyExists (err_of r) = true /\ updated log (is_ns it) (it_GVR it) (ri it) (alive (it_Obj it))).

Definition handled (log : list (event ev)) (it : Item) : Prop :=
  if gone it
  then exists e, mkEvent (dDelete d (it_GVR it) (ri it) (GetName (it_Obj it))) e ∈ log /\ accepted false e
  else sent log it.

Lemma tried_mono log ext it : tried log it -> tried (log ++ ext) it.
Proof. unfold tried. destruct (gone it); intros [x Hx]; exists x; apply elem_of_app; by left. Qed.

Lemma updated_mono log ext ns gvr scope o : updated log ns gvr scope o -> updated (log ++ ext) ns gvr scope o.
Proof.
  intros [(o' & e & Hin & H)|(e & Hin & H)]; [left; exists o', e|right; exists e];
    (split; [apply elem_of_app; by left|done]).
Qed.

Lemma sent_mono log ext it : sent log it -> sent (log ++ ext) it.
Proof.
  intros (x & Hin & H). exists x. split; [apply elem_of_app; by left|].
  destruct H as [H|[He Hu]]; [by left|right]. split; [done|]. by apply updated_mono.
Qed.

Lemma handled_mono log ext it : handled log it -> handled (log ++ ext) it.
Proof.
  unfold handled. destruct (gone it); [|apply sent_mono]. intros (x & Hin & H). exists x.
  split; [apply elem_of_app; by left|done].
Qed.

Lemma handled_tried log it : handled log it -> tried log it.
Proof. unfold handled, tried. destruct (gone it); intros (x & Hin & H); eauto. Qed.

(** What an update that returns has done. *)
Lemma updateWithRetry_spec gvr scope o n log :
  wp any_env (updateWithRetry d gvr scope o (S n)) log (fun log' r =>
    match r with
    | None => updated log' true gvr scope o
    | Some e => (exists o', mkEvent (dUpdate d gvr scope o') (Some e) ∈ log' /\ GetName o' = GetName o) \/
                mkEvent (dGet d gvr scope (GetName o)) (Err e) ∈ log'
    end).
Proof.
  unfold updateWithRetry. apply wp_bind. eapply wp_mono.
  - apply (wp_loopM any_env _ (fun pre log' '(o', e) => GetName o' = GetName o /\
        (pre = [] \/ exists e0, e = Some e0 /\ mkEvent (dUpdate d gvr scope o') e ∈ log'))
      (fun log' r => match r with
       | None => updated log' true gvr scope o
       | Some e => (exists o', mkEvent (dUpdate d gvr scope o') (Some e) ∈ log' /\ GetName o' = GetName o) \/
                   mkEvent (dGet d gvr scope (GetName o)) (Err e) ∈ log'
       end) (seq 0 (S n)) []); [by split; [|left]|].
    intros pre i post log' [o' e] _ [Hn _]. wp_call r. rewrite Hn.
    destruct r as [cur|ge]; cbn [wp]; [|right; apply elem_of_app; right; by left].
    wp_call x. set (log2 := _ ++ [mkEvent (dUpdate _ _ _ _) _]).
    assert (mkEvent (dUpdate d gvr scope (onto o' cur)) x ∈ log2) as Hin by (apply elem_of_app; right; by left).
    assert (GetName (onto o' cur) = GetName o) as Hn' by by rewrite onto_name.
    destruct x as [x|]; cbn [wp]; [|left; exists (onto o' cur), None; split_and!; [done|done|by left]].
    case_if; [left; exists (onto o' cur), (Some x); split_and!; [done|done|by right; left]|].
    case_if; [left; by exists (onto o' cur)|]. split; [done|right; eauto].
  - intros log' [[o' e]|r]; cbn [wp]; [|done]. intros [Hn [H|(e0 & -> & Hin)]]; [done|]. eauto.
Qed.

Lemma accepted_true e : accepted true e -> forall ns, accepted ns e.
Proof. unfold accepted. intros [H|[H|[H _]]] ns; auto; done. Qed.

Lemma updated_true log gvr scope o : updated log true gvr scope o -> forall ns, updated log ns gvr scope o.
Proof.
  intros [(o' & e & Hin & Hn & H)|(e & Hin & H)] ns; [left; exists o', e|right; exists e]; auto using accepted_true.
Qed.

(** The update, with the answer the caller does not take for a failure. *)
Lemma update_accepted gvr scope o n log ns :
  wp any_env (updateWithRetry d gvr scope o (S n)) log (fun log' r => accepted ns r ->
    updated log' ns gvr scope o).
Proof.
  eapply wp_mono; [apply updateWithRetry_spec|]. intros log' [e|] H Ha; [|by apply updated_true].
  destruct H as [(o' & Hin & Hn)|Hin]; [left; eauto|right; eauto].
Qed.

Lemma syncNamespace_spec it log : gone it = false -> is_ns it = true ->
  wp any_env (syncNamespace sha256 d (it_GVR it) (ri it) (alive (it_Obj it))) log (fun log' r =>
    r = None -> handled log' it).
Proof.
  intros Hg Hns. unfold syncNamespace, handled. rewrite Hg. apply wp_bind.
  eapply wp_mono; [apply wp_True|]. intros log1 [asked|e] _; cbn [wp]; [|done]. wp_call created.
  set (log2 := _ ++ _).
  assert (mkEvent (dCreate d (it_GVR it) (ri it) (alive (it_Obj it))) created ∈ log2) as Hin
    by (apply elem_of_app; right; by left).
  assert (forall log e (P : list (event ev) -> Prop), (forall log ext, P log -> P (log ++ ext)) ->
    (accepted true e -> P log) -> wp any_env
    (if IsNotFound e || IsMethodNotSupported e then Ret None
     else match e with
          | None => Ret None
          | Some e => let* e := annotated d (GetName (alive (it_Obj it))) (CapsuleTenant (alive (it_Obj it))) asked e in Ret (Some e)
          end) log
    (fun log' r => r = None -> P log')) as Hfin.
  { intros log' e P HP He. case_if; [intros _; apply He; by right; left|].
    destruct e as [e|]; [|intros _; apply He; by left].
    apply wp_bind. eapply wp_mono; [apply wp_True|]. by intros. }
  case_if.
  - wp_call cur. destruct cur as [cur|ge]; cbn [wp]; [|done]. case_if.
    { apply wp_bind. eapply wp_mono; [apply wp_True|]. intros. apply wp_bind.
      eapply wp_mono; [apply wp_True|]. by intros. }
    apply wp_bind. eapply wp_mono_ext; [apply update_accepted|]. intros ext r Hu.
    apply (Hfin _ _ (fun log' => sent log' it)); [intros; by apply sent_mono|].
    intros Ha. exists created. rewrite Hns.
    split; [apply elem_of_app; left; apply elem_of_app; by left|right]. auto.
  - apply (Hfin _ _ (fun log' => sent log' it)); [intros; by apply sent_mono|].
    intros Ha. exists created. rewrite Hns. auto.
Qed.

Lemma skip_accepted e : skipListErr e = true \/ e = None -> accepted false e.
Proof.
  unfold skipListErr, accepted. intros [H|H]; [|by left]. right.
  destruct (IsForbidden e), (IsNotFound e), (IsMethodNotSupported e); try done; auto.
Qed.

Lemma syncOne_spec it log :
  wp any_env (syncOne sha256 d it) log (fun log' r =>
    (is_ns it = false \/ gone it = true -> tried log' it) /\ (r = None -> handled log' it)).
Proof.
  unfold syncOne. destruct (gone it) eqn:Hg.
  - wp_call e. assert (mkEvent (dDelete d (it_GVR it) (ri it) (GetName (it_Obj it))) e ∈
      log ++ [mkEvent (dDelete d (it_GVR it) (ri it) (GetName (it_Obj it))) e]) as Hin
      by (apply elem_of_app; right; by left).
    cbn [wp]. unfold tried, handled. rewrite Hg. split; [eauto|]. intros Hr. exists e. split; [done|].
    destruct (IsNotFound e) eqn:En; [right; left; by rewrite En|].
    apply skip_accepted. destruct (skipListErr e); [by left|]. destruct e; [done|]. by right.
  - destruct (String.eqb (gvr_Resource (it_GVR it)) "namespaces") eqn:Hns.
    + eapply wp_mono; [by apply syncNamespace_spec|]. intros log' r H. split; [|done].
      intros [H'|H']; [|done]. unfold is_ns in H'. congruence.
    + wp_call created. set (log2 := _ ++ _).
      assert (mkEvent (dCreate d (it_GVR it) (ri it) (alive (it_Obj it))) created ∈ log2) as Hin
        by (apply elem_of_app; right; by left).
      apply wp_bind. eapply wp_mono_ext with (P := fun log' r => accepted false r ->
        accepted false (err_of created) \/ IsAlreadyExists (err_of created) = true /\
        updated log' false (it_GVR it) (ri it) (alive (it_Obj it))).
      { case_if; [|by left]. eapply wp_mono; [apply update_accepted|]. intros log' r H Ha. right. auto. }
      intros ext r H. cbn [wp]. unfold tried, handled, sent. rewrite Hg. unfold is_ns. rewrite Hns.
      split; [intros _; exists created; apply elem_of_app; by left|]. intros Hr. exists created.
      split; [apply elem_of_app; by left|]. apply H, skip_accepted.
      destruct (skipListErr r); [by left|right]. by destruct r.
Qed.
End handled.

Lemma StronglySorted_after {A} (R : A -> A -> Prop) pre x post :
  StronglySorted R (pre ++ x :: post) -> Forall (R x) post.
Proof. induction pre as [|y pre IH]; intros H; inv H; auto. Qed.

(** The tenants of the graph come before its namespaces. *)
Lemma tenants_first {U : Unstructured} items pre x post it :
  isort item_leb items = pre ++ x :: post -> is_ns x = true ->
  it ∈ items -> gvr_Resource (it_GVR it) = "tenants"%string -> it ∈ pre.
Proof.
  intros Hs Hx Hit Ht. unfold is_ns in Hx. boolify.
  assert (it ∈ isort item_leb items) as Hin by by rewrite isort_Permutation.
  rewrite Hs in Hin. apply elem_of_app in Hin as [Hin|[->|Hin]%elem_of_cons]; [done| |]; exfalso.
  - rewrite Ht in *. done.
  - pose proof (isort_Sorted item_leb item_leb_total item_leb_trans items) as HS. rewrite Hs in HS.
    apply StronglySorted_after in HS. rewrite Forall_forall in HS. specialize (HS _ Hin).
    apply Is_true_eq_true in HS. unfold item_leb in HS. by rewrite Hx, Ht in HS.
Qed.

(** The tenants of the graph were sent. *)
Definition tenants_tried {U : Unstructured} (d : dyn) (items : list Item) (log : list (event ev)) : Prop :=
  forall it, it ∈ items -> gvr_Resource (it_GVR it) = "tenants"%string -> tried d log it.

Lemma tenants_tried_mono {U : Unstructured} d items log ext :
  tenants_tried d items log -> tenants_tried d items (log ++ ext).
Proof. intros H it Hit Ht. by apply tried_mono, H. Qed.

(** One item keeps the rule; a namespace may, once the tenants were sent. *)
Lemma syncOne_wp {U : Unstructured} sha256 d items it log :
  each (ns_rule d (tenants_tried d items)) log -> (is_ns it = true -> tenants_tried d items log) ->
  wp any_env (syncOne sha256 d it) log (fun log' _ => each (ns_rule d (tenants_tried d items)) log').
Proof.
  intros Hl HT. unfold syncOne. destruct (gone it).
  { apply wp_ns_free; [by apply only_bind|done]. }
  destruct (String.eqb (gvr_Resource (it_GVR it)) "namespaces") eqn:Hns.
  { apply syncNamespace_wp; [apply tenants_tried_mono|done|by apply HT]. }
  boolify. wp_call created. set (log2 := _ ++ _).
  assert (each (ns_rule d (tenants_tried d items)) log2) as Hl2 by by apply ns_free_each.
  apply wp_bind. eapply wp_mono with (P := fun log' _ => each (ns_rule d (tenants_tried d items)) log'); [|done].
  case_if; [|done]. apply updateWithRetry_wp; [done|]. by intros ?.
Qed.

(** ** Properties *)

(** C22: whatever the destination answers, Sync creates a namespace of a Capsule
    tenant only after every Tenant of the graph was sent, the tenant was read on
    the destination, and the destination said who Portage is and, unless it
    gave no name, the tenant's status.owners was read to list that subject; and
    it updates such a namespace only after reading it with a Tenant owner. *)
Theorem Sync_namespaces_owned {U : Unstructured} sha256 d items :
  always (Sync sha256 (Some d) items) (fun log _ => each (ns_rule d (tenants_tried d items)) log).
Proof.
  unfold Sync, always.
  eapply wp_mono with (P := fun log _ => each (ns_rule d (tenants_tried d items)) log /\
    forall it, it ∈ isort item_leb items -> is_ns it = false -> tried d log it); [|by intros log r []].
  apply (wp_foldM any_env _ (fun pre log _ => each (ns_rule d (tenants_tried d items)) log /\
    forall it, it ∈ pre -> is_ns it = false -> tried d log it) _ []); [split; [apply each_nil|set_solver]|].
  intros pre x post log first Hs [Hl Hp]. cbn [app] in Hs. apply wp_bind.
  eapply wp_mono_ext; [apply wp_and; [apply syncOne_wp; [done|]|apply syncOne_spec]|].
  - intros Hx it Hit Ht. apply Hp; [by eapply tenants_first|]. unfold is_ns. by rewrite Ht.
  - intros ext e [Hl' [Ht _]]. cbn [wp]. split; [done|]. intros it [Hit| ->%list_elem_of_singleton]%elem_of_app Hns.
    + by apply tried_mono, Hp.
    + apply Ht. by left.
Qed.

(** C23: whatever the destination answers, one object's failure does not stop the
    others: every object outside namespaces is sent, every object being
    deleted is deleted; and Sync succeeds only if each request was taken, an
    existing object was updated, or the destination answered that the resource
    is not there (or, for what is not a namespace, that it is forbidden). *)
Theorem Sync_settles {U : Unstructured} sha256 d items :
  always (Sync sha256 (Some d) items) (fun log r =>
    (forall it, it ∈ items -> is_ns it = false \/ gone it = true -> tried d log it) /\
    (r = None -> forall it, it ∈ items -> handled d log it)).
Proof.
  unfold Sync, always. set (I := fun (done : list Item) log (r : option err) =>
    (forall it, it ∈ done -> is_ns it = false \/ gone it = true -> tried d log it) /\
    (r = None -> forall it, it ∈ done -> handled d log it)).
  eapply wp_mono with (P := I (isort item_leb items)).
  2: { intros log r [H1 H2]. split; [intros it Hit|intros Hr it Hit]; [apply H1|apply H2; [done|]];
       by rewrite isort_Permutation. }
  apply (wp_foldM any_env _ I _ []); [split; set_solver|].
  intros pre x post log first _ [H1 H2]. apply wp_bind. eapply wp_mono_ext; [apply syncOne_spec|].
  intros ext e [Ht Hh]. cbn [wp]. split.
  - intros it [Hit| ->%list_elem_of_singleton]%elem_of_app Hns; [by apply tried_mono, H1|by apply Ht].
  - destruct first as [f|]; [done|]. intros -> it [Hit| ->%list_elem_of_singleton]%elem_of_app; [|by apply Hh].
    by apply handled_mono, H2.
Qed.
