(* ===== verification/Clusters.v ===== *)
(** * Reaching the clusters: src/pkg/clusters (endpoints.go, auth.go, rest.go)

    From a ClusterPair to the clients of its source and destination, and the
    way each is authenticated. Building a client from a
    rest.Config, parsing a kubeconfig and asking a cloud are library code:
    parameters. A rest.Config is a handle. *)

From Stdlib Require Import ZArith Lia.
From S2P Require Import Prelude GoStrings Effects Api Json Kube.

Record restcfg := Rest { rest_id : nat }.

(** ** endpoints.go *)

Record Endpoints := mkEndpoints {
  ep_Name : string;
  ep_Kube : option kube;
  ep_Dynamic : option dyn;
  ep_Exec : option execer;
  ep_REST : option restcfg }.
Definition no_endpoints : Endpoints := mkEndpoints EmptyString None None None None.

Record Pair := mkPair { pr_Source : Endpoints; pr_Dest : Endpoints }.

Definition Local (name : string) (k : option kube) (d : option dyn) (x : option execer)
    (cfg : option restcfg) : Endpoints := mkEndpoints name k d x cfg.

(** The Resolver: [rs_Hub] tells whether the hub client is set; [rs_NewForCfg]
    and [rs_Cloud] are the injected functions, if any. *)
Record Resolver := mkResolver {
  rs_Hub : bool;
  rs_Secrets : option kube;
  rs_Local : Endpoints;
  rs_HubNS : string;
  rs_NewForCfg : option (restcfg -> res (option kube * option dyn * option execer));
  rs_Cloud : option (ClusterRef -> io ev (res restcfg)) }.

(** A string map as Secret data: the entry or its absence. *)
Definition data_get (m : strmap) (k : string) : option string :=
  match m with Some m => m !! k | None => None end.

Definition secretBytes (r : Resolver) (ns name key : string) : io ev (res string) :=
  let found (sec : res Secret) :=
    match sec with
    | Err e => Err e
    | Ok sec => match data_get (sec_Data sec) key with
                | Some raw => Ok raw
                | None => Err (errorf ("secret " +:+ ns +:+ "/" +:+ name +:+ " missing key " +:+ key))
                end
    end in
  match rs_Secrets r with
  | Some k => let* sec := trigger (kGet k KSecret ns name) in Ret (found sec)
  | None =>
      if negb (rs_Hub r)
      then Ret (Err (errorf "hub client required to load kubeconfig secret"))
      else let* sec := trigger (hubGetSecret ns name) in Ret (found sec)
  end.

(** ** auth.go *)

Definition or_default (a b : string) : string := if String.eqb a EmptyString then b else a.

(** The namespace of a referenced Secret. *)
Definition secretNS (r : Resolver) (ref : SecretKeyRef) : string :=
  or_default (or_default (skr_Namespace ref) (rs_HubNS r)) "portage-system".

Definition secretString (data : strmap) (keys : list string) : string :=
  match List.find (fun k => negb (String.eqb (nmap_get EmptyString data k) EmptyString)) keys with
  | Some k => nmap_get EmptyString data k
  | None => EmptyString
  end.

Definition credSecret (r : Resolver) (ref : option SecretKeyRef) : io ev (res strmap) :=
  match ref with
  | None => Ret (Ok None)
  | Some ref =>
      let ns := secretNS r ref in
      match rs_Secrets r with
      | Some k => let* sec := trigger (kGet k KSecret ns (skr_Name ref)) in
                  Ret (match sec with Ok s => Ok (sec_Data s) | Err e => Err e end)
      | None =>
          if negb (rs_Hub r)
          then Ret (Err (errorf "hub client required to load credentials secret"))
          else let* sec := trigger (hubGetSecret ns (skr_Name ref)) in
               Ret (match sec with Ok s => Ok (sec_Data s) | Err e => Err e end)
      end
  end.

(** The constructors of client-go over a configuration, and the exec client. *)
Definition defaultNew (NewKubeForConfig : restcfg -> res kube) (NewDynForConfig : restcfg -> res dyn)
    (SPDY : restcfg -> kube -> execer) (cfg : restcfg) : res (option kube * option dyn * option execer) :=
  match NewKubeForConfig cfg with
  | Err e => Err e
  | Ok k =>
      match NewDynForConfig cfg with
      | Err e => Err e
      | Ok d => Ok (Some k, Some d, Some (SPDY cfg k))
      end
  end.

Section resolver.
  (** clientcmd.RESTConfigFromKubeConfig; the constructors of [defaultNew]; the
      three cloud providers. *)
  Context (RESTConfigFromKubeConfig : string -> res restcfg).
  Context (defaultNew : restcfg -> res (option kube * option dyn * option execer)).
  Context (azureREST awsREST gcpREST : Resolver -> ClusterRef -> io ev (res restcfg)).

Definition kubeconfigREST (r : Resolver) (ref : SecretKeyRef) : io ev (res restcfg) :=
  let* raw := secretBytes r (secretNS r ref) (skr_Name ref) (or_default (skr_Key ref) "kubeconfig") in
  Ret (match raw with Ok raw => RESTConfigFromKubeConfig raw | Err e => Err e end).

Definition cloudREST (r : Resolver) (ref : ClusterRef) : io ev (res restcfg) :=
  if is_set (cr_Azure ref) then azureREST r ref
  else if is_set (cr_AWS ref) then awsREST r ref
  else if is_set (cr_GCP ref) then gcpREST r ref
  else Ret (Err (errorf ("cluster " +:+ cr_Name ref +:+ ": no cloud auth"))).

Definition restConfig (r : Resolver) (ref : ClusterRef) : io ev (res restcfg) :=
  if (1 <? AuthMethods ref)%Z
  then Ret (Err (errorf ("cluster " +:+ cr_Name ref +:+
                         ": set only one of kubeconfigSecret, azure, aws, gcp")))
  else
    match cr_KubeconfigSecret ref with
    | Some s => kubeconfigREST r s
    | None =>
        if is_set (cr_Azure ref) || is_set (cr_AWS ref) || is_set (cr_GCP ref) then
          match rs_Cloud r with Some f => f ref | None => cloudREST r ref end
        else Ret (Err (errorf ("cluster " +:+ cr_Name ref +:+ ": no auth method")))
    end.

Definition endpoints (r : Resolver) (ref : ClusterRef) : io ev (res Endpoints) :=
  if negb (HasRemoteAuth ref) then
    let ep := rs_Local r in
    Ret (Ok (if String.eqb (cr_Name ref) EmptyString then ep
             else mkEndpoints (cr_Name ref) (ep_Kube ep) (ep_Dynamic ep) (ep_Exec ep) (ep_REST ep)))
  else
    let* cfg := restConfig r ref in
    match cfg with
    | Err e => Ret (Err e)
    | Ok cfg =>
        match default defaultNew (rs_NewForCfg r) cfg with
        | Err e => Ret (Err e)
        | Ok (k, d, x) => Ret (Ok (mkEndpoints (cr_Name ref) k d x (Some cfg)))
        end
    end.

Definition Resolve (r : Resolver) (pair : option ClusterPair) : io ev (res Pair) :=
  match pair with
  | None => Ret (Ok (mkPair (rs_Local r) (rs_Local r)))
  | Some p =>
      let* src := endpoints r (cps_Source (cp_Spec p)) in
      match src with
      | Err e => Ret (Err (wrapf "source cluster: " e))
      | Ok src =>
          let* dst := endpoints r (cps_Destination (cp_Spec p)) in
          Ret (match dst with
               | Err e => Err (wrapf "destination cluster: " e)
               | Ok dst => Ok (mkPair src dst)
               end)
      end
  end.
End resolver.

(** ** rest.go *)

Record restConfigSpec := mkRestConfig { rc_Host : string; rc_CAData : string; rc_Timeout : duration }.

(** restConfig of rest.go; the token source is the transport the config wraps. *)
Definition restConfigFor (host ca : string) (hasTokenSource : bool) : res restConfigSpec :=
  let host := TrimSpace host in
  if String.eqb host EmptyString then Err (errorf "cluster API host is empty")
  else
    let host := if Contains host "://" then host else "https://" +:+ host in
    if String.eqb ca EmptyString then Err (errorf "cluster CA is empty; refusing InsecureSkipTLSVerify")
    else if negb hasTokenSource then Err (errorf "token source is required")
    else Ok (mkRestConfig host ca (30 * Second)%Z).

(** ** Properties *)

Section properties.
  Context (RESTConfigFromKubeConfig : string -> res restcfg).
  Context (defaultNew : restcfg -> res (option kube * option dyn * option execer)).
  Context (azureREST awsREST gcpREST : Resolver -> ClusterRef -> io ev (res restcfg)).

Let endpoints := endpoints RESTConfigFromKubeConfig defaultNew azureREST awsREST gcpREST.
Let Resolve := Resolve RESTConfigFromKubeConfig defaultNew azureREST awsREST gcpREST.

(** The run read this Secret: through the resolver's own client when it has
    one, else through the hub. *)
Definition read_secret (r : Resolver) (log : list (event ev)) (ns name : string) (sec : Secret) : Prop :=
  match rs_Secrets r with
  | Some k => mkEvent (kGet k KSecret ns name) (Ok sec) ∈ log
  | None => rs_Hub r = true /\ mkEvent (hubGetSecret ns name) (Ok sec) ∈ log
  end.

(** The run got [cfg] by the method the reference sets: the kubeconfig it
    names, as it was read, or its cloud, through the injected provider when
    there is one. *)
Definition authenticated (r : Resolver) (ref : ClusterRef) (log : list (event ev)) (cfg : restcfg) : Prop :=
  match cr_KubeconfigSecret ref with
  | Some s => exists sec raw, read_secret r log (secretNS r s) (skr_Name s) sec /\
      data_get (sec_Data sec) (or_default (skr_Key s) "kubeconfig") = Some raw /\
      RESTConfigFromKubeConfig raw = Ok cfg
  | None =>
      match rs_Cloud r with
      | Some f => did (f ref) (Ok cfg) log
      | None => (is_set (cr_Azure ref) = true /\ did (azureREST r ref) (Ok cfg) log) \/
                (is_set (cr_AWS ref) = true /\ did (awsREST r ref) (Ok cfg) log) \/
                (is_set (cr_GCP ref) = true /\ did (gcpREST r ref) (Ok cfg) log)
      end
  end.

(** What the endpoints of a cluster reference may be: the local clients for a
    reference without authentication, otherwise clients built from the
    configuration its one authentication method gave in this run. *)
Definition resolved (r : Resolver) (ref : ClusterRef) (log : list (event ev)) (ep : Endpoints) : Prop :=
  if HasRemoteAuth ref then
    AuthMethods ref = 1%Z /\ ep_Name ep = cr_Name ref /\
    exists cfg, authenticated r ref log cfg /\ ep_REST ep = Some cfg /\
      default defaultNew (rs_NewForCfg r) cfg = Ok (ep_Kube ep, ep_Dynamic ep, ep_Exec ep)
  else
    ep_Kube ep = ep_Kube (rs_Local r) /\ ep_Dynamic ep = ep_Dynamic (rs_Local r) /\
    ep_Exec ep = ep_Exec (rs_Local r) /\ ep_REST ep = ep_REST (rs_Local r).

Lemma authenticated_mono r ref log ext cfg : authenticated r ref log cfg -> authenticated r ref (log ++ ext) cfg.
Proof.
  unfold authenticated, read_secret. destruct (cr_KubeconfigSecret ref) as [s|].
  - intros (sec & raw & H & Hg). exists sec, raw. split; [|done].
    destruct (rs_Secrets r); [|destruct H as [Hh H]; split; [done|]]; by apply elem_of_app; left.
  - destruct (rs_Cloud r); [apply did_app|]. intros [[? H]|[[? H]|[? H]]]; eauto using did_app.
Qed.

Lemma resolved_mono r ref log ext ep : resolved r ref log ep -> resolved r ref (log ++ ext) ep.
Proof.
  unfold resolved. destruct (HasRemoteAuth ref); [|done]. intros (? & ? & cfg & ? & ?).
  split_and!; [done..|]. exists cfg. split; [by apply authenticated_mono|done].
Qed.

Lemma secretBytes_read r ns name key log :
  wp any_env (secretBytes r ns name key) log (fun log' x =>
    match x with
    | Ok raw => exists sec, read_secret r log' ns name sec /\ data_get (sec_Data sec) key = Some raw
    | Err _ => True
    end).
Proof.
  unfold secretBytes, read_secret. destruct (rs_Secrets r) as [k|]; [|destruct (rs_Hub r); [|done]];
    wp_call sec; cbn [wp negb]; destruct sec as [sec|]; try done;
    destruct (data_get (sec_Data sec) key) as [raw|] eqn:Eg; try done; exists sec; split; try done;
    [|split; [done|]]; apply elem_of_app; right; by left.
Qed.

Lemma restConfig_authenticated r ref log : HasRemoteAuth ref = true ->
  wp any_env (restConfig RESTConfigFromKubeConfig azureREST awsREST gcpREST r ref) log (fun log' res =>
    match res with Ok cfg => AuthMethods ref = 1%Z /\ authenticated r ref log' cfg | Err _ => True end).
Proof.
  unfold HasRemoteAuth. intros Ha. unfold restConfig. destruct (Z.ltb_spec 1 (AuthMethods ref)); [done|].
  assert (AuthMethods ref = 1%Z) as -> by (boolify; lia). unfold authenticated.
  destruct (cr_KubeconfigSecret ref) as [s|].
  - apply wp_bind. eapply wp_mono; [apply secretBytes_read|]. intros log' [raw|e]; cbn [wp]; [|done].
    intros (sec & Hs & Hg). destruct (RESTConfigFromKubeConfig raw) eqn:E; [|done]. eauto 8.
  - case_if; [|done]. destruct (rs_Cloud r) as [f|].
    + eapply wp_mono; [apply wp_did|]. intros log' [cfg|e] Hd; [split; [done|exact Hd]|done].
    + unfold cloudREST. repeat case_if; try done;
        (eapply wp_mono; [apply wp_did|]; intros log' [cfg|e] Hd; [split; [done|]|done]); eauto.
Qed.

Lemma endpoints_resolved r ref log :
  wp any_env (endpoints r ref) log (fun log' res =>
    match res with Ok ep => resolved r ref log' ep | Err _ => True end).
Proof.
  unfold endpoints, Clusters.endpoints, resolved. destruct (HasRemoteAuth ref) eqn:Ha; cbn [negb].
  - apply wp_bind. eapply wp_mono; [by apply restConfig_authenticated|]. intros log' [cfg|e] H; [|done].
    destruct (default defaultNew (rs_NewForCfg r) cfg) as [[[k d] x]|e] eqn:En; [|done].
    cbn [wp ep_Name ep_REST ep_Kube ep_Dynamic ep_Exec]. destruct H. split_and!; [done|done|]. eauto.
  - cbn [wp]. by case_if.
Qed.

(** C34: resolving a pair never substitutes one cluster for another. The
    clients of a reference with authentication are built from the configuration
    its single method gave in this very run: what the kubeconfig read from the
    Secret it names parses to, or what its cloud answered; when the method
    fails, the whole resolution fails naming the side. Only a reference without
    authentication gets the local clients. *)
Theorem Resolve_no_substitution r pair :
  always (Resolve r pair) (fun log res =>
    match res, pair with
    | Ok p, Some cp => resolved r (cps_Source (cp_Spec cp)) log (pr_Source p) /\
                       resolved r (cps_Destination (cp_Spec cp)) log (pr_Dest p)
    | Ok p, None => p = mkPair (rs_Local r) (rs_Local r)
    | Err e, Some _ => HasPrefix (err_msg e) "source cluster: " = true \/
                       HasPrefix (err_msg e) "destination cluster: " = true
    | Err _, None => False
    end).
Proof.
  unfold Resolve, Clusters.Resolve, always. destruct pair as [cp|]; [|done].
  apply wp_bind. eapply wp_mono; [apply endpoints_resolved|]. intros log [src|e] Hs.
  - apply wp_bind. eapply wp_mono_ext; [apply endpoints_resolved|]. intros ext [dst|e] Hd; cbn [wp].
    + split; [by apply resolved_mono|done].
    + right. apply HasPrefix_app.
  - left. apply HasPrefix_app.
Qed.
End properties.
