(* ===== verification/Tokens.v ===== *)
(** * Bearer tokens: src/pkg/clusters/rest.go

    The token cache that the workers of the reconcilers share, as the calls a
    goroutine makes to the mutex, the fields behind it, the clock, the context
    and the cloud; and the transport that puts the token on a request. Any
    number of goroutines run [Token] against one cache, one call at a time in
    any order ([step]); the theorems are about every state they can reach. *)

From Stdlib Require Import ZArith Lia.
From S2P Require Import Prelude GoStrings Effects Api GoTime.

(** An outgoing request: its headers, the channel that cancels it, and the
    rest, which only travels along. *)
Record Request := mkRequest {
  rq_Header : gmap string (list string); rq_Cancel : option nat; rq_rest : string }.

(** The calls. [readTok] and [writeTok] are the plain accesses to the fields
    [tok] and [exp]; [fetch] is the function the cache was built with. *)
Inductive tev : Type -> Type :=
| Lock : tev unit
| Unlock : tev unit
| readTok : tev (string * time)
| writeTok (tok : string) (exp : time) : tev unit
| Now : tev time
| CtxErr : tev (option err)
| fetch : tev (res (string * time))
| baseRoundTrip (r : Request) : tev (res string).

(** ** cachedToken *)

Section token.
  Context (skew : duration).

(** A skew of zero is a minute. *)
Definition skew_of : duration := if (skew =? 0)%Z then Minute else skew.

(** The pieces of [Token], from the last back to the first. *)
Definition return_cached (tok : string) : io tev (res string) :=
  let* _ := trigger Unlock in Ret (Ok tok).
Definition store_token (tok : string) (exp : time) : io tev (res string) :=
  let* _ := trigger Lock in
  let* _ := trigger (writeTok tok exp) in
  let* _ := trigger Unlock in
  Ret (Ok tok).
Definition refresh : io tev (res string) :=
  let* e := trigger CtxErr in
  match e with
  | Some e => Ret (Err e)
  | None =>
      let* r := trigger fetch in
      match r with
      | Err e => Ret (Err e)
      | Ok (tok, exp) => store_token tok exp
      end
  end.
Definition unlock_refresh : io tev (res string) := let* _ := trigger Unlock in refresh.
Definition with_cached (c : string * time) : io tev (res string) :=
  let '(tok, exp) := c in
  if String.eqb tok EmptyString then unlock_refresh
  else
    let* t := trigger Now in
    if (t + skew_of <? exp)%Z then return_cached tok else unlock_refresh.

Definition Token : io tev (res string) :=
  let* _ := trigger Lock in
  let* c := trigger readTok in
  with_cached c.
End token.

(** ** bearerTransport *)

(** http.RoundTripper as the type switch of [cancelRequest] sees it: one with a
    CancelRequest of its own, one that unwraps to another, one with neither;
    and a bearerTransport, whose CancelRequest is [cancelRequest] of its base. *)
Inductive RoundTripper :=
| Canceler (id : nat)
| Wrapper (base : RoundTripper)
| Opaque (id : nat)
| bearerTransport (base : RoundTripper).

(** The transport whose own CancelRequest is called, if one is. *)
Fixpoint cancelRequest (rt : RoundTripper) : option nat :=
  match rt with
  | Canceler id => Some id
  | bearerTransport base => cancelRequest base
  | Wrapper base => cancelRequest base
  | Opaque _ => None
  end.

(** cfg.Wrap: http.DefaultTransport ([0]) under a nil transport. *)
Definition wrap_transport (rt : option RoundTripper) : RoundTripper :=
  bearerTransport (default (Canceler 0) rt).

(** utilnet.CloneRequest and Header.Set. *)
Definition authorize (tok : string) (r : Request) : Request :=
  mkRequest (<["Authorization"%string := [("Bearer " +:+ tok)%string]]> (rq_Header r)) (rq_Cancel r) (rq_rest r).

Definition RoundTrip (src : io tev (res string)) (req : Request) : io tev (res string) :=
  let* e := trigger CtxErr in
  match e with
  | Some e => Ret (Err e)
  | None =>
      let* tok := src in
      match tok with
      | Err e => Ret (Err e)
      | Ok tok => trigger (baseRoundTrip (authorize tok req))
      end
  end.

(** ** Goroutines

    The cache as the goroutines see it: who holds the mutex, the fields, the
    clock; and, to state what a token rests on, every token fetched so far and
    every reading of the clock, by whom. *)

Record cachedToken := mkCached {
  ch_mu : option nat; ch_tok : string; ch_exp : time; ch_clock : time;
  ch_fetched : list (nat * string * time); ch_looks : list (nat * time) }.

(** Goroutine [i] makes the call [e], answered [x]. *)
Definition does (i : nat) (c : cachedToken) {X} (e : tev X) : X -> cachedToken -> Prop :=
  match e with
  | Lock => fun _ c' => ch_mu c = None /\ c' = mkCached (Some i) (ch_tok c) (ch_exp c) (ch_clock c) (ch_fetched c) (ch_looks c)
  | Unlock => fun _ c' => is_Some (ch_mu c) /\ c' = mkCached None (ch_tok c) (ch_exp c) (ch_clock c) (ch_fetched c) (ch_looks c)
  | readTok => fun x c' => x = (ch_tok c, ch_exp c) /\ c' = c
  | writeTok tok exp => fun _ c' => c' = mkCached (ch_mu c) tok exp (ch_clock c) (ch_fetched c) (ch_looks c)
  | Now => fun x c' => x = ch_clock c /\ c' =
      mkCached (ch_mu c) (ch_tok c) (ch_exp c) (ch_clock c) (ch_fetched c) (ch_looks c ++ [(i, ch_clock c)])
  | CtxErr => fun _ c' => c' = c
  | fetch => fun x c' => match x with
      | Ok (tok, exp) => c' = mkCached (ch_mu c) (ch_tok c) (ch_exp c) (ch_clock c) (ch_fetched c ++ [(i, tok, exp)]) (ch_looks c)
      | Err _ => c' = c
      end
  | baseRoundTrip _ => fun _ c' => c' = c
  end.

Abbreviation pool := (gmap nat (io tev (res string))).

(** Its next call, and what it goes on with. *)
Definition performs (i : nat) (c : cachedToken) (p : io tev (res string)) (c' : cachedToken)
    (p' : io tev (res string)) : Prop :=
  match p with
  | Ret _ => False
  | Call e k => exists x, does i c e x c' /\ p' = k x
  end.

(** One call of one goroutine, or time passing. *)
Inductive step : cachedToken * pool -> cachedToken * pool -> Prop :=
| step_call i p p' c c' (ps : pool) :
    ps !! i = Some p -> performs i c p c' p' -> step (c, ps) (c', <[i := p']> ps)
| step_tick t c ps : (ch_clock c <= t)%Z ->
    step (c, ps) (mkCached (ch_mu c) (ch_tok c) (ch_exp c) t (ch_fetched c) (ch_looks c), ps).

(** The empty cache, free, and goroutines about to ask for a token. *)
Definition initial (skew : duration) (s : cachedToken * pool) : Prop :=
  ch_mu (fst s) = None /\ ch_tok (fst s) = EmptyString /\ ch_fetched (fst s) = [] /\ ch_looks (fst s) = [] /\
  forall i p, snd s !! i = Some p -> p = Token skew.

(** ** Lemmas *)

Section lemmas.
  Context (skew : duration).

(** [tok] may be used by [i]: it fetched it itself, or someone did and it was
    more than the skew from its expiry when [i] itself looked at the clock. *)
Definition usable (c : cachedToken) (i : nat) (tok : string) : Prop :=
  exists j exp, (j, tok, exp) ∈ ch_fetched c /\
    (j = i \/ exists t, (i, t) ∈ ch_looks c /\ (t + skew_of skew < exp)%Z).

Definition cached_ok (c : cachedToken) (tok : string) (exp : time) : Prop :=
  tok <> EmptyString -> exists j, (j, tok, exp) ∈ ch_fetched c.

(** Where goroutine [i] can be, and what is then known. The first five hold
    the mutex. *)
Inductive inside (c : cachedToken) (i : nat) : io tev (res string) -> Prop :=
| at_read : inside c i (let* x := trigger readTok in with_cached skew x)
| at_now tok : cached_ok c tok (ch_exp c) -> tok <> EmptyString ->
    inside c i (let* t := trigger Now in
                if (t + skew_of skew <? ch_exp c)%Z then return_cached tok else unlock_refresh)
| at_return tok : usable c i tok -> inside c i (return_cached tok)
| at_unlock : inside c i unlock_refresh
| at_write tok exp : (i, tok, exp) ∈ ch_fetched c ->
    inside c i (let* _ := trigger (writeTok tok exp) in let* _ := trigger Unlock in Ret (Ok tok)).
Inductive outside (c : cachedToken) (i : nat) : io tev (res string) -> Prop :=
| at_start : outside c i (Token skew)
| at_refresh : outside c i refresh
| at_fetch : outside c i (let* r := trigger fetch in
    match r with Err e => Ret (Err e) | Ok (tok, exp) => store_token tok exp end)
| at_store tok exp : (i, tok, exp) ∈ ch_fetched c -> outside c i (store_token tok exp)
| at_error e : outside c i (Ret (Err e))
| at_done tok : usable c i tok -> outside c i (Ret (Ok tok)).

(** The invariant: the holder of the mutex is inside, everyone else outside. *)
Record cache_inv (s : cachedToken * pool) : Prop := {
  ci_cached : cached_ok (fst s) (ch_tok (fst s)) (ch_exp (fst s));
  ci_holder i p : snd s !! i = Some p ->
    if bool_decide (ch_mu (fst s) = Some i) then inside (fst s) i p else outside (fst s) i p;
  ci_held i : ch_mu (fst s) = Some i -> is_Some (snd s !! i) }.

(** What happened since: more was fetched, more readings were made. *)
Definition later (c c' : cachedToken) : Prop :=
  ch_fetched c ⊆ ch_fetched c' /\ ch_looks c ⊆ ch_looks c'.

Lemma usable_later c c' i tok : later c c' -> usable c i tok -> usable c' i tok.
Proof.
  intros [Hf Ht] (j & exp & Hin & H). exists j, exp. split; [by apply Hf|].
  destruct H as [?|(t & ? & ?)]; [by left|right]. exists t. split; [by apply Ht|done].
Qed.

Lemma cached_later c c' tok exp : later c c' -> cached_ok c tok exp -> cached_ok c' tok exp.
Proof. intros [Hf _] H Ht. destruct (H Ht) as [j Hj]. exists j. by apply Hf. Qed.

Lemma outside_later c c' i p : later c c' -> outside c i p -> outside c' i p.
Proof.
  intros Hl H. destruct H; try by constructor.
  - constructor. by apply Hl.
  - constructor. by eapply usable_later.
Qed.

Lemma inside_later c c' i p : later c c' -> ch_exp c' = ch_exp c -> inside c i p -> inside c' i p.
Proof.
  intros Hl He H. destruct H; try by constructor.
  - rewrite <- He. constructor; [|done]. rewrite He. by eapply cached_later.
  - constructor. by eapply usable_later.
  - constructor. by apply Hl.
Qed.

(** One call of the holder, and one of another goroutine. *)
Lemma performs_inside c i p c' p' : inside c i p -> ch_mu c = Some i -> cached_ok c (ch_tok c) (ch_exp c) ->
  performs i c p c' p' ->
  later c c' /\ cached_ok c' (ch_tok c') (ch_exp c') /\
  (ch_mu c' = Some i /\ inside c' i p' \/ ch_mu c' = None /\ outside c' i p').
Proof.
  assert (later c c) as Hcc by done.
  intros H Hm Hc Hp. destruct H as [|tok Hk Hne|tok Hu| |tok exp Hin]; cbn in Hp; destruct Hp as (x & Hd & ->).
  - destruct Hd as [-> ->]. split_and!; [done|done|left]. split; [done|]. unfold with_cached.
    case_if; boolify; [by constructor|]. by apply at_now.
  - destruct Hd as [-> ->]. split_and!; [split; [done|set_solver]|done|left]. split; [done|]. case_if; [|constructor].
    constructor. destruct (Hk Hne) as [j Hj]. exists j, (ch_exp c). split; [done|right]. boolify. exists (ch_clock c).
    split; [set_solver|done].
  - destruct Hd as [_ ->]. split_and!; [done|done|right]. split; [done|]. by apply at_done.
  - destruct Hd as [_ ->]. split_and!; [done|done|right]. split; [done|]. constructor.
  - subst c'. split_and!; [done| |left]; [intros _; by exists i|]. split; [done|].
    apply (at_return _ i tok). exists i, exp. by split; [|left].
Qed.

Lemma performs_outside c i p c' p' : outside c i p -> ch_mu c <> Some i -> performs i c p c' p' ->
  later c c' /\ ch_tok c' = ch_tok c /\ ch_exp c' = ch_exp c /\
  (ch_mu c' = ch_mu c /\ outside c' i p' \/ ch_mu c = None /\ ch_mu c' = Some i /\ inside c' i p').
Proof.
  assert (later c c) as Hcc by done.
  intros H Hm Hp. destruct H as [| | |tok exp Hin|e|tok Hu]; cbn in Hp; try done; destruct Hp as (x & Hd & ->).
  - destruct Hd as [Hn ->]. split_and!; [done..|right]. split_and!; [done..|]. constructor.
  - cbn in Hd. subst c'. split_and!; [done..|left]. split; [done|]. destruct x; constructor.
  - destruct x as [[tok exp]|e]; cbn in Hd; subst c'.
    + split_and!; [|done|done|left]; [split; [set_solver|done]|]. split; [done|]. constructor. cbn. set_solver.
    + split_and!; [done..|left]. split; [done|]. constructor.
  - destruct Hd as [Hn ->]. split_and!; [done..|right]. split_and!; [done..|]. by constructor.
Qed.

Lemma cache_inv_step s s' : cache_inv s -> step s s' -> cache_inv s'.
Proof.
  intros [Hc Hh Hm] Hs. destruct Hs as [i p p' c c' ps Hi Hp|t c ps Ht]; cbn [fst snd] in *.
  - pose proof (Hh i p Hi) as Hip. case_bool_decide as E.
    + destruct (performs_inside c i p c' p' Hip E Hc Hp) as (Hl & Hc' & Hx).
      constructor; cbn [fst snd]; [done| |].
      * intros j q. destruct (decide (j = i)) as [->|Hne].
        { rewrite lookup_insert_eq. intros [= <-]. destruct Hx as [[-> ?]|[-> ?]];
            [by rewrite bool_decide_true|by rewrite bool_decide_false]. }
        rewrite lookup_insert_ne by done. intros Hj. specialize (Hh j q Hj).
        rewrite bool_decide_false in Hh by congruence.
        rewrite bool_decide_false; [by eapply outside_later|]. destruct Hx as [[-> ?]|[-> ?]]; congruence.
      * intros j Hj. destruct (decide (j = i)) as [->|Hne]; [by rewrite lookup_insert_eq|].
        destruct Hx as [[Hx ?]|[Hx ?]]; congruence.
    + destruct (performs_outside c i p c' p' Hip E Hp) as (Hl & Ht & He & Hx).
      constructor; cbn [fst snd]; [rewrite Ht, He; by eapply cached_later| |].
      * intros j q. destruct (decide (j = i)) as [->|Hne].
        { rewrite lookup_insert_eq. intros [= <-]. destruct Hx as [[-> ?]|(? & -> & ?)];
            [by rewrite bool_decide_false|by rewrite bool_decide_true]. }
        rewrite lookup_insert_ne by done. intros Hj. specialize (Hh j q Hj).
        destruct Hx as [[Hx _]|(Hx & Hx' & _)].
        { rewrite Hx. case_bool_decide; [by eapply inside_later|by eapply outside_later]. }
        { rewrite bool_decide_false in Hh by congruence. rewrite bool_decide_false by congruence.
          by eapply outside_later. }
      * intros j Hj. destruct (decide (j = i)) as [->|Hne]; [by rewrite lookup_insert_eq|].
        rewrite lookup_insert_ne by done. destruct Hx as [[Hx ?]|(Hx & Hx' & ?)]; [apply Hm|]; congruence.
  - assert (later c (mkCached (ch_mu c) (ch_tok c) (ch_exp c) t (ch_fetched c) (ch_looks c))) as Hl by done.
    constructor; cbn [fst snd ch_mu ch_tok ch_exp]; [by eapply cached_later| |done].
    intros i p Hi. specialize (Hh i p Hi). case_bool_decide; [by eapply inside_later|by eapply outside_later].
Qed.

Lemma initial_inv s : initial skew s -> cache_inv s.
Proof.
  intros (Hm & Ht & Hf & _ & Hp). constructor.
  - intros Hne. by rewrite Ht in Hne.
  - intros i p Hi. rewrite Hm, bool_decide_false by done. rewrite (Hp i p Hi). constructor.
  - intros i Hi. congruence.
Qed.

Lemma reachable_inv s s' : initial skew s -> rtc step s s' -> cache_inv s'.
Proof.
  intros Hi Hr. apply initial_inv in Hi. induction Hr as [|a b c Hab _ IH]; [done|]. by apply IH, (cache_inv_step a).
Qed.
End lemmas.

(** The next call touches the fields. *)
Definition accesses (p : io tev (res string)) : bool :=
  match p with
  | Ret _ => false
  | Call e _ => match e with readTok | writeTok _ _ => true | _ => false end
  end.

(** [p] gives the mutex back after at most [n] calls, none of which waits for
    the cloud, the context or a mutex. *)
Fixpoint releases (n : nat) (p : io tev (res string)) : Prop :=
  match p with
  | Ret _ => False
  | Call e k =>
      match e with
      | Unlock => True
      | Lock | CtxErr | fetch | baseRoundTrip _ => False
      | _ => match n with O => False | S n => forall x, releases n (k x) end
      end
  end.

(** It waits for the mutex. *)
Definition waits (p : io tev (res string)) : bool :=
  match p with Ret _ => false | Call e _ => match e with Lock => true | _ => false end end.
Definition returned (p : io tev (res string)) : bool := match p with Ret _ => true | _ => false end.

Lemma inside_releases skew c i p : inside skew c i p -> releases 2 p /\ waits p = false /\ returned p = false.
Proof.
  intros H. destruct H; (split; [|done]); cbn; try done.
  - intros [tok exp]. cbn. destruct (String.eqb tok EmptyString); cbn; [done|]. intros t.
    by destruct (t + skew_of skew <? exp)%Z.
  - intros t. by destruct (t + skew_of skew <? ch_exp c)%Z.
Qed.

Lemma outside_quiet skew c i p : outside skew c i p -> accesses p = false.
Proof. by destruct 1. Qed.

(** A call that is no Lock can always be made. *)
Lemma can_go i c p : returned p = false -> waits p = false -> (accesses p = true \/ is_Some (ch_mu c) \/
  match p with Call Unlock _ => False | _ => True end) -> exists c' p', performs i c p c' p'.
Proof.
  destruct p as [x|X e k]; [done|]. intros _ Hw Hu. destruct e; try done; cbn.
  - destruct Hu as [?|[Hm|[]]]; [done|]. exists (mkCached None (ch_tok c) (ch_exp c) (ch_clock c) (ch_fetched c) (ch_looks c)). by eexists _, tt.
  - by eexists c, _, (ch_tok c, ch_exp c).
  - by eexists _, _, tt.
  - by eexists _, _, (ch_clock c).
  - by eexists c, _, None.
  - by eexists c, _, (Err (errorf "")).
  - by eexists c, _, (Err (errorf "")).
Qed.

(** The requests of a log. *)
Definition sent (e : event tev) : option Request :=
  match ev_call e with baseRoundTrip r => Some r | _ => None end.

Lemma Token_sends skew log : wp any_env (Token skew) log (fun log' _ => omap sent log' = omap sent log).
Proof.
  assert (forall l X (e : tev X) x, sent (mkEvent e x) = None -> omap sent l = omap sent log ->
    omap sent (l ++ [mkEvent e x]) = omap sent log) as Hsnoc
    by (intros l X e x He <-; rewrite omap_app; cbn; by rewrite He, app_nil_r).
  unfold Token. wp_call u. wp_call c. destruct c as [tok exp]. unfold with_cached.
  assert (forall l, omap sent l = omap sent log ->
    wp any_env unlock_refresh l (fun log' _ => omap sent log' = omap sent log)) as Hr.
  { intros l Hl. unfold unlock_refresh. wp_call v. unfold refresh. wp_call e.
    destruct e; [by repeat (apply Hsnoc; [done|])|]. wp_call r. destruct r as [[tok' exp']|e]; [|by repeat (apply Hsnoc; [done|])].
    unfold store_token. wp_call w1. wp_call w2. wp_call w3. by repeat (apply Hsnoc; [done|]). }
  case_if; [apply Hr; by repeat (apply Hsnoc; [done|])|]. wp_call t. case_if; [|apply Hr; by repeat (apply Hsnoc; [done|])].
  unfold return_cached. wp_call v. by repeat (apply Hsnoc; [done|]).
Qed.

(** ** Properties *)

(** C15: the cache is safe for any number of workers. In every state their calls
    can lead to: the fields [tok] and [exp] are touched only under the mutex,
    which one goroutine at most holds; and a token that [Token] returned was
    fetched, either by this very call, or by another, and then it was more
    than the skew (a minute when none is set) away from its expiry at a time
    this very call read from the clock. *)
Theorem token_cache_safe skew c0 ps0 c ps :
  initial skew (c0, ps0) -> rtc step (c0, ps0) (c, ps) ->
  (forall i p, ps !! i = Some p -> accesses p = true -> ch_mu c = Some i) /\
  (forall i tok, ps !! i = Some (Ret (Ok tok)) -> usable skew c i tok).
Proof.
  intros Hi Hr. destruct (reachable_inv skew _ _ Hi Hr) as [_ Hh _]. cbn [fst snd] in Hh. split.
  - intros i p Hp Ha. specialize (Hh i p Hp). case_bool_decide as E; [done|].
    by rewrite (outside_quiet skew c i p Hh) in Ha.
  - intros i tok Hp. specialize (Hh i _ Hp). case_bool_decide as E.
    + by destruct (inside_releases skew c i _ Hh).
    + inversion Hh; by subst.
Qed.

(** C16: a fetch that hangs holds nobody up. In every state the workers' calls can
    lead to, the holder of the mutex gives it back after at most two calls
    to itself, neither of which waits for the cloud or the context; and when
    nobody holds it, every goroutine that has not returned can go on, whatever
    the others wait for. So no deadlock is reachable. *)
Theorem token_cache_live skew c0 ps0 c ps :
  initial skew (c0, ps0) -> rtc step (c0, ps0) (c, ps) ->
  match ch_mu c with
  | Some i => exists p, ps !! i = Some p /\ releases 2 p /\ exists c' p', performs i c p c' p'
  | None => forall i p, ps !! i = Some p -> returned p = false -> exists c' p', performs i c p c' p'
  end.
Proof.
  intros Hi Hr. destruct (reachable_inv skew _ _ Hi Hr) as [_ Hh Hm]. cbn [fst snd] in Hh, Hm.
  destruct (ch_mu c) as [i|] eqn:Ei.
  - destruct (Hm i eq_refl) as [p Hp]. exists p. specialize (Hh i p Hp). rewrite bool_decide_true in Hh by done.
    destruct (inside_releases skew c i p Hh) as (Hrel & Hw & Hret). split_and!; [done|done|].
    apply can_go; [done|done|]. right. left. by rewrite Ei.
  - intros i p Hp Hret. specialize (Hh i p Hp). rewrite bool_decide_false in Hh by done.
    destruct Hh as [| | |tok exp Hin|e|tok Hu]; try done.
    + eexists _, _. cbn. exists tt. split; [by split|reflexivity].
    + apply can_go; [done|done|by right; right].
    + apply can_go; [done|done|by right; right].
    + eexists _, _. cbn. exists tt. split; [by split|reflexivity].
Qed.

(** a request goes out only under a token. For every answer, the transport sends
    at most one request, only when its context had not ended, with a token
    [Token] returned in this very round trip, and this request is the caller's,
    with the one Authorization header "Bearer <token>": its other headers and
    the channel that cancels it are kept. *)
Theorem RoundTrip_authorized skew req :
  always (RoundTrip (Token skew) req) (fun log _ =>
    length (omap sent log) <= 1 /\
    forall r, r ∈ omap sent log -> rq_Cancel r = rq_Cancel req /\ rq_rest r = rq_rest req /\
      head log = Some (mkEvent CtxErr None) /\
      exists tok, did (Token skew) (Ok tok) log /\
        forall h, rq_Header r !! h = if String.eqb h "Authorization" then Some ["Bearer " +:+ tok]%string
                                     else rq_Header req !! h).
Proof.
  unfold always, RoundTrip. wp_call e. destruct e as [e|].
  { cbn. split; [lia|]. by intros r Hr%elem_of_nil. }
  apply wp_bind. eapply wp_mono_ext; [apply wp_and; [apply Token_sends|apply wp_did]|].
  intros ext [tok|e] [Hs Hd]; [|cbn [wp]; rewrite Hs; cbn; split; [lia|]; by intros r Hr%elem_of_nil].
  intros x s' ->. cbn [wp]. pose proof (did_app _ _ _ [mkEvent (baseRoundTrip (authorize tok req)) x] Hd) as Hd'.
  rewrite omap_app, Hs. cbn [omap list_omap]. split; [cbn; lia|].
  intros r ->%list_elem_of_singleton. split_and!; [done..|]. exists tok. split; [exact Hd'|].
  intros h. cbn. case_if; boolify; [subst; by rewrite lookup_insert_eq|by rewrite lookup_insert_ne].
Qed.

(** cancelling reaches the transport that understands it: however many wrappers
    and bearer transports lie above it. *)
Lemma cancelRequest_reaches rts id :
  Forall (fun f => f = Wrapper \/ f = bearerTransport) rts ->
  cancelRequest (foldr (fun f rt => f rt) (Canceler id) rts) = Some id.
Proof. by induction 1 as [|f rts [-> | ->] _ IH]. Qed.

(** ** Witnesses *)

(** Two goroutines on an empty cache; the first fetches and stores, then the
    second is served from the cache. *)
Definition two : cachedToken * pool :=
  (mkCached None EmptyString 0%Z 0%Z [] [], {[0 := Token 0%Z; 1 := Token 0%Z]}).
Definition fresh : time := (10 * Minute)%Z.
Definition stored_once : cachedToken * pool :=
  (mkCached None "t" fresh 0%Z [(0, "t"%string, fresh)] [],
   <[0 := Ret (Ok "t"%string)]> (snd two)).
Definition served_once : cachedToken * pool :=
  (mkCached None "t" fresh 0%Z [(0, "t"%string, fresh)] [(1, 0%Z)],
   <[1 := Ret (Ok "t"%string)]> (snd stored_once)).

Lemma two_initial : initial 0%Z two.
Proof.
  split_and!; [done..|]. intros i p H. cbn in H. apply lookup_insert_Some in H as [[_ <-]|[_ H]]; [done|].
  by apply lookup_singleton_Some in H as [_ <-].
Qed.


(** Goroutine [i] makes its next call. *)
Lemma two_go i c (ps : pool) p c1 p1 s : performs i c p c1 p1 -> rtc step (c1, <[i := p1]> ps) s ->
  rtc step (c, <[i := p]> ps) s.
Proof.
  intros Hp Hs. eapply rtc_l; [apply (step_call i p p1 c c1); [by rewrite lookup_insert_eq|done]|].
  by rewrite insert_insert_eq.
Qed.

Lemma two_runs : rtc step two stored_once.
Proof.
  unfold stored_once, two. cbn [snd].
  eapply two_go; [exists tt; split; [by split|reflexivity]|].
  eapply two_go; [eexists; split; [by split|reflexivity]|].
  eapply two_go; [exists tt; split; [split; [by eexists|reflexivity]|reflexivity]|].
  eapply two_go; [exists None; split; reflexivity|].
  eapply two_go; [exists (Ok ("t"%string, fresh)); split; reflexivity|].
  eapply two_go; [exists tt; split; [by split|reflexivity]|].
  eapply two_go; [exists tt; split; reflexivity|].
  eapply two_go; [exists tt; split; [split; [by eexists|reflexivity]|reflexivity]|].
  rewrite insert_insert_eq. apply rtc_refl.
Qed.

Lemma two_serves : rtc step two served_once.
Proof.
  etransitivity; [apply two_runs|]. unfold served_once.
  replace stored_once with (fst stored_once, <[1 := Token 0%Z]> (snd stored_once)) by reflexivity.
  eapply two_go; [exists tt; split; [by split|reflexivity]|].
  eapply two_go; [eexists; split; [by split|reflexivity]|].
  eapply two_go; [eexists; split; [by split|reflexivity]|].
  eapply two_go; [exists tt; split; [split; [by eexists|reflexivity]|reflexivity]|].
  apply rtc_refl.
Qed.

Lemma token_cache_safe_witness : usable 0%Z (fst served_once) 1 "t".
Proof.
  refine (proj2 (token_cache_safe 0%Z (fst two) (snd two) (fst served_once) (snd served_once) two_initial two_serves) 1 "t" _).
  reflexivity.
Defined.

Lemma token_cache_live_witness : exists c' p', performs 1 (fst stored_once) (Token 0%Z) c' p'.
Proof.
  refine (token_cache_live 0%Z (fst two) (snd two) (fst stored_once) (snd stored_once) two_initial two_runs 1 (Token 0%Z) _ _);
    reflexivity.
Defined.
