(* ===== verification/CloudAuth.v ===== *)
(** * Reaching a managed cluster: src/pkg/clusters (aws.go, gcp.go, azure.go,
    kubeconfig.go)

    From the cloud section of a ClusterRef to a client configuration: the
    credentials of the hub's Secret, the description of the cluster, its
    certificate authority, and the token source. The SDKs of the clouds,
    client-go's kubeconfig reader and the JSON decoder are the class [Cloud];
    names are ASCII (the regular expression folds case). *)

From Stdlib Require Import ZArith Lia Ascii.
From S2P Require Import Prelude GoStrings Effects Base64 Api Json Kube Movers Clusters.

(** ** kubeconfig.go *)

(** clientcmdapi.Config: contexts are (cluster, user), clusters (server, CA
    data), users (client certificate data, client certificate file); the map
    values are pointers. *)
Record Kubeconfig := mkKubeconfig {
  kc_CurrentContext : string;
  kc_Contexts : gmap string (option (string * string));
  kc_Clusters : gmap string (option (string * string));
  kc_AuthInfos : gmap string (option (string * string)) }.

Definition kubeconfigTLSFrom (kc : option Kubeconfig) : string * string * bool :=
  match kc with
  | None => (EmptyString, EmptyString, false)
  | Some kc =>
      let '(clusterName, userName) := match kc_Contexts kc !! kc_CurrentContext kc with
                                      | Some (Some ctx) => ctx
                                      | _ => (EmptyString, EmptyString)
                                      end in
      let '(host, ca) := match kc_Clusters kc !! clusterName with
                         | Some (Some cl) => cl
                         | _ => (EmptyString, EmptyString)
                         end in
      (ca, host, match kc_AuthInfos kc !! userName with
                 | Some (Some (data, file)) => negb (String.eqb data EmptyString) || negb (String.eqb file EmptyString)
                 | _ => false
                 end)
  end.

(** ** What the libraries provide *)

(** A source of tokens behind the cache of rest.go: how early it refreshes, and
    how it fetches a token and its expiry. *)
Record tokens := mkTokens { tk_skew : duration; tk_fetch : io ev (res (string * time)) }.

(** eks.DescribeCluster: the authority's data and the endpoint, pointers both. *)
Record EKSCluster := mkEKS { eks_CA : option (option string); eks_Endpoint : option string }.
(** armcontainerservice: PrivateFQDN and Fqdn of the properties. *)
Record AKSProperties := mkAKS { aks_PrivateFQDN : option string; aks_Fqdn : option string }.

Class Cloud := {
  (** The rest.Config with a bearer transport, and one with another host. *)
  newConfig : restConfigSpec -> tokens -> restcfg;
  withHost : restcfg -> string -> restcfg;
  clientcmd_Load : string -> res Kubeconfig;
  RESTConfigFromKubeConfig : string -> res restcfg;
  json_Unmarshal : string -> res json;
  (** GET of a URL with a bearer token: code, status, body. *)
  httpGet : string -> string -> io ev (res (Z * string * res string));
  awsConf : Type;
  LoadDefaultConfig : string -> option (string * string * string) -> io ev (res awsConf);
  AssumeRole : awsConf -> string -> string -> awsConf;
  DescribeCluster : awsConf -> string -> io ev (res (option EKSCluster));
  PresignGetCallerIdentity : awsConf -> list (string * string) -> io ev (res string);
  gcpTokens : Type;
  FindDefaultCredentials : string -> io ev (res gcpTokens);
  CredentialsFromJSON : string -> string -> res gcpTokens;
  (** The access token and its expiry, [None] for the zero time. *)
  gcp_Token : gcpTokens -> io ev (res (string * option time));
  azCred : Type;
  NewClientSecretCredential : string -> string -> string -> res azCred;
  NewDefaultAzureCredential : string -> res azCred;
  az_GetToken : azCred -> string -> io ev (res (string * time));
  aksClient : Type;
  NewManagedClustersClient : string -> azCred -> res aksClient;
  aks_Get : aksClient -> string -> string -> io ev (res (option AKSProperties));
  ListClusterUserCredentials : aksClient -> string -> string -> io ev (res (list (option string))) }.

Section cloud.
  Context {K : Cloud}.

(** restConfig of rest.go around a token source. *)
Definition bearer (host ca : string) (ts : tokens) : res restcfg :=
  res_map (fun c => newConfig c ts) (restConfigFor host ca true).

(** ** aws.go *)

Definition eksTokenPrefix : string := "k8s-aws-v1.".
Definition eksTokenFromURL (presigned : string) : string := eksTokenPrefix +:+ RawURLEncoding presigned.

(** The headers the middleware sets. *)
Definition eksHeaders (cluster : string) : list (string * string) :=
  [("X-K8s-Aws-Id", cluster); ("X-Amz-Expires", "60")]%string.

Definition eksPresignedToken (cfg : awsConf) (clusterName : string) : io ev (res string) :=
  let* url := PresignGetCallerIdentity cfg (eksHeaders clusterName) in
  Ret (match url with
       | Err e => Err (wrapf "sts presign GetCallerIdentity: " e)
       | Ok url => Ok (eksTokenFromURL url)
       end).

(** The static credentials of the Secret, if one is given. *)
Definition awsCreds (r : Resolver) (a : AWSAuth) : io ev (res (option (string * string * string))) :=
  match aws_CredentialsSecret a with
  | None => Ret (Ok None)
  | Some ref =>
      let* data := credSecret r (Some ref) in
      Ret (match data with
           | Err e => Err e
           | Ok data =>
               let ak := secretString data ["accessKey"; "AWS_ACCESS_KEY_ID"]%string in
               let sk := secretString data ["secretKey"; "AWS_SECRET_ACCESS_KEY"]%string in
               let st := secretString data ["sessionToken"; "AWS_SESSION_TOKEN"]%string in
               if String.eqb ak EmptyString || String.eqb sk EmptyString
               then Err (errorf "aws credentials secret missing accessKey/secretKey")
               else Ok (Some (ak, sk, st))
           end)
  end.

(** The role to assume: the spec's, else the Secret's, which is read again. *)
Definition awsRole (r : Resolver) (a : AWSAuth) : io ev string :=
  match aws_CredentialsSecret a with
  | None => Ret (aws_RoleARN a)
  | Some ref =>
      let* data := credSecret r (Some ref) in
      Ret (match data with
           | Err _ => aws_RoleARN a
           | Ok data =>
               let v := secretString data ["roleARN"; "AWS_ROLE_ARN"]%string in
               if negb (String.eqb v EmptyString) && String.eqb (aws_RoleARN a) EmptyString then v else aws_RoleARN a
           end)
  end.

Definition awsConfig (r : Resolver) (a : AWSAuth) : io ev (res awsConf) :=
  let* creds := awsCreds r a in
  match creds with
  | Err e => Ret (Err e)
  | Ok creds =>
      let* cfg := LoadDefaultConfig (aws_Region a) creds in
      match cfg with
      | Err e => Ret (Err e)
      | Ok cfg =>
          let* role := awsRole r a in
          Ret (Ok (if negb (String.eqb role EmptyString) then AssumeRole cfg role "portage" else cfg))
      end
  end.

Definition eksTokens (cfg : awsConf) (clusterName : string) : tokens :=
  mkTokens (15 * Second)%Z (
    let* tok := eksPresignedToken cfg clusterName in
    match tok with
    | Err e => Ret (Err e)
    | Ok tok => let* t := trigger now in Ret (Ok (tok, (t + 14 * Minute)%Z))
    end).

Definition awsREST (r : Resolver) (ref : ClusterRef) : io ev (res restcfg) :=
  let required := Err (errorf ("cluster " +:+ cr_Name ref +:+ ": aws.clusterName and aws.region are required")) in
  match cr_AWS ref with
  | None => Ret required
  | Some a =>
      if String.eqb (aws_ClusterName a) EmptyString || String.eqb (aws_Region a) EmptyString then Ret required
      else
        let* cfg := awsConfig r a in
        match cfg with
        | Err e => Ret (Err e)
        | Ok cfg =>
            let* out := DescribeCluster cfg (aws_ClusterName a) in
            Ret (match out with
                 | Err e => Err (wrapf ("eks describe cluster " +:+ aws_ClusterName a +:+ ": ") e)
                 | Ok (Some (mkEKS (Some (Some data)) endpoint)) =>
                     match DecodeString data with
                     | Err e => Err (wrapf "eks cluster CA: " e)
                     | Ok ca => bearer (or_default (aws_Endpoint a) (default EmptyString endpoint)) ca
                                  (eksTokens cfg (aws_ClusterName a))
                     end
                 | Ok _ => Err (errorf ("eks cluster " +:+ aws_ClusterName a +:+ ": missing certificateAuthority.data"))
                 end)
        end
  end.

(** ** gcp.go *)

Definition gcpCloudScope : string := "https://www.googleapis.com/auth/cloud-platform".

Definition gkeResourceName (project location cluster : string) : string :=
  Sprintf "projects/%s/locations/%s/clusters/%s" [project; location; cluster].

Record gkeCluster := mkGKE {
  gke_Endpoint : string; gke_MasterAuth : option string; gke_PrivateEndpoint : option string }.

(** Decoding the struct: an object inside gives a pointer, absent or null nil. *)
Definition decode_inner (k : string) (v : json) : option (option string) :=
  match v with
  | JObj m => s ← Webhook.field Webhook.of_str EmptyString m k; Some (Some s)
  | _ => None
  end.
Definition decode_gke (v : json) : option gkeCluster :=
  match v with
  | JNull => Some (mkGKE EmptyString None None)
  | JObj m =>
      e ← Webhook.field Webhook.of_str EmptyString m "endpoint";
      a ← Webhook.field (decode_inner "clusterCaCertificate") None m "masterAuth";
      p ← Webhook.field (decode_inner "privateEndpoint") None m "privateClusterConfig";
      Some (mkGKE e a p)
  | _ => None
  end.

Definition truncate (b : string) (n : nat) : string :=
  if (String.length b <=? n)%nat then b else take_str n b.

Definition getGKECluster (ts : gcpTokens) (name : string) : io ev (res gkeCluster) :=
  let* tok := gcp_Token ts in
  match tok with
  | Err e => Ret (Err e)
  | Ok (tok, _) =>
      let url := "https://container.googleapis.com/v1/" +:+ name in
      let* bad := trigger (httpNewRequest url) in
      match bad with
      | Some e => Ret (Err e)
      | None =>
          let* resp := httpGet url tok in
          Ret (match resp with
               | Err e => Err (wrapf ("gke get " +:+ name +:+ ": ") e)
               | Ok (_, _, Err e) => Err e
               | Ok (code, status, Ok body) =>
                   if (300 <=? code)%Z
                   then Err (errorf ("gke get " +:+ name +:+ ": " +:+ status +:+ ": " +:+ truncate body 512))
                   else match json_Unmarshal body with
                        | Err e => Err (wrapf "gke cluster json: " e)
                        | Ok v => match decode_gke v with
                                  | Some c => Ok c
                                  | None => Err (errorf "gke cluster json: type mismatch")
                                  end
                        end
               end)
      end
  end.

Definition gcpTokenSource (r : Resolver) (g : GCPAuth) : io ev (res gcpTokens) :=
  match gcp_CredentialsSecret g with
  | None =>
      let* c := FindDefaultCredentials gcpCloudScope in
      Ret (match c with Err e => Err (wrapf "gcp ADC: " e) | Ok ts => Ok ts end)
  | Some ref =>
      let* data := credSecret r (Some ref) in
      Ret (match data with
           | Err e => Err e
           | Ok data =>
               let raw := secretString data [skr_Key ref; "key.json"; "credentials.json"]%string in
               if String.eqb raw EmptyString then Err (errorf "gcp credentials secret missing key.json")
               else match CredentialsFromJSON raw gcpCloudScope with
                    | Err e => Err (wrapf "gcp credentials json: " e)
                    | Ok ts => Ok ts
                    end
           end)
  end.

Definition gkeTokens (ts : gcpTokens) : tokens :=
  mkTokens Minute (
    let* tok := gcp_Token ts in
    match tok with
    | Err e => Ret (Err e)
    | Ok (tok, Some exp) => Ret (Ok (tok, exp))
    | Ok (tok, None) => let* t := trigger now in Ret (Ok (tok, (t + 50 * Minute)%Z))
    end).

Definition gke_host (g : GCPAuth) (cl : gkeCluster) : string :=
  match gke_PrivateEndpoint cl with
  | Some p => if gcp_UsePrivateEndpoint g && negb (String.eqb p EmptyString) then p else gke_Endpoint cl
  | None => gke_Endpoint cl
  end.

Definition gcpREST (r : Resolver) (ref : ClusterRef) : io ev (res restcfg) :=
  let required := Err (errorf ("cluster " +:+ cr_Name ref +:+
                    ": gcp.project, gcp.location, and gcp.cluster are required")) in
  match cr_GCP ref with
  | None => Ret required
  | Some g =>
      if String.eqb (gcp_Project g) EmptyString || String.eqb (gcp_Location g) EmptyString ||
         String.eqb (gcp_Cluster g) EmptyString then Ret required
      else
        let* ts := gcpTokenSource r g in
        match ts with
        | Err e => Ret (Err e)
        | Ok ts =>
            let* cl := getGKECluster ts (gkeResourceName (gcp_Project g) (gcp_Location g) (gcp_Cluster g)) in
            Ret (match cl with
                 | Err e => Err e
                 | Ok cl =>
                     let ca := default EmptyString (gke_MasterAuth cl) in
                     if String.eqb ca EmptyString
                     then Err (errorf ("gke cluster " +:+ gcp_Cluster g +:+ ": missing masterAuth.clusterCaCertificate"))
                     else match DecodeString ca with
                          | Err e => Err (wrapf "gke CA: " e)
                          | Ok ca => bearer (gke_host g cl) ca (gkeTokens ts)
                          end
                 end)
        end
  end.

(** ** azure.go *)

Definition aksAADServerID : string := "6dae42f8-4368-4678-94ff-3960e28e3630".

Record aksIDs := mkAksIDs { ids_Subscription : string; ids_ResourceGroup : string; ids_Cluster : string }.

(** The regular expression: its groups hold no slash, so it is matched on the
    parts between the slashes. *)
Definition parseAKSResourceID (id : string) : res aksIDs :=
  let bad := Err (errorf ("azure.resourceID must be an AKS ARM id, got " +:+ quoted id)) in
  match Split "/"%char id with
  | e :: a :: sub :: b :: rg :: p :: ms :: mc :: cluster :: tail =>
      if String.eqb e EmptyString && EqualFold a "subscriptions" && EqualFold b "resourceGroups" &&
         EqualFold p "providers" && EqualFold ms "Microsoft.ContainerService" && EqualFold mc "managedClusters" &&
         negb (String.eqb sub EmptyString) && negb (String.eqb rg EmptyString) &&
         negb (String.eqb cluster EmptyString) && bool_decide (tail = [] \/ tail = [EmptyString])
      then Ok (mkAksIDs sub rg cluster) else bad
  | _ => bad
  end.

Definition azureCred (r : Resolver) (a : AzureAuth) : io ev (res azCred) :=
  match az_CredentialsSecret a with
  | Some ref =>
      let* data := credSecret r (Some ref) in
      Ret (match data with
           | Err e => Err e
           | Ok data =>
               let tenant := or_default (secretString data ["tenantID"; "AZURE_TENANT_ID"]%string) (az_TenantID a) in
               let clientID := or_default (secretString data ["clientID"; "AZURE_CLIENT_ID"]%string) (az_ClientID a) in
               let secret := secretString data ["clientSecret"; "AZURE_CLIENT_SECRET"]%string in
               if String.eqb tenant EmptyString || String.eqb clientID EmptyString || String.eqb secret EmptyString
               then Err (errorf "azure credentials secret needs tenantID, clientID, clientSecret")
               else NewClientSecretCredential tenant clientID secret
           end)
  | None => Ret (NewDefaultAzureCredential (az_TenantID a))
  end.

Definition firstKubeconfig (cfgs : list (option string)) : res string :=
  match List.find (fun c => negb (String.eqb (default EmptyString c) EmptyString)) cfgs with
  | Some (Some raw) => Ok raw
  | _ => Err (errorf "aks user credentials: empty kubeconfig")
  end.

(** The private name when it is asked for and known, else the public one. *)
Definition aks_host (a : AzureAuth) (p : option AKSProperties) : string :=
  match p with
  | None => EmptyString
  | Some p =>
      let host := if az_UsePrivateFQDN a then default EmptyString (aks_PrivateFQDN p) else EmptyString in
      if String.eqb host EmptyString then default EmptyString (aks_Fqdn p) else host
  end.

Definition aksTokens (cred : azCred) (serverID : string) : tokens :=
  mkTokens Minute (
    let* tok := az_GetToken cred (serverID +:+ "/.default") in
    Ret (match tok with Err e => Err (wrapf "entra token for AKS: " e) | Ok t => Ok t end)).

(** From the user kubeconfig: its client certificate, or a bearer token. *)
Definition aksConfig (a : AzureAuth) (cred : azCred) (host raw : string) : res restcfg :=
  match clientcmd_Load raw with
  | Err e => Err (wrapf "aks kubeconfig: " e)
  | Ok kc =>
      let '(ca, kubeHost, clientCert) := kubeconfigTLSFrom (Some kc) in
      let host := if negb (String.eqb kubeHost EmptyString) && String.eqb host EmptyString then kubeHost else host in
      if clientCert : bool then
        match RESTConfigFromKubeConfig raw with
        | Err e => Err e
        | Ok cfg => Ok (if az_UsePrivateFQDN a && negb (String.eqb host EmptyString)
                        then withHost cfg ("https://" +:+ host) else cfg)
        end
      else bearer host ca (aksTokens cred (or_default (az_ServerID a) aksAADServerID))
  end.

Definition azureREST (r : Resolver) (ref : ClusterRef) : io ev (res restcfg) :=
  let required := Err (errorf ("cluster " +:+ cr_Name ref +:+ ": azure.resourceID is required")) in
  match cr_Azure ref with
  | None => Ret required
  | Some a =>
      if String.eqb (az_ResourceID a) EmptyString then Ret required
      else
        match parseAKSResourceID (az_ResourceID a) with
        | Err e => Ret (Err e)
        | Ok ids =>
            let* cred := azureCred r a in
            match cred with
            | Err e => Ret (Err e)
            | Ok cred =>
                match NewManagedClustersClient (ids_Subscription ids) cred with
                | Err e => Ret (Err e)
                | Ok client =>
                    let* cluster := aks_Get client (ids_ResourceGroup ids) (ids_Cluster ids) in
                    match cluster with
                    | Err e => Ret (Err (wrapf ("aks get " +:+ az_ResourceID a +:+ ": ") e))
                    | Ok props =>
                        let* creds := ListClusterUserCredentials client (ids_ResourceGroup ids) (ids_Cluster ids) in
                        Ret (match creds with
                             | Err e => Err (wrapf "aks user credentials: " e)
                             | Ok cfgs => match firstKubeconfig cfgs with
                                          | Err e => Err e
                                          | Ok raw => aksConfig a cred (aks_host a props) raw
                                          end
                             end)
                    end
                end
            end
        end
  end.

(** The resolver of Clusters.v with these three clouds. *)
Definition cloudREST : Resolver -> ClusterRef -> io ev (res restcfg) :=
  Clusters.cloudREST azureREST awsREST gcpREST.
End cloud.

(** ** The resource id of an AKS cluster *)

(** What the regular expression says: the named segments in any case, the three
    groups of characters that are no slash, and a slash at the end or none. *)
Definition aks_pattern (id : string) (ids : aksIDs) : Prop :=
  exists a b p ms mc slash,
    id = "/" +:+ a +:+ "/" +:+ ids_Subscription ids +:+ "/" +:+ b +:+ "/" +:+ ids_ResourceGroup ids +:+ "/" +:+ p +:+
         "/" +:+ ms +:+ "/" +:+ mc +:+ "/" +:+ ids_Cluster ids +:+ slash /\
    EqualFold a "subscriptions" = true /\ EqualFold b "resourceGroups" = true /\ EqualFold p "providers" = true /\
    EqualFold ms "Microsoft.ContainerService" = true /\ EqualFold mc "managedClusters" = true /\
    (forall g, g ∈ [ids_Subscription ids; ids_ResourceGroup ids; ids_Cluster ids] ->
       g <> EmptyString /\ in_cutset g "/" = false) /\
    (slash = EmptyString \/ slash = "/"%string).

(** A segment that equals a word without a slash has none. *)
Lemma lower_slash s : in_cutset (ToLower s) "/" = in_cutset s "/".
Proof.
  induction s as [|c s IH]; [done|]. cbn [ToLower in_cutset]. rewrite IH. f_equal.
  unfold ascii_lower. case_if; [|done]. apply andb_true_iff in Heqb as [H1%N.leb_le H2%N.leb_le].
  transitivity false; [|symmetry]; apply Ascii.eqb_neq; intros E; apply (f_equal N_of_ascii) in E;
    rewrite ?N_ascii_embedding in E by lia; cbn in E; lia.
Qed.

Lemma EqualFold_slash a w : EqualFold a w = true -> in_cutset w "/" = false -> in_cutset a "/" = false.
Proof. unfold EqualFold. intros E%String.eqb_eq H. by rewrite <- lower_slash, E, lower_slash. Qed.


Lemma Split_segment a rest : in_cutset a "/" = false -> Split "/"%char (a +:+ "/" +:+ rest) = a :: Split "/"%char rest.
Proof. intros H. change ("/" +:+ rest) with (String "/" rest). by rewrite Split_app, Split_no_sep by done. Qed.

(** The parser accepts exactly what the regular expression matches, and its
    groups. *)
Lemma parseAKSResourceID_pattern id ids : parseAKSResourceID id = Ok ids <-> aks_pattern id ids.
Proof.
  split.
  - unfold parseAKSResourceID. pose proof (Join_Split "/"%char id) as Hj.
    pose proof (Split_parts "/"%char id) as Hp.
    destruct (Split "/"%char id) as [|e [|a [|sub [|b [|rg [|p [|ms [|mc [|cluster tail]]]]]]]]]; try done.
    destruct (_ && _) eqn:E; [|done]. intros [= <-].
    repeat (apply andb_true_iff in E as [E ?]). boolify. subst e.
    exists a, b, p, ms, mc, (match tail with [] => EmptyString | _ => "/"%string end).
    assert (forall g, g ∈ [sub; rg; cluster] -> g <> EmptyString /\ in_cutset g "/" = false) as Hg.
    { intros g Hin. split; [|apply Hp; set_solver]. repeat (apply elem_of_cons in Hin as [->|Hin]; [done|]).
      by apply elem_of_nil in Hin. }
    destruct H as [->| ->]; cbn [Join] in Hj; rewrite <- Hj; split_and!; try done; auto;
      rewrite ?app_nil_r_str; reflexivity.
  - intros (a & b & p & ms & mc & slash & -> & Ha & Hb & Hp & Hms & Hmc & Hg & Hs).
    destruct ids as [sub rg cl]. cbn [ids_Subscription ids_ResourceGroup ids_Cluster] in *.
    destruct (Hg sub) as [Hs1 Hs2]; [set_solver|]. destruct (Hg rg) as [Hr1 Hr2]; [set_solver|].
    destruct (Hg cl) as [Hc1 Hc2]; [set_solver|]. unfold parseAKSResourceID.
    rewrite <- (app_nil_str ("/" +:+ a +:+ _)). 
    rewrite !Split_segment by first [done | by eapply EqualFold_slash].
    destruct Hs as [->| ->]; [rewrite app_nil_r_str, Split_no_sep by done|
      rewrite <- (app_nil_r_str "/"), Split_segment by done];
      rewrite Ha, Hb, Hp, Hms, Hmc; apply String.eqb_neq in Hs1 as ->, Hr1 as ->, Hc1 as ->; reflexivity.
Qed.

(** ** The configurations *)

Lemma restConfigFor_verified host ca ts spec : restConfigFor host ca ts = Ok spec ->
  rc_CAData spec = ca /\ ca <> EmptyString /\ Contains (rc_Host spec) "://" = true /\ rc_Timeout spec = (30 * Second)%Z.
Proof.
  unfold restConfigFor. case_if; [done|]. set (h := if Contains _ _ then _ else _). case_if; [done|].
  case_if; [done|]. intros [= <-]. cbn. boolify. split_and!; [done|done| |done].
  subst h. case_if; [done|]. change "https://"%string with ("https" +:+ "://"). rewrite app_assoc_str.
  apply Contains_mid.
Qed.

Section verified.
  Context {K : Cloud}.

(** A configuration with a bearer token verifies the server. *)
Definition verified (cfg : restcfg) : Prop := exists spec ts, cfg = newConfig spec ts /\
  rc_CAData spec <> EmptyString /\ Contains (rc_Host spec) "://" = true /\ rc_Timeout spec = (30 * Second)%Z /\
  (15 * Second <= tk_skew ts)%Z.

(** The client-certificate configuration of an AKS kubeconfig. *)
Definition certified (ref : ClusterRef) (cfg : restcfg) : Prop := exists a raw kc cfg0,
  cr_Azure ref = Some a /\ clientcmd_Load raw = Ok kc /\ snd (kubeconfigTLSFrom (Some kc)) = true /\
  RESTConfigFromKubeConfig raw = Ok cfg0 /\
  (cfg = cfg0 \/ az_UsePrivateFQDN a = true /\ exists host, host <> EmptyString /\ cfg = withHost cfg0 ("https://" +:+ host)).

Lemma bearer_verified host ca ts cfg : (15 * Second <= tk_skew ts)%Z -> bearer host ca ts = Ok cfg -> verified cfg.
Proof.
  intros Hts. unfold bearer. destruct (restConfigFor host ca true) as [spec|e] eqn:E; [|done]. intros [= <-].
  destruct (restConfigFor_verified _ _ _ _ E) as (<- & Hca & Hh & Ht). by exists spec, ts.
Qed.

Lemma aksConfig_verified ref a cred host raw cfg : cr_Azure ref = Some a ->
  aksConfig a cred host raw = Ok cfg -> verified cfg \/ certified ref cfg.
Proof.
  intros Ha. unfold aksConfig. destruct (clientcmd_Load raw) as [kc|e] eqn:El; [|done].
  destruct (kubeconfigTLSFrom (Some kc)) as [[ca kubeHost] cert] eqn:Ek. set (h := if _ && _ then _ else _).
  destruct cert; [|intros H; left; eapply bearer_verified; [|exact H]; cbn; done].
  destruct (RESTConfigFromKubeConfig raw) as [cfg0|e] eqn:Er; [|done]. intros [= <-]. right.
  exists a, raw, kc, cfg0. rewrite Ek. split_and!; [done..|].
  destruct (az_UsePrivateFQDN a && negb (String.eqb h EmptyString)) eqn:E; [|by left]. right.
  apply andb_true_iff in E as [-> E]. split; [done|]. exists h. split; [|done]. by boolify.
Qed.

(** C26: no cloud gives a client that trusts any server. For every answer of the
    hub and of the clouds, the configuration made for an EKS or GKE cluster has
    a certificate authority, a host with a scheme, and a time limit, and its
    token is refreshed ahead of its expiry; for an AKS cluster it is such a
    configuration or the cluster's own client certificate. A resource id is
    taken exactly when it is one of an AKS cluster, with its groups. *)
Theorem cloud_config_verified r ref :
  always (cloudREST r ref) (fun _ x => forall cfg, x = Ok cfg -> verified cfg \/ certified ref cfg) /\
  (forall id ids, parseAKSResourceID id = Ok ids <-> aks_pattern id ids).
Proof.
  split; [|apply parseAKSResourceID_pattern]. unfold always, cloudREST, Clusters.cloudREST.
  destruct (is_set (cr_Azure ref)); [|destruct (is_set (cr_AWS ref)); [|destruct (is_set (cr_GCP ref)); [|done]]].
  - unfold azureREST. destruct (cr_Azure ref) as [a|] eqn:Ea; [|done]. case_if; [done|].
    destruct (parseAKSResourceID _) as [ids|e]; [|done]. apply wp_bind. eapply wp_mono; [apply wp_True|].
    intros log [cred|e] _; [|done]. destruct (NewManagedClustersClient _ cred) as [client|e]; [|done].
    apply wp_bind. eapply wp_mono; [apply wp_True|]. intros log1 [props|e] _; [|done].
    apply wp_bind. eapply wp_mono; [apply wp_True|]. intros log2 [cfgs|e] _; [|done].
    destruct (firstKubeconfig cfgs) as [raw|e]; [|done]. intros cfg. by apply aksConfig_verified.
  - unfold awsREST. destruct (cr_AWS ref) as [a|]; [|done]. case_if; [done|]. apply wp_bind.
    eapply wp_mono; [apply wp_True|]. intros log [conf|e] _; [|done]. apply wp_bind.
    eapply wp_mono; [apply wp_True|]. intros log1 [[[[[data|]|] endpoint]|]|e] _; try done.
    cbn [wp]. destruct (DecodeString data) as [ca|e]; [|done]. intros cfg H. left.
    eapply bearer_verified; [|exact H]. done.
  - unfold gcpREST. destruct (cr_GCP ref) as [g|]; [|done]. case_if; [done|]. apply wp_bind.
    eapply wp_mono; [apply wp_True|]. intros log [ts|e] _; [|done]. apply wp_bind.
    eapply wp_mono; [apply wp_True|]. intros log1 [cl|e] _; [|done]. cbn [wp]. cbv zeta. case_if; [done|].
    destruct (DecodeString _) as [ca|e]; [|done]. intros cfg H. left. eapply bearer_verified; [|exact H]. done.
Qed.

(** A private cluster whose names Azure does not tell: the host comes from the
    kubeconfig, scheme included, and gets a second scheme. *)
Lemma two_schemes a cred raw kc cfg ca kubeHost :
  clientcmd_Load raw = Ok kc -> kubeconfigTLSFrom (Some kc) = (ca, kubeHost, true) -> kubeHost <> EmptyString ->
  RESTConfigFromKubeConfig raw = Ok cfg -> az_UsePrivateFQDN a = true ->
  aksConfig a cred (aks_host a None) raw = Ok (withHost cfg ("https://" +:+ kubeHost)).
Proof.
  intros Hl Hk Hne Hr Hp. unfold aksConfig. rewrite Hl, Hk, Hr, Hp. cbn [aks_host].
  apply String.eqb_neq in Hne. rewrite Hne, String.eqb_refl. cbn [negb andb]. by rewrite Hne.
Qed.
End verified.
