(* ===== verification/Retry.v ===== *)
(** * Reconcile results and retries: src/internal/controller/retry.go

    The result of a reconcile, and client-go's [retry.RetryOnConflict] as an
    interface: a bounded number of attempts, repeated while the answer is a
    conflict. *)

From Stdlib Require Import ZArith Lia.
From S2P Require Import Prelude GoStrings Effects Api Json Kube.

(** [ctrl.Result] and the error. *)
Record Result := mkResult { RequeueAfter : duration; res_err : option err }.
Definition done_result : Result := mkResult 0%Z None.

(** client.IgnoreNotFound. *)
Definition ignore_not_found (e : err) : Result :=
  mkResult 0%Z (if IsNotFound (Some e) then None else Some e).

Definition statusConflictRetry : duration := (10 * Second)%Z.

Definition retryLater (e : option err) : Result :=
  match e with
  | None => done_result
  | Some _ => mkResult statusConflictRetry None
  end.

(** [n] further attempts after the first. *)
Fixpoint retry_n {A} (n : nat) (fn : io ev (res A)) : io ev (res A) :=
  match n with
  | O => fn
  | S n' =>
      let* r := fn in
      match r with
      | Err e => if IsConflict (Some e) then retry_n n' fn else Ret r
      | Ok _ => Ret r
      end
  end.

Class Retry := {
  RetryOnConflict : forall {A}, io ev (res A) -> io ev (res A);
  RetryOnConflict_law {A} (fn : io ev (res A)) : exists n, RetryOnConflict fn = retry_n n fn }.

(** client-go's DefaultRetry makes five attempts. *)
#[export, refine] Instance default_retry : Retry := {
  RetryOnConflict A fn := retry_n 4 fn }.
Proof. eauto. Defined.

(** A status update: read the latest object, change it, write it. *)
Definition ok_or (e : option err) : res unit := match e with None => Ok tt | Some e => Err e end.

Section retry.
  Context {R : Retry}.

(** What every attempt establishes, the whole does; [I] holds between attempts. *)
Lemma wp_retry_in {T} (env : forall X, T -> ev X -> X -> T -> Prop) {A} (fn : io ev (res A))
    (I : T -> Prop) (Q : T -> res A -> Prop) s :
  I s -> (forall s, I s -> wp env fn s (fun s' r => Q s' r /\ (forall e, r = Err e -> I s'))) ->
  wp env (RetryOnConflict fn) s Q.
Proof.
  intros Hi Hfn. destruct (RetryOnConflict_law fn) as [n ->]. revert s Hi.
  induction n as [|n IH]; intros s Hi; cbn [retry_n].
  - eapply wp_mono; [by apply Hfn|]. by intros s' r [? _].
  - apply wp_bind. eapply wp_mono; [by apply Hfn|]. intros s' [a|e] [HQ HI]; [done|].
    case_if; [|done]. by apply IH, (HI e).
Qed.

Lemma wp_retry {A} (fn : io ev (res A)) (I : list (event ev) -> Prop) (Q : list (event ev) -> res A -> Prop) log :
  I log ->
  (forall log, I log -> wp any_env fn log (fun log' r => Q log' r /\ (forall e, r = Err e -> I log'))) ->
  wp any_env (RetryOnConflict fn) log Q.
Proof. apply wp_retry_in. Qed.

Lemma returns_retry {A} (P : res A -> Prop) (fn : io ev (res A)) : returns P fn -> returns P (RetryOnConflict fn).
Proof.
  intros Hfn. apply wp_retry_in with (I := fun _ => True); [done|]. intros [] _.
  eapply wp_mono; [exact Hfn|]. by intros [].
Qed.

(** An attempt that succeeds is the last. *)
Lemma live_retry {T} (env : forall X, T -> ev X -> X -> T -> Prop) {A} (fn : io ev (res A)) s (Q : T -> res A -> Prop) :
  live env fn s (fun s' x => exists a, x = Ok a /\ Q s' (Ok a)) -> live env (RetryOnConflict fn) s Q.
Proof.
  intros Hfn. destruct (RetryOnConflict_law fn) as [n ->]. destruct n as [|n]; cbn [retry_n].
  - eapply live_mono; [exact Hfn|]. by intros s' x (a & -> & H).
  - apply live_bind. eapply live_mono; [exact Hfn|]. by intros s' x (a & -> & H).
Qed.

(** What every attempt's calls satisfy, the whole does. *)
Lemma only_retry (Q : forall X, ev X -> Prop) {A} (fn : io ev (res A)) :
  only Q fn -> only Q (RetryOnConflict fn).
Proof.
  intros Hfn. destruct (RetryOnConflict_law fn) as [n ->]. induction n as [|n IH]; cbn [retry_n]; [done|].
  apply only_bind; [done|]. intros [a|e]; [done|]. by case_if.
Qed.
End retry.
