(* ===== verification/Metrics.v ===== *)
(** * Metrics: src/pkg/metrics/metrics.go

    The two series the controllers export, as the calls that change them. What
    a scrape shows is read off the log of these calls ([gauge], [counter]). *)

From Stdlib Require Import ZArith.
From S2P Require Import Prelude GoStrings Effects Api Kube.

(** The vectors, by their full names. *)
Definition BackupUseful : string := "portage_backup_useful".
Definition Actions : string := "portage_actions_total".

Definition ObservePolicy (policy namespace : string) (useful : bool) : io ev unit :=
  trigger (gaugeSet BackupUseful [policy; namespace] (if useful then 1 else 0)%Z).

Definition ObserveAction (typ phase : string) : io ev unit :=
  trigger (counterInc Actions [typ; phase]).

(** ** What a scrape shows after the calls of a log *)

Definition gauge_set (vec : string) (labels : list string) (e : event ev) : option Z :=
  match ev_call e with
  | gaugeSet vec' labels' v => if String.eqb vec' vec && bool_decide (labels' = labels) then Some v else None
  | _ => None
  end.
Definition counted (vec : string) (labels : list string) (e : event ev) : bool :=
  match ev_call e with
  | counterInc vec' labels' => String.eqb vec' vec && bool_decide (labels' = labels)
  | _ => false
  end.

Definition gauge (vec : string) (labels : list string) (log : list (event ev)) : option Z :=
  last (omap (gauge_set vec labels) log).
Definition counter (vec : string) (labels : list string) (log : list (event ev)) : nat :=
  length (List.filter (counted vec labels) log).

Lemma counter_app vec labels l1 l2 :
  counter vec labels (l1 ++ l2) = counter vec labels l1 + counter vec labels l2.
Proof. unfold counter. by rewrite List.filter_app, length_app. Qed.
