(* ===== verification/ActionFacts.v ===== *)
(** * The Action reconciler's helpers: src/internal/controller
    (action_controller.go and cluster_objects.go)

    The reconciler's clients, the clusters of a pair, the registry of movers,
    the object graph's capture, replication and restore, the dump annotation,
    and the writes of the Action's and the Policy's status. Library functions
    the reconciler's calls reach are the fields of the class [Library]. *)

From Stdlib Require Import ZArith Lia Ascii.
From S2P Require Import Prelude GoStrings Effects ObjectStore Api GoTime Json Kube Unstructured Classify Movers.
From S2P Require Import Workloads Transform Clusters Retry.
From S2P Require Metrics Backup Restore Heal Snapshots Graph Sync Volsync Postgres.

Class Library := {
  url_Parse : string -> option (string * string * string);
  MustParse : string -> option string;
  ParseGroupVersion : string -> res (string * string);
  gvr_String : GVR -> string;
  sha256 : string -> string;
  IsNoMatchError : err -> bool;
  yaml_documents : string -> list obj * option err;
  (** The text of encoding/json's error on bytes that do not decode. *)
  json_complaint : string -> string }.

(** [acr_Client] tells whether the hub client is set; [acr_Resolve] is the
    injected resolver and [acr_Now] the clock of tests, if any. *)
Record ActionReconciler := mkActionReconciler {
  acr_Client : bool;
  acr_Kube : option kube;
  acr_Dynamic : option dyn;
  acr_Exec : option execer;
  acr_Store : option store;
  acr_Resolve : option (option ClusterPair -> io ev (res Pair));
  acr_Now : option (io ev time) }.

Definition now_of (r : ActionReconciler) : io ev time :=
  match acr_Now r with Some f => f | None => trigger now end.

(** A method of a nil client panics. *)
Definition with_kube {A} (c : option kube) (f : kube -> io ev A) : io ev A :=
  match c with Some c => f c | None => panics "nil kubernetes.Interface" end.

(** ** The clusters *)

Definition dest_remote (pair : option ClusterPair) : bool :=
  match pair with Some p => HasRemoteAuth (cps_Destination (cp_Spec p)) | None => false end.
Definition src_name (pair : option ClusterPair) : string :=
  match pair with Some p => cr_Name (cps_Source (cp_Spec p)) | None => EmptyString end.
Definition dst_name (pair : option ClusterPair) : string :=
  match pair with Some p => cr_Name (cps_Destination (cp_Spec p)) | None => EmptyString end.

Definition local_endpoints (r : ActionReconciler) (pair : option ClusterPair) : Endpoints :=
  Local (if String.eqb (src_name pair) EmptyString then "local" else src_name pair)
    (acr_Kube r) (acr_Dynamic r) (acr_Exec r) None.

Definition with_source (e : Endpoints) (p : Pair) : Pair := mkPair e (pr_Dest p).
Definition with_dest (e : Endpoints) (p : Pair) : Pair := mkPair (pr_Source p) e.

Definition endpoints (r : ActionReconciler) (pair : option ClusterPair) : io ev (res Pair) :=
  let loc := local_endpoints r pair in
  let remoteDest := dest_remote pair in
  match acr_Resolve r with
  | Some resolve =>
      let* p := resolve pair in
      match p with
      | Err e => Ret (if remoteDest then Err (wrapf "resolve dest cluster: " e) else Ok (mkPair loc loc))
      | Ok p =>
          let p := match ep_Kube (pr_Source p) with None => with_source loc p | Some _ => p end in
          match ep_Kube (pr_Dest p) with
          | None =>
              if remoteDest
              then Ret (Err (errorf ("destination cluster " +:+ quoted (dst_name pair) +:+ " client is empty")))
              else Ret (Ok (with_dest (pr_Source p) p))
          | Some _ =>
              if remoteDest && bool_decide (ep_Kube (pr_Dest p) = ep_Kube (pr_Source p))
              then Ret (Err (errorf ("destination cluster " +:+ quoted (dst_name pair) +:+
                     " resolved to the source cluster; refusing to write dest CRs in-cluster")))
              else Ret (Ok p)
          end
      end
  | None =>
      Ret (if remoteDest then Err (errorf "clusterpair dest has remote auth but no resolver")
           else Ok (mkPair loc loc))
  end.

Definition loadPair (pol : Policy) : io ev (res (option ClusterPair)) :=
  let name := ps_ClusterPair (pol_Spec pol) in
  if String.eqb name EmptyString then Ret (Ok None)
  else
    let* p := trigger (hubGetPair name) in
    Ret (match p with
         | Ok p => Ok (Some p)
         | Err e => Err (wrapf ("clusterpair " +:+ name +:+ ": ") e)
         end).

Definition remotePair (ep : Pair) : bool :=
  match ep_Kube (pr_Source ep), ep_Kube (pr_Dest ep) with
  | Some s, Some d => negb (bool_decide (s = d))
  | _, _ => false
  end.

(** ** What a pair says *)

Definition transportOf (pair : option ClusterPair) : TransportType :=
  match pair with
  | None => TransportObjectStore
  | Some p => match cps_Transport (cp_Spec p) with
              | TransportOther "" => TransportObjectStore
              | t => t
              end
  end.

(** The first non-empty value in the order of the range loop. *)
Definition snapshotClassOf (pair : option ClusterPair) : io ev string :=
  match pair with
  | None => Ret EmptyString
  | Some p =>
      let* kvs := trigger (rangeOrder (default ∅ (cps_SnapshotClassMap (cp_Spec p)))) in
      Ret (match List.find (fun kv => negb (String.eqb (snd kv) EmptyString)) kvs with
           | Some kv => snd kv
           | None => EmptyString
           end)
  end.

Definition storageClassMapOf (pair : option ClusterPair) : strmap :=
  match pair with Some p => cps_StorageClassMap (cp_Spec p) | None => None end.

Definition destPath (pair : option ClusterPair) : string :=
  match pair with
  | Some p => match cr_ObjectStore (cps_Destination (cp_Spec p)) with
              | Some o => osr_URL o
              | None => EmptyString
              end
  | None => EmptyString
  end.

Definition destName (pair : option ClusterPair) : string :=
  if String.eqb (dst_name pair) EmptyString then "dest" else dst_name pair.

Definition transformOpt (pair : option ClusterPair) : Options :=
  match pair with
  | Some p => mkOptions (cps_StorageClassMap (cp_Spec p)) EmptyString (cps_RuntimeClassMap (cp_Spec p))
  | None => mkOptions None EmptyString None
  end.

Definition rehydrateOpts (pair : option ClusterPair) : Snapshots.RehydrateOptions :=
  Snapshots.mkRehydrate EmptyString true (transformOpt pair) "10Gi".

Definition moverOverride (pol : option Policy) (w : Workload) (op : string) : string :=
  match pol with
  | None => EmptyString
  | Some pol =>
      let n := map_get EmptyString (ps_MoverOverrides (pol_Spec pol)) (class_to_string (w_Class w)) in
      if negb (String.eqb n EmptyString) then n
      else if String.eqb op "backup" then bs_Mover (ps_Backup (pol_Spec pol))
      else if String.eqb op "restore" then rts_Mover (ps_Restore (pol_Spec pol))
      else if String.eqb op "replicate" then rs_Mover (ps_Replicate (pol_Spec pol))
      else EmptyString
  end.

Definition replicate_floor : duration := (5 * Second)%Z.

Definition replicateRequeue (pol : option Policy) : duration :=
  match pol with
  | None => replicate_floor
  | Some pol =>
      let rpo := rs_RPO (ps_Replicate (pol_Spec pol)) in
      if String.eqb rpo EmptyString then replicate_floor
      else
        match ParseDuration rpo with
        | None => replicate_floor
        | Some d =>
            if (d <=? 0)%Z then replicate_floor
            else if (d <? replicate_floor)%Z then d
            else if (15 * Second <? d)%Z then (15 * Second)%Z
            else d
        end
  end.

(** ** The dump annotation *)

Definition dumpAppliedAnnotation : string := "portage.io/dump-applied".

Definition dumpApplied (anns : gmap string string) (key : string) : bool :=
  if String.eqb key EmptyString then false
  else existsb (fun line => String.eqb line key)
         (Split newline (map_get EmptyString anns dumpAppliedAnnotation)).

Definition with_act_annotations (m : gmap string string) (a : Action) : Action :=
  mkAction (act_Name a) (act_Namespace a) (act_Labels a) m (act_ResourceVersion a)
    (act_Generation a) (act_Spec a) (act_Status a).
Definition with_act_version (rv : string) (a : Action) : Action :=
  mkAction (act_Name a) (act_Namespace a) (act_Labels a) (act_Annotations a) rv
    (act_Generation a) (act_Spec a) (act_Status a).
Definition with_act_status (st : ActionStatus) (a : Action) : Action :=
  mkAction (act_Name a) (act_Namespace a) (act_Labels a) (act_Annotations a) (act_ResourceVersion a)
    (act_Generation a) (act_Spec a) st.

Definition note_dump (anns : gmap string string) (key : string) : gmap string string :=
  let cur := map_get EmptyString anns dumpAppliedAnnotation in
  <[dumpAppliedAnnotation := if String.eqb cur EmptyString then key else cur +:+ nl +:+ key]> anns.

(** The Action with the version and the dump annotation of [latest]. *)
Definition take_dump (rv : string) (latest : gmap string string) (act : Action) : Action :=
  with_act_version rv (with_act_annotations
    (<[dumpAppliedAnnotation := map_get EmptyString latest dumpAppliedAnnotation]> (act_Annotations act)) act).

Section retried.
  Context {R : Retry}.

Definition rememberDumpApplied (act : Action) (key : string) : io ev (res Action) :=
  RetryOnConflict (
    let* latest := trigger (hubGetAction (act_Namespace act) (act_Name act)) in
    match latest with
    | Err e => Ret (Err e)
    | Ok latest =>
        if dumpApplied (act_Annotations latest) key
        then Ret (Ok (take_dump (act_ResourceVersion latest) (act_Annotations latest) act))
        else
          let anns := note_dump (act_Annotations latest) key in
          let* rv := trigger (hubUpdateAction (with_act_annotations anns latest)) in
          Ret (res_map (fun rv => take_dump rv anns act) rv)
    end).

(** ** Status writes *)

(** The Action's desired status onto the latest object; the new version. *)
Definition writeStatus (act : Action) : io ev (res Action) :=
  RetryOnConflict (
    let* latest := trigger (hubGetAction (act_Namespace act) (act_Name act)) in
    match latest with
    | Err e => Ret (Err e)
    | Ok latest =>
        let* rv := trigger (hubUpdateActionStatus (with_act_status (act_Status act) latest)) in
        Ret (res_map (fun rv => with_act_version rv act) rv)
    end).

Definition fail (r : ActionReconciler) (act : Action) (msg : string) : io ev Retry.Result :=
  let* t := now_of r in
  let* e := writeStatus (with_act_status
              (Restore.with_phase ActionPhaseFailed msg (Some t) (act_Status act)) act) in
  Ret (match e with Err e => retryLater (Some e) | Ok _ => done_result end).

(** The Policy's artifacts and what follows from them. *)
Definition artifacts_status (inv : Inventory) (arts : list ArtifactHealth) (st : PolicyStatus) : PolicyStatus :=
  let '(ok, missing) := Backup.Healthy inv arts in
  let '(phase, msg) :=
    if negb ok
    then (PolicyUnhealthy, match missing with m :: _ => "backup not useful: " +:+ m | [] => pst_Message st end)
    else if bool_decide (pst_Phase st = PolicyUnhealthy)
    then (PolicyHealthy, "all stateful artifacts useful"%string)
    else (pst_Phase st, pst_Message st) in
  mkPolicyStatus phase msg (pst_Inventory st) arts ok (pst_ReplicaLag st) (pst_ObservedGeneration st).

Definition with_policy_status (st : PolicyStatus) (p : Policy) : Policy :=
  mkPolicy (pol_Name p) (pol_Namespace p) (pol_Generation p) (pol_Spec p) st.

Definition writePolicyArtifacts (pol : Policy) (inv : Inventory) (arts : list ArtifactHealth)
    : io ev (option err) :=
  let* r := RetryOnConflict (
    let* latest := trigger (hubGetPolicy (pol_Namespace pol) (pol_Name pol)) in
    match latest with
    | Err e => Ret (Err e)
    | Ok latest =>
        Metrics.ObservePolicy (pol_Name latest) (pol_Namespace latest) (fst (Backup.Healthy inv arts)) ;;;
        let* e := trigger (hubUpdatePolicyStatus
                    (with_policy_status (artifacts_status inv arts (pol_Status latest)) latest)) in
        Ret (ok_or e)
    end) in
  Ret (err_of r).
End retried.

(** ** Failures that can clear *)

Definition restoreRetryable (msg : string) : bool :=
  if String.eqb msg EmptyString then false
  else
    let lower := ToLower msg in
    if existsb (Contains lower)
         ["preflight:"; "no restorable"; "no workloads"; "unsupported action";
          "spec.policyref"; "policy:"; "dry-run"]%string then false
    else
      Contains msg "dest apply:" || Contains lower "not found" || Contains lower "non-owned tenant" ||
      Contains lower "admission webhook" || Contains lower "the object has been modified".

(** ** Stores, movers and healing *)

Section helpers.
  Context {U : Unstructured} {L : Library} (Catalog : list Engine).

Definition store_of (r : ActionReconciler) : io ev store :=
  match acr_Store r with
  | Some s => Ret s
  | None => FromEnv url_Parse getenv newMemory loadAWSConfig
  end.

Definition some_dyn (a b : option dyn) : option dyn := match a with Some _ => a | None => b end.

Definition plugin_movers (plugins : list Plugin) : list Mover :=
  List.map Webhook.mover (List.filter (fun p =>
    negb (String.eqb (pls_WebhookURL (plg_Spec p)) EmptyString) &&
    match pls_Type (plg_Spec p) with PluginMover | PluginTypeOther "" => true | _ => false end) plugins).

Definition registerPlugins (r : ActionReconciler) (reg : Registry) : io ev Registry :=
  if negb (acr_Client r) then Ret reg
  else
    let* l := trigger hubListPlugins in
    Ret (match l with
         | Err _ => reg
         | Ok l => fold_left Registry.Register (plugin_movers l) reg
         end).

Definition postgres_mover (ep : Pair) : Postgres.PostgresMover :=
  Postgres.mkPostgres (ep_Kube (pr_Source ep)) (ep_Kube (pr_Dest ep)) (ep_Exec (pr_Dest ep)).

Definition registry (r : ActionReconciler) (pair : option ClusterPair) (ep : Pair) : io ev Registry :=
  let reg := Registry.Register NewRegistry (Postgres.mover (postgres_mover ep)) in
  let t := transportOf pair in
  let path := destPath pair in
  let dyn := some_dyn (ep_Dynamic (pr_Source ep)) (acr_Dynamic r) in
  let destDyn := match ep_Dynamic (pr_Dest ep) with
                 | Some d => Some d
                 | None => if remotePair ep then None else dyn
                 end in
  let* creds := CredsFromEnv url_Parse getenv in
  let* snapClass := snapshotClassOf pair in
  let* schedule := trigger (getenv "PORTAGE_VOLSYNC_SCHEDULE"%string) in
  let vs transport object_mover := Volsync.mkVolsync dyn destDyn
      (ep_Kube (pr_Source ep)) (ep_Kube (pr_Dest ep)) transport path schedule creds EmptyString
      snapClass object_mover (storageClassMapOf pair) in
  let reg := Registry.Register reg (Volsync.mover Catalog url_Parse (vs t EmptyString)) in
  let reg := if bool_decide (t = TransportObjectStore)
             then Registry.Register reg (Volsync.mover Catalog url_Parse (vs TransportObjectStore "rclone"%string))
             else reg in
  registerPlugins r reg.

(** healWorkloadOn: the names of the healers that changed the template; the
    answer of the update is dropped. *)
Definition healWorkloadOn (c : option kube) (w : Workload) : io ev (list string) :=
  match c with
  | None => Ret []
  | Some c =>
      let heal k (template : kobj k -> PodSpec) (with_template : PodSpec -> kobj k -> kobj k) :=
        let* o := trigger (kGet c k (w_Namespace w) (w_Name w)) in
        match o with
        | Err _ => Ret []
        | Ok o =>
            let '(p, names) := Heal.heal_PodSpec Catalog (template o) in
            match names with
            | [] => Ret []
            | _ => let* _ := trigger (kUpdate c k (w_Namespace w) (with_template p o)) in Ret names
            end
        end in
      if String.eqb (w_Kind w) "StatefulSet" then heal KStatefulSet sts_Template sts_with_template
      else if String.eqb (w_Kind w) "Deployment" then heal KDeployment dep_Template dep_with_template
      else Ret []
  end.

Definition pruneVolSync (pol : option Policy) (ep : Pair) (inv : Inventory) : io ev unit :=
  match ep_Dynamic (pr_Source ep) with
  | None => Ret tt
  | Some _ =>
      let m := Volsync.mkVolsync (ep_Dynamic (pr_Source ep)) (ep_Dynamic (pr_Dest ep))
                 (ep_Kube (pr_Source ep)) (ep_Kube (pr_Dest ep)) (TransportOther EmptyString)
                 EmptyString EmptyString Volsync.no_creds EmptyString EmptyString EmptyString None in
      let nss := match pol with
                 | None => Namespaces [] EmptyString
                 | Some pol => Namespaces (ps_SelectorNamespaces (pol_Spec pol)) (pol_Namespace pol)
                 end in
      foldM (fun _ ns =>
        let keep : gset string := list_to_set (List.map w_Name (List.filter (fun w =>
          String.eqb (w_Namespace w) ns && negb (bool_decide (w_PVCNames w = []))) (inv_Workloads inv))) in
        let* _ := Volsync.Prune IsNoMatchError m ns keep in Ret tt) tt nss
  end.

(** ** cluster_objects.go *)

Definition dynOf (ep : Endpoints) (fallback : option dyn) : option dyn := some_dyn (ep_Dynamic ep) fallback.

Definition destDynamic (ep : Pair) (fallback : option dyn) : res (option dyn) :=
  match ep_Dynamic (pr_Dest ep) with
  | Some d => Ok (Some d)
  | None =>
      if remotePair ep then Err (errorf "clusterobjects: dest dynamic client required")
      else Ok (some_dyn fallback (ep_Dynamic (pr_Source ep)))
  end.

Definition listClusterObjects (r : ActionReconciler) (pol : Policy) (src : Endpoints)
    : io ev (res (list Graph.Item)) :=
  let c := match ep_Kube src with Some c => Some c | None => acr_Kube r end in
  match c, dynOf src (acr_Dynamic r) with
  | Some c, Some d =>
      Graph.Capture ParseGroupVersion gvr_String Catalog c (Some d) (ps_ClusterObjects (pol_Spec pol))
        (Namespaces (ps_SelectorNamespaces (pol_Spec pol)) (pol_Namespace pol)) (mkOptions None EmptyString None)
  | _, _ => Ret (Err (errorf "clusterobjects: kube and dynamic clients required"))
  end.

(** The identifier, the size, the verdict and the message. *)
Definition captureClusterObjects (r : ActionReconciler) (pol : Policy) (pair : option ClusterPair)
    (ep : Pair) (w : Workload) : io ev (res (string * Z * bool * string)) :=
  let* items := listClusterObjects r pol (pr_Source ep) in
  match items with
  | Err e => Ret (Err e)
  | Ok items =>
      let items := Graph.Sanitize Catalog items (transformOpt pair) in
      match Graph.Marshal items with
      | Err e => Ret (Err e)
      | Ok raw =>
          let* t := now_of r in
          let id := ObjectStore.Key (w_Namespace w) (WKey w) ("objects-" +:+ FormatStamp t) in
          let* s := store_of r in
          let* e := trigger (storePut s id raw) in
          Ret (match e with
               | Some e => Err e
               | None => Ok (id, str_len raw, true, Itoa (Z.of_nat (length items)) +:+ " objects snapshot")
               end)
      end
  end.

(** Syncing sanitized items and reading back what is there. *)
Definition sync_items (r : ActionReconciler) (pair : option ClusterPair) (ep : Pair)
    (items : list Graph.Item) : io ev (res (bool * string)) :=
  let items := Graph.Sanitize Catalog items (transformOpt pair) in
  match destDynamic ep (acr_Dynamic r) with
  | Err e => Ret (Err e)
  | Ok dest =>
      let* e := Sync.Sync sha256 dest items in
      match e with
      | Some e => Ret (Err e)
      | None => let* a := Sync.Attest dest items in Ret (Ok a)
      end
  end.

Definition syncClusterObjectsLive (r : ActionReconciler) (pol : Policy) (pair : option ClusterPair)
    (ep : Pair) : io ev (res (bool * string)) :=
  let* items := listClusterObjects r pol (pr_Source ep) in
  match items with
  | Err e => Ret (Err e)
  | Ok items => sync_items r pair ep items
  end.

Definition restoreClusterObjects (r : ActionReconciler) (pair : option ClusterPair) (ep : Pair)
    (artifactID : string) : io ev (res (bool * string)) :=
  let* s := store_of r in
  let* raw := trigger (storeGet s artifactID) in
  match raw with
  | Err e => Ret (Err e)
  | Ok raw =>
      match Graph.Unmarshal json_complaint raw with
      | Err e => Ret (Err e)
      | Ok items => sync_items r pair ep items
      end
  end.
End helpers.

(** ** The dump annotation holds a set of keys *)

Lemma note_dump_applied anns k : k <> EmptyString -> in_cutset k newline = false ->
  dumpApplied (note_dump anns k) k = true.
Proof.
  intros Hk Hn. unfold dumpApplied, note_dump, map_get. destruct (String.eqb_spec k EmptyString); [done|].
  rewrite lookup_insert_eq. cbn [default id]. apply existsb_exists. exists k. rewrite String.eqb_refl. split; [|done].
  case_if; [rewrite Split_no_sep by done; by left|]. change (nl +:+ k) with (String newline k). rewrite Split_app.
  apply in_or_app. right. rewrite Split_no_sep by done. by left.
Qed.

Lemma note_dump_keeps anns k k' : dumpApplied anns k' = true -> dumpApplied (note_dump anns k) k' = true.
Proof.
  unfold dumpApplied, note_dump, map_get. destruct (String.eqb_spec k' EmptyString); [done|].
  rewrite lookup_insert_eq. cbn [default id]. rewrite !existsb_exists. intros (l & Hl & He). exists l. split; [|done].
  case_if.
  - boolify. rewrite Heqb in Hl. destruct Hl as [<-|[]]. boolify. congruence.
  - change (nl +:+ k) with (String newline k). rewrite Split_app. apply in_or_app. by left.
Qed.

Lemma take_dump_applied rv anns act k : dumpApplied (act_Annotations (take_dump rv anns act)) k = dumpApplied anns k.
Proof. unfold dumpApplied, take_dump, map_get. cbn. by rewrite lookup_insert_eq. Qed.

(** The hub has the key on the Action: it answered so, or it took the update
    of what it had answered. *)
Definition recorded (act : Action) (k : string) (log : list (event ev)) : Prop :=
  exists latest, mkEvent (hubGetAction (act_Namespace act) (act_Name act)) (Ok latest) ∈ log /\
    (dumpApplied (act_Annotations latest) k = true \/
     exists rv, mkEvent (hubUpdateAction
       (with_act_annotations (note_dump (act_Annotations latest) k) latest)) (Ok rv) ∈ log).

Lemma rememberDumpApplied_wp {R : Retry} act k log : k <> EmptyString -> in_cutset k newline = false ->
  wp any_env (rememberDumpApplied act k) log (fun log' x =>
    match x with
    | Ok act' => dumpApplied (act_Annotations act') k = true /\ recorded act k log'
    | Err _ => True
    end).
Proof.
  intros Hk Hn. apply wp_retry with (I := fun _ => True); [done|]. clear log. intros log _.
  wp_call latest. destruct latest as [latest|e]; [|done]. case_if.
  - split; [|done]. rewrite take_dump_applied. split; [done|]. exists latest. split; [set_solver|by left].
  - wp_call rv. destruct rv as [rv|e]; [|done]. cbn [wp res_map]. split; [|done]. rewrite take_dump_applied.
    split; [by apply note_dump_applied|]. exists latest. split; [set_solver|]. right. exists rv. set_solver.
Qed.

(** ** Properties *)

(** the poll interval of live replication is positive and at most 15
    seconds: the recovery point objective when it is a positive duration below
    that, 15 seconds when it is longer, and 5 seconds when it is absent, does
    not parse or is not positive; the 5 seconds are no lower bound. *)
Theorem replicateRequeue_bounds pol :
  (0 < replicateRequeue pol <= 15 * Second)%Z /\
  (forall p d, pol = Some p -> ParseDuration (rs_RPO (ps_Replicate (pol_Spec p))) = Some d -> (0 < d)%Z ->
     rs_RPO (ps_Replicate (pol_Spec p)) <> EmptyString -> replicateRequeue pol = Z.min d (15 * Second)%Z) /\
  ((forall p d, pol = Some p -> ParseDuration (rs_RPO (ps_Replicate (pol_Spec p))) = Some d -> (d <= 0)%Z) ->
     replicateRequeue pol = replicate_floor).
Proof.
  unfold replicateRequeue, replicate_floor. destruct pol as [pol|]; [|by split_and!].
  destruct (String.eqb_spec (rs_RPO (ps_Replicate (pol_Spec pol))) EmptyString) as [E|E].
  { split_and!; [done..|intros p d [= <-]; congruence|done]. }
  destruct (ParseDuration _) as [d|] eqn:Ed; [|split_and!; [done..|intros p d [= <-]; congruence|done]].
  unfold Second in *. destruct (Z.leb_spec d 0).
  { split_and!; [done..| |done]. intros p d' [= <-] Hd. rewrite Ed in Hd. injection Hd as <-. lia. }
  repeat case_if; boolify; split_and!; try lia;
    try (intros p d' [= <-] Hd; rewrite Ed in Hd; injection Hd as <-; lia);
    intros Hn; specialize (Hn pol d eq_refl Ed); lia.
Qed.

(** Functions a witness can be evaluated with. *)
Definition some_library : Library := {|
  url_Parse := fun _ => None; MustParse := Some; ParseGroupVersion := fun s => Ok (EmptyString, s);
  gvr_String := gvr_Resource; sha256 := fun s => s; IsNoMatchError := fun _ => false;
  yaml_documents := fun _ => ([], None); json_complaint := fun _ => EmptyString |}.
