(* ===== verification/ActionRun.v ===== *)
(** * The four kinds of Action: src/internal/controller/action_controller.go

    [runBackup], [runRestore], [runReplicate] and [runCutover]: from the
    inventory of the source and the clusters of the pair to the result the
    reconciler records. Each collects facts workload by workload and hands
    them to its state machine (Backup.v, Restore.v, Cutover.v). *)

From Stdlib Require Import ZArith Lia.
From S2P Require Import Prelude GoStrings Effects ObjectStore Api GoTime Json Kube Unstructured Classify Movers.
From S2P Require Import Workloads Transform Clusters Retry ActionFacts.
From S2P Require Backup Restore Cutover Usefulness Probe Dump Snapshots Graph Volsync Postgres Traffic Export Render.

Section run.
  Context {U : Unstructured} {C : Export.Converter} {L : Library} {R : Retry} (Catalog : list Engine).
  Context (r : ActionReconciler).

(** The last artifact of each key. *)
Definition artifacts_by_key (pol : Policy) : gmap string ArtifactHealth :=
  index_by ah_Workload (pst_Artifacts (pol_Status pol)).

(** ** runBackup *)

Definition artifact_of (w : Workload) (a : Artifact) : ArtifactHealth :=
  Backup.FromArtifact w (art_Useful a) (art_SizeBytes a) (art_Message a) (art_ID a).
Definition failed_artifact (w : Workload) (msg : string) : ArtifactHealth :=
  Backup.FromArtifact w false 0 msg EmptyString.

Definition backup_graph (pol : Policy) (pair : option ClusterPair) (ep : Pair) (w : Workload)
    : io ev ArtifactHealth :=
  let* c := captureClusterObjects Catalog r pol pair ep w in
  Ret (match c with
       | Err e => failed_artifact w ("cluster-objects: " +:+ err_msg e)
       | Ok (key, n, usefulDump, msg) =>
           let a := Usefulness.ForWorkload w (Usefulness.mkInput (ClassOther EmptyString) EmptyString n
                      [Usefulness.mkFile "objects.json" n] false false) in
           Backup.FromArtifact w (art_Useful a && usefulDump) (art_SizeBytes a)
             (if String.eqb msg EmptyString then art_Message a else msg) key
       end).

(** The artifact of a mover's backup. *)
Definition backup_by (m : Mover) (pair : option ClusterPair) (w : Workload) : io ev ArtifactHealth :=
  let* ' (art, e) := mv_Backup m w (mkHandle (destName pair) EmptyString) in
  Ret (match e with Some e => failed_artifact w (err_msg e) | None => artifact_of w art end).

(** The size, its message and the identifier; [Err] is the dump's failure. *)
Definition backup_size (ep : Pair) (w : Workload) : io ev (res (Z * string * string)) :=
  match Dump.Command (w_Engine w) with
  | _ :: _ =>
      let* s := store_of r in
      let* t := now_of r in
      with_kube (ep_Kube (pr_Source ep)) (fun c =>
        let* ' (key, n, useful, e) := Dump.Capture c (ep_Exec (pr_Source ep)) (Some s) w t in
        Ret (match e with
             | Some e => Err e
             | None => Ok (n, if useful : bool then "object-store dump " +:+ key else EmptyString, key)
             end))
  | [] =>
      match ep_Exec (pr_Source ep) with
      | None => Ret (Ok (0%Z, EmptyString, EmptyString))
      | Some x =>
          with_kube (ep_Kube (pr_Source ep)) (fun c =>
            let* ' (n, msg, e) := Probe.LiveBytes c (Some x) w in
            Ret (Ok (match e with Some e => (0%Z, err_msg e, EmptyString) | None => (n, msg, EmptyString) end)))
      end
  end.

(** Snapshot, then dump or measure, then judge. *)
Definition backup_data (ep : Pair) (w : Workload) : io ev ArtifactHealth :=
  let snaps := ep_Dynamic (pr_Source ep) in
  let* t := now_of r in
  let* _ := Snapshots.CreateForWorkload snaps w EmptyString t in
  let* ' (ready, snapName, _) := Snapshots.LatestReady snaps w in
  let* size := backup_size ep w in
  Ret (match size with
       | Err e => failed_artifact w ("dump: " +:+ err_msg e)
       | Ok (size, sizeMsg, id) =>
           let files := if String.eqb id EmptyString then [] else [Usefulness.mkFile "dump.sql" size] in
           let a := Usefulness.ForWorkload w (Usefulness.mkInput (ClassOther EmptyString) EmptyString size files
                      ready (negb (String.eqb snapName EmptyString))) in
           Backup.FromArtifact w (art_Useful a) (art_SizeBytes a)
             (if String.eqb (art_Message a) EmptyString then sizeMsg else art_Message a) id
       end).

(** Without a dump command a mover that can back up goes first. *)
Definition backup_auto (reg : Registry) (pair : option ClusterPair) (ep : Pair) (w : Workload)
    : io ev ArtifactHealth :=
  match Dump.Command (w_Engine w) with
  | [] =>
      let* ' (m, cap, e) := Registry.Select reg w EmptyString in
      match e, m with
      | None, Some m => if cap_Backup cap then backup_by m pair w else backup_data ep w
      | _, _ => backup_data ep w
      end
  | _ => backup_data ep w
  end.

Definition backup_one (pol : Policy) (pair : option ClusterPair) (ep : Pair) (reg : Registry)
    (arts : list ArtifactHealth) (w : Workload) : io ev (list ArtifactHealth) :=
  if bool_decide (w_Class w = ClassStateless) then Ret arts
  else
    let* a :=
      if Graph.Is w then backup_graph pol pair ep w
      else
        let name := moverOverride (Some pol) w "backup" in
        if String.eqb name EmptyString then backup_auto reg pair ep w
        else
          let* ' (m, cap, e) := Registry.Select reg w name in
          match e, m with
          | Some e, _ => Ret (failed_artifact w (err_msg e))
          | None, Some m => if cap_Backup cap then backup_by m pair w else backup_auto reg pair ep w
          | None, None => backup_auto reg pair ep w
          end in
    Ret (arts ++ [a]).

(** Still uploading: not a verdict yet. *)
Definition awaiting (a : ArtifactHealth) : bool :=
  Contains (ah_Message a) "waiting for lastSyncTime" || Contains (ah_Message a) "waiting for ReplicationSource".

Definition restore_result (b : Backup.Result) : Restore.Result :=
  Restore.mkResult (Backup.r_Phase b) (Backup.r_Message b) (Backup.r_Workloads b) (Backup.r_Attestation b)
    0%Z (Backup.r_Terminal b).

Definition runBackup (pol : Policy) (pair : option ClusterPair) (ep : Pair) (inv : Inventory)
    : io ev (res Restore.Result) :=
  let* reg := registry Catalog r pair ep in
  let* arts := foldM (backup_one pol pair ep reg) [] (inv_Workloads inv) in
  let* e := writePolicyArtifacts pol inv arts in
  match e with
  | Some e => Ret (Err e)
  | None =>
      let* t := now_of r in
      let br := Backup.Advance zero_ActionStatus (Backup.mkFacts (inv_Workloads inv) arts t) in
      Ret (Ok (match List.find awaiting arts with
               | Some a => Restore.requeue ActionPhaseCatchingUp (ah_Workload a +:+ ": " +:+ ah_Message a)
                             (Backup.r_Workloads br) (15 * Second)%Z
               | None => restore_result br
               end))
  end.

(** ** runRestore *)

(** The facts a pass collects, and the Action's annotations. *)
Record RestoreFacts := mkRestoreFacts {
  rf_Useful : gmap string bool;
  rf_Message : gmap string string;
  rf_Rehydrated : gmap string bool;
  rf_Ready : gmap string bool;
  rf_Probes : gmap string ProbeResult;
  rf_Healed : gmap string (list string);
  rf_Act : Action }.

Definition no_facts (act : Action) : RestoreFacts := mkRestoreFacts ∅ ∅ ∅ ∅ ∅ ∅ act.

Definition set_useful (k : string) (b : bool) (f : RestoreFacts) : RestoreFacts :=
  mkRestoreFacts (<[k := b]> (rf_Useful f)) (rf_Message f) (rf_Rehydrated f) (rf_Ready f) (rf_Probes f) (rf_Healed f) (rf_Act f).
Definition set_message (k m : string) (f : RestoreFacts) : RestoreFacts :=
  mkRestoreFacts (rf_Useful f) (<[k := m]> (rf_Message f)) (rf_Rehydrated f) (rf_Ready f) (rf_Probes f) (rf_Healed f) (rf_Act f).
Definition set_rehydrated (k : string) (b : bool) (f : RestoreFacts) : RestoreFacts :=
  mkRestoreFacts (rf_Useful f) (rf_Message f) (<[k := b]> (rf_Rehydrated f)) (rf_Ready f) (rf_Probes f) (rf_Healed f) (rf_Act f).
Definition set_ready (k : string) (b : bool) (f : RestoreFacts) : RestoreFacts :=
  mkRestoreFacts (rf_Useful f) (rf_Message f) (rf_Rehydrated f) (<[k := b]> (rf_Ready f)) (rf_Probes f) (rf_Healed f) (rf_Act f).
Definition set_probe (k : string) (p : ProbeResult) (f : RestoreFacts) : RestoreFacts :=
  mkRestoreFacts (rf_Useful f) (rf_Message f) (rf_Rehydrated f) (rf_Ready f) (<[k := p]> (rf_Probes f)) (rf_Healed f) (rf_Act f).
Definition add_healed (k : string) (h : list string) (f : RestoreFacts) : RestoreFacts :=
  mkRestoreFacts (rf_Useful f) (rf_Message f) (rf_Rehydrated f) (rf_Ready f) (rf_Probes f)
    (<[k := map_get [] (rf_Healed f) k ++ h]> (rf_Healed f)) (rf_Act f).
Definition set_act (a : Action) (f : RestoreFacts) : RestoreFacts :=
  mkRestoreFacts (rf_Useful f) (rf_Message f) (rf_Rehydrated f) (rf_Ready f) (rf_Probes f) (rf_Healed f) a.

(** The failure of a workload: not rehydrated, with a message. *)
Definition not_rehydrated (k m : string) (f : RestoreFacts) : RestoreFacts :=
  set_message k m (set_rehydrated k false f).

Definition restore_stateless (ep : Pair) (k : string) (w : Workload) (f : RestoreFacts) : io ev RestoreFacts :=
  let f := set_rehydrated k true (set_useful k true f) in
  match ep_Kube (pr_Dest ep) with
  | None => Ret (set_message k "dest client required" (set_ready k false f))
  | Some c =>
      let* ' (ready, e) := Ready c w in
      Ret (match e with
           | Some e => set_message k (err_msg e) (set_ready k false f)
           | None => set_message k (if ready : bool then "dest Ready" else "dest not Ready") (set_ready k ready f)
           end)
  end.

Definition restore_skipped (k : string) (f : RestoreFacts) : RestoreFacts :=
  let msg := map_get EmptyString (rf_Message f) k in
  let msg := if String.eqb msg EmptyString then "no useful artifact"%string else msg in
  let msg := if HasPrefix msg "skipped:" then msg else "skipped: " +:+ msg in
  set_rehydrated k true (set_message k msg f).

Definition restore_graph (pair : option ClusterPair) (ep : Pair) (k : string) (a : option ArtifactHealth)
    (f : RestoreFacts) : io ev RestoreFacts :=
  match a with
  | Some a =>
      if ah_Useful a && negb (String.eqb (ah_ArtifactID a) EmptyString) then
        let* x := restoreClusterObjects Catalog r pair ep (ah_ArtifactID a) in
        Ret (match x with
             | Err e => not_rehydrated k (err_msg e) f
             | Ok (ok, msg) =>
                 let f := set_probe k (mkProbe ok msg) (set_ready k ok (set_rehydrated k true f)) in
                 if ok then f else set_message k msg f
             end)
      else Ret f
  | None => Ret f
  end.

(** Healing, readiness and the probe, on the destination. *)
Definition heal_on_dest (ep : Pair) (k : string) (w : Workload) (f : RestoreFacts) : io ev RestoreFacts :=
  let* names := healWorkloadOn Catalog (ep_Kube (pr_Dest ep)) w in
  Ret (match names with [] => f | _ => add_healed k names f end).

Definition probe_on_dest (c : kube) (ep : Pair) (k : string) (w : Workload) (ready : bool) (f : RestoreFacts)
    : io ev RestoreFacts :=
  match ep_Exec (pr_Dest ep) with
  | Some x => if ready then let* p := Probe.Run c (Some x) w in Ret (set_probe k p f) else Ret f
  | None => Ret f
  end.

Definition restore_by (m : Mover) (name : string) (pair : option ClusterPair) (ep : Pair) (k : string)
    (a : option ArtifactHealth) (w : Workload) (f : RestoreFacts) : io ev RestoreFacts :=
  let a := default (mkArtifactHealth EmptyString false 0 EmptyString None EmptyString) a in
  let* e := mv_Restore m w (mkArtifact (ah_ArtifactID a) name (ah_SizeBytes a) (ah_Useful a) EmptyString)
              (mkHandle (destName pair) EmptyString) in
  match e with
  | Some e => Ret (not_rehydrated k (err_msg e) f)
  | None =>
      let* f := heal_on_dest ep k w (set_rehydrated k true f) in
      with_kube (ep_Kube (pr_Dest ep)) (fun c =>
        let* ' (ready, _) := Ready c w in
        probe_on_dest c ep k w ready (set_ready k ready f))
  end.

(** One claim from its snapshot; an error does not count when the artifact is
    useful. *)
Definition restore_claim (pair : option ClusterPair) (ep : Pair) (k : string) (useful : bool) (w : Workload)
    (st : RestoreFacts * bool) (pvcName : string) : io ev (RestoreFacts * bool) :=
  let '(f, rehydrated) := st in
  let* ' (did, healed, e) := Snapshots.EnsurePVCFromSnapshot MustParse (ep_Dynamic (pr_Dest ep))
                               (ep_Kube (pr_Dest ep)) w pvcName (rehydrateOpts pair) in
  let f := add_healed k healed f in
  Ret (match e with
       | Some e => if useful then (f, rehydrated) else (set_message k (err_msg e) f, false)
       | None => (f, if did : bool then rehydrated else false)
       end).

(** The dump of a workload, unless it was replayed before. [inr] ends the pass. *)
Definition replay_dump (ep : Pair) (k id : string) (w : Workload) (f : RestoreFacts) (rehydrated : bool)
    : io ev ((RestoreFacts * bool) + err) :=
  if dumpApplied (act_Annotations (rf_Act f)) k then Ret (inl (f, rehydrated))
  else
    with_kube (ep_Kube (pr_Dest ep)) (fun c =>
      let* ' (ready, _) := Ready c w in
      if negb ready then Ret (inl (f, false))
      else
        let* s := store_of r in
        let* e := Dump.Apply c (ep_Exec (pr_Dest ep)) (Some s) w id in
        match e with
        | Some e => Ret (inl (set_message k (err_msg e) f, false))
        | None =>
            let* a := rememberDumpApplied (rf_Act f) k in
            Ret (match a with Err e => inr e | Ok a => inl (set_act a f, rehydrated) end)
        end).

(** The phases in which the dump was already replayed. *)
Definition past_replay (p : ActionPhase) : bool :=
  match p with
  | ActionPhaseWaitingReady | ActionPhaseHealing | ActionPhaseAttesting => true
  | _ => false
  end.

Definition has_dump (a : option ArtifactHealth) : bool :=
  match a with
  | Some a => ah_Useful a && negb (String.eqb (ah_ArtifactID a) EmptyString)
  | None => false
  end.

Definition restore_data (pair : option ClusterPair) (ep : Pair) (phase : ActionPhase) (k : string)
    (a : option ArtifactHealth) (w : Workload) (f : RestoreFacts) : io ev (RestoreFacts + err) :=
  let useful := match a with Some a => ah_Useful a | None => false end in
  let* ' (f, rehydrated) := foldM (restore_claim pair ep k useful w) (f, true) (w_PVCNames w) in
  let* x :=
    if has_dump a then
      if past_replay phase then Ret (inl (f, rehydrated))
      else replay_dump ep k (match a with Some a => ah_ArtifactID a | None => EmptyString end) w f rehydrated
    else Ret (inl (f, match w_PVCNames w with [] => rehydrated || useful | _ => rehydrated end)) in
  match x with
  | inr e => Ret (inr e)
  | inl (f, rehydrated) =>
      let* f := heal_on_dest ep k w (set_rehydrated k rehydrated f) in
      with_kube (ep_Kube (pr_Dest ep)) (fun c =>
        let* ' (ready, e) := Ready c w in
        let f := match e with None => set_ready k ready f | Some _ => f end in
        let* f := probe_on_dest c ep k w ready f in
        Ret (inl f))
  end.

Definition restore_one (pol : Policy) (pair : option ClusterPair) (ep : Pair) (phase : ActionPhase)
    (reg : Registry) (f : RestoreFacts) (w : Workload) : io ev (RestoreFacts + err) :=
  let k := WKey w in
  let a := artifacts_by_key pol !! k in
  let f := match a with
           | Some a => set_message k (ah_Message a) (set_useful k (ah_Useful a) f)
           | None => f
           end in
  let keep (m : io ev RestoreFacts) : io ev (RestoreFacts + err) := let* f := m in Ret (inl f) in
  if bool_decide (w_Class w = ClassStateless) then keep (restore_stateless ep k w f)
  else if negb (map_get false (rf_Useful f) k) then Ret (inl (restore_skipped k f))
  else if Graph.Is w then keep (restore_graph pair ep k a f)
  else
    let name := moverOverride (Some pol) w "restore" in
    if String.eqb name EmptyString then restore_data pair ep phase k a w f
    else
      let* ' (m, cap, e) := Registry.Select reg w name in
      match e, m with
      | Some e, _ => Ret (inl (not_rehydrated k (err_msg e) f))
      | None, Some m => if cap_Restore cap then keep (restore_by m name pair ep k a w f)
                        else restore_data pair ep phase k a w f
      | None, None => restore_data pair ep phase k a w f
      end.

(** The manifests of every workload, rendered for the destination; a workload
    that cannot be exported or rendered is left out. *)
Definition render_one (pol : Policy) (pair : option ClusterPair) (ep : Pair) (out : list obj) (w : Workload)
    : io ev (list obj) :=
  if Graph.Is w then Ret out
  else
    with_kube (ep_Kube (pr_Source ep)) (fun c =>
      let* objs := Export.export_Workload c w in
      match objs with
      | Err _ => Ret out
      | Ok objs =>
          let* x := Render.Render Catalog yaml_documents (Render.For (Some pol) (transformOpt pair))
                      (Render.mkRequest (Some pol) pair objs) in
          Ret (match x with Err _ => out | Ok x => out ++ x end)
      end).

Definition applying (p : ActionPhase) : bool :=
  match p with
  | ActionPhaseRehydrating | ActionPhaseApplying | ActionPhasePreflight | PhaseOther "" => true
  | _ => false
  end.

(** The result that ends the pass when the manifests could not be applied. *)
Definition apply_manifests (act : Action) (pol : Policy) (pair : option ClusterPair) (ep : Pair) (inv : Inventory)
    : io ev (option Restore.Result) :=
  if applying (as_Phase (act_Status act)) then
    let* rendered := foldM (render_one pol pair ep) [] (inv_Workloads inv) in
    let* e := Export.Typed (ep_Kube (pr_Dest ep)) rendered in
    match e with
    | None => Ret None
    | Some e =>
        let msg := "dest apply: " +:+ err_msg e in
        Ret (Some (if restoreRetryable msg
                   then Restore.requeue ActionPhaseRehydrating msg (as_Workloads (act_Status act)) (5 * Second)%Z
                   else Restore.fail [] msg))
    end
  else Ret None.

Definition restore_facts (inv : Inventory) (dry : bool) (t : time) (f : RestoreFacts) : Restore.Facts :=
  Restore.mkFacts (inv_Workloads inv) (rf_Useful f) (Some (rf_Message f)) (rf_Rehydrated f)
    (Some (rf_Ready f)) (Some (rf_Probes f)) (Some (rf_Healed f)) dry t.

Definition advance_restore (st : ActionStatus) (facts : Restore.Facts) : io ev (res Restore.Result) :=
  match Restore.Advance st facts with
  | Some x => Ret (Ok x)
  | None => panics "assignment to entry in nil map"
  end.

Definition runRestore (act : Action) (pol : Policy) (pair : option ClusterPair) (ep : Pair) (inv : Inventory)
    : io ev (res Restore.Result) :=
  let* t := now_of r in
  let* reg := registry Catalog r pair ep in
  let* stop := apply_manifests act pol pair ep inv in
  match stop with
  | Some x => Ret (Ok x)
  | None =>
      let* x := loopM (restore_one pol pair ep (as_Phase (act_Status act)) reg) (no_facts act) (inv_Workloads inv) in
      match x with
      | inr e => Ret (Err e)
      | inl f => advance_restore (act_Status act) (restore_facts inv (spec_DryRun (act_Spec act)) t f)
      end
  end.

(** ** runReplicate *)

Definition status_of (w : Workload) : WorkloadActionStatus :=
  mkWAS (w_Name w) (WKey w) (w_Class w) (w_Engine w) false EmptyString false EmptyString [].

Definition destStatelessStatus (c : option kube) (w : Workload) : io ev WorkloadActionStatus :=
  let st := status_of w in
  match c with
  | None => Ret (Restore.with_message "dest client required" st)
  | Some c =>
      let* ' (ready, e) := Ready c w in
      Ret (match e with
           | Some e => Restore.with_message (err_msg e) st
           | None => if ready : bool
                     then Restore.with_message "dest Ready" (Restore.with_probe EmptyString true (Restore.with_ready true st))
                     else Restore.with_message "dest not Ready" st
           end)
  end.

Definition waiting_prefix : string := "waiting for replica sync".

(** The object graph comes before the movers: the status of the last synthetic
    workload and what failed. *)
Definition replicate_graph (pol : Policy) (pair : option ClusterPair) (ep : Pair)
    (acc : option WorkloadActionStatus * string) (w : Workload)
    : io ev (option WorkloadActionStatus * string) :=
  if negb (Graph.Is w) then Ret acc
  else
    let st := status_of w in
    let* x := syncClusterObjectsLive Catalog r pol pair ep in
    Ret (match x with
         | Err e => (Some (Restore.with_message (err_msg e) st), err_msg e)
         | Ok (ok, msg) =>
             (Some (Restore.with_message msg (Restore.with_probe msg ok (Restore.with_ready ok st))),
              if ok then snd acc else waiting_prefix +:+ ": " +:+ msg)
         end).

(** One workload by its mover: its status, and the failure after it. *)
Definition replicate_data (pol : Policy) (reg : Registry) (src dst : ClusterHandle) (failed : string)
    (w : Workload) : io ev (WorkloadActionStatus * string) :=
  let st := status_of w in
  let failing msg := Ret (Restore.with_message msg st, msg) in
  let* ' (m, cap, e) := Registry.Select reg w (moverOverride (Some pol) w "replicate") in
  match e, m with
  | Some e, _ => failing (err_msg e)
  | None, Some m =>
      if negb (cap_Replicate cap) then failing "no replicate-capable mover"%string
      else
        let* e := mv_Replicate m w src dst in
        match e with
        | Some e => failing (err_msg e)
        | None =>
            let* ' (pr, _) := mv_Probe m w dst in
            Ret (Restore.with_message (pr_Message pr)
                   (Restore.with_probe (pr_Message pr) (pr_OK pr) (Restore.with_ready (pr_OK pr) st)),
                 if negb (pr_OK pr) && String.eqb failed EmptyString
                 then waiting_prefix +:+ ": " +:+ pr_Message pr else failed)
        end
  | None, None => failing "no replicate-capable mover"%string
  end.

Definition replicate_one (pol : Policy) (ep : Pair) (reg : Registry) (src dst : ClusterHandle)
    (clusterSt : option WorkloadActionStatus) (clusterFailed : string)
    (acc : list WorkloadActionStatus * string) (w : Workload)
    : io ev (list WorkloadActionStatus * string) :=
  let '(sts, failed) := acc in
  if bool_decide (w_Class w = ClassStateless) then
    let* st := destStatelessStatus (ep_Kube (pr_Dest ep)) w in Ret (sts ++ [st], failed)
  else if Graph.Is w then
    let sts := match clusterSt with Some st => sts ++ [st] | None => sts end in
    Ret (sts,
      if negb (String.eqb clusterFailed EmptyString) &&
         (String.eqb failed EmptyString || negb (HasPrefix clusterFailed waiting_prefix))
      then clusterFailed else failed)
  else
    let* ' (st, failed) := replicate_data pol reg src dst failed w in Ret (sts ++ [st], failed).

Definition src_handle (pair : option ClusterPair) : ClusterHandle :=
  match pair with
  | Some p => mkHandle (cr_Name (cps_Source (cp_Spec p))) (cr_Address (cps_Source (cp_Spec p)))
  | None => mkHandle "source" EmptyString
  end.
Definition dst_handle (pair : option ClusterPair) : ClusterHandle :=
  match pair with
  | Some p => mkHandle (cr_Name (cps_Destination (cp_Spec p))) (cr_Address (cps_Destination (cp_Spec p)))
  | None => mkHandle "dest" EmptyString
  end.

Definition runReplicate (act : Action) (pol : Policy) (pair : option ClusterPair) (ep : Pair) (inv : Inventory)
    : io ev (res Restore.Result) :=
  let* reg := registry Catalog r pair ep in
  let* ' (clusterSt, clusterFailed) := foldM (replicate_graph pol pair ep) (None, EmptyString) (inv_Workloads inv) in
  let* ' (sts, failed) := foldM (replicate_one pol ep reg (src_handle pair) (dst_handle pair) clusterSt clusterFailed)
                            ([], EmptyString) (inv_Workloads inv) in
  let* _ := pruneVolSync (Some pol) ep inv in
  if spec_DryRun (act_Spec act) then
    Ret (Ok (Restore.mkResult ActionPhaseSucceeded "dry-run replicate" sts None 0%Z true))
  else
    let after := replicateRequeue (Some pol) in
    if negb (String.eqb failed EmptyString) then
      if String.eqb failed "no replicate-capable mover" then Ret (Ok (Restore.fail sts failed))
      else Ret (Ok (Restore.requeue ActionPhaseCatchingUp
                      (if HasPrefix failed waiting_prefix then failed else waiting_prefix +:+ ": " +:+ failed) sts after))
    else
      let* t := now_of r in
      Ret (Ok (Restore.mkResult ActionPhaseCatchingUp "replica lag=0; dest probed; live-sync" sts
                 (Some (mkAttestation t "controller" sts [])) after false)).

(** ** runCutover *)

Record CutoverFacts := mkCutoverFacts {
  cf_Ready : gmap string bool; cf_Probes : gmap string ProbeResult;
  cf_LagZero : bool; cf_Promoted : bool }.

Definition cutover_ready (k : string) (b : bool) (f : CutoverFacts) : CutoverFacts :=
  mkCutoverFacts (<[k := b]> (cf_Ready f)) (cf_Probes f) (cf_LagZero f) (cf_Promoted f).
Definition cutover_probe (k : string) (p : ProbeResult) (f : CutoverFacts) : CutoverFacts :=
  mkCutoverFacts (cf_Ready f) (<[k := p]> (cf_Probes f)) (cf_LagZero f) (cf_Promoted f).
Definition cutover_lag (b : bool) (f : CutoverFacts) : CutoverFacts :=
  mkCutoverFacts (cf_Ready f) (cf_Probes f) (cf_LagZero f && b) (cf_Promoted f).
Definition cutover_promoted (b : bool) (f : CutoverFacts) : CutoverFacts :=
  mkCutoverFacts (cf_Ready f) (cf_Probes f) (cf_LagZero f) (cf_Promoted f && b).

Definition volsync_reader (pair : option ClusterPair) (ep : Pair) : Volsync.VolsyncMover :=
  Volsync.mkVolsync (ep_Dynamic (pr_Source ep)) (ep_Dynamic (pr_Dest ep)) None None (transportOf pair)
    (destPath pair) EmptyString Volsync.no_creds EmptyString EmptyString EmptyString None.

Definition before_freeze (p : ActionPhase) : bool :=
  match p with
  | PhaseOther "" | ActionPhasePending | ActionPhasePreflight | ActionPhaseQuiescing => true
  | _ => false
  end.
Definition not_started (p : ActionPhase) : bool :=
  match p with PhaseOther "" | ActionPhasePending | ActionPhasePreflight => true | _ => false end.

(** The lag of a workload is zero: known from Postgres, else from VolSync. *)
Definition lag_zero (pair : option ClusterPair) (ep : Pair) (w : Workload) : io ev bool :=
  let* ' (n, ok, e) := Postgres.LagSeconds (postgres_mover ep) w in
  match e with
  | None => if ok : bool then Ret (negb (0 <? n)%Z) else Volsync.LagZero (volsync_reader pair ep) w
  | Some _ => Volsync.LagZero (volsync_reader pair ep) w
  end.

Definition promote (pol : Policy) (ep : Pair) (reg : Registry) (w : Workload) : io ev bool :=
  let* ' (m, cap, _) := Registry.Select reg w (moverOverride (Some pol) w "replicate") in
  let ok (e : option err) := match e with Some _ => false | None => true end in
  let fallback :=
    if String.eqb (w_Engine w) "postgres" || String.eqb (w_Engine w) "timescale" then
      let* e := Postgres.Promote (postgres_mover ep) w in Ret (ok e)
    else with_kube (ep_Kube (pr_Dest ep)) (fun c => let* _ := Scale c w 1 in Ret true) in
  match m with
  | Some m => if cap_Replicate cap
              then let* e := mv_Promote m w (mkHandle "dest" EmptyString) in Ret (ok e)
              else fallback
  | None => fallback
  end.

Definition cutover_one (pol : Policy) (pair : option ClusterPair) (ep : Pair) (phase : ActionPhase)
    (reg : Registry) (f : CutoverFacts) (w : Workload) : io ev CutoverFacts :=
  let k := WKey w in
  if Graph.Is w then
    let* x := syncClusterObjectsLive Catalog r pol pair ep in
    Ret (match x with
         | Err e => cutover_probe k (mkProbe false (err_msg e)) (cutover_ready k false f)
         | Ok (ok, msg) => cutover_probe k (mkProbe ok msg) (cutover_ready k ok f)
         end)
  else
    let* _ := if before_freeze phase
              then with_kube (ep_Kube (pr_Source ep)) (fun c => let* _ := Scale c w 0 in Ret tt)
              else Ret tt in
    let* lag := lag_zero pair ep w in
    let* promoted := if bool_decide (phase = ActionPhasePromoting) then promote pol ep reg w else Ret true in
    with_kube (ep_Kube (pr_Dest ep)) (fun c =>
      let* _ := if bool_decide (phase = ActionPhaseWaitingReady) || bool_decide (phase = ActionPhaseSwitching)
                then let* _ := Scale c w 1 in Ret tt else Ret tt in
      let* ' (ready, _) := Ready c w in
      let f := cutover_ready k ready (cutover_promoted promoted (cutover_lag lag f)) in
      match ep_Exec (pr_Dest ep) with
      | Some x => if ready : bool then let* p := Probe.Run c (Some x) w in Ret (cutover_probe k p f) else Ret f
      | None => Ret f
      end).

(** Every stateful workload of the source has been scaled to zero. *)
Definition all_frozen (ep : Pair) (inv : Inventory) : io ev bool :=
  foldM (fun frozen w =>
    if Graph.Is w then Ret frozen
    else with_kube (ep_Kube (pr_Source ep)) (fun c =>
           let* z := ScaledToZero c w in Ret (frozen && z))) true (Stateful inv).

Definition traffic_hook (pol : Policy) : Traffic.Hook :=
  let url := cs_TrafficHook (ps_Cutover (pol_Spec pol)) in
  if String.eqb url EmptyString then Traffic.Noop else Traffic.Webhook url.

Definition traffic_event (action : string) (pol : Policy) (pair : option ClusterPair) : Traffic.Event :=
  match pair with
  | Some _ => Traffic.mkTrafficEvent action (pol_Name pol) (src_name pair) (dst_name pair)
  | None => Traffic.mkTrafficEvent action (pol_Name pol) "source" "dest"
  end.

(** Scaling the source back; a workload whose StatefulSet is not read gets 1. *)
Definition unfreeze_one (ep : Pair) (w : Workload) : io ev unit :=
  if Graph.Is w then Ret tt
  else
    with_kube (ep_Kube (pr_Source ep)) (fun c =>
      let* sts := trigger (kGet c KStatefulSet (w_Namespace w) (w_Name w)) in
      let n := match sts with Ok s => OriginalReplicas (om_Annotations (sts_Meta s)) | Err _ => 1%Z end in
      let* _ := Scale c w n in Ret tt).

Definition roll_back (pol : Policy) (pair : option ClusterPair) (ep : Pair) (inv : Inventory) : io ev unit :=
  let* _ := Traffic.Rollback (traffic_hook pol) (traffic_event "rollback" pol pair) in
  foldM (fun _ w => unfreeze_one ep w) tt (Stateful inv).

Definition runCutover (act : Action) (pol : Policy) (pair : option ClusterPair) (ep : Pair) (inv : Inventory)
    : io ev (res Restore.Result) :=
  let phase := as_Phase (act_Status act) in
  let rollback := spec_Rollback (act_Spec act) in
  let* t := now_of r in
  let* reg := registry Catalog r pair ep in
  let* f := foldM (cutover_one pol pair ep phase reg) (mkCutoverFacts ∅ ∅ true true) (Stateful inv) in
  let* frozen := if bool_decide (phase = ActionPhaseQuiescing) then all_frozen ep inv else Ret true in
  let started := negb (not_started phase) in
  let* switched := if bool_decide (phase = ActionPhaseSwitching)
                   then let* e := Traffic.Switch (traffic_hook pol) (traffic_event "switch" pol pair) in
                        Ret (match e with None => true | Some _ => false end)
                   else Ret false in
  let* _ := if rollback then roll_back pol pair ep inv else Ret tt in
  Ret (Ok (Cutover.Advance (act_Status act)
    (Cutover.mkFacts (inv_Workloads inv) (started && frozen) (started && cf_LagZero f) (started && cf_Promoted f)
       switched rollback (Some (cf_Ready f)) (Some (cf_Probes f))
       (spec_DryRun (act_Spec act)) rollback t))).

(** ** Lemmas *)

(** A Restore pass hands [Advance] a map of messages, so the write into a nil
    map that [Advance] could panic with never happens. *)
Lemma advance_restore_total st inv dry t f :
  exists x, advance_restore st (restore_facts inv dry t f) = Ret (Ok x).
Proof.
  unfold advance_restore. destruct (Restore.Advance _ _) as [x|] eqn:E; [by exists x|].
  apply Restore.restore_panics in E as (_ & E & _). done.
Qed.

Lemma replay_dump_done ep k id w f b :
  dumpApplied (act_Annotations (rf_Act f)) k = true -> replay_dump ep k id w f b = Ret (inl (f, b)).
Proof. intros H. unfold replay_dump. by rewrite H. Qed.

(** ** Properties *)

(** C14: a dump is replayed once: when the Action's annotation holds the
    workload the replay is skipped with no call; a replay that leaves the
    workload rehydrated has the workload in the annotation, on the hub as in
    memory, so the passes after it replay nothing. *)
Theorem replay_dump_once ep k id w f b :
  k <> EmptyString -> in_cutset k newline = false ->
  (dumpApplied (act_Annotations (rf_Act f)) k = true -> replay_dump ep k id w f b = Ret (inl (f, b))) /\
  always (replay_dump ep k id w f b) (fun log x => forall f', x = inl (f', true) ->
    (forall id' b', replay_dump ep k id' w f' b' = Ret (inl (f', b'))) /\
    (log = [] \/ recorded (rf_Act f) k log)).
Proof.
  intros Hk Hn. split; [apply replay_dump_done|]. unfold replay_dump at 1, always.
  destruct (dumpApplied (act_Annotations (rf_Act f)) k) eqn:E.
  { cbn. intros f' [= <- _]. split; [|by left]. intros id' b'. by apply replay_dump_done. }
  unfold with_kube. destruct (ep_Kube (pr_Dest ep)) as [c|]; [|by intros []].
  apply wp_bind. eapply wp_mono; [apply wp_True|]. intros log1 [ready e] _.
  destruct ready; [|done]. cbn [negb].
  apply wp_bind. eapply wp_mono; [apply wp_True|]. intros log2 s _.
  apply wp_bind. eapply wp_mono; [apply wp_True|]. intros log3 [e'|] _; [done|].
  apply wp_bind. eapply wp_mono; [by apply rememberDumpApplied_wp|].
  intros log4 [a|e'] H; [|done]. destruct H as [Ha Hr]. cbn. intros f' [= <- _]. split; [|by right].
  intros id' b'. by apply replay_dump_done.
Qed.
End run.

(** An Action whose annotation holds the dump of one workload. *)
Definition replayed_facts : RestoreFacts := no_facts (mkAction "restore-1" "shop" ∅
  {[ dumpAppliedAnnotation := "shop/StatefulSet/db"%string ]} "7" 1
  (mkActionSpec ActionRestore "nightly" EmptyString EmptyString false false) zero_ActionStatus).

Lemma replay_dump_once_witness :
  let ep := mkPair no_endpoints no_endpoints in
  let w := mkWorkload "shop" "db" "StatefulSet" "apps/v1" ClassSQLLogical "postgres" [] [] false None None in
  let r := mkActionReconciler true None None None None None None in
  dumpApplied (act_Annotations (rf_Act replayed_facts)) "shop/StatefulSet/db" = true /\
  replay_dump (L := some_library) (R := default_retry) r ep "shop/StatefulSet/db" "k" w replayed_facts true =
    Ret (inl (replayed_facts, true)).
Proof.
  intros ep w r. split; [reflexivity|].
  apply (replay_dump_once (L := some_library) (R := default_retry) r ep "shop/StatefulSet/db" "k" w replayed_facts true);
    reflexivity || done.
Defined.
