(* ===== verification/PolicyController.v ===== *)
(** * The Policy reconciler: src/internal/controller/policy_controller.go

    One pass over a Policy: classify the source, write inventory and health,
    then create the Actions the Policy asks for: a Backup per RPO window, one
    live Replicate, one automatic Restore. *)

From Stdlib Require Import ZArith Lia.
From S2P Require Import Prelude GoStrings Effects Api GoTime Json Kube Classify Backup Graph.
From S2P Require Import Clusters Retry.

(** cluster_objects.go: the inventory with the object graph when the Policy
    opted in. *)
Definition withClusterObjects (pol : option Policy) (inv : Inventory) : Inventory :=
  match pol with
  | None => inv
  | Some pol =>
      if negb (co_Enabled (ps_ClusterObjects (pol_Spec pol))) then inv
      else if existsb Is (inv_Workloads inv) then inv
      else
        let ns := match ps_SelectorNamespaces (pol_Spec pol) with
                  | n :: _ => if String.eqb (pol_Namespace pol) EmptyString then n else pol_Namespace pol
                  | [] => pol_Namespace pol
                  end in
        mkInventory (inv_Namespaces inv) (inv_Workloads inv ++ [Synthetic ns])
  end.

(** The reconciler: [pr_Resolve] is the injected resolver, if any. *)
Record PolicyReconciler := mkPolicyReconciler {
  pr_KubeClient : option kube;
  pr_Resolve : option (option ClusterPair -> io ev (res Pair)) }.

(** ** Names *)

Definition rpoBackupName (policy : string) (t : time) (d : duration) : string :=
  let slot := Unix (Truncate t d) in
  cap_len 63 ("backup-" +:+ policy +:+ "-" +:+ Itoa slot).
Definition replicateName (policy : string) : string := cap_len 63 ("replicate-" +:+ policy).
Definition autoRestoreName (policy : string) : string := cap_len 63 ("restore-auto-" +:+ policy).

Definition new_spec (t : ActionType) (policy : string) : ActionSpec :=
  mkActionSpec t policy EmptyString EmptyString false false.
Definition new_action (name ns : string) (labels : gmap string string) (t : ActionType) (policy : string) : Action :=
  mkAction name ns labels ∅ EmptyString 0 (new_spec t policy) zero_ActionStatus.

Definition rpo_action (pol : Policy) (name : string) : Action :=
  new_action name (pol_Namespace pol)
    (<["portage.io/rpo" := "true"]> {["portage.io/policy" := pol_Name pol]})%string
    ActionBackup (pol_Name pol).
Definition live_action (pol : Policy) (name : string) : Action :=
  new_action name (pol_Namespace pol)
    (<["portage.io/replicate" := "true"]> (<["portage.io/live-replica" := "true"]>
       {["portage.io/policy" := pol_Name pol]}))%string
    ActionReplicate (pol_Name pol).
Definition auto_action (pol : Policy) (name : string) : Action :=
  new_action name (pol_Namespace pol)
    (<["portage.io/auto" := "true"]> {["portage.io/policy" := pol_Name pol]})%string
    ActionRestore (pol_Name pol).

Definition with_act_labels (f : gmap string string -> gmap string string) (a : Action) : Action :=
  mkAction (act_Name a) (act_Namespace a) (f (act_Labels a)) (act_Annotations a)
    (act_ResourceVersion a) (act_Generation a) (act_Spec a) (act_Status a).

(** ** maybeBackup *)

Definition maybeBackup (pol : Policy) : io ev (option err) :=
  let b := ps_Backup (pol_Spec pol) in
  if negb (bs_Enabled b) || String.eqb (bs_RPO b) EmptyString then Ret None
  else
    match ParseDuration (bs_RPO b) with
    | None => Ret None
    | Some d =>
        if (d <=? 0)%Z then Ret None
        else
          let* t := trigger now in
          let name := rpoBackupName (pol_Name pol) t d in
          let* existing := trigger (hubGetAction (pol_Namespace pol) name) in
          match existing with
          | Ok _ => Ret None
          | Err e => if negb (IsNotFound (Some e)) then Ret (Some e)
                     else trigger (hubCreateAction (rpo_action pol name))
          end
    end.

(** ** maybeReplicate *)

Definition is_live (a : Action) : bool :=
  String.eqb (map_get EmptyString (act_Labels a) "portage.io/live-replica") "true".

Section reconcile.
  Context {R : Retry}.

Definition mark_live (ns name : string) : io ev (option err) :=
  let* r := RetryOnConflict (
    let* latest := trigger (hubGetAction ns name) in
    match latest with
    | Err e => Ret (Err e)
    | Ok latest =>
        if is_live latest then Ret (Ok tt)
        else
          let* e := trigger (hubUpdateAction
                      (with_act_labels (<["portage.io/live-replica" := "true"]>)%string latest)) in
          Ret (ok_or (err_of e))
    end) in
  Ret (err_of r).

Definition maybeReplicate (pol : Policy) : io ev (option err) :=
  let name := replicateName (pol_Name pol) in
  let* existing := trigger (hubGetAction (pol_Namespace pol) name) in
  if negb (rs_Enabled (ps_Replicate (pol_Spec pol))) then
    match existing with
    | Err e => Ret (if IsNotFound (Some e) then None else Some e)
    | Ok existing =>
        if negb (bool_decide (spec_Type (act_Spec existing) = ActionReplicate)) then Ret None
        else trigger (hubDeleteAction (act_Namespace existing) (act_Name existing))
    end
  else
    match existing with
    | Ok existing =>
        if negb (bool_decide (spec_Type (act_Spec existing) = ActionReplicate)) then Ret None
        else if is_live existing then Ret None
        else mark_live (pol_Namespace pol) name
    | Err e =>
        if negb (IsNotFound (Some e)) then Ret (Some e)
        else trigger (hubCreateAction (live_action pol name))
    end.

Definition replicaLag (pol : Policy) : io ev string :=
  if negb (rs_Enabled (ps_Replicate (pol_Spec pol))) then Ret EmptyString
  else
    let* act := trigger (hubGetAction (pol_Namespace pol) (replicateName (pol_Name pol))) in
    Ret (match act with Err _ => EmptyString | Ok a => as_Message (act_Status a) end).

(** ** maybeAutoRestore *)

(** The claims of a workload, up to the first that is missing. *)
Definition claim_missing (k : kube) (ns : string) (need : bool) (pvcs : list string) : io ev bool :=
  let* r := loopM (fun need pvcName =>
      let* p := trigger (kGet k KPVC ns pvcName) in
      Ret (if IsNotFound (err_of p) then inr tt else inl need)) need pvcs in
  Ret (match r with inl need => need | inr _ => true end).

Definition maybeAutoRestore (pol : Policy) (inv : Inventory) (dest : kube) : io ev (option err) :=
  if negb (rts_Auto (ps_Restore (pol_Spec pol))) then Ret None
  else if negb (pst_BackupHealthy (pol_Status pol)) then Ret None
  else
    let* need := foldM (fun need w => claim_missing dest (w_Namespace w) need (w_PVCNames w))
                   false (Stateful inv) in
    if negb need then Ret None
    else
      let name := autoRestoreName (pol_Name pol) in
      let* existing := trigger (hubGetAction (pol_Namespace pol) name) in
      match existing with
      | Ok _ => Ret None
      | Err e => if negb (IsNotFound (Some e)) then Ret (Some e)
                 else trigger (hubCreateAction (auto_action pol name))
      end.

(** ** Status *)

Definition with_pol_status (s : PolicyStatus) (p : Policy) : Policy :=
  mkPolicy (pol_Name p) (pol_Namespace p) (pol_Generation p) (pol_Spec p) s.

(** The fields this reconciler owns; artifacts and lag are other passes'. *)
Definition merge_status (mine latest : PolicyStatus) : PolicyStatus :=
  mkPolicyStatus (pst_Phase mine) (pst_Message mine) (pst_Inventory mine) (pst_Artifacts latest)
    (pst_BackupHealthy mine) (pst_ReplicaLag latest) (pst_ObservedGeneration mine).

Definition update_policy (ns name : string) (f : PolicyStatus -> PolicyStatus) : io ev (option err) :=
  let* r := RetryOnConflict (
    let* latest := trigger (hubGetPolicy ns name) in
    match latest with
    | Err e => Ret (Err e)
    | Ok latest =>
        let* e := trigger (hubUpdatePolicyStatus (with_pol_status (f (pol_Status latest)) latest)) in
        Ret (ok_or e)
    end) in
  Ret (err_of r).

Definition writeStatus (pol : Policy) : io ev (option err) :=
  update_policy (pol_Namespace pol) (pol_Name pol) (merge_status (pol_Status pol)).

Definition item_of (w : Workload) : InventoryItem :=
  mkInventoryItem (w_Namespace w) (w_Name w) (w_Kind w) (w_Class w) (w_Engine w) (w_PVCNames w)
    EmptyString (w_Unclassified w).
Definition workload_of (it : InventoryItem) : Workload :=
  mkWorkload (ii_Namespace it) (ii_Name it) (ii_Kind it) EmptyString (ii_Class it) (ii_Engine it)
    [] [] false None None.

(** The status of a classified Policy. *)
Definition observe (pol : Policy) (inv : Inventory) : PolicyStatus :=
  let items := List.map item_of (inv_Workloads inv) in
  let stateful := length (List.filter is_stateful (inv_Workloads inv)) in
  let unclassified := length (List.filter w_Unclassified (inv_Workloads inv)) in
  let st := pol_Status pol in
  let '(healthy, missing) := Healthy (mkInventory [] (List.map workload_of items)) (pst_Artifacts st) in
  let n k := Itoa (Z.of_nat k) in
  let '(phase, msg) :=
    if (0 <? stateful)%nat && negb healthy then
      (PolicyUnhealthy, match missing with
                        | m :: _ => "backup not useful: " +:+ m
                        | [] => "stateful workloads have no useful backup"%string
                        end)
    else if (0 <? unclassified)%nat then
      (PolicyDegraded, n (length items) +:+ " workloads (" +:+ n stateful +:+ " stateful, " +:+
                       n unclassified +:+ " unclassified)")
    else (PolicyHealthy, n (length items) +:+ " workloads (" +:+ n stateful +:+ " stateful)") in
  mkPolicyStatus phase msg items (pst_Artifacts st) healthy (pst_ReplicaLag st) (pol_Generation pol).

Definition loadPair (pol : Policy) : io ev (option ClusterPair) :=
  if String.eqb (ps_ClusterPair (pol_Spec pol)) EmptyString then Ret None
  else
    let* p := trigger (hubGetPair (ps_ClusterPair (pol_Spec pol))) in
    Ret (ok_of p).

Definition requeue_policy (pol : Policy) : duration :=
  if rs_Enabled (ps_Replicate (pol_Spec pol)) then (30 * Second)%Z else (2 * Minute)%Z.

Definition failed_status (st : PolicyStatus) (msg : string) : PolicyStatus :=
  mkPolicyStatus PolicyUnhealthy msg (pst_Inventory st) (pst_Artifacts st) (pst_BackupHealthy st)
    (pst_ReplicaLag st) (pst_ObservedGeneration st).

(** The clusters a pass reads: the hub's unless the resolver answers. *)
Definition policy_clusters (r : PolicyReconciler) (hub : kube) (pair : option ClusterPair) : io ev (kube * kube) :=
  match pr_Resolve r with
  | None => Ret (hub, hub)
  | Some f =>
      let* p := f pair in
      Ret (match p with
           | Err _ => (hub, hub)
           | Ok p => (default hub (ep_Kube (pr_Source p)), default hub (ep_Kube (pr_Dest p)))
           end)
  end.

Definition Reconcile (Catalog : list Engine) (r : PolicyReconciler) (ns name : string) : io ev Result :=
  let* pol := trigger (hubGetPolicy ns name) in
  match pol with
  | Err e => Ret (ignore_not_found e)
  | Ok pol =>
      match pr_KubeClient r with
      | None => Ret (retryLater (Some (errorf "kube client is not configured")))
      | Some hub =>
          let* pair := loadPair pol in
          let* ' (srcKube, dstKube) := policy_clusters r hub pair in
          let nss := Namespaces (ps_SelectorNamespaces (pol_Spec pol)) (pol_Namespace pol) in
          let* inv := Walk Catalog srcKube nss in
          match inv with
          | Err e =>
              let pol := with_pol_status (failed_status (pol_Status pol) (err_msg e)) pol in
              writeStatus pol ;;; Ret (retryLater (Some (wrapf "classify: " e)))
          | Ok inv =>
              let inv := withClusterObjects (Some pol) inv in
              let pol := with_pol_status (observe pol inv) pol in
              let* e := writeStatus pol in
              match e with
              | Some e => Ret (retryLater (Some e))
              | None =>
                  maybeAutoRestore pol inv dstKube ;;;
                  maybeBackup pol ;;;
                  maybeReplicate pol ;;;
                  let* lag := replicaLag pol in
                  let* e :=
                    if String.eqb lag EmptyString || String.eqb lag (pst_ReplicaLag (pol_Status pol))
                    then Ret None
                    else update_policy ns name (fun st =>
                           mkPolicyStatus (pst_Phase st) (pst_Message st) (pst_Inventory st)
                             (pst_Artifacts st) (pst_BackupHealthy st) lag (pst_ObservedGeneration st)) in
                  Ret (match e with
                       | Some e => retryLater (Some e)
                       | None => mkResult (requeue_policy pol) None
                       end)
              end
          end
      end
  end.
End reconcile.

(** ** Lemmas *)

(** A reconciler with its catalog of engines, at work on a Policy. *)
Record PolicyPass := mkPolicyPass {
  pp_Catalog : list Engine; pp_Reconciler : PolicyReconciler; pp_Policy : Policy }.

(** The clusters the run settled on for the pair it read. *)
Definition pass_clusters (pp : PolicyPass) (log : list (event ev)) (src dst : kube) : Prop :=
  exists hub pair, pr_KubeClient (pp_Reconciler pp) = Some hub /\ did (loadPair (pp_Policy pp)) pair log /\
    did (policy_clusters (pp_Reconciler pp) hub pair) (src, dst) log.

(** The run classified the source, with this answer, and would look for missing
    claims in [dst]. *)
Definition classified (pp : PolicyPass) (log : list (event ev)) (dst : kube) (x : res Inventory) : Prop :=
  exists src, pass_clusters pp log src dst /\
    did (Walk (pp_Catalog pp) src
           (Namespaces (ps_SelectorNamespaces (pol_Spec (pp_Policy pp))) (pol_Namespace (pp_Policy pp)))) x log.

(** What a status update may make of the status it read: the verdict on the
    inventory of this run, a classification that failed, or the lag the live
    Replicate reports. *)
Inductive status_change (pp : PolicyPass) (log : list (event ev)) : PolicyStatus -> PolicyStatus -> Prop :=
| change_observed dst inv old : classified pp log dst (Ok inv) ->
    status_change pp log old
      (merge_status (observe (pp_Policy pp) (withClusterObjects (Some (pp_Policy pp)) inv)) old)
| change_failed dst e old : classified pp log dst (Err e) ->
    status_change pp log old (merge_status (failed_status (pol_Status (pp_Policy pp)) (err_msg e)) old)
| change_lag a old : rs_Enabled (ps_Replicate (pol_Spec (pp_Policy pp))) = true ->
    mkEvent (hubGetAction (pol_Namespace (pp_Policy pp)) (replicateName (pol_Name (pp_Policy pp)))) (Ok a) ∈ log ->
    status_change pp log old (mkPolicyStatus (pst_Phase old) (pst_Message old) (pst_Inventory old)
      (pst_Artifacts old) (pst_BackupHealthy old) (as_Message (act_Status a)) (pst_ObservedGeneration old)).

(** What a pass may write, and what it must have read before. *)
Inductive policy_write (pp : PolicyPass) (pol := pp_Policy pp) (log : list (event ev)) : event ev -> Prop :=
| write_status ns name latest st x :
    mkEvent (hubGetPolicy ns name) (Ok latest) ∈ log -> status_change pp log (pol_Status latest) st ->
    policy_write pp log (mkEvent (hubUpdatePolicyStatus (with_pol_status st latest)) x)
| write_backup t d e r :
    bs_Enabled (ps_Backup (pol_Spec pol)) = true ->
    ParseDuration (bs_RPO (ps_Backup (pol_Spec pol))) = Some d -> (0 < d)%Z ->
    mkEvent now t ∈ log ->
    mkEvent (hubGetAction (pol_Namespace pol) (rpoBackupName (pol_Name pol) t d)) (Err e) ∈ log ->
    err_reason e = NotFound ->
    policy_write pp log (mkEvent (hubCreateAction (rpo_action pol (rpoBackupName (pol_Name pol) t d))) r)
| write_live e r :
    rs_Enabled (ps_Replicate (pol_Spec pol)) = true ->
    mkEvent (hubGetAction (pol_Namespace pol) (replicateName (pol_Name pol))) (Err e) ∈ log ->
    err_reason e = NotFound ->
    policy_write pp log (mkEvent (hubCreateAction (live_action pol (replicateName (pol_Name pol)))) r)
| write_label a r :
    rs_Enabled (ps_Replicate (pol_Spec pol)) = true ->
    mkEvent (hubGetAction (pol_Namespace pol) (replicateName (pol_Name pol))) (Ok a) ∈ log ->
    policy_write pp log (mkEvent (hubUpdateAction
      (with_act_labels (<["portage.io/live-replica" := "true"]>)%string a)) r)
| write_unlive a r :
    rs_Enabled (ps_Replicate (pol_Spec pol)) = false ->
    mkEvent (hubGetAction (pol_Namespace pol) (replicateName (pol_Name pol))) (Ok a) ∈ log ->
    spec_Type (act_Spec a) = ActionReplicate ->
    policy_write pp log (mkEvent (hubDeleteAction (act_Namespace a) (act_Name a)) r)
| write_auto dst inv w pvc e e' r :
    rts_Auto (ps_Restore (pol_Spec pol)) = true ->
    classified pp log dst (Ok inv) ->
    pst_BackupHealthy (observe pol (withClusterObjects (Some pol) inv)) = true ->
    w ∈ Stateful (withClusterObjects (Some pol) inv) -> pvc ∈ w_PVCNames w ->
    mkEvent (kGet dst KPVC (w_Namespace w) pvc) (Err e) ∈ log -> err_reason e = NotFound ->
    mkEvent (hubGetAction (pol_Namespace pol) (autoRestoreName (pol_Name pol))) (Err e') ∈ log ->
    err_reason e' = NotFound ->
    policy_write pp log (mkEvent (hubCreateAction (auto_action pol (autoRestoreName (pol_Name pol)))) r).

Lemma pass_clusters_mono pp log ext src dst : pass_clusters pp log src dst -> pass_clusters pp (log ++ ext) src dst.
Proof. intros (hub & pair & ? & ? & ?). exists hub, pair. eauto using did_app. Qed.

Lemma classified_mono pp log ext dst x : classified pp log dst x -> classified pp (log ++ ext) dst x.
Proof. intros (src & ? & ?). exists src. eauto using did_app, pass_clusters_mono. Qed.

Lemma status_change_mono pp log ext old new : status_change pp log old new -> status_change pp (log ++ ext) old new.
Proof.
  destruct 1; econstructor; eauto using classified_mono. apply elem_of_app. by left.
Qed.

Lemma policy_write_mono pp log ext e :
  policy_write pp log e -> policy_write pp (log ++ ext) e.
Proof.
  assert (forall x : event ev, x ∈ log -> x ∈ log ++ ext) as Hm by (intros; apply elem_of_app; auto).
  destruct 1; econstructor; eauto using status_change_mono, classified_mono.
Qed.

(** Every write so far was allowed. *)
Definition clean (pp : PolicyPass) (log : list (event ev)) : Prop :=
  forall e, e ∈ written log -> policy_write pp log e.

Lemma clean_event {X} pp log (e : ev X) x :
  clean pp log -> (writes e = true -> policy_write pp (log ++ [mkEvent e x]) (mkEvent e x)) ->
  clean pp (log ++ [mkEvent e x]).
Proof.
  intros Hc He ev. rewrite written_app, elem_of_app. intros [Hev|Hev].
  - by apply policy_write_mono, Hc.
  - revert Hev. rewrite written_one. case_if.
    + intros ->%list_elem_of_singleton. auto.
    + intros Hev. by apply elem_of_nil in Hev.
Qed.

(** A program that only reads keeps a log clean. *)
Lemma clean_read {A} pp (m : io ev A) log :
  reads_only m -> clean pp log -> wp any_env m log (fun log' a => clean pp log' /\ did m a log').
Proof.
  intros Hm Hc. eapply wp_mono_ext; [apply wp_and; [by apply wp_reads|apply wp_did]|].
  intros ext a [Hw Hd]. split; [|done]. intros e He. rewrite Hw in He. by apply policy_write_mono, Hc.
Qed.

(** One call under the invariant: reads keep it, a write must be allowed. *)
Ltac clean_call x :=
  wp_call x; match goal with
  | H : clean ?p ?log |- context [?log ++ [?e]] =>
      assert (clean p (log ++ [e])) by (apply clean_event; [done|first [discriminate|intros _]])
  end.

Section clean.
  Context {R : Retry} (pp : PolicyPass).
Abbreviation pol := (pp_Policy pp).

Lemma last_elem {A} (l : list A) x : x ∈ l ++ [x].
Proof. apply elem_of_app. right. by left. Qed.

Lemma earlier {A} (l : list A) x y : x ∈ l -> x ∈ l ++ [y].
Proof. intros H. apply elem_of_app. by left. Qed.

Hint Resolve last_elem earlier : core.

Lemma notfound e : IsNotFound (Some e) = true -> err_reason e = NotFound.
Proof. cbn. intros H. by boolify. Qed.

Hint Resolve notfound : core.

Lemma maybeBackup_clean log : clean pp log ->
  wp any_env (maybeBackup pol) log (fun log' _ => clean pp log').
Proof.
  intros Hc. unfold maybeBackup. case_if; [done|]. boolify.
  destruct (ParseDuration _) as [d|] eqn:Ed; [|done]. destruct (Z.leb_spec d 0) as [|Hd]; [done|].
  clean_call t. clean_call existing. destruct existing as [|e]; [done|]. case_if; [done|]. boolify.
  intros r log' ->. apply clean_event; [done|]. intros _. eapply write_backup; eauto.
Qed.

Lemma mark_live_clean log : rs_Enabled (ps_Replicate (pol_Spec pol)) = true -> clean pp log ->
  wp any_env (mark_live (pol_Namespace pol) (replicateName (pol_Name pol))) log
    (fun log' _ => clean pp log').
Proof.
  intros Hen Hc. unfold mark_live. apply wp_bind. eapply wp_mono with (P := fun log' _ => clean pp log'); [|done].
  apply wp_retry with (I := clean pp); [done|]. clear log Hc. intros log Hc.
  clean_call latest. destruct latest as [a|e]; [|done]. case_if; [done|].
  wp_call r. cbn [wp]. assert (clean pp ((log ++ [mkEvent (hubGetAction (pol_Namespace pol) (replicateName (pol_Name pol))) (Ok a)]) ++
    [mkEvent (hubUpdateAction (with_act_labels (<["portage.io/live-replica" := "true"]>)%string a)) r])) as Hc'.
  { apply clean_event; [done|]. intros _. apply write_label; [done|auto]. }
  by destruct r.
Qed.

Lemma maybeReplicate_clean log : clean pp log ->
  wp any_env (maybeReplicate pol) log (fun log' _ => clean pp log').
Proof.
  intros Hc. unfold maybeReplicate. clean_call existing.
  destruct (rs_Enabled _) eqn:Hen; cbn [negb]; destruct existing as [a|e].
  - case_if; [done|]. case_if; [done|]. by apply mark_live_clean.
  - case_if; [done|]. boolify. intros r log' ->. apply clean_event; [done|]. intros _.
    eapply write_live; eauto.
  - case_if; [done|]. boolify. intros r log' ->. apply clean_event; [done|]. intros _.
    apply write_unlive; auto.
  - done.
Qed.

Lemma update_policy_clean ns name f log : clean pp log -> (forall old, status_change pp log old (f old)) ->
  wp any_env (update_policy ns name f) log (fun log' _ => clean pp log').
Proof.
  intros Hc Hf. unfold update_policy. apply wp_bind. eapply wp_mono with (P := fun log' _ => clean pp log'); [|done].
  eapply wp_mono; [apply wp_retry with (I := fun log => clean pp log /\ forall old, status_change pp log old (f old))
    (Q := fun log' _ => clean pp log'); [done|]|done].
  clear log Hc Hf. intros log [Hc Hf]. clean_call latest. destruct latest as [p|e].
  2: { cbn [wp]. split; [done|]. intros. eauto using status_change_mono. }
  wp_call r. match goal with |- context [?l ++ [mkEvent (hubUpdatePolicyStatus ?p) r]] =>
    assert (clean pp (l ++ [mkEvent (hubUpdatePolicyStatus p) r])) as Hc' end.
  { apply clean_event; [done|]. intros _. eapply write_status; [auto|].
    by apply status_change_mono, status_change_mono. }
  destruct r; cbn [wp ok_or]; split; try done. intros. split; [done|]. eauto using status_change_mono.
Qed.

(** The claim that made an automatic restore necessary. *)
Definition missing_claim (k : kube) (ws : list Workload) (log : list (event ev)) : Prop :=
  exists w pvc e, w ∈ ws /\ pvc ∈ w_PVCNames w /\
    mkEvent (kGet k KPVC (w_Namespace w) pvc) (Err e) ∈ log /\ err_reason e = NotFound.

Lemma missing_claim_mono k ws log x : missing_claim k ws log -> missing_claim k ws (log ++ [x]).
Proof. intros (w & pvc & e & Hw & Hp & Hin & He). exists w, pvc, e. auto. Qed.

Lemma claim_missing_wp k w ws need log : w ∈ ws -> clean pp log ->
  (need = true -> missing_claim k ws log) ->
  wp any_env (claim_missing k (w_Namespace w) need (w_PVCNames w)) log (fun log' need' =>
    clean pp log' /\ (need' = true -> missing_claim k ws log')).
Proof.
  intros Hw Hc Hn. unfold claim_missing. apply wp_bind.
  eapply wp_mono.
  - apply (wp_loopM any_env _ (fun _ log need' => clean pp log /\ (need' = true -> missing_claim k ws log))
      (fun log _ => clean pp log /\ missing_claim k ws log) _ []); [done|].
    intros pre pvc post log' need' Hsplit [Hc' Hn']. clean_call p. cbn [wp]. case_if.
    + split; [done|]. destruct p as [|e]; [done|]. exists w, pvc, e. cbn in Heqb.
      split_and!; [done| |auto|by boolify]. rewrite <- (app_nil_l (w_PVCNames w)), Hsplit. set_solver.
    + split; [done|]. intros Ht. by apply missing_claim_mono, Hn'.
  - intros log' [need'|[]]; cbn [wp]; [done|]. intros [? ?]. done.
Qed.

Lemma maybeAutoRestore_clean inv k log (inv' := withClusterObjects (Some pol) inv) :
  clean pp log -> classified pp log k (Ok inv) ->
  wp any_env (maybeAutoRestore (with_pol_status (observe pol inv') pol) inv' k) log
    (fun log' _ => clean pp log').
Proof.
  intros Hc Hi. unfold maybeAutoRestore. case_if; [done|]. case_if; [done|]. boolify. apply wp_bind.
  eapply wp_mono_ext.
  - apply (wp_foldM_inv any_env _ (fun log need => clean pp log /\ (need = true -> missing_claim k (Stateful inv') log)));
      [done|]. intros w log' need Hw [Hc' Hn]. by apply claim_missing_wp.
  - intros ext need [Hc' Hn]. apply (classified_mono _ _ ext) in Hi. case_if; [done|]. boolify.
    destruct (Hn Heqb1) as (w & pvc & e & Hw & Hp & Hin & He).
    clean_call existing. destruct existing as [|e']; [done|]. case_if; [done|]. boolify.
    intros r log'' ->. apply clean_event; [done|]. intros _.
    eapply (write_auto pp _ k inv w pvc e e'); eauto using classified_mono.
Qed.

(** Running something whose answer is dropped. *)
Lemma clean_then {A B} (m : io ev A) (k : io ev B) (Q : B -> Prop) log :
  (forall log, clean pp log -> wp any_env m log (fun log' _ => clean pp log')) ->
  (forall log, clean pp log -> wp any_env k log (fun log' b => clean pp log' /\ Q b)) ->
  clean pp log -> wp any_env (m ;;; k) log (fun log' b => clean pp log' /\ Q b).
Proof.
  intros Hm Hk Hc. apply wp_bind. eapply wp_mono; [by apply Hm|]. intros log' a Hc'. by apply Hk.
Qed.

(** The lag read is what the live Replicate says of itself. *)
Lemma replicaLag_clean st log : clean pp log ->
  wp any_env (replicaLag (with_pol_status st pol)) log (fun log' lag => clean pp log' /\
    (lag = EmptyString \/ forall old, status_change pp log' old (mkPolicyStatus (pst_Phase old) (pst_Message old)
       (pst_Inventory old) (pst_Artifacts old) (pst_BackupHealthy old) lag (pst_ObservedGeneration old)))).
Proof.
  intros Hc. unfold replicaLag. cbn [with_pol_status pol_Spec pol_Namespace pol_Name].
  destruct (rs_Enabled _) eqn:Hen; cbn [negb]; [|cbn [wp]; by auto].
  clean_call act. destruct act as [a|e]; cbn [wp]; split; auto. right. intros old. eapply change_lag; eauto.
Qed.

Lemma loadPair_reads : reads_only (loadPair pol).
Proof. unfold loadPair. reads. Qed.

Lemma policy_clusters_reads r hub pair :
  (forall f p, pr_Resolve r = Some f -> reads_only (f p)) -> reads_only (policy_clusters r hub pair).
Proof.
  intros Hr. unfold policy_clusters. destruct (pr_Resolve r) as [f|] eqn:E; [|done].
  apply only_bind; [by apply (Hr f)|]. by intros [].
Qed.

(** The pass after the Policy was read. *)
Lemma policy_after_read ns name hub log (r := pp_Reconciler pp) (Catalog := pp_Catalog pp) :
  (forall f p, pr_Resolve r = Some f -> reads_only (f p)) -> pr_KubeClient r = Some hub -> clean pp log ->
  wp any_env (
    let* pair := loadPair pol in
    let* ' (srcKube, dstKube) := policy_clusters r hub pair in
    let nss := Namespaces (ps_SelectorNamespaces (pol_Spec pol)) (pol_Namespace pol) in
    let* inv := Walk Catalog srcKube nss in
    match inv with
    | Err e =>
        let pol := with_pol_status (failed_status (pol_Status pol) (err_msg e)) pol in
        writeStatus pol ;;; Ret (retryLater (Some (wrapf "classify: " e)))
    | Ok inv =>
        let inv := withClusterObjects (Some pol) inv in
        let pol := with_pol_status (observe pol inv) pol in
        let* e := writeStatus pol in
        match e with
        | Some e => Ret (retryLater (Some e))
        | None =>
            maybeAutoRestore pol inv dstKube ;;;
            maybeBackup pol ;;;
            maybeReplicate pol ;;;
            let* lag := replicaLag pol in
            let* e :=
              if String.eqb lag EmptyString || String.eqb lag (pst_ReplicaLag (pol_Status pol))
              then Ret None
              else update_policy ns name (fun st =>
                     mkPolicyStatus (pst_Phase st) (pst_Message st) (pst_Inventory st)
                       (pst_Artifacts st) (pst_BackupHealthy st) lag (pst_ObservedGeneration st)) in
            Ret (match e with
                 | Some e => retryLater (Some e)
                 | None => mkResult (requeue_policy pol) None
                 end)
        end
    end) log (fun log' res => clean pp log' /\ (0 < RequeueAfter res)%Z /\ res_err res = None).
Proof.
  intros Hr Hk Hc. apply wp_bind. eapply wp_mono; [apply clean_read; [apply loadPair_reads|exact Hc]|].
  clear log Hc. intros log pair [Hc Hp]. apply wp_bind.
  eapply wp_mono_ext; [apply clean_read; [apply policy_clusters_reads, Hr|exact Hc]|].
  intros ext [src dst] [Hc' Hcl]. assert (pass_clusters pp (log ++ ext) src dst) as Hpc
    by (exists hub, pair; eauto using did_app). clear Hc Hcl Hp. revert Hc' Hpc. generalize (log ++ ext).
  clear log ext. intros log Hc Hpc. cbv zeta. apply wp_bind.
  eapply wp_mono_ext; [apply clean_read; [apply Walk_reads|exact Hc]|].
  intros ext x [Hc' Hd]. assert (classified pp (log ++ ext) dst x) as Hi
    by (exists src; eauto using pass_clusters_mono). clear Hc Hd Hpc. revert Hc' Hi. generalize (log ++ ext).
  clear log ext. intros log Hc Hi. destruct x as [inv|e].
  2: { apply wp_bind. eapply wp_mono; [apply update_policy_clean; [exact Hc|]|done].
       intros old. cbn [with_pol_status pol_Status]. by eapply change_failed. }
  apply wp_bind. eapply wp_mono_ext; [apply update_policy_clean; [exact Hc|]|].
  { intros old. cbn [with_pol_status pol_Status]. by eapply change_observed. }
  intros ext [e|] Hc'; [done|]. apply (classified_mono _ _ ext) in Hi. clear Hc. revert Hc' Hi.
  generalize (log ++ ext). clear log ext. intros log Hc Hi.
  apply wp_bind. eapply wp_mono; [by apply maybeAutoRestore_clean|]. clear Hc Hi log. intros log oe Hc.
  apply clean_then; [intros; by apply maybeBackup_clean| |exact Hc]. clear log Hc. intros log Hc.
  apply clean_then; [intros; by apply maybeReplicate_clean| |exact Hc]. clear log Hc. intros log Hc.
  apply wp_bind. eapply wp_mono; [by apply replicaLag_clean|]. clear log Hc. intros log lag [Hc Hl]. apply wp_bind.
  eapply wp_mono with (P := fun log' _ => clean pp log').
  { destruct Hl as [->|Hl]; [done|]. case_if; [done|]. by apply update_policy_clean. }
  clear log Hc Hl. intros log [e|] Hc; cbn [wp]; (split; [done|]); [done|].
  unfold requeue_policy. cbn [RequeueAfter res_err]. by case_if.
Qed.
End clean.

(** The time of a window tells the windows apart, to the second. *)
Lemma window_second t1 t2 d : (Second <= d)%Z ->
  Unix (Truncate t1 d) = Unix (Truncate t2 d) -> Truncate t1 d = Truncate t2 d.
Proof.
  intros Hd E. assert (0 < d)%Z as Hd0 by (unfold Second in Hd; lia).
  apply Truncate_window; [done|]. unfold Truncate, Unix, Second in *. destruct (Z.leb_spec d 0); [lia|].
  set (a := (t1 + zero_time_ns)%Z) in *. set (b := (t2 + zero_time_ns)%Z) in *.
  pose proof (Z.div_mod a d ltac:(lia)) as Ea. pose proof (Z.div_mod b d ltac:(lia)) as Eb.
  replace (t1 - a mod d)%Z with (d * (a / d) - zero_time_ns)%Z in E by lia.
  replace (t2 - b mod d)%Z with (d * (b / d) - zero_time_ns)%Z in E by lia.
  pose proof (Z.div_mod (d * (a / d) - zero_time_ns) 1000000000 ltac:(lia)).
  pose proof (Z.div_mod (d * (b / d) - zero_time_ns) 1000000000 ltac:(lia)).
  pose proof (Z.mod_pos_bound (d * (a / d) - zero_time_ns) 1000000000 ltac:(lia)).
  pose proof (Z.mod_pos_bound (d * (b / d) - zero_time_ns) 1000000000 ltac:(lia)).
  destruct (Z.lt_trichotomy (a / d) (b / d)) as [Hlt|[?|Hlt]]; [|done|]; nia.
Qed.

(** A stateful workload without a useful artifact, decided. *)
Definition lackingb (arts : list ArtifactHealth) (ws : list Workload) : bool :=
  existsb (fun w => is_stateful w && negb (useful_forb arts (WKey w))) ws.

Lemma lackingb_spec arts ws : lackingb arts ws = true <->
  exists w, w ∈ ws /\ w_Class w <> ClassStateless /\ ~ useful_for arts (WKey w).
Proof.
  unfold lackingb. rewrite existsb_exists. setoid_rewrite <- list_elem_of_In.
  setoid_rewrite andb_true_iff. setoid_rewrite <- useful_for_reflect.
  unfold is_stateful. setoid_rewrite negb_true_iff. setoid_rewrite bool_decide_eq_false.
  setoid_rewrite not_true_iff_false. naive_solver.
Qed.

Lemma observed_healthy arts ws :
  fst (Healthy (mkInventory [] (List.map workload_of (List.map item_of ws))) arts) = negb (lackingb arts ws).
Proof.
  apply eq_true_iff_eq. rewrite Healthy_true, negb_true_iff, <- not_true_iff_false, lackingb_spec.
  cbn [inv_Workloads]. rewrite map_map. setoid_rewrite list_elem_of_In. split.
  - intros H (w & Hw & Hc & Hn). apply Hn. apply (H (workload_of (item_of w))); [|done].
    apply in_map_iff. eauto.
  - intros H w' (w & <- & Hw)%in_map_iff Hc. destruct (decide (useful_forb arts (WKey w) = true)) as [Hu|Hu].
    + by apply useful_for_reflect in Hu.
    + exfalso. apply H. exists w. rewrite <- useful_for_reflect. done.
Qed.

Lemma lacking_stateful arts ws : lackingb arts ws = true -> (0 <? length (List.filter is_stateful ws)) = true.
Proof.
  unfold lackingb. intros (w & Hw & H)%existsb_exists. boolify. apply Nat.ltb_lt.
  assert (w ∈ List.filter is_stateful ws) as Hin by (by apply list_elem_of_In, filter_In).
  destruct (List.filter is_stateful ws); [by apply elem_of_nil in Hin|cbn; lia].
Qed.

Lemma unclassified_some ws : (0 <? length (List.filter w_Unclassified ws)) = true <->
  exists w, w ∈ ws /\ w_Unclassified w = true.
Proof.
  rewrite Nat.ltb_lt. setoid_rewrite list_elem_of_In. split.
  - intros H. destruct (List.filter w_Unclassified ws) as [|w l] eqn:E; [cbn in H; lia|].
    exists w. apply filter_In. rewrite E. by left.
  - intros (w & Hw & Hu). assert (In w (List.filter w_Unclassified ws)) as Hin by (by apply filter_In).
    destruct (List.filter w_Unclassified ws); [done|cbn; lia].
Qed.

(** ** Properties *)

(** C1: for every answer of the API servers, everything a Policy pass writes is
    a status update or one of the Actions the Policy asks for, under the
    conditions of the code. A status update is of the version last read and
    makes one of three changes: the verdict on the inventory this run classified
    (artifacts and lag kept), the failure of that classification, or the lag the
    live Replicate reports. The Actions are a Backup of the current window that
    does not exist yet, the one live Replicate (created, labelled, or deleted
    when switched off), and the one automatic Restore, when a claim of a
    classified stateful workload is not found in the destination this run
    resolved and every stateful artifact is useful. It writes to no cluster.
    A pass that could not read the Policy makes no other call: it is over when
    the Policy is gone and returns the read's error otherwise. Every pass that
    read its Policy is scheduled again and returns no error. *)
Theorem policy_pass_writes {R : Retry} Catalog r ns name :
  (forall f p, pr_Resolve r = Some f -> reads_only (f p)) ->
  always (Reconcile Catalog r ns name) (fun log res =>
    (exists e, log = [mkEvent (hubGetPolicy ns name) (Err e)] /\
       (err_reason e = NotFound -> res = mkResult 0%Z None) /\
       (err_reason e <> NotFound -> res = mkResult 0%Z (Some e))) \/
    (exists pol, head log = Some (mkEvent (hubGetPolicy ns name) (Ok pol)) /\
       (forall e, e ∈ written log -> policy_write (mkPolicyPass Catalog r pol) log e) /\
       (0 < RequeueAfter res)%Z /\ res_err res = None)).
Proof.
  intros Hr. unfold Reconcile, always. wp_call pol. destruct pol as [pol|e].
  2: { left. exists e. split; [done|]. unfold ignore_not_found. cbn. by split; intros H; case_if; boolify. }
  set (log := [] ++ _). assert (clean (mkPolicyPass Catalog r pol) log) as Hc.
  { apply clean_event; [|discriminate]. intros e He. by apply elem_of_nil in He. }
  destruct (pr_KubeClient r) as [hub|] eqn:Hk.
  - eapply wp_mono_ext; [by apply (policy_after_read (mkPolicyPass Catalog r pol) ns name hub log Hr)|].
    intros ext res (Hc' & Hq & Herr). right. exists pol. by split_and!.
  - cbn [wp]. right. exists pol. by split_and!.
Qed.

(** A Policy that asks for everything, over a source with one claim that the
    destination lacks and whose artifact is useful: the pass writes the status
    and creates the Backup, the live Replicate and the Restore. *)
Definition busy_claim : PVC :=
  mkPVC (new_meta "data" "shop" None None) ["ReadWriteOnce"] "1Gi" None "" None None None "Bound" JNull.
Definition busy_policy : Policy :=
  mkPolicy "p" "shop" 1
    (mkPolicySpec "east-west" [] (mkBackupSpec true "1h" false "") (mkReplicateSpec true "" "")
       (mkRestoreSpec true false "") (mkCutoverSpec "" "") (mkRendererSpec RendererSanitize "" None)
       (mkClusterObjectsSpec false None [] []) ∅)
    (mkPolicyStatus PolicyHealthy "" [] [mkArtifactHealth (WKey (orphan "shop" busy_claim)) true 64 "id" None ""]
       true "" 0).
Definition busy_pair : Pair :=
  mkPair (mkEndpoints "east" (Some (Kube 1)) None None None) (mkEndpoints "west" (Some (Kube 2)) None None None).
Definition busy_reconciler : PolicyReconciler :=
  mkPolicyReconciler (Some (Kube 0)) (Some (fun _ => let* _ := trigger (getenv "HOME") in Ret (Ok busy_pair))).
Definition busy_world (X : Type) (e : ev X) : option X :=
  match e in ev X return option X with
  | hubGetPolicy _ _ => Some (Ok busy_policy)
  | hubGetPair _ => Some (Err (errorf "timeout"))
  | getenv _ => Some EmptyString
  | kList (Kube 1) KPVC _ => Some (Ok [busy_claim])
  | kList (Kube 1) _ _ => Some (Ok [])
  | kGet (Kube 2) _ _ _ => Some (Err (mkErr NotFound "not found"))
  | hubGetAction _ _ => Some (Err (mkErr NotFound "not found"))
  | now => Some 0%Z
  | hubUpdatePolicyStatus _ | hubCreateAction _ => Some None
  | _ => None
  end.

Lemma policy_pass_writes_witness : exists log res,
  run busy_world (Reconcile (R := default_retry) builtin_catalog busy_reconciler "shop" "p") [] = Some (log, res) /\
  length (written log) = 4 /\
  (forall e, e ∈ written log -> policy_write (mkPolicyPass builtin_catalog busy_reconciler busy_policy) log e) /\
  res_err res = None.
Proof.
  assert (forall f p, pr_Resolve busy_reconciler = Some f -> reads_only (f p)) as Hr by (intros f p [= <-]; by reads).
  pose proof (fun log res => run_wp busy_world _ [] _ log res
    (policy_pass_writes (R := default_retry) builtin_catalog busy_reconciler "shop" "p" Hr)) as H.
  destruct (run busy_world _ []) as [[log res]|] eqn:E; [|vm_compute in E; discriminate].
  exists log, res. split; [done|]. specialize (H log res eq_refl).
  vm_compute in E. injection E as <- <-. split; [reflexivity|].
  destruct H as [(e & He & _)|(pol & Hp & Hw & _ & Hn)]; [by apply (f_equal length) in He|].
  split; [|exact Hn]. enough (pol = busy_policy) as -> by exact Hw.
  set (read := fun e : event ev => let '(mkEvent c x) := e in
    match c in ev X return X -> option Policy with hubGetPolicy _ _ => fun x => ok_of x | _ => fun _ => None end x).
  apply (f_equal (fun o => o ≫= read)) in Hp. cbn in Hp. by injection Hp.
Defined.

(** C35: with a period of a second or more and a policy name that leaves room
    for the slot, two times name the same Backup exactly when they fall in the
    same window, so each window gets one; when the name leaves no room, every
    window gets the same name and the first Backup is the last; and with a
    period under a second, which is accepted, windows of the same second share
    a name whatever the policy is called. *)
Theorem rpoBackupName_window policy t1 t2 d :
  ((Second <= d)%Z ->
   (String.length ("backup-" +:+ policy +:+ "-" +:+ Itoa (Unix (Truncate t1 d))) <= 63)%nat ->
   (String.length ("backup-" +:+ policy +:+ "-" +:+ Itoa (Unix (Truncate t2 d))) <= 63)%nat ->
   (rpoBackupName policy t1 d = rpoBackupName policy t2 d <-> Truncate t1 d = Truncate t2 d)) /\
  ((63 <= String.length ("backup-" +:+ policy))%nat -> rpoBackupName policy t1 d = rpoBackupName policy t2 d) /\
  (let half := (Second / 2)%Z in
   Truncate 0%Z half <> Truncate half half /\ rpoBackupName policy 0%Z half = rpoBackupName policy half half).
Proof.
  unfold rpoBackupName. split_and!.
  - intros Hd H1 H2. rewrite !cap_len_small by done. split; [|by intros ->].
    intros E%app_inj_l_str%app_inj_l_str%app_inj_l_str%Itoa_inj. by apply window_second.
  - intros Hl. assert (forall s, cap_len 63 (("backup-" +:+ policy) +:+ s) = take_str 63 ("backup-" +:+ policy)) as Hc
      by (intros; by apply cap_len_app_long).
    by rewrite <- !(app_assoc_str "backup-" policy), !Hc.
  - vm_compute. discriminate.
  - reflexivity.
Qed.

(** the status written says Unhealthy exactly when a stateful workload of
    the inventory has no useful artifact, Degraded when only the classification
    is incomplete, Healthy otherwise; BackupHealthy is the same judgement the
    Backup Action makes, and artifacts and lag are left as they were. *)
Theorem observe_judges pol inv :
  let st := observe pol inv in
  let lacking := exists w, w ∈ inv_Workloads inv /\ w_Class w <> ClassStateless /\
                   ~ useful_for (pst_Artifacts (pol_Status pol)) (WKey w) in
  (pst_Phase st = PolicyUnhealthy <-> lacking) /\
  (pst_BackupHealthy st = true <-> ~ lacking) /\
  (pst_Phase st = PolicyDegraded <-> ~ lacking /\ exists w, w ∈ inv_Workloads inv /\ w_Unclassified w = true) /\
  (pst_Phase st = PolicyUnhealthy \/ pst_Phase st = PolicyDegraded \/ pst_Phase st = PolicyHealthy) /\
  List.map ii_PVCNames (pst_Inventory st) = List.map w_PVCNames (inv_Workloads inv) /\
  pst_Artifacts st = pst_Artifacts (pol_Status pol) /\ pst_ReplicaLag st = pst_ReplicaLag (pol_Status pol).
Proof.
  cbv zeta. rewrite <- lackingb_spec, <- unclassified_some. unfold observe.
  set (arts := pst_Artifacts (pol_Status pol)). set (ws := inv_Workloads inv).
  pose proof (observed_healthy arts ws) as Hh. pose proof (lacking_stateful arts ws) as Hs.
  destruct (Healthy _ arts) as [healthy missing]. cbn [fst] in Hh. subst healthy.
  destruct (lackingb arts ws).
  - rewrite Hs by done. cbn. split_and!; try done; [..|by rewrite map_map]; intuition congruence.
  - rewrite andb_false_r. destruct (0 <? length (List.filter w_Unclassified ws)); cbn;
      (split_and!; try done; [..|by rewrite map_map]; intuition congruence).
Qed.
