(* ===== verification/OffHub.v ===== *)
(** * What does not write to the hub

    The movers, the snapshots, the dumps, the probes, the graph and the
    renderers only talk to the clusters, the store and the network: none of
    their calls creates, updates or deletes an Action, a Policy or a
    ClusterPair. The theorems about the Action reconciler use this of every
    component, and of every mover through the interface [OffHub]. *)

From Stdlib Require Import ZArith Lia.
From S2P Require Import Prelude GoStrings Effects ObjectStore Api Json Kube Unstructured Classify Movers.
From S2P Require Import Workloads Clusters Retry ActionFacts ActionRun.
From S2P Require Usefulness Probe Dump Heal Snapshots Graph Capsule Secrets Scratch DestPins Sync Volsync Postgres Traffic Export Render.

(** The calls that write a resource of the hub, or count a finished Action. *)
Definition hub_write {X} (e : ev X) : bool :=
  match e with
  | hubCreateAction _ | hubUpdateAction _ | hubUpdateActionStatus _ | hubDeleteAction _ _
  | hubUpdatePolicyStatus _ | hubUpdatePairStatus _ | counterInc _ _ => true
  | _ => false
  end.

Abbreviation off_hub := (only (fun X (e : ev X) => hub_write e = false)).

Create HintDb off_hub.

Ltac head t := match t with ?f _ => head f | _ => t end.

(** Decomposing a program into its calls, unfolding its definition when no
    lemma is known for it. *)
Ltac off := repeat first
  [ done
  | progress intros
  | progress (cbv beta zeta)
  | solve [auto with off_hub nocore]
  | apply only_bind; [|intros]
  | apply only_trigger
  | apply only_foldM; intros
  | apply only_loopM; intros
  | match goal with |- only _ (match ?x with _ => _ end) => destruct x end
  | match goal with |- only _ ((match ?x with _ => _ end) _) => destruct x end
  | match goal with |- only _ ?m => let h := head m in unfold h end ].

Section components.
  Context {U : Unstructured} {C : Export.Converter} {L : Library} {R : Retry} (Catalog : list Engine).

Lemma off_ListPods c w : off_hub (ListPods c w). Proof. off. Qed.
Lemma off_Ready c w : off_hub (Ready c w). Proof. off. Qed.
Lemma off_FirstReadyPod c w : off_hub (FirstReadyPod c w). Proof. off. Qed.
Lemma off_Scale c w n : off_hub (Scale c w n). Proof. off. Qed.
Lemma off_ScaledToZero c w : off_hub (ScaledToZero c w). Proof. off. Qed.
Lemma off_Run c x w : off_hub (Probe.Run c x w). Proof. off. Qed.
Lemma off_LiveBytes c x w : off_hub (Probe.LiveBytes c x w). Proof. off. Qed.
Lemma off_Dump c x s w t : off_hub (Dump.Capture c x s w t). Proof. off. Qed.
Lemma off_Replay c x s w k : off_hub (Dump.Apply c x s w k). Proof. off. Qed.
#[local] Hint Resolve off_Ready off_FirstReadyPod off_Scale off_ScaledToZero off_Run off_LiveBytes
  off_Dump off_Replay : off_hub.

Lemma off_Walk c nss : off_hub (Walk Catalog c nss). Proof. off. Qed.
Lemma off_CreateForWorkload c w cl t : off_hub (Snapshots.CreateForWorkload c w cl t). Proof. off. Qed.
Lemma off_LatestReady c w : off_hub (Snapshots.LatestReady c w). Proof. off. Qed.
Lemma off_EnsurePVC c k w n o : off_hub (Snapshots.EnsurePVCFromSnapshot MustParse c k w n o). Proof. off. Qed.
Lemma off_CredsFromEnv : off_hub (CredsFromEnv url_Parse getenv). Proof. off. Qed.
Lemma off_FromEnv : off_hub (FromEnv url_Parse getenv newMemory loadAWSConfig). Proof. off. Qed.
Lemma off_Capture c d spec nss o : off_hub (Graph.Capture ParseGroupVersion gvr_String Catalog c d spec nss o).
Proof. off. Qed.
Lemma off_Attest d items : off_hub (Sync.Attest d items). Proof. off. Qed.
Lemma off_updateWithRetry d gvr ns o n : off_hub (Sync.updateWithRetry d gvr ns o n). Proof. off. Qed.
Lemma off_observe d t c : off_hub (Capsule.observeCapsuleCaller d t c). Proof. off. Qed.
#[local] Hint Resolve off_updateWithRetry off_observe : off_hub.
Lemma off_annotated d n t a e : off_hub (Sync.annotated d n t a e). Proof. off. Qed.
Lemma off_ensureCaller d t c : off_hub (Capsule.ensureCapsuleCaller sha256 d t c). Proof. off. Qed.
#[local] Hint Resolve off_annotated off_ensureCaller : off_hub.
Lemma off_syncNamespace d g ns o : off_hub (Sync.syncNamespace sha256 d g ns o). Proof. off. Qed.
#[local] Hint Resolve off_syncNamespace : off_hub.
Lemma off_Sync d items : off_hub (Sync.Sync sha256 d items). Proof. off. Qed.
Lemma off_export c w : off_hub (Export.export_Workload c w). Proof. off. Qed.
Lemma off_Typed c objs : off_hub (Export.Typed c objs). Proof. off. Qed.
Lemma off_Render x q : off_hub (Render.Render Catalog yaml_documents x q). Proof. off. Qed.
Lemma off_Switch h e : off_hub (Traffic.Switch h e). Proof. off. Qed.
Lemma off_Rollback h e : off_hub (Traffic.Rollback h e). Proof. off. Qed.

(** ** The interface of the movers *)

Record OffHub (m : Mover) : Prop := {
  off_Discover w : off_hub (mv_Discover m w);
  off_Backup w d : off_hub (mv_Backup m w d);
  off_Replicate w s d : off_hub (mv_Replicate m w s d);
  off_Restore w a d : off_hub (mv_Restore m w a d);
  off_Promote w d : off_hub (mv_Promote m w d);
  off_Probe w d : off_hub (mv_Probe m w d) }.

Lemma OffHub_webhook p : OffHub (Webhook.mover p).
Proof. split; intros; cbn; off. Qed.

Lemma OffHub_postgres m : OffHub (Postgres.mover m).
Proof. split; intros; cbn; off. Qed.

Lemma off_EnsureSecrets c ns cr path n : off_hub (Secrets.EnsureSecrets url_Parse c ns cr path n).
Proof. off. Qed.
Lemma off_CopySecrets s d ns w : off_hub (Secrets.CopySecrets s d ns w). Proof. off. Qed.
Lemma off_protect s d ns : off_hub (Scratch.protectCaches s d ns). Proof. off. Qed.
Lemma off_strip s d ns : off_hub (DestPins.stripDestScheduling Catalog s d ns). Proof. off. Qed.
#[local] Hint Resolve off_EnsureSecrets off_CopySecrets off_protect off_strip : off_hub.

Lemma OffHub_volsync m : OffHub (Volsync.mover Catalog url_Parse m).
Proof. split; intros; cbn; off. Qed.

#[local] Hint Resolve off_CreateForWorkload off_LatestReady off_EnsurePVC off_CredsFromEnv off_FromEnv
  off_Capture off_Attest off_Sync off_export off_Typed off_Render off_Switch off_Rollback : off_hub.

(** ** The reconciler's helpers

    The injected clock and resolver are the caller's. *)

Record OffHubReconciler (r : ActionReconciler) : Prop := {
  off_clock m : acr_Now r = Some m -> off_hub m;
  off_resolver f p : acr_Resolve r = Some f -> off_hub (f p) }.

Context (r : ActionReconciler) (Hr : OffHubReconciler r).

Lemma off_now : off_hub (now_of r).
Proof. unfold now_of. destruct (acr_Now r) eqn:E; [by apply (off_clock r Hr)|done]. Qed.

Lemma off_endpoints pair : off_hub (endpoints r pair).
Proof.
  unfold endpoints. destruct (acr_Resolve r) as [f|] eqn:E; [|off].
  apply only_bind; [by eapply off_resolver|]. off.
Qed.
#[local] Hint Resolve off_now off_endpoints : off_hub.

Lemma off_capture pol pair ep w : off_hub (captureClusterObjects Catalog r pol pair ep w). Proof. off. Qed.
Lemma off_sync pol pair ep : off_hub (syncClusterObjectsLive Catalog r pol pair ep). Proof. off. Qed.
Lemma off_restore_graph pair ep id : off_hub (restoreClusterObjects Catalog r pair ep id). Proof. off. Qed.
Lemma off_heal c w : off_hub (healWorkloadOn Catalog c w). Proof. off. Qed.
Lemma off_prune pol ep inv : off_hub (pruneVolSync pol ep inv). Proof. off. Qed.
#[local] Hint Resolve off_capture off_sync off_restore_graph off_heal off_prune : off_hub.

(** The registry holds these movers only. *)
Lemma Forall_Register (P : Mover -> Prop) ms reg : Forall P reg -> Forall P ms ->
  Forall P (fold_left Registry.Register ms reg).
Proof.
  intros Hreg Hms. revert reg Hreg. induction Hms as [|m ms Hm _ IH]; intros reg Hreg; [done|].
  cbn. apply IH. apply Forall_app. split; [done|]. by apply Forall_singleton.
Qed.

Lemma registry_movers (P : Mover -> Prop) pair ep :
  (forall p, P (Webhook.mover p)) -> P (Postgres.mover (postgres_mover ep)) ->
  (forall m, P (Volsync.mover Catalog url_Parse m)) -> returns (Forall P) (registry Catalog r pair ep).
Proof.
  intros Hw Hp Hv. unfold registry. eapply returns_bind; [apply returns_True|]. intros creds _.
  eapply returns_bind; [apply returns_True|]. intros snap _.
  apply returns_call. intros schedule. unfold registerPlugins.
  assert (forall reg, Forall P reg -> returns (Forall P)
    (if negb (acr_Client r) then Ret reg else let* l := trigger hubListPlugins in
     Ret (match l with Err _ => reg | Ok l => fold_left Registry.Register (plugin_movers l) reg end))) as H.
  { intros reg Hreg. case_if; [done|]. apply returns_call. intros [l|e]; [|done]. apply Forall_Register; [done|].
    unfold plugin_movers. apply Forall_forall. intros m. rewrite list_elem_of_In, in_map_iff.
    intros (p & <- & _). apply Hw. }
  assert (forall reg m, Forall P reg -> P m -> Forall P (Registry.Register reg m)) as Hreg
    by (intros; apply Forall_app; split; [done|by apply Forall_singleton]).
  apply H. case_if; repeat apply Hreg; first [apply Hv | apply Hp | constructor].
Qed.

Lemma OffHub_registry pair ep : returns (Forall OffHub) (registry Catalog r pair ep).
Proof. apply registry_movers; intros; [apply OffHub_webhook|apply OffHub_postgres|apply OffHub_volsync]. Qed.

(** ** The selection of a mover *)

Lemma off_registry pair ep : off_hub (registry Catalog r pair ep).
Proof. off. Qed.

Lemma only_Select (Q : forall X, ev X -> Prop) reg w name :
  Forall (fun m => forall w, only Q (mv_Discover m w)) reg -> only Q (Registry.Select reg w name).
Proof.
  intros Hreg. unfold Registry.Select. case_if.
  - destruct (Registry.Get reg name) as [m|] eqn:E; [|done]. unfold Registry.Get in E.
    apply find_Some_elem in E as [Hm _]. rewrite Forall_forall in Hreg. apply only_bind; [|by intros [? ?]].
    by apply Hreg.
  - induction Hreg as [|m reg Hm _ IH]; [done|]. cbn [Registry.select_first]. case_if; [done|].
    apply only_bind; [by apply Hm|]. intros [cap [e|]]; [done|]. by case_if.
Qed.

Lemma off_Select reg w name : Forall OffHub reg -> off_hub (Registry.Select reg w name).
Proof. intros Hreg. apply only_Select. eapply Forall_impl; [exact Hreg|]. intros m Hm w'. by apply off_Discover. Qed.

(** The mover selected is one of the registry. *)
Lemma Select_among (P : Mover -> Prop) reg w name : Forall P reg ->
  returns (fun x => match x with (Some m, _, _) => P m | _ => True end) (Registry.Select reg w name).
Proof.
  intros Hreg. unfold Registry.Select. case_if.
  - destruct (Registry.Get reg name) as [m|] eqn:E; [|done]. unfold Registry.Get in E.
    apply find_Some_elem in E as [Hm _]. rewrite Forall_forall in Hreg.
    eapply returns_bind; [apply returns_True|]. intros [cap e] _. by apply Hreg.
  - induction Hreg as [|m reg Hm _ IH]; [done|]. cbn [Registry.select_first]. case_if; [done|].
    eapply returns_bind; [apply returns_True|]. intros [cap [e|]] _; [done|]. by case_if.
Qed.

(** ** The runs

    [Q] holds of every call that is not a write to the hub. *)

Context (Q : forall X, ev X -> Prop) (HQ : forall X (e : ev X), hub_write e = false -> Q X e).

Lemma lift_off {A} (m : io ev A) : off_hub m -> only Q m.
Proof. by apply only_mono. Qed.

(** Selecting and going on with what was selected. *)
Lemma only_selecting {A} reg w name (f : option Mover * Capability * option err -> io ev A) :
  Forall OffHub reg ->
  (forall m cap e, match m with Some m => OffHub m | None => True end -> only Q (f (m, cap, e))) ->
  only Q (let* x := Registry.Select reg w name in f x).
Proof.
  intros Hreg Hf. eapply only_bind_returns; [by apply lift_off, off_Select|by apply Select_among|].
  intros [[m cap] e] Hm. by apply Hf.
Qed.

Lemma off_panics {A} msg : off_hub (@panics A msg).
Proof. by split. Qed.

#[local] Hint Resolve off_panics off_Backup off_Replicate off_Restore off_Promote off_Probe off_registry : off_hub.

Ltac run := repeat first
  [ done
  | progress intros
  | progress (cbv beta zeta)
  | solve [auto with off_hub nocore]
  | solve [apply lift_off; auto with off_hub nocore]
  | apply only_selecting; [done|intros]
  | apply only_bind; [|intros]
  | solve [apply only_trigger, HQ; done]
  | apply only_foldM; intros
  | apply only_loopM; intros
  | match goal with |- only _ (match ?x with _ => _ end) => destruct x end
  | match goal with |- only _ ((match ?x with _ => _ end) _) => destruct x end
  | match goal with |- only _ ?m => let h := head m in unfold h end ].

Lemma run_backup_one pol pair ep reg arts w : Forall OffHub reg ->
  only Q (backup_one Catalog r pol pair ep reg arts w).
Proof. intros Hreg. run. Qed.

Lemma run_cutover pol pair ep inv act : only Q (runCutover Catalog r act pol pair ep inv).
Proof.
  unfold runCutover. apply only_bind; [run|intros t].
  eapply only_bind_returns; [run|apply OffHub_registry|]. intros reg Hreg. run.
Qed.

Lemma run_replicate pol pair ep inv act : only Q (runReplicate Catalog r act pol pair ep inv).
Proof.
  unfold runReplicate. eapply only_bind_returns; [run|apply OffHub_registry|]. intros reg Hreg. run.
Qed.

Lemma run_backup pol pair ep inv : (forall p, Q _ (hubUpdatePolicyStatus p)) ->
  only Q (runBackup Catalog r pol pair ep inv).
Proof.
  intros Hp. unfold runBackup. eapply only_bind_returns; [run|apply OffHub_registry|]. intros reg Hreg.
  apply only_bind; [apply only_foldM; intros; by apply run_backup_one|]. intros arts. apply only_bind.
  - unfold writePolicyArtifacts. apply only_bind; [apply only_retry|done]. run.
  - run.
Qed.

Lemma run_restore_one pol pair ep phase reg f w : (forall a, Q _ (hubUpdateAction a)) ->
  Forall OffHub reg -> only Q (restore_one Catalog r pol pair ep phase reg f w).
Proof.
  intros Ha Hreg. assert (forall f k, only Q (rememberDumpApplied (rf_Act f) k)).
  { intros. apply only_retry. run. }
  assert (forall pair k a w f, only Q (restore_data Catalog r pair ep phase k a w f)).
  { intros. unfold restore_data. run. }
  run.
Qed.

Lemma run_restore pol pair ep inv act : (forall a, Q _ (hubUpdateAction a)) ->
  only Q (runRestore Catalog r act pol pair ep inv).
Proof.
  intros Ha. unfold runRestore. apply only_bind; [run|intros t].
  eapply only_bind_returns; [run|apply OffHub_registry|]. intros reg Hreg.
  apply only_bind; [run|intros stop]. destruct stop as [x|]; [done|]. apply only_bind.
  - apply only_loopM. intros f w. by apply run_restore_one.
  - run.
Qed.
End components.

#[export] Hint Resolve off_ListPods off_Ready off_FirstReadyPod off_Scale off_ScaledToZero off_Run off_LiveBytes
  off_Dump off_Replay off_Walk off_CreateForWorkload off_LatestReady off_EnsurePVC off_CredsFromEnv off_FromEnv
  off_Capture off_Attest off_Sync off_export off_Typed off_Render off_Switch off_Rollback off_now off_endpoints
  off_capture off_sync off_restore_graph off_heal off_prune off_panics off_registry
  off_Backup off_Replicate off_Restore off_Promote off_Probe off_Select : off_hub.
