(* ===== verification/CutoverPass.v ===== *)
(** * What a cutover pass does to the clusters

    One pass of [runCutover] (ActionRun.v) is the composition of scaling, the
    object graph, the movers, the probes and the traffic hook. This file states
    which of their calls may happen in which phase: the source is frozen before
    the destination is touched and only a rollback scales it again. *)

From Stdlib Require Import ZArith Lia.
From S2P Require Import Prelude GoStrings Effects ObjectStore Api Json Kube Unstructured Classify Movers.
From S2P Require Import Workloads Clusters Retry ActionFacts ActionRun OffHub.
From S2P Require Cutover Probe Graph Capsule Sync Volsync Postgres Traffic Export.

(** The phases in which the destination is brought up, and those in which a
    webhook is called. *)
Definition serving (p : ActionPhase) : bool :=
  match p with ActionPhasePromoting | ActionPhaseSwitching | ActionPhaseWaitingReady => true | _ => false end.
Definition calling (p : ActionPhase) : bool :=
  match p with ActionPhasePromoting | ActionPhaseSwitching => true | _ => false end.

(** The replicas a scaled object asks for. *)
Definition replicas_of (k : kind) : kobj k -> option Z :=
  match k with KStatefulSet => sts_Replicas | KDeployment => dep_Replicas | _ => fun _ => None end.

Section rule.
  Context (r : ActionReconciler) (phase : ActionPhase) (rollback : bool) (ep : Pair).

Definition on_source (c : kube) : Prop := ep_Kube (pr_Source ep) = Some c.
Definition on_dest (c : kube) : Prop := ep_Kube (pr_Dest ep) = Some c.

(** The calls a pass may make that change something. *)
Definition acts (X : Type) (e : ev X) : Prop :=
  match e with
  | kUpdate c k _ o =>
      on_source c /\ before_freeze phase = true /\ replicas_of k o = Some 0%Z \/
      on_source c /\ rollback = true \/
      on_dest c /\ serving phase = true /\ replicas_of k o = Some 1%Z
  | kCreate _ _ _ _ | kDelete _ _ _ _ => False
  | dCreate c _ _ _ | dUpdate c _ _ _ | dDelete c _ _ _ =>
      destDynamic ep (acr_Dynamic r) = Ok (Some c)
  | exec x _ _ _ _ _ => ep_Exec (pr_Dest ep) = Some x
  | httpPost _ _ _ => calling phase = true \/ rollback = true
  | storePut _ _ _ => False
  | hubCreateAction _ | hubUpdateAction _ | hubUpdateActionStatus _ | hubDeleteAction _ _
  | hubUpdatePolicyStatus _ | hubUpdatePairStatus _ => False
  | _ => True
  end.
End rule.

Create HintDb acts.

(** Going through a program call by call, like [off]. *)
Ltac acting := repeat first
  [ done
  | progress intros
  | progress (cbv beta zeta)
  | solve [auto with acts nocore]
  | apply only_bind; [|intros]
  | apply only_trigger
  | apply only_foldM; intros
  | apply only_loopM; intros
  | match goal with |- only _ (match ?x with _ => _ end) => destruct x eqn:? end
  | match goal with |- only _ ((match ?x with _ => _ end) _) => destruct x eqn:? end
  | match goal with |- only _ ?m => let h := head m in unfold h end ].

Section components.
  Context {U : Unstructured} {L : Library} (Catalog : list Engine).
  Context (r : ActionReconciler) (phase : ActionPhase) (rollback : bool) (ep : Pair).

Abbreviation A := (acts r phase rollback ep).

Lemma acts_Scale c w n :
  (on_source ep c /\ before_freeze phase = true /\ n = 0%Z) \/ (on_source ep c /\ rollback = true) \/
  (on_dest ep c /\ serving phase = true /\ n = 1%Z) -> only A (Scale c w n).
Proof.
  intros H. unfold Scale. do 2 (case_if; [apply only_bind; [by split|]; intros [o|e]; [|done]; split; [|done];
    destruct H as [(? & ? & ->)|[?|(? & ? & ->)]]; cbn; auto|]). done.
Qed.

Lemma acts_ListPods c w : only A (ListPods c w). Proof. acting. Qed.
Lemma acts_Ready c w : only A (Ready c w). Proof. acting. Qed.
Lemma acts_FirstReadyPod c w : only A (FirstReadyPod c w). Proof. acting. Qed.
Lemma acts_ScaledToZero c w : only A (ScaledToZero c w). Proof. acting. Qed.
#[local] Hint Resolve acts_Ready acts_FirstReadyPod acts_ScaledToZero : acts.

Lemma acts_Run c x w : ep_Exec (pr_Dest ep) = Some x -> only A (Probe.Run c (Some x) w).
Proof. intros Hx. acting. Qed.

(** The object graph: read from the source, written through the destination's
    dynamic client. *)
Section graph.
  Context (d : dyn) (Hd : destDynamic ep (acr_Dynamic r) = Ok (Some d)).

Lemma acts_updateWithRetry gvr ns o n : only A (Sync.updateWithRetry d gvr ns o n). Proof. acting. Qed.
Lemma acts_observe t c : only A (Capsule.observeCapsuleCaller d t c). Proof. acting. Qed.
#[local] Hint Resolve acts_updateWithRetry acts_observe : acts.
Lemma acts_annotated n t a e : only A (Sync.annotated d n t a e). Proof. acting. Qed.
Lemma acts_ensureCaller t c : only A (Capsule.ensureCapsuleCaller sha256 d t c). Proof. acting. Qed.
#[local] Hint Resolve acts_annotated acts_ensureCaller : acts.
Lemma acts_syncNamespace g ns o : only A (Sync.syncNamespace sha256 d g ns o). Proof. acting. Qed.
#[local] Hint Resolve acts_syncNamespace : acts.
Lemma acts_Sync_some items : only A (Sync.Sync sha256 (Some d) items). Proof. acting. Qed.
End graph.

Lemma acts_Sync dest items : destDynamic ep (acr_Dynamic r) = Ok dest -> only A (Sync.Sync sha256 dest items).
Proof. destruct dest as [d|]; intros Hd; [by apply acts_Sync_some|]. acting. Qed.
Lemma acts_Attest d items : only A (Sync.Attest d items). Proof. acting. Qed.
Lemma acts_Capture c d spec nss o : only A (Graph.Capture ParseGroupVersion gvr_String Catalog c d spec nss o).
Proof. acting. Qed.
#[local] Hint Resolve acts_Sync acts_Attest acts_Capture : acts.
Lemma acts_graph pol pair : only A (syncClusterObjectsLive Catalog r pol pair ep).
Proof. acting. Qed.
#[local] Hint Resolve acts_graph : acts.

(** ** The movers *)

Context (dest : kube) (Hdest : ep_Kube (pr_Dest ep) = Some dest).

(** What the pass needs of a mover: it is discovered without acting, and
    promoting acts as the phase allows. *)
Record Promotes (m : Mover) : Prop := {
  promotes_discover w : only A (mv_Discover m w);
  promotes_promote w h : phase = ActionPhasePromoting -> only A (mv_Promote m w h) }.

Lemma Promotes_webhook p : Promotes (Webhook.mover p).
Proof.
  split; [done|]. intros w h Hp. assert (calling phase = true) by by rewrite Hp. acting. by left.
Qed.

Lemma acts_Postgres_Promote w : phase = ActionPhasePromoting -> only A (Postgres.Promote (postgres_mover ep) w).
Proof.
  intros Hp. unfold Postgres.Promote. destruct (Postgres.pg_Exec _) as [x|] eqn:Ex; [|done].
  assert (Postgres.destKube (postgres_mover ep) = Some dest) as -> by (unfold Postgres.destKube; cbn; by rewrite Hdest).
  apply only_bind; [apply acts_Scale; right; right; by rewrite Hp|]. acting.
Qed.

Lemma Promotes_postgres : Promotes (Postgres.mover (postgres_mover ep)).
Proof. split; [done|]. intros w h Hp. by apply acts_Postgres_Promote. Qed.

Lemma Promotes_volsync m : Promotes (Volsync.mover Catalog url_Parse m).
Proof. by split. Qed.

Lemma Promotes_registry pair : returns (Forall Promotes) (registry Catalog r pair ep).
Proof. apply registry_movers; intros; [apply Promotes_webhook|apply Promotes_postgres|apply Promotes_volsync]. Qed.

Lemma acts_registry pair : only A (registry Catalog r pair ep). Proof. acting. Qed.

Lemma acts_lag pair w : only A (lag_zero pair ep w).
Proof. acting. Qed.

Lemma acts_promote pol reg w : Forall Promotes reg -> phase = ActionPhasePromoting ->
  only A (promote pol ep reg w).
Proof.
  intros Hreg Hp. unfold promote. eapply only_bind_returns; [|by apply (Select_among Promotes)|].
  - apply only_Select. eapply Forall_impl; [exact Hreg|]. intros m Hm w'. by apply promotes_discover.
  - assert (only A (Scale dest w 1)) as Hs by (apply acts_Scale; right; right; by rewrite Hp).
    intros [[[m|] cap] e] Hm; [case_if; [apply only_bind; [by apply promotes_promote|done]|]|];
      (case_if; [apply only_bind; [by apply acts_Postgres_Promote|done]|rewrite Hdest; cbn; by apply only_bind]).
Qed.

(** ** The pass *)

(** A clock only tells the time. *)
Definition tells_time (m : io ev time) : Prop :=
  only (fun X (e : ev X) => match e with now => True | _ => False end) m.
Context (Hclock : forall m, acr_Now r = Some m -> tells_time m).

Lemma acts_now : only A (now_of r).
Proof.
  unfold now_of. destruct (acr_Now r) as [m|] eqn:E; [|done]. eapply only_mono; [|by apply Hclock].
  intros X e. by destruct e.
Qed.

Lemma acts_cutover_one pol pair reg f w : Forall Promotes reg ->
  only A (cutover_one Catalog r pol pair ep phase reg f w).
Proof.
  intros Hreg. unfold cutover_one. case_if; [acting|]. apply only_bind.
  { destruct (before_freeze phase) eqn:Hf; [|done]. unfold with_kube.
    destruct (ep_Kube (pr_Source ep)) as [c|] eqn:Ec; [|by split].
    apply only_bind; [apply acts_Scale; by left|done]. }
  intros _. apply only_bind; [apply acts_lag|]. intros lag. apply only_bind.
  { case_if; [|done]. boolify. by apply acts_promote. }
  intros promoted. rewrite Hdest. cbn [with_kube]. apply only_bind.
  { destruct (_ || _) eqn:Hp; [|done]. apply only_bind; [|done]. apply acts_Scale. right. right.
    split_and!; [done| |done]. apply orb_true_iff in Hp as [Hp|Hp]; boolify; by rewrite Hp. }
  intros _. apply only_bind; [auto with acts|]. intros [ready e]. cbv zeta.
  destruct (ep_Exec (pr_Dest ep)) as [x|] eqn:Ex; [|done]. case_if; [|done].
  apply only_bind; [by apply acts_Run|done].
Qed.

Lemma acts_post url e : calling phase = true \/ rollback = true -> only A (Traffic.post url e).
Proof. intros Hc. acting. Qed.

Lemma acts_roll_back pol pair inv : rollback = true -> only A (roll_back pol pair ep inv).
Proof.
  intros Hr. unfold roll_back. apply only_bind.
  - unfold Traffic.Rollback. destruct (traffic_hook pol); [done|]. apply acts_post. by right.
  - intros _. apply only_foldM. intros _ w. unfold unfreeze_one. case_if; [done|]. unfold with_kube.
    destruct (ep_Kube (pr_Source ep)) as [c|] eqn:Ec; [|by split]. apply only_bind; [by split|].
    intros sts. apply only_bind; [|done]. apply acts_Scale. right. by left.
Qed.

Lemma acts_frozen inv : only A (all_frozen ep inv).
Proof. acting. Qed.
End components.

Lemma acts_runCutover {U : Unstructured} {L : Library} Catalog r act pol pair ep inv dest :
  ep_Kube (pr_Dest ep) = Some dest -> (forall m, acr_Now r = Some m -> tells_time m) ->
  only (acts r (as_Phase (act_Status act)) (spec_Rollback (act_Spec act)) ep) (runCutover Catalog r act pol pair ep inv).
Proof.
  intros Hd Hclock. unfold runCutover. apply only_bind; [by apply acts_now|]. intros t.
  eapply only_bind_returns; [apply acts_registry|by eapply Promotes_registry|]. intros reg Hreg.
  apply only_bind; [apply only_foldM; intros; by eapply acts_cutover_one|]. intros f.
  apply only_bind; [case_if; [apply acts_frozen|done]|]. intros frozen.
  apply only_bind.
  { case_if; [|done]. boolify. apply only_bind; [|done]. unfold Traffic.Switch.
    destruct (traffic_hook pol); [done|]. apply acts_post. left. by rewrite Heqb. }
  intros switched. apply only_bind; [case_if; [by apply acts_roll_back|done]|done].
Qed.

(** ** Properties *)

(** C8: what a cutover pass may do, and when. For every answer of the clusters,
    the movers and the network: typed clients only update objects they scale;
    the source is scaled to zero before the freeze is confirmed and scaled
    otherwise only by a rollback; the destination is scaled, to one, only while
    promoting, switching or waiting for it; a webhook is called only while
    promoting or switching, or for a rollback; commands run only in the
    destination's pods; the object graph is written only through the dynamic
    client of the destination; nothing is stored and nothing of the hub is
    written. *)
Theorem cutover_pass_acts {U : Unstructured} {L : Library} Catalog r act pol pair ep inv dest :
  ep_Kube (pr_Dest ep) = Some dest -> (forall m, acr_Now r = Some m -> tells_time m) ->
  always (runCutover Catalog r act pol pair ep inv) (fun log _ => forall e, e ∈ log ->
    acts r (as_Phase (act_Status act)) (spec_Rollback (act_Spec act)) ep (ev_type _ e) (ev_call e)).
Proof.
  intros Hd Hclock. eapply wp_mono; [by eapply wp_only_ext, acts_runCutover|].
  intros log x (ext & -> & Hext) e He. rewrite Forall_forall in Hext. by apply Hext.
Qed.

Lemma cutover_pass_acts_witness :
  let r := mkActionReconciler true (Some (Kube 0)) None None None None None in
  let ep := mkPair (mkEndpoints "east" (Some (Kube 0)) None None None) (mkEndpoints "west" (Some (Kube 1)) None None None) in
  ep_Kube (pr_Dest ep) = Some (Kube 1) /\ forall pol inv,
  always (runCutover (U := plain) (L := some_library) builtin_catalog r (rf_Act replayed_facts) pol None ep inv)
    (fun log _ => forall e, e ∈ log -> acts r (PhaseOther EmptyString) false ep (ev_type _ e) (ev_call e)).
Proof.
  intros r ep. split; [reflexivity|]. intros pol inv.
  apply (cutover_pass_acts (U := plain) (L := some_library) builtin_catalog r (rf_Act replayed_facts)
    pol None ep inv (Kube 1)); [reflexivity|done].
Defined.
