(* ===== verification/ActionLife.v ===== *)
(** * The life of an Action

    The abstract specification of the Action reconciler: how the status of an
    Action may change, by the type in its spec. ActionController.v proves that
    every status the reconciler writes is reached by these steps from the one
    it read; here are the invariants of the steps. *)

From Stdlib Require Import ZArith Lia.
From S2P Require Import Prelude GoStrings Effects Api Kube Classify ActionPhase ActionFacts ActionRun.
From S2P Require Backup Restore Cutover.

Implicit Types (spec : ActionSpec) (st : ActionStatus) (x : Restore.Result).

(** An Action that is over: Succeeded (a live Replicate goes on), RolledBack,
    or Failed (a Restore whose failure can clear goes on). *)
Definition over spec st : bool :=
  match as_Phase st with
  | ActionPhaseSucceeded => negb (bool_decide (spec_Type spec = ActionReplicate)) || spec_DryRun spec
  | ActionPhaseRolledBack => true
  | ActionPhaseFailed => negb (bool_decide (spec_Type spec = ActionRestore)) || negb (restoreRetryable (as_Message st))
  | _ => false
  end.

(** What a run of each type can report from a status. *)
Definition backup_outcome x : Prop := exists inv arts t,
  let br := Backup.Advance zero_ActionStatus (Backup.mkFacts inv arts t) in
  x = restore_result br \/
  exists a, a ∈ arts /\ awaiting a = true /\ Restore.r_Phase x = ActionPhaseCatchingUp /\
    Restore.r_Attestation x = None /\ Restore.r_Workloads x = Backup.r_Workloads br.

Definition restore_outcome (dry : bool) st x : Prop :=
  (exists msg, restoreRetryable msg = true /\
     x = Restore.requeue ActionPhaseRehydrating msg (as_Workloads st) (5 * Second)%Z) \/
  (exists msg, restoreRetryable msg = false /\ x = Restore.fail [] msg) \/
  (exists facts, Restore.f_DryRun facts = dry /\ Restore.Advance st facts = Some x).

Definition replicate_outcome (dry : bool) x : Prop :=
  (Restore.r_Phase x = ActionPhaseSucceeded /\ dry = true) \/
  (Restore.r_Phase x = ActionPhaseFailed /\ Restore.r_Message x = "no replicate-capable mover"%string) \/
  (Restore.r_Phase x = ActionPhaseCatchingUp).

Definition cutover_outcome (dry rollback : bool) st x : Prop := exists facts,
  Cutover.f_DryRun facts = dry /\ Cutover.f_Rollback facts = rollback /\ x = Cutover.Advance st facts.

Definition outcome spec st x : Prop :=
  match spec_Type spec with
  | ActionBackup => backup_outcome x
  | ActionRestore => restore_outcome (spec_DryRun spec) st x
  | ActionReplicate => replicate_outcome (spec_DryRun spec) x
  | ActionCutover => cutover_outcome (spec_DryRun spec) (spec_Rollback spec) st x
  | ActionTypeOther _ => False
  end.

(** The steps: marked Pending, resumed, clocked, failed, or run. A step is
    taken only by an Action that is not over; a resumption only by a failed
    Restore whose failure can clear. *)
Inductive life spec : ActionStatus -> ActionStatus -> Prop :=
| life_pending st : as_Phase st = PhaseOther EmptyString ->
    life spec st (Restore.with_phase ActionPhasePending "pending" (as_CompletionTime st) st)
| life_resume st : over spec st = false -> as_Phase st = ActionPhaseFailed ->
    life spec st (Restore.with_phase ActionPhaseRehydrating (as_Message st) None st)
| life_start st t : over spec st = false ->
    life spec st (mkActionStatus (as_Phase st) (as_Message st) (as_Workloads st) (as_Attestation st) (Some t)
                    (as_CompletionTime st) (as_ObservedGeneration st))
| life_fail st msg now : over spec st = false ->
    life spec st (Restore.with_phase ActionPhaseFailed msg (Some now) st)
| life_run st x start now dest gen : over spec st = false -> as_Phase st <> ActionPhaseFailed ->
    outcome spec st x -> life spec st (Restore.record_result start now dest gen st x).

(** An Action that is over stays as it is. *)
Lemma life_over spec st st' : over spec st = true -> ~ life spec st st'.
Proof.
  intros Ho Hl. inversion Hl as [? Hp|? Hn|? ? Hn|? ? ? Hn|? ? ? ? ? ? Hn]; subst; try congruence.
  unfold over in Ho. by rewrite Hp in Ho.
Qed.

(** What a Succeeded status rests on. *)
Definition backed spec st : Prop := as_Phase st = ActionPhaseSucceeded ->
  match spec_Type spec with
  | ActionBackup => exists inv arts t,
      (forall w, w ∈ inv -> w_Class w <> ClassStateless -> Backup.useful_for arts (WKey w)) /\
      as_Workloads st = Backup.workloadsFrom inv arts /\
      as_Attestation st = Some (mkAttestation t "controller" (as_Workloads st) [])
  | ActionRestore => exists a, as_Attestation st = Some a /\ at_Workloads a = as_Workloads st /\
      (spec_DryRun spec = true /\ at_Source a = "dry-run"%string \/
       at_Source a = "controller"%string /\ completable (at_Workloads a))
  | ActionReplicate => spec_DryRun spec = true
  | ActionCutover => spec_DryRun spec = true \/
      (completable (as_Workloads st) /\ Forall (fun w => ws_Ready w = true) (as_Workloads st) /\
       exists t, as_Attestation st = Some (mkAttestation t "cutover" (as_Workloads st) []))
  | ActionTypeOther _ => False
  end.

Lemma backup_backed inv arts t :
  let br := Backup.Advance zero_ActionStatus (Backup.mkFacts inv arts t) in
  Backup.r_Phase br = ActionPhaseSucceeded ->
  (forall w, w ∈ inv -> w_Class w <> ClassStateless -> Backup.useful_for arts (WKey w)) /\
  Backup.r_Workloads br = Backup.workloadsFrom inv arts /\
  Backup.r_Attestation br = Some (mkAttestation t "controller" (Backup.r_Workloads br) []).
Proof.
  cbv zeta. unfold Backup.Advance. cbn [Backup.f_Inventory Backup.f_Artifacts Backup.f_Now]. pose proof (Backup.Healthy_true (mkInventory [] inv) arts) as H.
  destruct (Backup.Healthy (mkInventory [] inv) arts) as [[] missing]; cbn [negb]; [|done]. intros _.
  split; [by apply H|done].
Qed.

Lemma run_backed spec st x start now dest gen :
  over spec st = false -> outcome spec st x -> backed spec (Restore.record_result start now dest gen st x).
Proof.
  intros Ho Hx. unfold backed, Restore.record_result. cbn. intros Hp. revert Ho Hx.
  unfold over, outcome. destruct (spec_Type spec) eqn:Ht; intros Ho Hx.
  - destruct Hx as (inv & arts & t & [->|(a & _ & _ & Hc & _)]); [|congruence].
    cbn in Hp. destruct (backup_backed inv arts t Hp) as (Hu & Hw & Ha). exists inv, arts, t.
    split_and!; [done|done|]. cbn [restore_result Restore.r_Attestation Restore.r_Workloads]. by rewrite Ha.
  - destruct Hx as [(msg & _ & ->)|[(msg & _ & ->)|(facts & Hd & Hadv)]]; [done|done|].
    destruct (Restore.Advance_succeeded st facts x Hadv Hp) as [(Hs & _)|[(Hdry & _ & ->)|(Hc & ids & -> & _)]].
    + rewrite Hs in Ho. cbn in Ho. done.
    + eexists. split_and!; [done|done|]. left. split; [congruence|done].
    + eexists. split_and!; [done|done|]. by right.
  - destruct Hx as [[_ ->]|[[Hf _]|Hf]]; [done|congruence|congruence].
  - destruct Hx as (facts & Hd & _ & ->).
    assert (Cutover.terminal (as_Phase st) = false) as Hnt.
    { unfold Cutover.terminal. destruct (as_Phase st); try done; cbn in Ho; congruence. }
    destruct (Cutover.Advance_attests st facts Hnt Hp) as [Hdry|(Hc & Hr & ->)]; [left; congruence|].
    right. split_and!; [done|done|]. by eexists.
  - done.
Qed.

(** The invariant of the abstract machine. *)
Lemma life_backed spec st st' : life spec st st' -> backed spec st -> backed spec st'.
Proof.
  intros Hl Hb. destruct Hl as [st _|st _ _|st t _|st msg now _|st x start now dest gen Ho _ Hx]; try done.
  by apply run_backed.
Qed.

Lemma lives_backed spec st st' : rtc (life spec) st st' -> backed spec st -> backed spec st'.
Proof. induction 1 as [|a b c Hab _ IH]; [done|]. intros Ha. by eapply IH, life_backed. Qed.
