(* ===== verification/ActionController.v ===== *)
(** * The Action reconciler: src/internal/controller/action_controller.go

    One pass over an Action: the terminal phases, the Policy and the clusters,
    the run of its type (ActionRun.v), and the status written back. The
    theorems relate what is written to the abstract machines of Restore.v and
    Cutover.v and say what a pass may do to the Actions of the hub. *)

From Stdlib Require Import ZArith Lia.
From S2P Require Import Prelude GoStrings Effects ObjectStore Api GoTime Json Kube Unstructured Classify Movers.
From S2P Require Import Workloads Transform Clusters Retry PolicyController ActionFacts ActionRun OffHub ActionLife.
From S2P Require Metrics Backup Restore Cutover Graph Export.

Section reconcile.
  Context {U : Unstructured} {C : Export.Converter} {L : Library} {R : Retry} (Catalog : list Engine).
  Context (r : ActionReconciler).

(** The status a pass continues with; [None] when the Action is over. *)
Definition resume (act : Action) : option ActionStatus :=
  let st := act_Status act in
  match as_Phase st with
  | ActionPhaseSucceeded =>
      if negb (bool_decide (spec_Type (act_Spec act) = ActionReplicate)) || spec_DryRun (act_Spec act)
      then None else Some st
  | ActionPhaseRolledBack => None
  | ActionPhaseFailed =>
      if negb (bool_decide (spec_Type (act_Spec act) = ActionRestore)) || negb (restoreRetryable (as_Message st))
      then None
      else Some (Restore.with_phase ActionPhaseRehydrating (as_Message st) None st)
  | _ => Some st
  end.

(** A first pass is marked Pending. *)
Definition mark_pending (act : Action) : io ev (res Action) :=
  if bool_decide (as_Phase (act_Status act) = PhaseOther EmptyString) then
    writeStatus (with_act_status
      (Restore.with_phase ActionPhasePending "pending" (as_CompletionTime (act_Status act)) (act_Status act)) act)
  else Ret (Ok act).

(** The clusters, the hub's where a client is missing. *)
Definition fill_endpoints (pair : option ClusterPair) (ep : Pair) : res Pair :=
  let ep := match ep_Kube (pr_Source ep) with
            | None => with_source (mkEndpoints (ep_Name (pr_Source ep)) (acr_Kube r) (acr_Dynamic r) (acr_Exec r)
                                     (ep_REST (pr_Source ep))) ep
            | Some _ => ep
            end in
  match ep_Kube (pr_Dest ep) with
  | None => if dest_remote pair then Err (errorf "destination cluster client is empty")
            else Ok (with_dest (pr_Source ep) ep)
  | Some _ => Ok ep
  end.

(** The result of the pass onto the status, and the status written. *)
Definition record (act : Action) (pair : option ClusterPair) (ep : Pair) (start : time)
    (x : Restore.Result) : io ev Retry.Result :=
  let* t := if Restore.r_Terminal x then now_of r else Ret 0%Z in
  let dest := match pair with Some _ => Some (ep_Name (pr_Dest ep)) | None => None end in
  let* e := writeStatus (with_act_status
              (Restore.record_result start t dest (act_Generation act) (act_Status act) x) act) in
  match e with
  | Err e => Ret (retryLater (Some e))
  | Ok _ =>
      if Restore.r_Terminal x then
        Metrics.ObserveAction (type_to_string (spec_Type (act_Spec act))) (phase_to_string (Restore.r_Phase x)) ;;;
        Ret done_result
      else Ret (mkResult (Restore.r_RequeueAfter x) None)
  end.

(** The run of the Action's type; [None] for a type there is none for. *)
Definition run_type (act : Action) (pol : Policy) (pair : option ClusterPair) (ep : Pair) (inv : Inventory)
    : option (io ev (res Restore.Result)) :=
  match spec_Type (act_Spec act) with
  | ActionBackup => Some (runBackup Catalog r pol pair ep inv)
  | ActionRestore => Some (runRestore Catalog r act pol pair ep inv)
  | ActionReplicate => Some (runReplicate Catalog r act pol pair ep inv)
  | ActionCutover => Some (runCutover Catalog r act pol pair ep inv)
  | ActionTypeOther _ => None
  end.

(** [act.Status.StartTime] is set when it was not. *)
Definition started (act : Action) : io ev time :=
  match as_StartTime (act_Status act) with Some t => Ret t | None => now_of r end.
Definition with_start (t : time) (st : ActionStatus) : ActionStatus :=
  mkActionStatus (as_Phase st) (as_Message st) (as_Workloads st) (as_Attestation st) (Some t)
    (as_CompletionTime st) (as_ObservedGeneration st).

Definition run_action (act : Action) (pol : Policy) (pair : option ClusterPair) (ep : Pair)
    (inv : Inventory) : io ev Retry.Result :=
  let* t := started act in
  let act := with_act_status (with_start t (act_Status act)) act in
  match run_type act pol pair ep inv with
  | None => fail r act ("unsupported action type " +:+ type_to_string (spec_Type (act_Spec act)))
  | Some m =>
      let* x := m in
      match x with
      | Err e => Ret (retryLater (Some e))
      | Ok x => record act pair ep t x
      end
  end.

(** From the pair to the inventory of the source. *)
Definition prepared (act : Action) (pol : Policy) : io ev Retry.Result :=
  let* cp := loadPair pol in
  match cp with
  | Err e => fail r act (err_msg e)
  | Ok cp =>
      let* ep := endpoints r cp in
      match ep with
      | Err e => Ret (retryLater (Some (wrapf "resolve ClusterPair: " e)))
      | Ok ep =>
          match fill_endpoints cp ep with
          | Err e => Ret (retryLater (Some e))
          | Ok ep =>
              let nss := Namespaces (ps_SelectorNamespaces (pol_Spec pol)) (pol_Namespace pol) in
              with_kube (ep_Kube (pr_Source ep)) (fun c =>
                let* inv := Walk Catalog c nss in
                match inv with
                | Err e => Ret (retryLater (Some (wrapf "classify: " e)))
                | Ok inv => run_action act pol cp ep (withClusterObjects (Some pol) inv)
                end)
          end
      end
  end.

Definition Reconcile (ns name : string) : io ev Retry.Result :=
  let* act := trigger (hubGetAction ns name) in
  match act with
  | Err e => Ret (ignore_not_found e)
  | Ok act =>
      match resume act with
      | None => Ret done_result
      | Some st =>
          let act := with_act_status st act in
          match acr_Kube r with
          | None => Ret (retryLater (Some (errorf "kube client is not configured")))
          | Some _ =>
              if String.eqb (spec_PolicyRef (act_Spec act)) EmptyString then fail r act "spec.policyRef is required"
              else
                let* pol := trigger (hubGetPolicy (act_Namespace act) (spec_PolicyRef (act_Spec act))) in
                match pol with
                | Err e => fail r act ("policy: " +:+ err_msg e)
                | Ok pol =>
                    let* a := mark_pending act in
                    match a with
                    | Err e => Ret (retryLater (Some (wrapf "mark action pending: " e)))
                    | Ok act => prepared act pol
                    end
                end
          end
      end
  end.
End reconcile.

(** ** What a run reports *)

Section outcomes.
  Context {U : Unstructured} {C : Export.Converter} {L : Library} {R : Retry} (Catalog : list Engine).
  Context (r : ActionReconciler).

(** A result as [P] says, or an error. *)
Definition reports (P : Restore.Result -> Prop) (m : io ev (res Restore.Result)) : Prop :=
  returns (fun x => match x with Ok x => P x | Err _ => True end) m.

Lemma reports_after {A} (P : Restore.Result -> Prop) (m : io ev A) f :
  (forall a, reports P (f a)) -> reports P (let* a := m in f a).
Proof. intros H. eapply returns_bind; [apply returns_True|]. intros a _. apply H. Qed.

Lemma runBackup_reports pol pair ep inv : reports backup_outcome (runBackup Catalog r pol pair ep inv).
Proof.
  unfold runBackup. apply reports_after. intros reg. apply reports_after. intros arts.
  apply reports_after. intros [e|]; [done|]. apply reports_after. intros t. cbn.
  exists (inv_Workloads inv), arts, t. destruct (List.find awaiting arts) as [a|] eqn:E; [|by left].
  right. apply find_Some_elem in E as [Ha Hw]. exists a. done.
Qed.

Lemma runRestore_reports act pol pair ep inv :
  reports (restore_outcome (spec_DryRun (act_Spec act)) (act_Status act)) (runRestore Catalog r act pol pair ep inv).
Proof.
  unfold runRestore. apply reports_after. intros t. apply reports_after. intros reg.
  eapply returns_bind with (P := fun stop => match stop with
    | Some x => restore_outcome (spec_DryRun (act_Spec act)) (act_Status act) x | None => True end).
  - unfold apply_manifests. case_if; [|done]. eapply returns_bind; [apply returns_True|]. intros out _.
    eapply returns_bind; [apply returns_True|]. intros [e|] _; [|done]. cbn. case_if.
    + left. by eexists.
    + right. left. by eexists.
  - intros [x|] Hx; [exact Hx|]. apply reports_after. intros [f|e]; [|done].
    unfold advance_restore. destruct (Restore.Advance _ _) as [x|] eqn:E; [|by intros []].
    right. right. eexists. split; [|exact E]. done.
Qed.

Lemma runReplicate_reports act pol pair ep inv :
  reports (replicate_outcome (spec_DryRun (act_Spec act))) (runReplicate Catalog r act pol pair ep inv).
Proof.
  unfold runReplicate. apply reports_after. intros reg. apply reports_after. intros [st failed].
  apply reports_after. intros [sts failed']. apply reports_after. intros _. unfold replicate_outcome.
  case_if; [left; auto|]. case_if; [case_if|apply reports_after; intros t]; cbn; boolify; auto.
Qed.

Lemma runCutover_reports act pol pair ep inv :
  reports (cutover_outcome (spec_DryRun (act_Spec act)) (spec_Rollback (act_Spec act)) (act_Status act))
    (runCutover Catalog r act pol pair ep inv).
Proof.
  unfold runCutover. do 6 (apply reports_after; intros ?). cbn. eexists. split_and!; [| |done]; done.
Qed.

Lemma run_type_reports act pol pair ep inv m : run_type Catalog r act pol pair ep inv = Some m ->
  reports (outcome (act_Spec act) (act_Status act)) m.
Proof.
  unfold run_type, outcome. destruct (spec_Type (act_Spec act)); intros [= <-];
    [apply runBackup_reports|apply runRestore_reports|apply runReplicate_reports|apply runCutover_reports].
Qed.

(** No run writes an Action's status. *)
Definition status_write {X} (e : ev X) : bool := match e with hubUpdateActionStatus _ => true | _ => false end.

Lemma run_type_only act pol pair ep inv m : OffHubReconciler r ->
  run_type Catalog r act pol pair ep inv = Some m -> only (fun X (e : ev X) => status_write e = false) m.
Proof.
  intros Hr. assert (forall X (e : ev X), hub_write e = false -> status_write e = false) as HQ
    by (intros X e; by destruct e).
  unfold run_type. destruct (spec_Type (act_Spec act)); intros [= <-].
  - by apply run_backup.
  - by apply run_restore.
  - by apply run_replicate.
  - by apply run_cutover.
Qed.
End outcomes.

(** ** The refinement *)

(** The Action whose status a call writes. *)
Definition status_written (e : event ev) : option Action :=
  match ev_call e with hubUpdateActionStatus a => Some a | _ => None end.

Section refinement.
  Context {U : Unstructured} {C : Export.Converter} {L : Library} {R : Retry} (Catalog : list Engine).
  Context (r : ActionReconciler) (Hr : OffHubReconciler r).
  Context (act0 : Action).

(** Every status written so far is reached from the one read, and written onto
    what the hub last answered. *)
Definition legit (log : list (event ev)) : Prop := forall e a, e ∈ log -> status_written e = Some a ->
  rtc (life (act_Spec act0)) (act_Status act0) (act_Status a) /\
  exists latest, mkEvent (hubGetAction (act_Namespace act0) (act_Name act0)) (Ok latest) ∈ log /\
    a = with_act_status (act_Status a) latest.

Lemma legit_mono log e : legit log ->
  (forall a, status_written e = Some a ->
     rtc (life (act_Spec act0)) (act_Status act0) (act_Status a) /\
     exists latest, mkEvent (hubGetAction (act_Namespace act0) (act_Name act0)) (Ok latest) ∈ log /\
       a = with_act_status (act_Status a) latest) -> legit (log ++ [e]).
Proof.
  intros Hl He e' a Hin Ha. apply elem_of_app in Hin as [Hin| ->%list_elem_of_singleton].
  - destruct (Hl e' a Hin Ha) as (Hs & latest & Hg & E). split; [done|]. exists latest.
    split; [apply elem_of_app; by left|done].
  - destruct (He a Ha) as (Hs & latest & Hg & E). split; [done|]. exists latest.
    split; [apply elem_of_app; by left|done].
Qed.

Lemma legit_ext log ext : legit log ->
  Forall (fun e => status_write (ev_call e) = false) ext -> legit (log ++ ext).
Proof.
  intros Hl Hext. revert log Hl. induction Hext as [|[X e x] ext He _ IH]; intros log Hl; [by rewrite app_nil_r|].
  change (mkEvent e x :: ext) with ([mkEvent e x] ++ ext). rewrite app_assoc. apply IH.
  apply legit_mono; [done|]. intros a Ha. unfold status_written in Ha. cbn in *. by destruct e.
Qed.

(** The Action in memory is the one read, but for its status. *)
Definition held (act : Action) : Prop :=
  act_Namespace act = act_Namespace act0 /\ act_Name act = act_Name act0 /\ act_Spec act = act_Spec act0.

Lemma writeStatus_legit act log : held act -> legit log ->
  rtc (life (act_Spec act0)) (act_Status act0) (act_Status act) ->
  wp any_env (writeStatus act) log (fun log' x => legit log' /\
    match x with Ok act' => held act' /\ act_Status act' = act_Status act | Err _ => True end).
Proof.
  intros (Hns & Hn & Hs) Hl Hlife. apply wp_retry with (I := legit); [done|]. clear log Hl. intros log Hl.
  wp_call latest. rewrite Hns, Hn.
  assert (legit (log ++ [mkEvent (hubGetAction (act_Namespace act0) (act_Name act0)) latest])) as Hl' by by apply legit_mono.
  destruct latest as [latest|e]; [|done]. wp_call rv.
  assert (legit ((log ++ [mkEvent (hubGetAction (act_Namespace act0) (act_Name act0)) (Ok latest)]) ++
    [mkEvent (hubUpdateActionStatus (with_act_status (act_Status act) latest)) rv])) as Hl''.
  { apply legit_mono; [done|]. intros a [= <-]. cbn. split; [done|]. exists latest.
    split; [apply elem_of_app; right; by left|done]. }
  destruct rv as [rv|e]; cbn; by split_and!.
Qed.

(** One more step from the status held. *)
Definition at_hand (act : Action) : Prop :=
  held act /\ rtc (life (act_Spec act0)) (act_Status act0) (act_Status act) /\
  over (act_Spec act0) (act_Status act) = false.

Lemma now_legit log : legit log -> wp any_env (now_of r) log (fun log' _ => legit log').
Proof.
  intros Hl. eapply wp_mono; [apply wp_only_ext, (off_now r Hr)|].
  intros log' t (ext & -> & Hext). apply legit_ext; [done|]. eapply Forall_impl; [exact Hext|].
  intros [X e x] He. cbn in *. by destruct e.
Qed.

Lemma off_legit {A} (m : io ev A) log : off_hub m -> legit log -> wp any_env m log (fun log' _ => legit log').
Proof.
  intros Hm Hl. eapply wp_mono; [by apply wp_only_ext|]. intros log' a (ext & -> & Hext).
  apply legit_ext; [done|]. eapply Forall_impl; [exact Hext|]. intros [X e x] He. cbn in *. by destruct e.
Qed.

Lemma fail_wp act msg log : at_hand act -> legit log ->
  wp any_env (fail r act msg) log (fun log' _ => legit log').
Proof.
  intros (Hh & Hlife & Ho) Hl. unfold fail. apply wp_bind. eapply wp_mono; [by apply now_legit|].
  intros log1 t Hl1. apply wp_bind. eapply wp_mono; [apply writeStatus_legit|].
  - exact Hh.
  - exact Hl1.
  - cbn. eapply rtc_r; [exact Hlife|]. by apply life_fail.
  - by intros log2 x [Hl2 _].
Qed.

(** The result is recorded from a status that has not failed. *)
Lemma record_wp act pair ep start x log : at_hand act -> legit log ->
  as_Phase (act_Status act) <> ActionPhaseFailed -> outcome (act_Spec act0) (act_Status act) x ->
  wp any_env (record r act pair ep start x) log (fun log' _ => legit log').
Proof.
  intros (Hh & Hlife & Ho) Hl Hf Hx. unfold record. apply wp_bind.
  eapply wp_mono with (P := fun log' _ => legit log'); [case_if; [by apply now_legit|done]|].
  intros log1 t Hl1. apply wp_bind. eapply wp_mono; [apply writeStatus_legit|].
  - exact Hh.
  - exact Hl1.
  - cbn. eapply rtc_r; [exact Hlife|]. by apply life_run.
  - intros log2 y [Hl2 _]. destruct y as [y|e]; [|exact Hl2]. case_if; [|exact Hl2].
    wp_call u. by apply legit_mono.
Qed.

Lemma run_action_wp act pol pair ep inv log : at_hand act -> legit log ->
  as_Phase (act_Status act) <> ActionPhaseFailed ->
  wp any_env (run_action Catalog r act pol pair ep inv) log (fun log' _ => legit log').
Proof.
  intros (Hh & Hlife & Ho) Hl Hf. unfold run_action. apply wp_bind.
  eapply wp_mono with (P := fun log' _ => legit log');
    [unfold started; destruct (as_StartTime _); [done|by apply now_legit]|].
  intros log1 t Hl1. set (act1 := with_act_status _ act).
  assert (at_hand act1) as Ha.
  { split_and!; [done| |done]. eapply rtc_r; [exact Hlife|]. by apply life_start. }
  destruct (run_type Catalog r act1 pol pair ep inv) as [m|] eqn:E; [|by apply fail_wp].
  apply wp_bind. eapply wp_mono; [apply wp_only_returns;
    [by eapply run_type_only|by eapply (run_type_reports Catalog r)]|].
  intros log2 x [Hx (ext & -> & Hext)]. assert (legit (log1 ++ ext)) as Hl2 by by apply legit_ext.
  destruct x as [x|e]; [|done]. apply record_wp; [done..|].
  destruct Hh as (_ & _ & <-). exact Hx.
Qed.

Lemma resume_over st : resume act0 = Some st ->
  over (act_Spec act0) (act_Status act0) = false /\ at_hand (with_act_status st act0) /\
  as_Phase st <> ActionPhaseFailed.
Proof.
  unfold resume. intros H.
  assert (forall st, act_Status act0 = st -> over (act_Spec act0) st = false -> as_Phase st <> ActionPhaseFailed ->
    over (act_Spec act0) (act_Status act0) = false /\ at_hand (with_act_status st act0) /\
    as_Phase st <> ActionPhaseFailed) as Hsame.
  { intros st' <- Ho Hf. split_and!; [done| |done]. by split_and!. }
  destruct (as_Phase (act_Status act0)) eqn:Hp; try done; try case_if_in H; try done; injection H as <-;
    try (apply Hsame; [done| |congruence]; unfold over; rewrite Hp; by auto).
  assert (over (act_Spec act0) (act_Status act0) = false) as Ho by (unfold over; by rewrite Hp).
  split_and!; [done| |done]. split_and!; [done| |done]. apply rtc_once. by apply life_resume.
Qed.

Lemma mark_pending_wp act log : at_hand act -> legit log ->
  wp any_env (mark_pending act) log (fun log' x => legit log' /\
    match x with
    | Ok act' => at_hand act' /\
        (as_Phase (act_Status act) <> ActionPhaseFailed -> as_Phase (act_Status act') <> ActionPhaseFailed)
    | Err _ => True
    end).
Proof.
  intros (Hh & Hlife & Ho) Hl. unfold mark_pending. case_if; [|done]. boolify.
  eapply wp_mono; [apply writeStatus_legit|].
  - exact Hh.
  - exact Hl.
  - cbn. eapply rtc_r; [exact Hlife|]. by apply life_pending.
  - intros log' [act'|e] [Hl' Hx]; [|done]. split; [done|]. destruct Hx as [Hh' Hst].
    split; [|intros _; by rewrite Hst]. split_and!; [done| |].
    + rewrite Hst. cbn. eapply rtc_r; [exact Hlife|]. by apply life_pending.
    + rewrite Hst. done.
Qed.

Lemma prepared_wp act pol log : at_hand act -> legit log -> as_Phase (act_Status act) <> ActionPhaseFailed ->
  wp any_env (prepared Catalog r act pol) log (fun log' _ => legit log').
Proof.
  intros Ha Hl Hf. unfold prepared. apply wp_bind.
  eapply wp_mono; [apply off_legit; [unfold loadPair; off|exact Hl]|].
  intros log1 [cp|e] Hl1; [|by apply fail_wp]. apply wp_bind.
  eapply wp_mono; [apply off_legit; [by apply off_endpoints|exact Hl1]|].
  intros log2 [ep|e] Hl2; [|done]. destruct (fill_endpoints r cp ep) as [ep'|e]; [|done].
  unfold with_kube. destruct (ep_Kube (pr_Source ep')) as [c|]; [|by intros []]. apply wp_bind.
  eapply wp_mono; [apply off_legit; [apply off_Walk|exact Hl2]|].
  intros log3 [inv|e] Hl3; [|done]. by apply run_action_wp.
Qed.
End refinement.

(** ** How often a status is written *)

Definition attempts (log : list (event ev)) : nat := length (omap status_written log).

(** [m] writes a status at most [n] times. *)
Definition adds (n : nat) {A} (m : io ev A) : Prop := forall log,
  wp any_env m log (fun log' _ => attempts log' <= attempts log + n).

Lemma attempts_snoc {X} log (e : ev X) x :
  attempts (log ++ [mkEvent e x]) = attempts log + (if status_write e then 1 else 0).
Proof. unfold attempts. rewrite omap_app, length_app. cbn. by destruct e. Qed.

Lemma adds_le a b {A} (m : io ev A) : adds a m -> a <= b -> adds b m.
Proof. intros H Hab log. eapply wp_mono; [apply H|]. cbn. intros. lia. Qed.

Lemma adds_bind a b {A B} (m : io ev A) (f : A -> io ev B) :
  adds a m -> (forall x, adds b (f x)) -> adds (a + b) (bind m f).
Proof.
  intros Hm Hf log. apply wp_bind. eapply wp_mono; [apply Hm|]. cbn. intros log1 x H1.
  eapply wp_mono; [apply Hf|]. cbn. intros. lia.
Qed.

Lemma adds_ret {A} (x : A) : adds 0 (Ret x).
Proof. intros log. cbn. lia. Qed.

Lemma adds_only {A} (m : io ev A) : only (fun X (e : ev X) => status_write e = false) m -> adds 0 m.
Proof.
  intros Hm log. apply (wp_only _ (fun l => attempts l <= attempts log + 0) m log Hm); [|lia].
  intros l X e x He Hl. rewrite attempts_snoc, He. lia.
Qed.

Lemma adds_off {A} (m : io ev A) : off_hub m -> adds 0 m.
Proof. intros H. apply adds_only. eapply only_mono; [|exact H]. intros X e. by destruct e. Qed.

Lemma adds_retry n {A} (fn : io ev (res A)) : adds 1 fn -> adds (S n) (retry_n n fn).
Proof.
  intros Hfn. induction n as [|n IH]; cbn [retry_n]; [done|].
  eapply adds_le; [apply (adds_bind 1 (S n)); [done|]|lia]. intros [x|e].
  - eapply adds_le; [apply adds_ret|lia].
  - case_if; [done|]. eapply adds_le; [apply adds_ret|lia].
Qed.

Lemma writeStatus_adds act : adds 5 (writeStatus act).
Proof.
  apply (adds_retry 4). intros log. wp_call latest. destruct latest as [latest|e].
  - wp_call rv. cbn. rewrite !attempts_snoc. cbn. lia.
  - cbn. rewrite attempts_snoc. cbn. lia.
Qed.

Section attempts.
  Context {U : Unstructured} {C : Export.Converter} {L : Library} (Catalog : list Engine).
  Context (r : ActionReconciler) (Hr : OffHubReconciler r).

Lemma fail_adds act msg : adds 5 (fail r act msg).
Proof.
  apply (adds_bind 0 5); [by apply adds_off, off_now|]. intros t.
  apply (adds_bind 5 0); [apply writeStatus_adds|]. intros x. apply adds_ret.
Qed.

Lemma record_adds act cp ep start x : adds 5 (record r act cp ep start x).
Proof.
  apply (adds_bind 0 5); [case_if; [by apply adds_off, off_now|apply adds_ret]|]. intros t.
  apply (adds_bind 5 0); [apply writeStatus_adds|]. intros [y|e]; [|apply adds_ret].
  case_if; [|apply adds_ret]. by apply adds_only.
Qed.

Lemma run_action_adds act pol cp ep inv : adds 5 (run_action Catalog r act pol cp ep inv).
Proof.
  apply (adds_bind 0 5); [unfold started; destruct (as_StartTime _); [apply adds_ret|by apply adds_off, off_now]|].
  intros t. cbv zeta. match goal with |- adds _ (match ?x with _ => _ end) => destruct x as [m|] eqn:E end; [|apply fail_adds].
  apply (adds_bind 0 5); [by eapply adds_only, run_type_only|]. intros [x|e]; [apply record_adds|].
  eapply adds_le; [apply adds_ret|lia].
Qed.

Lemma prepared_adds act pol : adds 5 (prepared Catalog r act pol).
Proof.
  assert (forall x : Retry.Result, adds 5 (Ret x)) as Hret by (intros; eapply adds_le; [apply adds_ret|lia]).
  apply (adds_bind 0 5); [apply adds_off; unfold loadPair; off|]. intros [cp|e]; [|apply fail_adds].
  apply (adds_bind 0 5); [by apply adds_off, off_endpoints|]. intros [ep|e]; [|apply Hret].
  destruct (fill_endpoints r cp ep) as [ep'|e]; [|apply Hret].
  unfold with_kube. destruct (ep_Kube (pr_Source ep')) as [c|];
    [|eapply adds_le; [by apply adds_off, off_panics|lia]].
  apply (adds_bind 0 5); [apply adds_off, off_Walk|]. intros [inv|e]; [apply run_action_adds|apply Hret].
Qed.
End attempts.

(** ** Properties *)

Section properties.
  Context {U : Unstructured} {C : Export.Converter} {L : Library} {R : Retry} (Catalog : list Engine).
  Context (r : ActionReconciler).

(** The Action a call answered. *)
Definition action_read (e : event ev) : option Action :=
  match ev_call e in ev X return X -> option Action with
  | hubGetAction _ _ => ok_of
  | _ => fun _ => None
  end (ev_answer e).

(** A pass that writes a status began with an Action that was not over. *)
Lemma Reconcile_legit ns name : OffHubReconciler r ->
  always (Reconcile Catalog r ns name) (fun log _ => forall e a, e ∈ log -> status_written e = Some a ->
    exists act, head log = Some (mkEvent (hubGetAction ns name) (Ok act)) /\
      over (act_Spec act) (act_Status act) = false /\ legit act log).
Proof.
  intros Hr. unfold always, Reconcile. wp_call act. set (e0 := mkEvent (hubGetAction ns name) act).
  assert (forall e a, e ∈ [e0] -> status_written e = Some a -> False) as H0
    by (intros e a ->%list_elem_of_singleton; done).
  destruct act as [act|e]; [|intros e' a He Ha; by destruct (H0 e' a)].
  destruct (resume act) as [st|] eqn:Hst; [|intros e' a He Ha; by destruct (H0 e' a)].
  destruct (resume_over act st Hst) as (Ho & Ha & Hf).
  assert (legit act [e0]) as Hl by (intros e' a He Ha'; by destruct (H0 e' a)).
  eapply wp_mono_ext with (P := fun log _ => legit act log).
  2:{ intros ext x Hlog e' a He Ha'. by exists act. }
  destruct (acr_Kube r); [|exact Hl]. case_if; [by apply fail_wp|]. wp_call pol.
  match goal with |- wp _ _ ?l _ => assert (legit act l) as Hl1 by by apply legit_mono end.
  destruct pol as [pol|e]; [|by apply fail_wp]. apply wp_bind.
  eapply wp_mono; [by apply (mark_pending_wp act)|].
  intros log [act'|e] [Hl2 Hx]; [|done]. destruct Hx as [Ha' Hf']. apply prepared_wp; auto.
Qed.

(** C5: the reconciler implements the life of an Action. For every answer of the
    hub, the clusters, the stores and the network, and whatever mover the
    registry selects: each status a pass writes is written onto an Action the
    hub answered in this pass, all of it but the status unchanged, and is
    reached by steps of the abstract machine from the status the pass began
    with, which was not over. *)
Theorem Reconcile_refines_life ns name : OffHubReconciler r ->
  always (Reconcile Catalog r ns name) (fun log _ => forall e a, e ∈ log -> status_written e = Some a ->
    exists act, head log = Some (mkEvent (hubGetAction ns name) (Ok act)) /\
      over (act_Spec act) (act_Status act) = false /\
      rtc (life (act_Spec act)) (act_Status act) (act_Status a) /\
      exists latest, mkEvent (hubGetAction (act_Namespace act) (act_Name act)) (Ok latest) ∈ log /\
        a = with_act_status (act_Status a) latest).
Proof.
  intros Hr. eapply wp_mono; [by apply Reconcile_legit|]. intros log x H e a He Ha.
  destruct (H e a He Ha) as (act & Hh & Ho & Hl). exists act. split_and!; [done|done|by eapply Hl|by eapply Hl].
Qed.

(** what a success rests on, end to end. For every answer of the outside
    world, a pass that began with an Action that had not Succeeded writes
    Succeeded only like this: a Backup with every stateful workload's last
    artifact useful; a Restore with an attestation of its workloads, of which
    one was not skipped and the others are Ready and probed, or of a dry run; a
    Cutover with every workload Ready and attested, or a dry run; a Replicate
    only as a dry run. *)
Theorem Reconcile_success_backed ns name : OffHubReconciler r ->
  always (Reconcile Catalog r ns name) (fun log _ => forall e a, e ∈ log -> status_written e = Some a ->
    exists act, head log = Some (mkEvent (hubGetAction ns name) (Ok act)) /\
      (as_Phase (act_Status act) <> ActionPhaseSucceeded -> backed (act_Spec act) (act_Status a))).
Proof.
  intros Hr. eapply wp_mono; [by apply Reconcile_legit|]. intros log x H e a He Ha.
  destruct (H e a He Ha) as (act & Hh & Ho & Hl). exists act. split; [done|]. intros Hp.
  eapply lives_backed; [by eapply Hl|]. by intros Hs.
Qed.

(** C32: conflicts do not keep a pass going: with client-go's default retries, a
    pass tries to write the Action's status at most ten times, five to mark it
    Pending and five to record its result, whatever the hub answers. *)
Theorem Reconcile_attempts ns name : OffHubReconciler r ->
  always (Reconcile (R := default_retry) Catalog r ns name) (fun log _ => attempts log <= 10).
Proof.
  intros Hr. unfold always, Reconcile. wp_call act.
  eapply wp_mono with (P := fun log _ => attempts log <= attempts ([] ++ [mkEvent (hubGetAction ns name) act]) + 10);
    [|intros log x; by rewrite attempts_snoc].
  generalize ([] ++ [mkEvent (hubGetAction ns name) act]).
  assert (forall n (x : Retry.Result), adds n (Ret x)) as Hret by (intros; eapply adds_le; [apply adds_ret|lia]).
  destruct act as [act|e]; [|apply (Hret 10)]. destruct (resume act) as [st|]; [|apply (Hret 10)].
  destruct (acr_Kube r); [|apply (Hret 10)].
  case_if; [eapply adds_le; [by apply fail_adds|lia]|].
  apply (adds_bind 0 10); [by apply adds_off, only_trigger|].
  intros [pol|e]; [|eapply adds_le; [by apply fail_adds|lia]].
  apply (adds_bind 5 5); [unfold mark_pending; case_if; [apply writeStatus_adds|eapply adds_le; [apply adds_ret|lia]]|].
  intros [act'|e]; [by apply prepared_adds|apply Hret].
Qed.

(** an Action that is over is left alone: for every answer, a pass that
    reads one makes no other call and asks for no requeue. It is over when it
    RolledBack; when it Succeeded, unless it is a Replicate that is not a dry
    run; and when it Failed, unless it is a Restore whose message says the
    failure can clear. *)
Theorem Reconcile_over_untouched ns name act0 :
  always (Reconcile Catalog r ns name) (fun log x =>
    head log = Some (mkEvent (hubGetAction ns name) (Ok act0)) -> over (act_Spec act0) (act_Status act0) = true ->
    log = [mkEvent (hubGetAction ns name) (Ok act0)] /\ x = done_result).
Proof.
  unfold always, Reconcile. wp_call act. destruct act as [act|e];
    [|intros Hh; apply (f_equal (fun e => default None (action_read <$> e))) in Hh; done].
  eapply wp_mono_ext with (P := fun log x => over (act_Spec act) (act_Status act) = true ->
    log = [mkEvent (hubGetAction ns name) (Ok act)] /\ x = done_result).
  - destruct (resume act) as [st|] eqn:Hst; [|done]. destruct (resume_over act st Hst) as (Ho & _).
    eapply wp_mono; [apply wp_True|]. congruence.
  - intros ext x H Hh Ho. apply (f_equal (fun e => default None (action_read <$> e))) in Hh.
    cbn in Hh. injection Hh as ->. by apply H.
Qed.
(** C12: a remote destination is never the source, and never replaced. When the
    pair gives the destination credentials of its own, whatever the resolver
    answers, the reconciler goes on only with the destination the resolver
    answered in that very call, whose client is set and is not the source's:
    an answer without a destination client, one that repeats the source's, and
    a missing resolver are errors, not a reason to use the local clients. *)
Theorem clusters_apart cp : dest_remote cp = true ->
  always (endpoints r cp) (fun log x => forall ep ep', x = Ok ep -> fill_endpoints r cp ep = Ok ep' ->
    exists f p d, acr_Resolve r = Some f /\ did (f cp) (Ok p) log /\ ep_Kube (pr_Dest p) = Some d /\
      pr_Dest ep = pr_Dest p /\ pr_Dest ep' = pr_Dest p /\ ep_Kube (pr_Source ep') <> Some d).
Proof.
  intros Hd. unfold always, endpoints. rewrite Hd. destruct (acr_Resolve r) as [f|]; [|done].
  apply wp_bind. eapply wp_mono; [apply wp_did|]. intros log [p|e] Hp; [|done]. cbn [wp].
  set (p' := match ep_Kube (pr_Source p) with Some _ => p | None => with_source _ p end).
  assert (pr_Dest p' = pr_Dest p) as Hdest by (unfold p'; by destruct (ep_Kube (pr_Source p))).
  assert (ep_Kube (pr_Source p') = None -> acr_Kube r = None) as Hs.
  { unfold p'. destruct (ep_Kube (pr_Source p)) eqn:E; [congruence|done]. }
  clearbody p'. destruct (ep_Kube (pr_Dest p')) as [d|] eqn:Ed; [|done]. case_if; [done|]. cbn in Heqb.
  boolify. intros ep ep' [= <-] Hf. exists f, p, d. split_and!; [done|done|congruence|done|..].
  all: revert Hf; unfold fill_endpoints; destruct (ep_Kube (pr_Source p')) as [s|] eqn:Es;
    [|cbn [with_source pr_Dest]]; rewrite Ed; intros [= <-]; cbn [with_source pr_Dest]; try congruence.
  cbn. by rewrite (Hs eq_refl).
Qed.
End properties.

(** ** Witnesses *)

(** A converter and a hub without a resolver. *)
Definition some_converter : Export.Converter.
Proof.
  refine {| Export.FromUnstructured := fun k _ => Err (errorf "none");
            Export.ToUnstructured := fun k _ => Ok [] |}. by intros k o e [= <-].
Defined.

Definition hub : ActionReconciler := mkActionReconciler true (Some (Kube 0)) None None None None None.

Lemma hub_off : OffHubReconciler hub.
Proof. by split. Qed.

Lemma Reconcile_refines_life_witness :
  OffHubReconciler hub /\ always (Reconcile (U := plain) (C := some_converter) (L := some_library)
    (R := default_retry) builtin_catalog hub "shop" "restore-1") (fun log _ => forall e a, e ∈ log ->
    status_written e = Some a -> exists act, head log = Some (mkEvent (hubGetAction "shop" "restore-1") (Ok act)) /\
      over (act_Spec act) (act_Status act) = false /\
      rtc (life (act_Spec act)) (act_Status act) (act_Status a) /\
      exists latest, mkEvent (hubGetAction (act_Namespace act) (act_Name act)) (Ok latest) ∈ log /\
        a = with_act_status (act_Status a) latest).
Proof. split; [apply hub_off|]. exact (Reconcile_refines_life builtin_catalog hub "shop" "restore-1" hub_off). Defined.

Lemma Reconcile_success_backed_witness :
  OffHubReconciler hub /\ always (Reconcile (U := plain) (C := some_converter) (L := some_library)
    (R := default_retry) builtin_catalog hub "shop" "backup-1") (fun log _ => forall e a, e ∈ log ->
    status_written e = Some a -> exists act, head log = Some (mkEvent (hubGetAction "shop" "backup-1") (Ok act)) /\
      (as_Phase (act_Status act) <> ActionPhaseSucceeded -> backed (act_Spec act) (act_Status a))).
Proof. split; [apply hub_off|]. exact (Reconcile_success_backed builtin_catalog hub "shop" "backup-1" hub_off). Defined.

Lemma Reconcile_attempts_witness :
  OffHubReconciler hub /\ always (Reconcile (U := plain) (C := some_converter) (L := some_library)
    (R := default_retry) builtin_catalog hub "shop" "backup-1") (fun log _ => attempts log <= 10).
Proof.
  split; [apply hub_off|].
  exact (Reconcile_attempts (U := plain) (C := some_converter) (L := some_library) builtin_catalog hub "shop" "backup-1" hub_off).
Defined.

(** A pair whose destination has a kubeconfig, and the resolver of its clusters. *)
Definition remote_ref : ClusterRef :=
  mkClusterRef "west" EmptyString (Some (mkSecretKeyRef "west" "kubeconfig" EmptyString)) None None None None.
Definition remote_cp : ClusterPair := mkClusterPair "east-west" 1
  (mkClusterPairSpec (mkClusterRef "east" EmptyString None None None None None) remote_ref
     (TransportOther EmptyString) None None None)
  (mkClusterPairStatus ClusterPairReady EmptyString true true 1).
Definition resolved_pair : Pair := mkPair no_endpoints (mkEndpoints "west" (Some (Kube 1)) None None None).
Definition remote_hub : ActionReconciler :=
  mkActionReconciler true (Some (Kube 0)) None None None (Some (fun _ => Ret (Ok resolved_pair))) None.

Lemma clusters_apart_witness : exists ep ep' p d, endpoints remote_hub (Some remote_cp) = Ret (Ok ep) /\
  fill_endpoints remote_hub (Some remote_cp) ep = Ok ep' /\
  pr_Dest ep' = pr_Dest p /\ ep_Kube (pr_Dest p) = Some d /\ ep_Kube (pr_Source ep') <> Some d.
Proof.
  destruct (clusters_apart remote_hub (Some remote_cp) eq_refl _ _ eq_refl eq_refl) as (f & p & d & _ & _ & Hd & _ & Hp & Hs).
  do 4 eexists. split; [reflexivity|]. split; [reflexivity|]. split; [exact Hp|]. split; [exact Hd|exact Hs].
Defined.
