(* ===== verification/HubConcurrency.v ===== *)
(** * Concurrent writers of an Action

    The hub stores an Action that several workers, and people, write. It
    refuses a write whose resource version is not the current one, and a worker
    that is refused reads again. This file gives the environment in which the
    other writers take any number of steps before each call, and proves what the
    annotation of replayed dumps (ActionFacts.v) relies on: no key is lost. *)

From Stdlib Require Import ZArith Lia.
From S2P Require Import Prelude GoStrings Effects ObjectStore Api GoTime Json Kube Unstructured Classify Movers.
From S2P Require Import Workloads Transform Clusters Retry ActionFacts ActionRun OffHub ActionController.
From S2P Require Backup Restore Probe Dump Snapshots Export Render.

(** The stored Action and every version it has had. *)
Record hub_state := mkHub { hs_act : Action; hs_versions : list string }.

Definition named (ns name : string) (a : Action) : Prop := act_Namespace a = ns /\ act_Name a = name.

(** Keys of replayed dumps are only added. *)
Definition keeps (a b : Action) : Prop :=
  forall k, dumpApplied (act_Annotations a) k = true -> dumpApplied (act_Annotations b) k = true.

(** A write gives the Action a version it never had. *)
Inductive write : relation hub_state :=
| write_intro s a : act_ResourceVersion a ∉ hs_versions s -> keeps (hs_act s) a ->
    named (act_Namespace (hs_act s)) (act_Name (hs_act s)) a ->
    write s (mkHub a (act_ResourceVersion a :: hs_versions s)).

Definition others : relation hub_state := rtc write.

(** An update is stored when it carries the current version; its answer may be
    lost after that, so an error says nothing. *)
Definition stores (s : hub_state) (version : string) (new : string -> Action) (x : res string)
    (s' : hub_state) : Prop :=
  if String.eqb version (act_ResourceVersion (hs_act s))
  then (exists e, x = Err e /\ s' = s) \/
       (exists rv, (rv ∉ hs_versions s) /\ s' = mkHub (new rv) (rv :: hs_versions s) /\
          (x = Ok rv \/ exists e, x = Err e))
  else (exists e, x = Err e) /\ s' = s.

(** What the hub answers about the Action [ns]/[name], and any other answer;
    the status is a subresource of its own. *)
Definition answers (ns name : string) {X} (s : hub_state) (e : ev X) : X -> hub_state -> Prop :=
  match e in ev X return X -> hub_state -> Prop with
  | hubGetAction ns' name' => fun x s' => s' = s /\ forall a, x = Ok a ->
      named ns' name' a /\ (named ns name a -> a = hs_act s)
  | hubUpdateAction a => fun x s' =>
      (named ns name a /\ stores s (act_ResourceVersion a)
         (fun rv => with_act_status (act_Status (hs_act s)) (with_act_version rv a)) x s') \/
      (~ named ns name a /\ s' = s)
  | hubUpdateActionStatus a => fun x s' =>
      (named ns name a /\ stores s (act_ResourceVersion a)
         (fun rv => with_act_status (act_Status a) (with_act_version rv (hs_act s))) x s') \/
      (~ named ns name a /\ s' = s)
  | _ => fun _ s' => s' = s
  end.

(** The others write, then the call is answered. *)
Definition hub_env (ns name : string) (X : Type) (s : hub_state) (e : ev X) (x : X) (s' : hub_state) : Prop :=
  exists s1, others s s1 /\ answers ns name s1 e x s'.

(** ** Lemmas *)

Lemma keeps_trans a b c : keeps a b -> keeps b c -> keeps a c.
Proof. unfold keeps. auto. Qed.

Lemma others_trans a b c : others a b -> others b c -> others a c.
Proof. unfold others. intros. by etrans. Qed.

(** The invariant of the store. *)
Definition holds (ns name : string) (s : hub_state) : Prop :=
  act_ResourceVersion (hs_act s) ∈ hs_versions s /\ named ns name (hs_act s).

Lemma others_holds ns name s s' : others s s' -> holds ns name s -> holds ns name s'.
Proof.
  induction 1 as [|a b c Hab _ IH]; [done|]. intros [_ [<- <-]]. apply IH. destruct Hab as [s a _ _ Hn].
  split; [by left|exact Hn].
Qed.

Lemma others_keeps s s' : others s s' -> keeps (hs_act s) (hs_act s').
Proof.
  induction 1 as [s|a b c Hab _ IH]; [by intros k|]. eapply keeps_trans; [|exact IH]. by destruct Hab.
Qed.

(** Versions tell the states apart: after a write, an earlier version is never
    the current one again. *)
Lemma others_same s s' : others s s' -> s' = s \/
  ((act_ResourceVersion (hs_act s') ∉ hs_versions s) /\ hs_versions s ⊆ hs_versions s').
Proof.
  induction 1 as [s|a b c Hab _ IH]; [by left|]. right. destruct Hab as [a x Hx _]. cbn in IH.
  destruct IH as [->|[Hn Hs]]; cbn; set_solver.
Qed.

(** A program whose every run is, to the others, some writes of theirs. *)
Definition guarantees (ns name : string) {A} (m : io ev A) : Prop :=
  forall s, holds ns name s -> wp (hub_env ns name) m s (fun s' _ => others s s').

Lemma guarantees_bind ns name {A B} (m : io ev A) (f : A -> io ev B) :
  guarantees ns name m -> (forall a, guarantees ns name (f a)) -> guarantees ns name (bind m f).
Proof.
  intros Hm Hf s Hs. apply wp_bind. eapply wp_mono; [by apply Hm|]. intros s1 a H1.
  eapply wp_mono; [exact (Hf a s1 (others_holds ns name s s1 H1 Hs))|]. intros s2 b H2. exact (others_trans _ _ _ H1 H2).
Qed.

Lemma guarantees_bind_returns ns name {A B} (P : A -> Prop) (m : io ev A) (f : A -> io ev B) :
  guarantees ns name m -> returns P m -> (forall a, P a -> guarantees ns name (f a)) ->
  guarantees ns name (bind m f).
Proof.
  intros Hm HP Hf s Hs. apply wp_bind. eapply wp_mono; [apply wp_and; [by apply Hm|by apply wp_returns]|].
  intros s1 a [H1 Ha]. eapply wp_mono; [exact (Hf a Ha s1 (others_holds ns name s s1 H1 Hs))|].
  intros s2 b H2. exact (others_trans _ _ _ H1 H2).
Qed.

Lemma guarantees_ret ns name {A} (a : A) : guarantees ns name (Ret a).
Proof. intros s _. apply rtc_refl. Qed.

Lemma guarantees_foldM ns name {A T} (f : T -> A -> io ev T) t xs :
  (forall t x, guarantees ns name (f t x)) -> guarantees ns name (foldM f t xs).
Proof.
  intros Hf. revert t. induction xs as [|x xs IH]; intros t; [apply guarantees_ret|].
  by apply guarantees_bind.
Qed.

Lemma guarantees_loopM ns name {A T R} (f : T -> A -> io ev (T + R)) t xs :
  (forall t x, guarantees ns name (f t x)) -> guarantees ns name (loopM f t xs).
Proof.
  intros Hf. revert t. induction xs as [|x xs IH]; intros t; [apply guarantees_ret|].
  apply guarantees_bind; [done|]. intros [t'|r]; [apply IH|apply guarantees_ret].
Qed.

(** A refused update leaves the store as it is; one that is taken is a write
    when it keeps the keys. *)
Lemma stores_write s v new x s' : stores s v new x s' ->
  (forall rv, v = act_ResourceVersion (hs_act s) -> act_ResourceVersion (new rv) = rv /\
     keeps (hs_act s) (new rv) /\ named (act_Namespace (hs_act s)) (act_Name (hs_act s)) (new rv)) ->
  others s s'.
Proof.
  unfold stores. intros H Hnew. destruct (String.eqb_spec v (act_ResourceVersion (hs_act s))) as [E|];
    [|destruct H as [_ ->]; apply rtc_refl].
  destruct H as [(e & _ & ->)|(rv & Hrv & -> & _)]; [apply rtc_refl|]. apply rtc_once.
  destruct (Hnew rv E) as (Hv & Hk & Hn). rewrite <- Hv at 2. apply write_intro; [by rewrite Hv|done|done].
Qed.

(** Everything but an update of the Action itself keeps the keys. *)
Definition calm (X : Type) (e : ev X) : Prop := match e with hubUpdateAction _ => False | _ => True end.

Lemma guarantees_only ns name {A} (m : io ev A) : only calm m -> guarantees ns name m.
Proof.
  intros Hm. induction m as [a|X e k IH]; [apply guarantees_ret|]. destruct Hm as [He Hk].
  intros s Hs x s' (s1 & Hs1 & Hx). assert (others s1 s') as H1.
  { destruct e; cbn in Hx, He; try done; try (subst; apply rtc_refl).
    - destruct Hx as [-> _]. apply rtc_refl.
    - destruct Hx as [[Hn Hx]|[_ ->]]; [|apply rtc_refl]. eapply stores_write; [exact Hx|]. intros rv _.
      split_and!; [done|by intros key|by split]. }
  assert (others s s') as H by by eapply others_trans.
  eapply wp_mono; [apply IH; [apply Hk|by eapply others_holds]|]. intros s2 a H2. by eapply others_trans.
Qed.

(** ** What the reconciler does *)

Section pass.
  Context {U : Unstructured} {C : Export.Converter} {L : Library} {R : Retry} (Catalog : list Engine).
  Context (r : ActionReconciler) (Hr : OffHubReconciler r).
  Context (ns name : string).

Lemma guarantees_off {A} (m : io ev A) : off_hub m -> guarantees ns name m.
Proof. intros H. apply guarantees_only. eapply only_mono; [|exact H]. intros X e. by destruct e. Qed.

(** Reading, adding the key and writing: when the update is taken, the Action
    read is still the one stored. *)
Lemma rememberDumpApplied_guarantees act k s : holds ns name s ->
  wp (hub_env ns name) (rememberDumpApplied act k) s (fun s' x => others s s' /\
    (k <> EmptyString -> in_cutset k newline = false -> named ns name act ->
     forall a, x = Ok a -> dumpApplied (act_Annotations (hs_act s')) k = true)).
Proof.
  intros Hs. apply wp_retry_in with (I := fun s1 => others s s1); [apply rtc_refl|].
  intros s0 H0 latest s2 (s1 & H1 & -> & Hl). cbn [wp bind trigger].
  assert (others s s1) as Hss1 by by eapply others_trans.
  assert (holds ns name s1) as [Hv Hn] by by eapply others_holds.
  destruct latest as [latest|e]; [|cbn; by split_and!].
  destruct (Hl latest eq_refl) as [Hnl Hc]. case_if.
  { cbn [wp]. split; [|done]. split; [done|]. intros _ _ [<- <-] a _. by rewrite <- (Hc Hnl). }
  intros rv s3 (s2 & H2 & Hx). assert (others s s2) as Hss2 by by eapply others_trans.
  assert (holds ns name s2) as [Hv2 Hn2] by by eapply others_holds.
  cbn in Hx. destruct Hx as [[Hnu Hst]|[Hnu ->]].
  - assert (latest = hs_act s1) as -> by by apply Hc.
    assert (act_ResourceVersion (hs_act s1) = act_ResourceVersion (hs_act s2) -> s2 = s1) as Hsame.
    { intros E. destruct (others_same s1 s2 H2) as [->|[Hf _]]; [done|]. by rewrite <- E in Hf. }
    assert (others s2 s3) as H3.
    { eapply stores_write; [exact Hst|]. cbn. intros rv' E. apply Hsame in E as ->. split_and!; [done| |done].
      intros k'. apply note_dump_keeps. }
    assert (others s s3) as Hss3 by by eapply others_trans. cbn [wp].
    split; [|done]. split; [done|]. intros Hk Hnl' _ a Ha. destruct rv as [rv|e]; [|done]. clear H3.
    unfold stores in Hst. destruct (String.eqb _ _); [|by destruct Hst as [[e ?] _]].
    destruct Hst as [(e & ? & _)|(rv' & _ & -> & _)]; [done|]. by apply note_dump_applied.
  - cbn [wp]. split; [|done]. split; [done|]. intros _ _ Hna. destruct Hnu. destruct Hna as [<- <-].
    exact Hnl.
Qed.

(** The part of the interface the passes need. *)
Lemma guarantees_remember act k : guarantees ns name (rememberDumpApplied act k).
Proof. intros s Hs. eapply wp_mono; [by apply rememberDumpApplied_guarantees|]. by intros s' x [? _]. Qed.

Lemma guarantees_selecting {A} reg w n (f : option Mover * Capability * option err -> io ev A) :
  Forall OffHub reg ->
  (forall m cap e, match m with Some m => OffHub m | None => True end -> guarantees ns name (f (m, cap, e))) ->
  guarantees ns name (let* x := Registry.Select reg w n in f x).
Proof.
  intros Hreg Hf. eapply guarantees_bind_returns; [by apply guarantees_off, off_Select|by apply Select_among|].
  intros [[m cap] e] Hm. by apply Hf.
Qed.

#[local] Hint Resolve guarantees_remember : off_hub.

Ltac guar := repeat first
  [ done
  | progress intros
  | progress (cbv beta zeta)
  | solve [auto with off_hub nocore]
  | solve [apply guarantees_off; auto with off_hub nocore]
  | solve [apply guarantees_only; by split]
  | apply guarantees_ret
  | apply guarantees_selecting; [done|intros]
  | apply guarantees_bind; [|intros]
  | apply guarantees_foldM; intros
  | apply guarantees_loopM; intros
  | match goal with |- guarantees _ _ (match ?x with _ => _ end) => destruct x end
  | match goal with |- guarantees _ _ ((match ?x with _ => _ end) _) => destruct x end
  | match goal with |- guarantees _ _ ?m => let h := head m in unfold h end ].

Lemma guarantees_restore act pol pair ep inv : guarantees ns name (runRestore Catalog r act pol pair ep inv).
Proof.
  unfold runRestore. apply guarantees_bind; [guar|intros t].
  eapply guarantees_bind_returns; [guar|apply OffHub_registry|]. intros reg Hreg.
  apply guarantees_bind; [guar|intros [x|]]; [guar|]. apply guarantees_bind; [|guar].
  apply guarantees_loopM. intros f w. unfold restore_one. guar.
Qed.

Lemma guarantees_run_type act pol pair ep inv m : run_type Catalog r act pol pair ep inv = Some m ->
  guarantees ns name m.
Proof.
  assert (forall X (e : ev X), hub_write e = false -> calm X e) as HQ by (intros X e; by destruct e).
  unfold run_type. destruct (spec_Type (act_Spec act)); intros [= <-]; [|apply guarantees_restore|..];
    apply guarantees_only.
  - by apply run_backup.
  - by apply run_replicate.
  - by apply run_cutover.
Qed.

Lemma calm_writeStatus act : only calm (writeStatus act).
Proof. apply only_retry. apply only_bind; [by split|]. intros [a|e]; [by split|done]. Qed.

Lemma guarantees_writeStatus act : guarantees ns name (writeStatus act).
Proof. apply guarantees_only, calm_writeStatus. Qed.
#[local] Hint Resolve guarantees_writeStatus : off_hub.

Lemma guarantees_fail act msg : guarantees ns name (fail r act msg).
Proof. guar. Qed.
#[local] Hint Resolve guarantees_fail : off_hub.

Lemma guarantees_run_action act pol pair ep inv : guarantees ns name (run_action Catalog r act pol pair ep inv).
Proof.
  unfold run_action. apply guarantees_bind; [guar|intros t].
  cbv zeta. match goal with |- guarantees _ _ (match ?x with _ => _ end) => destruct x as [m|] eqn:E end;
    [|apply guarantees_fail].
  apply guarantees_bind; [by eapply guarantees_run_type|]. guar.
Qed.
#[local] Hint Resolve guarantees_run_action : off_hub.

Lemma guarantees_Reconcile ns' name' : guarantees ns name (Reconcile Catalog r ns' name').
Proof. unfold Reconcile. guar. Qed.
End pass.

(** ** Properties *)

(** C11: concurrent passes lose no replayed dump. Let other writers come between
    its calls, each of which keeps the keys that are recorded (a pass does; one
    that removed a key would of course undo a record), updates be refused on a
    stale resource version and answers be lost after a stored update: a pass
    over any Action leaves the stored Action as some writes of the same kind
    do: every workload recorded as replayed stays recorded. And a record that
    reports success (of a key that is not empty and holds no newline) is in the
    stored Action, whatever such others wrote. *)
Theorem no_lost_replay {U : Unstructured} {C : Export.Converter} {L : Library} {R : Retry} Catalog r ns name s :
  OffHubReconciler r -> holds ns name s ->
  (forall ns' name', wp (hub_env ns name) (Reconcile Catalog r ns' name') s (fun s' _ =>
     others s s' /\ keeps (hs_act s) (hs_act s'))) /\
  (forall act k, k <> EmptyString -> in_cutset k newline = false -> named ns name act ->
     wp (hub_env ns name) (rememberDumpApplied act k) s (fun s' x =>
       keeps (hs_act s) (hs_act s') /\
       forall a, x = Ok a -> dumpApplied (act_Annotations (hs_act s')) k = true)).
Proof.
  intros Hr Hs. split.
  - intros ns' name'. eapply wp_mono; [by apply guarantees_Reconcile|]. intros s' x H. cbn in H.
    split; [done|by apply others_keeps].
  - intros act k Hk Hn Ha. eapply wp_mono; [by apply rememberDumpApplied_guarantees|].
    intros s' x [H Hx]. split; [by apply others_keeps|]. by apply Hx.
Qed.

(** A store with one Action whose annotation holds one workload. *)
Definition one_replay : hub_state := mkHub (rf_Act replayed_facts) ["7"%string].

Lemma no_lost_replay_witness : exists s', holds "shop" "restore-1" one_replay /\
  hub_env "shop" "restore-1" _ one_replay (hubGetAction "shop" "restore-1") (Ok (hs_act one_replay)) s' /\
  wp (hub_env "shop" "restore-1")
    (Reconcile (U := plain) (C := some_converter) (L := some_library) (R := default_retry)
       builtin_catalog hub "shop" "restore-1") one_replay (fun s' _ =>
    others one_replay s' /\ keeps (hs_act one_replay) (hs_act s')).
Proof.
  exists one_replay. assert (holds "shop" "restore-1" one_replay) as Hs by (split; [by left|by split]).
  split_and!; [exact Hs|exists one_replay; split; [apply rtc_refl|]; split; [done|]; by intros a [= <-]|].
  exact (proj1 (no_lost_replay (U := plain) (C := some_converter) (L := some_library) (R := default_retry)
    builtin_catalog hub "shop" "restore-1" one_replay hub_off Hs) "shop"%string "restore-1"%string).
Defined.
