(* ===== verification/PairController.v ===== *)
(** * The ClusterPair reconciler: src/internal/controller/clusterpair_controller.go

    Pings both API servers of a pair and writes what it found. *)

From Stdlib Require Import ZArith Lia.
From S2P Require Import Prelude GoStrings Effects Api Json Kube Clusters Retry.

Record ClusterPairReconciler := mkPairReconciler {
  cr_KubeClient : option kube;
  cr_Resolve : option (option ClusterPair -> io ev (res Pair)) }.

Section reconcile.
  Context {R : Retry}.

Definition ping (k : option kube) : io ev bool :=
  match k with
  | None => Ret false
  | Some k =>
      let* r := trigger (kList k KNamespace EmptyString) in
      Ret (match r with Ok _ => true | Err _ => false end)
  end.

(** What a ping found: reachable and message, for source and destination. *)
Record Pinged := mkPinged {
  srcOK : bool; srcMsg : string; dstOK : bool; dstMsg : string }.

Definition pingPair (r : ClusterPairReconciler) (cp : ClusterPair) : io ev Pinged :=
  let srcRemote := HasRemoteAuth (cps_Source (cp_Spec cp)) in
  let dstRemote := HasRemoteAuth (cps_Destination (cp_Spec cp)) in
  if negb srcRemote && negb dstRemote then
    let* ok := ping (cr_KubeClient r) in
    let msg := if ok then EmptyString else "local cluster unreachable"%string in
    Ret (mkPinged ok msg ok msg)
  else
    match cr_Resolve r with
    | None => Ret (mkPinged false "cluster resolver is not configured"
                     false "cluster resolver is not configured")
    | Some f =>
        let* ep := f (Some cp) in
        match ep with
        | Err e =>
            if srcRemote then Ret (mkPinged false (err_msg e) false EmptyString)
            else
              let* ok := ping (cr_KubeClient r) in
              Ret (mkPinged ok EmptyString false (err_msg e))
        | Ok ep =>
            let* s := ping (ep_Kube (pr_Source ep)) in
            let* d := ping (ep_Kube (pr_Dest ep)) in
            Ret (mkPinged s (if s then EmptyString else "API ping failed")
                          d (if d then EmptyString else "destination API ping failed"))
        end
    end.

(** The status of a pass. *)
Definition pair_status (cp : ClusterPair) (p : Pinged) : ClusterPairStatus :=
  let '(phase, msg) :=
    if srcOK p && dstOK p then (ClusterPairReady, "source and destination reachable"%string)
    else if negb (srcOK p) then
      (ClusterPairFailed, if String.eqb (srcMsg p) EmptyString then "source cluster unreachable"%string
                          else "source cluster: " +:+ srcMsg p)
    else (ClusterPairDegraded, dstMsg p) in
  mkClusterPairStatus phase msg (srcOK p) (dstOK p) (cp_Generation cp).

Definition with_pair_status (s : ClusterPairStatus) (p : ClusterPair) : ClusterPair :=
  mkClusterPair (cp_Name p) (cp_Generation p) (cp_Spec p) s.

Definition writeStatus (cp : ClusterPair) : io ev (option err) :=
  let* r := RetryOnConflict (
    let* latest := trigger (hubGetPair (cp_Name cp)) in
    match latest with
    | Err e => Ret (Err e)
    | Ok latest =>
        let* e := trigger (hubUpdatePairStatus (with_pair_status (cp_Status cp) latest)) in
        Ret (ok_or e)
    end) in
  Ret (err_of r).

Definition Reconcile (r : ClusterPairReconciler) (name : string) : io ev Result :=
  let* cp := trigger (hubGetPair name) in
  match cp with
  | Err e => Ret (ignore_not_found e)
  | Ok cp =>
      let* p := pingPair r cp in
      let* e := writeStatus (with_pair_status (pair_status cp p) cp) in
      Ret (match e with
           | Some e => retryLater (Some e)
           | None => mkResult (2 * Minute)%Z None
           end)
  end.

(** ** Lemmas *)

(** The log shows what [ok] says of the client [k]: it answered a namespace
    listing, or it is missing or answered the listing with an error. *)
Inductive pinged (log : list (event ev)) : option kube -> bool -> Prop :=
| pinged_none : pinged log None false
| pinged_ok k l : mkEvent (kList k KNamespace EmptyString) (Ok l) ∈ log -> pinged log (Some k) true
| pinged_err k e : mkEvent (kList k KNamespace EmptyString) (Err e) ∈ log -> pinged log (Some k) false.

Lemma pinged_mono log ext k ok : pinged log k ok -> pinged (log ++ ext) k ok.
Proof. intros []; [constructor|eapply pinged_ok|eapply pinged_err]; apply elem_of_app; left; eassumption. Qed.

Lemma ping_wp k log : wp any_env (ping k) log (fun log' ok => pinged log' k ok).
Proof.
  unfold ping. destruct k as [k|]; [|constructor]. wp_call r. destruct r as [l|e]; cbn [wp];
    [eapply pinged_ok|eapply pinged_err]; apply elem_of_app; right; by left.
Qed.

(** Neither side has authentication of its own. *)
Definition local_pair (cp : ClusterPair) : Prop :=
  HasRemoteAuth (cps_Source (cp_Spec cp)) = false /\ HasRemoteAuth (cps_Destination (cp_Spec cp)) = false.

(** What the two answers rest on. A local pair: one listing through the hub's
    own client. Otherwise the answer of the resolver in this run: each side's
    listing through that side's client; when it is an error the destination is
    unreachable, and so is the source unless it is local and the hub's own
    client answered; without a resolver both are. *)
Definition truthful (r : ClusterPairReconciler) (cp : ClusterPair) (log : list (event ev)) (p : Pinged) : Prop :=
  (local_pair cp /\ pinged log (cr_KubeClient r) (srcOK p) /\ dstOK p = srcOK p) \/
  (~ local_pair cp /\ match cr_Resolve r with
   | None => srcOK p = false /\ dstOK p = false
   | Some f =>
       (exists ep, did (f (Some cp)) (Ok ep) log /\
          pinged log (ep_Kube (pr_Source ep)) (srcOK p) /\ pinged log (ep_Kube (pr_Dest ep)) (dstOK p)) \/
       (exists e, did (f (Some cp)) (Err e) log /\ dstOK p = false /\
          (HasRemoteAuth (cps_Source (cp_Spec cp)) = true -> srcOK p = false) /\
          (HasRemoteAuth (cps_Source (cp_Spec cp)) = false -> pinged log (cr_KubeClient r) (srcOK p)))
   end).

Lemma truthful_mono r cp log ext p : truthful r cp log p -> truthful r cp (log ++ ext) p.
Proof.
  intros [(? & ? & ?)|(? & H)]; [left; eauto using pinged_mono|right; split; [done|]].
  destruct (cr_Resolve r); [|done]. destruct H as [(ep & ? & ? & ?)|(e & ? & ? & ? & ?)]; [left|right];
    eauto 8 using did_app, pinged_mono.
Qed.

(** The two pings that follow a resolution. *)
Lemma ping_both_wp s d log (k : bool -> bool -> Pinged) (Q : list (event ev) -> Pinged -> Prop) :
  (forall ext a b, pinged (log ++ ext) s a -> pinged (log ++ ext) d b -> Q (log ++ ext) (k a b)) ->
  wp any_env (let* a := ping s in let* b := ping d in Ret (k a b)) log Q.
Proof.
  intros H. apply wp_bind. eapply wp_mono_ext; [apply ping_wp|]. intros e1 a Ha.
  apply wp_bind. eapply wp_mono_ext; [apply ping_wp|]. intros e2 b Hb. cbn [wp].
  rewrite <- app_assoc in *. apply H; [|done]. rewrite app_assoc. by apply pinged_mono.
Qed.

Lemma pingPair_wp r cp log :
  wp any_env (pingPair r cp) log (fun log' p => truthful r cp log' p).
Proof.
  unfold pingPair, truthful. destruct (negb _ && negb _) eqn:El.
  { apply wp_bind. eapply wp_mono; [apply ping_wp|]. intros log' ok Hok. left. cbn [srcOK dstOK].
    unfold local_pair. boolify. auto. }
  assert (~ local_pair cp) as Hn by (intros [E1 E2]; by rewrite E1, E2 in El).
  destruct (cr_Resolve r) as [f|]; [|by right].
  apply wp_bind. eapply wp_mono_ext; [apply wp_did|]. intros e1 [ep|e] Hep.
  - apply ping_both_wp. intros e2 a b Ha Hb. right. split; [done|]. left. exists ep. split; [by apply did_app|done].
  - destruct (HasRemoteAuth (cps_Source (cp_Spec cp))).
    + right. split; [done|]. right. by exists e.
    + apply wp_bind. eapply wp_mono_ext; [apply ping_wp|]. intros e2 ok Hok. right. split; [done|]. right.
      exists e. split; [by apply did_app|]. done.
Qed.

Lemma pingPair_reads r cp :
  (forall f p, cr_Resolve r = Some f -> reads_only (f p)) -> reads_only (pingPair r cp).
Proof.
  intros Hr. unfold pingPair. cbv zeta. case_if; [unfold ping; reads|].
  destruct (cr_Resolve r) as [f|]; [|done]. apply only_bind; [by apply (Hr f)|]. intros.
  unfold ping. reads.
Qed.
(** The invariant of the status write: nothing but that status was written,
    on the latest version read. *)
Definition status_only r cp p (log : list (event ev)) : Prop :=
  truthful r cp log p /\ forall e, e ∈ written log ->
    exists latest x, e = mkEvent (hubUpdatePairStatus (with_pair_status (pair_status cp p) latest)) x /\
      mkEvent (hubGetPair (cp_Name cp)) (Ok latest) ∈ log.

Lemma status_only_read r cp p log {X} (e : ev X) x : writes e = false ->
  status_only r cp p log -> status_only r cp p (log ++ [mkEvent e x]).
Proof.
  intros He [Ht Hw]. split; [by apply truthful_mono|]. rewrite written_app, written_one, He, app_nil_r.
  intros e' (latest & x' & -> & Hin)%Hw. exists latest, x'. split; [done|]. apply elem_of_app. by left.
Qed.

Lemma writeStatus_wp r cp p log : status_only r cp p log ->
  wp any_env (writeStatus (with_pair_status (pair_status cp p) cp)) log (fun log' _ => status_only r cp p log').
Proof.
  intros Hi. unfold writeStatus. apply wp_bind.
  eapply wp_mono with (P := fun log' _ => status_only r cp p log'); [|intros log' a H; exact H].
  eapply wp_retry with (I := status_only r cp p); [done|]. clear log Hi. intros log Hi.
  wp_call latest. pose proof (status_only_read r cp p log (hubGetPair (cp_Name cp)) latest eq_refl Hi) as [Ht Hw].
  destruct latest as [latest|e]; [|done]. wp_call x.
  match goal with |- context [?l ++ [mkEvent (hubUpdatePairStatus _) x]] => set (log' := l) in * end.
  assert (status_only r cp p (log' ++ [mkEvent (hubUpdatePairStatus (with_pair_status (pair_status cp p) latest)) x])).
  { split; [by apply truthful_mono|]. rewrite written_app, written_one. cbn [writes].
    intros e [He|He%list_elem_of_singleton]%elem_of_app.
    - destruct (Hw _ He) as (l & y & -> & Hin). exists l, y. split; [done|]. apply elem_of_app. by left.
    - exists latest, x. split; [done|]. unfold log'. rewrite <- app_assoc. apply elem_of_app. right. by left. }
  by destruct x.
Qed.
End reconcile.

(** ** Properties *)

(** C33: a pass over a ClusterPair writes nothing but the pair's status, on the
    latest version it read of it, and the status is what the pass saw. Ready:
    both API servers answered a namespace listing in that pass, the source
    through the source's client and the destination through the destination's,
    as the resolver answered for this pair, or through the hub's own client for
    a pair without authentication. Failed: the source's client was missing or
    answered its listing with an error, or, for a pair that is not local, there
    is no resolver or (for a source with authentication of its own) the
    resolver's answer was an error, whichever side it is about. Degraded: the
    source answered and the destination did not. *)
Theorem pair_pass_truthful {R : Retry} r name :
  (forall f p, cr_Resolve r = Some f -> reads_only (f p)) ->
  always (Reconcile r name) (fun log res =>
    forall e, e ∈ written log ->
    exists cp p latest x,
      head log = Some (mkEvent (hubGetPair name) (Ok cp)) /\
      mkEvent (hubGetPair (cp_Name cp)) (Ok latest) ∈ log /\
      e = mkEvent (hubUpdatePairStatus (with_pair_status (pair_status cp p) latest)) x /\
      truthful r cp log p /\
      (cpst_Phase (pair_status cp p) = ClusterPairReady <-> srcOK p = true /\ dstOK p = true) /\
      (cpst_Phase (pair_status cp p) = ClusterPairFailed <-> srcOK p = false) /\
      (cpst_Phase (pair_status cp p) = ClusterPairDegraded <-> srcOK p = true /\ dstOK p = false) /\
      cpst_SourceReachable (pair_status cp p) = srcOK p /\
      cpst_DestinationReachable (pair_status cp p) = dstOK p).
Proof.
  intros Hr. unfold Reconcile, always. wp_call cp. destruct cp as [cp|e]; [|by intros e' He'; apply elem_of_nil in He'].
  apply wp_bind. eapply wp_mono_ext; [apply wp_and; [apply wp_reads; by apply pingPair_reads, Hr|apply pingPair_wp]|].
  intros ext p [Hw Ht]. apply wp_bind. eapply wp_mono_ext; [apply writeStatus_wp|].
  - split; [done|]. rewrite Hw. intros e He. by apply elem_of_nil in He.
  - intros ext' e [Ht' Hw']. destruct e; cbn [wp]; intros ev Hev; destruct (Hw' _ Hev) as (latest & x & -> & Hl);
      exists cp, p, latest, x; (split_and!; [done|done|done|done|..]); unfold pair_status;
      destruct (srcOK p), (dstOK p); cbn; intuition congruence.
Qed.

(** A pair of two remote clusters: the source answers and the destination does
    not. *)
Definition far (name : string) : ClusterRef :=
  mkClusterRef name EmptyString (Some (mkSecretKeyRef name EmptyString EmptyString)) None None None None.
Definition far_pair : ClusterPair := mkClusterPair "east-west" 3
  (mkClusterPairSpec (far "east") (far "west") (TransportOther EmptyString) None None None)
  (mkClusterPairStatus ClusterPairReady EmptyString true true 2).
Definition far_clients : Pair :=
  mkPair (mkEndpoints "east" (Some (Kube 1)) None None None) (mkEndpoints "west" (Some (Kube 2)) None None None).
Definition far_reconciler : ClusterPairReconciler :=
  mkPairReconciler (Some (Kube 0)) (Some (fun _ => let* _ := trigger (getenv "HOME") in Ret (Ok far_clients))).
Definition far_world (X : Type) (e : ev X) : option X :=
  match e in ev X return option X with
  | hubGetPair _ => Some (Ok far_pair)
  | getenv _ => Some EmptyString
  | kList (Kube 1) KNamespace _ => Some (Ok [])
  | kList (Kube 2) KNamespace _ => Some (Err (errorf "connection refused"))
  | hubUpdatePairStatus _ => Some None
  | _ => None
  end.

Lemma pair_pass_truthful_witness : exists log res,
  run far_world (Reconcile (R := default_retry) far_reconciler "east-west"%string) [] = Some (log, res) /\
  length (written log) = 1 /\
  forall e, e ∈ written log -> exists cp p latest x,
    e = mkEvent (hubUpdatePairStatus (with_pair_status (pair_status cp p) latest)) x /\
    truthful far_reconciler cp log p /\
    (cpst_Phase (pair_status cp p) = ClusterPairDegraded <-> srcOK p = true /\ dstOK p = false).
Proof.
  assert (forall f p, cr_Resolve far_reconciler = Some f -> reads_only (f p)) as Hr by (intros f p [= <-]; by reads).
  pose proof (fun log res => run_wp far_world _ [] _ log res
    (pair_pass_truthful (R := default_retry) far_reconciler "east-west"%string Hr)) as H.
  destruct (run far_world _ []) as [[log res]|] eqn:E; [|vm_compute in E; discriminate].
  exists log, res. split; [done|]. specialize (H log res eq_refl). split.
  - vm_compute in E. injection E as <- <-. reflexivity.
  - intros e He. destruct (H e He) as (cp & p & latest & x & _ & _ & He' & Ht & _ & _ & Hd & _). eauto 8.
Defined.
