(* ===== verification/ActionMetrics.v ===== *)
(** * What the Actions counter counts

    [metrics.ObserveAction] in the reconciler of action_controller.go: which
    passes count an Action, under which labels. *)

From Stdlib Require Import ZArith Lia.
From S2P Require Import Prelude GoStrings Effects ObjectStore Api GoTime Json Kube Unstructured Classify Movers.
From S2P Require Import Workloads Clusters Retry PolicyController ActionFacts ActionRun OffHub ActionLife ActionController.
From S2P Require Metrics Backup Restore Graph Export.

(** The labels a call counts. *)
Definition counts (e : event ev) : option (list string) :=
  match ev_call e with
  | counterInc vec labels => if String.eqb vec Metrics.Actions then Some labels else None
  | _ => None
  end.

Lemma counter_counts labels log :
  Metrics.counter Metrics.Actions labels log = length (List.filter (fun l => bool_decide (l = labels)) (omap counts log)).
Proof.
  unfold Metrics.counter. induction log as [|[X e x] log IH]; [done|].
  change (mkEvent e x :: log) with ([mkEvent e x] ++ log).
  rewrite List.filter_app, omap_app, List.filter_app, !length_app, IH. f_equal.
  destruct e; try done. unfold Metrics.counted, counts. cbn.
  destruct (String.eqb vec Metrics.Actions); cbn; [by case_bool_decide|done].
Qed.

Abbreviation countless := (only (fun X (e : ev X) => match e with counterInc _ _ => false | _ => true end = true)).

Lemma off_countless {A} (m : io ev A) : off_hub m -> countless m.
Proof. apply only_mono. intros X e. by destruct e. Qed.

Lemma countless_wp {A} (m : io ev A) log : countless m ->
  wp any_env m log (fun log' _ => omap counts log' = omap counts log).
Proof.
  intros Hm. apply (wp_only _ (fun l => omap counts l = omap counts log) m log Hm); [|done].
  intros l X e x He <-. rewrite omap_app. cbn. destruct e; try done; by rewrite app_nil_r.
Qed.

(** The completed status a log ends with, as written and answered. *)
Definition completes (ns name : string) (log : list (event ev)) (labels : list string) : Prop :=
  exists act a rv post, head log = Some (mkEvent (hubGetAction ns name) (Ok act)) /\
    log = post ++ [mkEvent (hubUpdateActionStatus a) (Ok rv)] /\ is_Some (as_CompletionTime (act_Status a)) /\
    labels = [type_to_string (spec_Type (act_Spec act)); phase_to_string (as_Phase (act_Status a))].

(** Nothing is counted, or the last call counts what the call before completed. *)
Definition well_counted (ns name : string) (log : list (event ev)) : Prop :=
  omap counts log = [] \/
  exists pre labels, log = pre ++ [mkEvent (counterInc Metrics.Actions labels) tt] /\ omap counts pre = [] /\
    completes ns name pre labels.

Section counting.
  Context {U : Unstructured} {C : Export.Converter} {L : Library} {R : Retry} (Catalog : list Engine).
  Context (r : ActionReconciler) (Hr : OffHubReconciler r).

Lemma writeStatus_countless act : countless (writeStatus act).
Proof.
  apply only_retry. split; [done|]. intros [latest|e]; [|done]. split; [done|]. by intros [rv|e].
Qed.

Lemma fail_countless act msg : countless (fail r act msg).
Proof.
  apply only_bind; [by apply off_countless, (off_now r Hr)|]. intros t.
  apply only_bind; [apply writeStatus_countless|]. by intros [a|e].
Qed.

Lemma run_type_countless act pol cp ep inv m :
  run_type Catalog r act pol cp ep inv = Some m -> countless m.
Proof.
  assert (forall X (e : ev X), hub_write e = false ->
    match e with counterInc _ _ => false | _ => true end = true) as HQ by (intros X e; by destruct e).
  unfold run_type. destruct (spec_Type (act_Spec act)); intros [= <-].
  - by apply run_backup.
  - by apply run_restore.
  - by apply run_replicate.
  - by apply run_cutover.
Qed.

(** A write that succeeded is the last call. *)
Lemma writeStatus_last act log :
  wp any_env (writeStatus act) log (fun log' x => forall a', x = Ok a' ->
    exists latest rv pre, log' = pre ++ [mkEvent (hubUpdateActionStatus (with_act_status (act_Status act) latest)) (Ok rv)]).
Proof.
  apply wp_retry with (I := fun _ => True); [done|]. clear log. intros log _. wp_call latest.
  destruct latest as [latest|e]; [|done]. wp_call rv. cbn [wp]. split; [|done].
  destruct rv as [rv|e]; [|done]. intros a' _. exists latest, rv. by eexists.
Qed.

Context (ns name : string).

(** Nothing counted yet, in a pass over [act]. *)
Definition uncounted (act : Action) (log : list (event ev)) : Prop :=
  head log = Some (mkEvent (hubGetAction ns name) (Ok act)) /\ omap counts log = [].

Lemma uncounted_wp act {A} (m : io ev A) log : countless m -> uncounted act log ->
  wp any_env m log (fun log' _ => uncounted act log').
Proof.
  intros Hm [Hh Hl]. eapply wp_mono_ext; [by apply countless_wp|]. intros ext a E. split; [|congruence].
  by destruct log.
Qed.

Lemma uncounted_well act log : uncounted act log -> well_counted ns name log.
Proof. intros [_ H]. by left. Qed.

Lemma uncounted_done act {A} (m : io ev A) log : countless m -> uncounted act log ->
  wp any_env m log (fun log' _ => well_counted ns name log').
Proof. intros Hm Hu. eapply wp_mono; [by apply (uncounted_wp act)|]. intros l' a. apply uncounted_well. Qed.

Lemma record_counts act0 act cp ep start x log : uncounted act0 log ->
  spec_Type (act_Spec act) = spec_Type (act_Spec act0) ->
  wp any_env (record r act cp ep start x) log (fun log' _ => well_counted ns name log').
Proof.
  intros Hl Ht. unfold record. apply wp_bind.
  eapply wp_mono with (P := fun log' _ => uncounted act0 log');
    [apply uncounted_wp; [case_if; [by apply off_countless, (off_now r Hr)|done]|done]|].
  intros log1 t Hl1. apply wp_bind.
  eapply wp_mono_ext; [apply wp_and; [apply uncounted_wp; [apply writeStatus_countless|exact Hl1]|apply writeStatus_last]|].
  intros ext [a'|e] [Hl2 Hlast]; [|by eapply uncounted_well].
  case_if; [|by eapply uncounted_well]. wp_call u. destruct u. cbn [wp]. right.
  destruct (Hlast a' eq_refl) as (latest & rv & pre & E). eexists _, _. split; [reflexivity|].
  destruct Hl2 as [Hh Hc]. split; [exact Hc|]. eexists act0, _, rv, pre. split_and!; [exact Hh|exact E| |].
  - cbn. rewrite Heqb. by eexists.
  - cbn. by rewrite Ht.
Qed.
Lemma run_action_counts act0 act pol cp ep inv log : uncounted act0 log -> act_Spec act = act_Spec act0 ->
  wp any_env (run_action Catalog r act pol cp ep inv) log (fun log' _ => well_counted ns name log').
Proof.
  intros Hl Ha. unfold run_action. apply wp_bind. eapply wp_mono; [apply (uncounted_wp act0); [|exact Hl]|].
  { unfold started. destruct (as_StartTime _); [done|by apply off_countless, (off_now r Hr)]. }
  intros log1 t Hl1. set (act1 := with_act_status _ act).
  destruct (run_type Catalog r act1 pol cp ep inv) as [m|] eqn:Em; [|eapply uncounted_done; [by apply fail_countless|exact Hl1]].
  apply wp_bind. eapply wp_mono; [apply (uncounted_wp act0); [by eapply run_type_countless|exact Hl1]|].
  intros log2 [x|e] Hl2; [|by eapply uncounted_well]. apply record_counts with (act0 := act0); [exact Hl2|].
  cbn. by rewrite Ha.
Qed.

Lemma prepared_counts act0 act pol log : uncounted act0 log -> act_Spec act = act_Spec act0 ->
  wp any_env (prepared Catalog r act pol) log (fun log' _ => well_counted ns name log').
Proof.
  intros Hl Ha. unfold prepared.
  apply wp_bind. eapply wp_mono; [apply (uncounted_wp act0); [apply off_countless; unfold loadPair; off|exact Hl]|].
  intros log1 [cp|e] Hl1; [|eapply uncounted_done; [by apply fail_countless|exact Hl1]].
  apply wp_bind. eapply wp_mono; [apply (uncounted_wp act0); [by apply off_countless, off_endpoints|exact Hl1]|].
  intros log2 [ep|e] Hl2; [|by eapply uncounted_well].
  destruct (fill_endpoints r cp ep) as [ep'|e]; [|by eapply uncounted_well].
  unfold with_kube. destruct (ep_Kube (pr_Source ep')) as [c|]; [|by intros []].
  apply wp_bind. eapply wp_mono; [apply (uncounted_wp act0); [apply off_countless, off_Walk|exact Hl2]|].
  intros log3 [inv|e] Hl3; [|by eapply uncounted_well]. by eapply run_action_counts.
Qed.

Lemma mark_pending_counts act0 act log : uncounted act0 log ->
  wp any_env (mark_pending act) log (fun log' x => uncounted act0 log' /\
    match x with Ok a => act_Spec a = act_Spec act | Err _ => True end).
Proof.
  intros Hl. unfold mark_pending. case_if; [|done]. apply wp_and.
  - apply uncounted_wp; [apply writeStatus_countless|done].
  - apply wp_returns, returns_retry, returns_call. intros [latest|e]; [|done].
    apply returns_call. by intros [rv|e].
Qed.
End counting.

(** ** Properties *)

Section properties.
  Context {U : Unstructured} {C : Export.Converter} {L : Library} {R : Retry} (Catalog : list Engine).
  Context (r : ActionReconciler).

(** C17: an Action is counted once per completion it records. For every answer of
    the hub and the clusters: a pass counts at most one Action, in its very
    last call, and only after the hub accepted, in the call before, a status
    of this Action with a completion time; the labels are the Action's type
    and the phase of that status. A pass whose write failed, and one that
    fails the Action before it runs, count nothing. *)
Theorem Reconcile_counts ns name : OffHubReconciler r ->
  always (Reconcile Catalog r ns name) (fun log _ => well_counted ns name log).
Proof.
  intros Hr. unfold always, Reconcile. wp_call act. destruct act as [act|e]; [|by left].
  assert (uncounted ns name act ([] ++ [mkEvent (hubGetAction ns name) (Ok act)])) as Hl by done.
  revert Hl. generalize ([] ++ [mkEvent (hubGetAction ns name) (Ok act)]). intros log Hl.
  destruct (resume act) as [st|]; [|by eapply uncounted_well].
  destruct (acr_Kube r); [|by eapply uncounted_well].
  case_if; [eapply uncounted_done; [by apply fail_countless|exact Hl]|].
  apply wp_bind. eapply wp_mono; [apply (uncounted_wp ns name act); [by apply only_trigger|exact Hl]|].
  intros log1 [pol|e] Hl1; [|eapply uncounted_done; [by apply fail_countless|exact Hl1]].
  apply wp_bind. eapply wp_mono; [apply mark_pending_counts; exact Hl1|].
  intros log2 [a|e] [Hl2 Ha]; [|by eapply uncounted_well]. by apply prepared_counts with (act0 := act).
Qed.
End properties.

Lemma Reconcile_counts_witness :
  OffHubReconciler hub /\ always (Reconcile (U := plain) (C := some_converter) (L := some_library)
    (R := default_retry) builtin_catalog hub "shop" "backup-1") (fun log _ => well_counted "shop" "backup-1" log).
Proof.
  split; [apply hub_off|].
  exact (Reconcile_counts (U := plain) (C := some_converter) (L := some_library) (R := default_retry)
    builtin_catalog hub "shop" "backup-1" hub_off).
Defined.
