(* ===== verification/Setup.v ===== *)
(** * The process: src/cmd/controller/main.go and SetupWithManager of
    internal/controller

    Which reconcilers the controller runs, with which clients, and which of its
    queues takes an Action. controller-runtime's manager, its queues and rate
    limiters are library code: here are the settings they are given. *)

From Stdlib Require Import ZArith Lia.
From S2P Require Import Prelude GoStrings Effects ObjectStore Api GoTime Json Kube Unstructured Classify Movers.
From S2P Require Import Clusters CloudAuth Retry PolicyController ActionFacts OffHub ActionController.
From S2P Require PairController Export.

(** ** main.go *)

(** The flags and their defaults. *)
Record flags := mkFlags { fl_metricsAddr : string; fl_probeAddr : string; fl_leaderElect : bool }.
Definition default_flags : flags := mkFlags ":8080" ":8081" true.

(** ctrl.Options. *)
Record managerOptions := mkManagerOptions {
  mo_MetricsBindAddress : string; mo_HealthProbeBindAddress : string;
  mo_LeaderElection : bool; mo_LeaderElectionID : string }.
Definition manager_options (f : flags) : managerOptions :=
  mkManagerOptions (fl_metricsAddr f) (fl_probeAddr f) (fl_leaderElect f) "portage.io".

Section wiring.
  Context {K : Cloud} (defaultNew : restcfg -> res (option kube * option dyn * option execer)).
  (** What NewForConfig built from the manager's configuration. *)
  Context (kubeClient : kube) (dynClient : dyn) (spdy : execer) (config : restcfg).

Definition resolver : Resolver :=
  mkResolver true (Some kubeClient)
    (Local "local" (Some kubeClient) (Some dynClient) (Some spdy) (Some config)) "portage-system" None None.

Definition resolve (pair : option ClusterPair) : io ev (res Pair) :=
  Clusters.Resolve RESTConfigFromKubeConfig defaultNew azureREST awsREST gcpREST resolver pair.

(** The three reconcilers; the Action's has no store of its own and the real
    clock. *)
Definition policy_reconciler : PolicyReconciler := mkPolicyReconciler (Some kubeClient) (Some resolve).
Definition pair_reconciler : PairController.ClusterPairReconciler :=
  PairController.mkPairReconciler (Some kubeClient) (Some resolve).
Definition action_reconciler : ActionReconciler :=
  mkActionReconciler true (Some kubeClient) (Some dynClient) (Some spdy) None (Some resolve) None.
End wiring.

(** ** SetupWithManager *)

(** The delays of the failure limiter, the rate and burst of the bucket. *)
Record rateLimiter := mkLimiter {
  rl_Base : duration; rl_Max : duration; rl_PerSecond : Z; rl_Burst : Z }.
Definition actionRateLimiter : rateLimiter := mkLimiter Second (30 * Second)%Z 10 100.

Definition replicateAction (act : Action) : bool := bool_decide (spec_Type (act_Spec act) = ActionReplicate).

Record controller := mkController {
  ct_Named : string;
  ct_Filter : Action -> bool;
  ct_MaxConcurrentReconciles : Z;
  ct_RateLimiter : rateLimiter }.

(** The Action reconciler is registered twice. *)
Definition replicate_controller : controller :=
  mkController "action-replicate" replicateAction 2 actionRateLimiter.
Definition action_controller : controller :=
  mkController "action" (fun o => negb (replicateAction o)) 4 actionRateLimiter.
Definition action_controllers : list controller := [replicate_controller; action_controller].

(** The controllers that queue an Action. *)
Definition queued_by (act : Action) : list string :=
  List.map ct_Named (List.filter (fun c => ct_Filter c act) action_controllers).

(** ** The resolver of production *)

(** The clouds' calls are calls [Q] holds of. *)
Record cloud_only {K : Cloud} (Q : forall X, ev X -> Prop) : Prop := {
  co_http u t : only Q (httpGet u t);
  co_aws r c : only Q (LoadDefaultConfig r c);
  co_eks c n : only Q (DescribeCluster c n);
  co_sts c h : only Q (PresignGetCallerIdentity c h);
  co_google s : only Q (FindDefaultCredentials s);
  co_gcp t : only Q (gcp_Token t);
  co_azure c s : only Q (az_GetToken c s);
  co_aks c g n : only Q (aks_Get c g n);
  co_creds c g n : only Q (ListClusterUserCredentials c g n) }.

Section quiet.
  Context {K : Cloud} (defaultNew : restcfg -> res (option kube * option dyn * option execer)).
  Context (Q : forall X, ev X -> Prop) (HK : cloud_only Q).
  Context (Hget : forall c ns n, Q _ (kGet c KSecret ns n)) (Hhub : forall ns n, Q _ (hubGetSecret ns n)) (Hnow : Q _ now)
    (Hreq : forall u, Q _ (httpNewRequest u)).

Create HintDb cloud.
#[local] Hint Resolve co_http co_aws co_eks co_sts co_google co_gcp co_azure co_aks co_creds : cloud.

Ltac quietly := repeat first
  [ done
  | progress intros
  | progress (cbv beta zeta)
  | progress (cbn [resolver rs_Hub rs_Secrets rs_NewForCfg rs_Cloud])
  | solve [eauto with cloud nocore]
  | solve [apply only_trigger; auto]
  | apply only_bind; [|intros]
  | match goal with |- only _ (match ?x with _ => _ end) => destruct x end
  | match goal with |- only _ ?m => let h := head m in unfold h end ].

Lemma resolve_only k d x c pair : only Q (resolve defaultNew k d x c pair).
Proof. unfold resolve. quietly. Qed.
End quiet.

(** ** Properties *)

(** the theorems about the reconcilers hold of the process that main starts.
    When the clouds' SDKs touch neither the hub's resources nor the clusters,
    the resolver built in main, the same for the three reconcilers, only
    reads, for every pair; so the production reconcilers satisfy what those
    theorems ask of the injected resolver and clock. *)
Theorem production_wiring {K : Cloud} defaultNew k d x c :
  cloud_only (fun X (e : ev X) => hub_write e = false /\ writes e = false) ->
  OffHubReconciler (action_reconciler defaultNew k d x c) /\
  (forall f p, pr_Resolve (policy_reconciler defaultNew k d x c) = Some f -> reads_only (f p)) /\
  (forall f p, PairController.cr_Resolve (pair_reconciler defaultNew k d x c) = Some f -> reads_only (f p)).
Proof.
  intros HK.
  assert (forall p, only (fun X (e : ev X) => hub_write e = false /\ writes e = false) (resolve defaultNew k d x c p))
    as H by by intros; apply resolve_only.
  split_and!.
  - constructor; [done|]. intros f p [= <-]. eapply only_mono; [|apply H]. by intros X e [? _].
  - intros f p [= <-]. eapply only_mono; [|apply H]. by intros X e [_ ?].
  - intros f p [= <-]. eapply only_mono; [|apply H]. by intros X e [_ ?].
Qed.

(** every Action has one queue: whatever its type, exactly one of the two
    controllers takes it, a Replicate "action-replicate", any other "action";
    so a long Replicate never holds a worker that a Backup, a Restore or a
    Cutover waits for. *)
Theorem one_queue act :
  queued_by act = [if bool_decide (spec_Type (act_Spec act) = ActionReplicate)
                   then "action-replicate" else "action"]%string.
Proof. unfold queued_by, action_controllers. cbn. unfold replicateAction. by case_bool_decide. Qed.

(** ** A witness *)

(** Clouds that refuse everything. *)
Definition no_cloud : Cloud.
Proof.
  refine {| newConfig := fun _ _ => Rest 1; withHost := fun c _ => c;
    clientcmd_Load := fun _ => Err (errorf "none");
    CloudAuth.RESTConfigFromKubeConfig := fun _ => Ok (Rest 2);
    CloudAuth.json_Unmarshal := fun _ => Err (errorf "none");
    httpGet := fun _ _ => Ret (Err (errorf "none"));
    awsConf := unit; LoadDefaultConfig := fun _ _ => Ret (Ok tt); AssumeRole := fun c _ _ => c;
    DescribeCluster := fun _ _ => Ret (Err (errorf "none"));
    PresignGetCallerIdentity := fun _ _ => Ret (Err (errorf "none"));
    gcpTokens := unit; FindDefaultCredentials := fun _ => Ret (Ok tt);
    CredentialsFromJSON := fun _ _ => Ok tt; gcp_Token := fun _ => Ret (Err (errorf "none"));
    azCred := unit; NewClientSecretCredential := fun _ _ _ => Ok tt; NewDefaultAzureCredential := fun _ => Ok tt;
    az_GetToken := fun _ _ => Ret (Err (errorf "none"));
    aksClient := unit; NewManagedClustersClient := fun _ _ => Ok tt;
    aks_Get := fun _ _ _ => Ret (Err (errorf "none"));
    ListClusterUserCredentials := fun _ _ _ => Ret (Err (errorf "none")) |}.
Defined.

Lemma production_wiring_witness :
  OffHubReconciler (action_reconciler (K := no_cloud) (fun _ => Ok (Some (Kube 1), None, None))
    (Kube 0) (Dyn 0) (Exec 0) (Rest 0)).
Proof.
  refine (proj1 (production_wiring (K := no_cloud) (fun _ => Ok (Some (Kube 1), None, None)) (Kube 0) (Dyn 0) (Exec 0) (Rest 0) _)).
  by constructor.
Defined.
