(* ===== verification/Main.v ===== *)
(** * The process: src/cmd/controller/main.go, init and main

    Setup.v has what main builds; here is what it does, in order: register the
    API types, make the manager and the clients, register the controllers and
    the checks, start. The calls are controller-runtime's and client-go's, with
    any answers; [Exit] ends the process, so no call follows it.

    [main_serves]: main makes the calls of its plan in order and stops at the
    first that fails, with status 1; so the manager is only ever started with
    every controller registered, each with the reconciler of production. *)

From Stdlib Require Import ZArith Lia.
From S2P Require Import Prelude GoStrings Effects ObjectStore Api GoTime Json Kube Unstructured Classify Movers.
From S2P Require Import Clusters CloudAuth Retry PolicyController ActionFacts OffHub ActionController Setup.
From S2P Require PairController Memory DeepCopy.

(** ** The scheme (api/v1alpha1) *)

Record groupVersion := mkGV { gv_Group : string; gv_Version : string }.
Definition GroupVersion : groupVersion := mkGV "portage.io" "v1alpha1".

(** SchemeBuilder: the group version and the kinds registered by the init
    functions of the package, which run in the order of the files' names. *)
Record schemeBuilder := mkSchemeBuilder { sb_GroupVersion : groupVersion; sb_Objects : list string }.
Definition Register (objs : list string) (b : schemeBuilder) : schemeBuilder :=
  mkSchemeBuilder (sb_GroupVersion b) (sb_Objects b ++ objs).

Definition init_action : schemeBuilder -> schemeBuilder := Register ["Action"; "ActionList"]%string.
Definition init_clusterpair : schemeBuilder -> schemeBuilder := Register ["ClusterPair"; "ClusterPairList"]%string.
Definition init_plugin : schemeBuilder -> schemeBuilder := Register ["Plugin"; "PluginList"]%string.
Definition init_policy : schemeBuilder -> schemeBuilder := Register ["Policy"; "PolicyList"]%string.

Definition SchemeBuilder : schemeBuilder :=
  init_policy (init_plugin (init_clusterpair (init_action (mkSchemeBuilder GroupVersion [])))).

(** ** The calls *)

Record manager := Manager { mgr_id : nat }.

(** What AddToScheme adds: the types of client-go, or the operator's. *)
Inductive adder := clientgoscheme | portagev1alpha1 (b : schemeBuilder).

(** What SetupWithManager hands to the builder of a controller: the kind is
    Policy, ClusterPair or Action; the first two take every default. *)
Inductive builder :=
| ForPolicy (r : PolicyReconciler)
| ForClusterPair (r : PairController.ClusterPairReconciler)
| ForAction (c : controller) (r : ActionReconciler).

Inductive pev : Type -> Type :=
| AddToScheme (a : adder) : pev (option err)
| GetConfigOrDie : pev restcfg
| NewManager (c : restcfg) (o : managerOptions) : pev (res manager)
| NewKubeForConfig (c : restcfg) : pev (res kube)
| NewDynForConfig (c : restcfg) : pev (res dyn)
| Complete (m : manager) (b : builder) : pev (option err)
| AddHealthzCheck (m : manager) (name : string) : pev (option err)
| AddReadyzCheck (m : manager) (name : string) : pev (option err)
| SetupSignalHandler : pev unit
| Start (m : manager) : pev (option err)
| Panic (e : err) : pev unit
| Exit (code : Z) : pev unit.

(** ** SetupWithManager *)

Definition Policy_SetupWithManager (r : PolicyReconciler) (m : manager) : io pev (option err) :=
  trigger (Complete m (ForPolicy r)).

Definition ClusterPair_SetupWithManager (r : PairController.ClusterPairReconciler) (m : manager)
    : io pev (option err) :=
  trigger (Complete m (ForClusterPair r)).

Definition Action_SetupWithManager (r : ActionReconciler) (m : manager) : io pev (option err) :=
  trigger (Complete m (ForAction replicate_controller r)) ;;?
  trigger (Complete m (ForAction action_controller r)).

(** ** init and main *)

Section wiring.
  Context {K : Cloud}.
  (** client-go's constructors (of a remote cluster's clients), the manager's
      configuration, and kubeexec.SPDY over one. *)
  Context (NewKube : restcfg -> res kube) (NewDyn : restcfg -> res dyn).
  Context (GetConfig : manager -> restcfg) (spdy : restcfg -> kube -> execer).

Abbreviation defaultNew := (Clusters.defaultNew NewKube NewDyn spdy).

(** [utilruntime.Must(err)] before [k]. *)
Definition Must (m : io pev (option err)) (k : io pev unit) : io pev unit :=
  let* e := m in match e with Some e => trigger (Panic e) | None => k end.

(** [if err := m; err != nil { os.Exit(1) }] before [k]. *)
Definition exit_on (m : io pev (option err)) (k : io pev unit) : io pev unit :=
  let* e := m in match e with Some _ => trigger (Exit 1) | None => k end.

Definition exit_unless {A} (m : io pev (res A)) (k : A -> io pev unit) : io pev unit :=
  let* r := m in match r with Err _ => trigger (Exit 1) | Ok a => k a end.

Definition main (f : flags) : io pev unit :=
  let* cfg := trigger GetConfigOrDie in
  exit_unless (trigger (NewManager cfg (manager_options f))) (fun mgr =>
  exit_unless (trigger (NewKubeForConfig (GetConfig mgr))) (fun kubeClient =>
  exit_unless (trigger (NewDynForConfig (GetConfig mgr))) (fun dynClient =>
  let execer := spdy (GetConfig mgr) kubeClient in
  let cfg := GetConfig mgr in
  exit_on (Policy_SetupWithManager (policy_reconciler defaultNew kubeClient dynClient execer cfg) mgr) (
  exit_on (ClusterPair_SetupWithManager (pair_reconciler defaultNew kubeClient dynClient execer cfg) mgr) (
  exit_on (Action_SetupWithManager (action_reconciler defaultNew kubeClient dynClient execer cfg) mgr) (
  exit_on (trigger (AddHealthzCheck mgr "healthz")) (
  exit_on (trigger (AddReadyzCheck mgr "readyz")) (
  let* _ := trigger SetupSignalHandler in
  exit_on (trigger (Start mgr)) (Ret tt))))))))).

Definition init (k : io pev unit) : io pev unit :=
  Must (trigger (AddToScheme clientgoscheme)) (
  Must (trigger (AddToScheme (portagev1alpha1 SchemeBuilder))) k).

Definition process (f : flags) : io pev unit := init (main f).

(** ** The plan *)

Definition call := {X : Type & pev X}.
Definition the {X} (e : pev X) : call := existT X e.
Definition calls (log : list (event pev)) : list call := List.map (fun e => the (ev_call e)) log.

(** The calls of a process nothing fails in, for the handles it got. *)
Definition plan (f : flags) (cfg : restcfg) (mgr : manager) (k : kube) (d : dyn) : list call :=
  let c := GetConfig mgr in
  let x := spdy c k in
  [ the (AddToScheme clientgoscheme); the (AddToScheme (portagev1alpha1 SchemeBuilder));
    the GetConfigOrDie; the (NewManager cfg (manager_options f));
    the (NewKubeForConfig c); the (NewDynForConfig c);
    the (Complete mgr (ForPolicy (policy_reconciler defaultNew k d x c)));
    the (Complete mgr (ForClusterPair (pair_reconciler defaultNew k d x c)));
    the (Complete mgr (ForAction replicate_controller (action_reconciler defaultNew k d x c)));
    the (Complete mgr (ForAction action_controller (action_reconciler defaultNew k d x c)));
    the (AddHealthzCheck mgr "healthz"); the (AddReadyzCheck mgr "readyz");
    the SetupSignalHandler; the (Start mgr) ].

(** A call that failed. *)
Definition failed (e : event pev) : bool :=
  match ev_call e in pev X return X -> bool with
  | AddToScheme _ | Complete _ _ | AddHealthzCheck _ _ | AddReadyzCheck _ _ | Start _ =>
      fun a => match a with Some _ => true | None => false end
  | NewManager _ _ => fun a => match a with Err _ => true | Ok _ => false end
  | NewKubeForConfig _ => fun a => match a with Err _ => true | Ok _ => false end
  | NewDynForConfig _ => fun a => match a with Err _ => true | Ok _ => false end
  | _ => fun _ => false
  end (ev_answer e).

(** How a process ends: its plan is done, or a call failed and the process
    exited there. *)
Definition stopped (log : list (event pev)) (todo : list call) : Prop :=
  exists pre e last rest, log = pre ++ [e; last] /\ todo = calls (pre ++ [e]) ++ rest /\
    forallb (fun e => negb (failed e)) pre = true /\ failed e = true /\
    if Nat.ltb (length pre) 2 then exists x, the (ev_call last) = the (Panic x)
    else the (ev_call last) = the (Exit 1).

Definition completed (log : list (event pev)) (todo : list call) : Prop :=
  calls log = todo /\ forallb (fun e => negb (failed e)) log = true.

(** ** Properties *)

Ltac last_two L := lazymatch L with
  | [_; _] => constr:(@nil (event pev))
  | ?x :: ?l => let l' := last_two l in constr:(x :: l')
  end.

(** The call that was just answered failed, for these handles. *)
Ltac stop_with cfg mgr k d :=
  intros ? ? ->; cbn [app]; exists cfg, mgr, k, d; right;
  lazymatch goal with |- stopped ?L _ =>
    let pre := last_two L in exists pre; do 3 eexists;
    split; [reflexivity|split; [reflexivity|split; [reflexivity|split; [reflexivity|cbn; eauto]]]] end.

(** What the theorems about the reconcilers assume of the one of a builder. *)
Definition served (c : call) : Prop :=
  match projT2 c with
  | Complete _ (ForPolicy r) => forall g p, pr_Resolve r = Some g -> reads_only (g p)
  | Complete _ (ForClusterPair r) => forall g p, PairController.cr_Resolve r = Some g -> reads_only (g p)
  | Complete _ (ForAction _ r) => OffHubReconciler r
  | _ => True
  end.

Lemma process_plan (f : flags) :
  always (process f) (fun log _ => exists cfg mgr k d,
    completed log (plan f cfg mgr k d) \/ stopped log (plan f cfg mgr k d)).
Proof.
  unfold always, process, init, Must.
  apply wp_call. intros [e|]; [stop_with (Rest 0) (Manager 0) (Kube 0) (Dyn 0)|].
  apply wp_call. intros [e|]; [stop_with (Rest 0) (Manager 0) (Kube 0) (Dyn 0)|].
  apply wp_call. intros cfg. unfold exit_unless, exit_on.
  apply wp_call. intros [mgr|e]; [|stop_with cfg (Manager 0) (Kube 0) (Dyn 0)].
  apply wp_call. intros [k|e]; [|stop_with cfg mgr (Kube 0) (Dyn 0)].
  apply wp_call. intros [d|e]; [|stop_with cfg mgr k (Dyn 0)].
  do 2 (apply wp_call; intros [e|]; [stop_with cfg mgr k d|]).
  unfold Action_SetupWithManager, check. apply wp_bind.
  apply wp_call. intros [e|]; [cbn [wp]; stop_with cfg mgr k d|].
  intros [e|] s' ->; cbn [wp]; [stop_with cfg mgr k d|].
  do 2 (apply wp_call; intros [e|]; [stop_with cfg mgr k d|]).
  apply wp_call. intros []. apply wp_call. intros [e|]; [stop_with cfg mgr k d|].
  exists cfg, mgr, k, d. by left.
Qed.

(** C13: what the process does, whatever its calls answer. It makes the calls of
    its plan in order: the two schemes, the configuration, the manager, the two
    clients, a controller for Policies, one for ClusterPairs and the two for
    Actions, the two checks, and only then Start. It stops at the first call that
    fails, and then exits with status 1, a failing scheme with a panic; so a
    manager that is started runs all four controllers. Their reconcilers are
    those the other theorems are about: when the clouds' SDKs touch neither the
    hub nor the clusters, what they assume of the injected resolver and clock
    holds of each. *)
Theorem main_serves (f : flags) :
  always (process f) (fun log _ => exists cfg mgr k d,
    completed log (plan f cfg mgr k d) \/ stopped log (plan f cfg mgr k d)) /\
  (cloud_only (fun X (e : ev X) => hub_write e = false /\ writes e = false) ->
   forall cfg mgr k d, Forall served (plan f cfg mgr k d)).
Proof.
  split; [apply process_plan|]. intros HK cfg mgr k d.
  destruct (production_wiring defaultNew k d (spdy (GetConfig mgr) k) (GetConfig mgr) HK) as (Ha & Hp & Hc).
  unfold plan. repeat (apply Forall_cons_2; [first [exact I|exact Hp|exact Hc|exact Ha]|]). apply Forall_nil_2.
Qed.
End wiring.

(** ** Consistency of the scheme *)

(** What is registered can be copied as an object: the kinds of the scheme are
    exactly the types that have a DeepCopyObject. *)
Lemma scheme_objects {A : Memory.Apimachinery} :
  sb_Objects SchemeBuilder ≡ₚ List.map (fun m => fst (fst m)) DeepCopy.DeepCopyObject_methods.
Proof. cbn. apply (bool_decide_unpack _). vm_compute. exact I. Qed.

(** ** A witness *)

Lemma main_serves_witness :
  Forall served (plan (K := no_cloud) (fun _ => Ok (Kube 1)) (fun _ => Ok (Dyn 1)) (fun _ => Rest 0) (fun _ _ => Exec 0)
    default_flags (Rest 0) (Manager 0) (Kube 0) (Dyn 0)).
Proof.
  refine (proj2 (main_serves (K := no_cloud) (fun _ => Ok (Kube 1)) (fun _ => Ok (Dyn 1)) (fun _ => Rest 0) (fun _ _ => Exec 0)
    default_flags) _ _ _ _ _).
  by constructor.
Defined.
