(* ===== verification/Evidence.v ===== *)
(** * What a success rests on, in the calls of its pass

    The machines of Backup.v and Restore.v decide on facts; here are the calls
    that established them. A Backup that succeeds has, in the log of this very
    pass, the dump of each database it vouches for; a Restore that succeeds
    read the readiness of each workload on the destination and ran its class
    probe there, in this pass, whatever earlier passes recorded. *)

From Stdlib Require Import ZArith Lia.
From S2P Require Import Prelude GoStrings Effects ObjectStore Api GoTime Json Kube Unstructured Classify Movers.
From S2P Require Import Workloads ActionPhase Clusters Retry ActionFacts ActionRun ActionLife.
From S2P Require Backup Restore Usefulness Probe Dump Snapshots Graph Export.

(** The only workload of the inventory with its key. *)
Definition sole (inv : list Workload) (w : Workload) : Prop :=
  w ∈ inv /\ forall w', w' ∈ inv -> WKey w' = WKey w -> w' = w.

(** ** Backup *)

(** The artifacts a call wrote on a Policy. *)
Definition artifacts_written (e : event ev) : option (list ArtifactHealth) :=
  let '(mkEvent e a) := e in
  match e in ev X return X -> option (list ArtifactHealth) with
  | hubUpdatePolicyStatus p => fun a => match a with None => Some (pst_Artifacts (pol_Status p)) | Some _ => None end
  | _ => fun _ => None
  end a.

(** The output of the workload's dump command, at least 64 KiB, stored under
    [id]. *)
Definition captured (w : Workload) (id : string) (log : list (event ev)) : Prop :=
  exists data, (id, data) ∈ omap Dump.stored log /\ (64 * 1024 <= str_len data)%Z /\
    (w_Namespace w, Dump.Command (w_Engine w), EmptyString, data) ∈ omap Dump.exec_done log.

Lemma captured_app w id log ext : captured w id log -> captured w id (log ++ ext).
Proof.
  intros (data & Hs & Hn & Hd). exists data. rewrite !omap_app, !elem_of_app. auto.
Qed.

(** A database that Portage dumps itself. *)
Definition dumped_here (pol : Policy) (w : Workload) : Prop :=
  (w_Class w = ClassSQLLogical \/ w_Class w = ClassKVLogical) /\ Dump.Command (w_Engine w) <> [] /\
  Graph.Is w = false /\ moverOverride (Some pol) w "backup" = EmptyString.

(** What an artifact of [w] vouches for. *)
Definition vouches (pol : Policy) (log : list (event ev)) (w : Workload) (a : ArtifactHealth) : Prop :=
  ah_Workload a = WKey w /\
  (dumped_here pol w -> ah_Useful a = true -> captured w (ah_ArtifactID a) log).

Lemma vouches_app pol log ext w a : vouches pol log w a -> vouches pol (log ++ ext) w a.
Proof. intros [Hk H]. split; [done|]. intros Hd Hu. by apply captured_app, H. Qed.

Section backup.
  Context {U : Unstructured} {C : Export.Converter} {L : Library} {R : Retry} (Catalog : list Engine).
  Context (r : ActionReconciler).

(** The size measured is that of a dump this run stored. *)
Lemma backup_size_wp ep w log : Dump.Command (w_Engine w) <> [] ->
  wp any_env (backup_size r ep w) log (fun log' x =>
    match x with
    | Err _ => True
    | Ok (n, _, id) => (64 * 1024 <= n)%Z -> captured w id log'
    end).
Proof.
  intros Hc. unfold backup_size. destruct (Dump.Command (w_Engine w)) as [|arg args] eqn:E; [done|].
  apply wp_bind. eapply wp_mono; [apply wp_True|]. intros log1 s _.
  apply wp_bind. eapply wp_mono; [apply wp_True|]. intros log2 t _.
  unfold with_kube. destruct (ep_Kube (pr_Source ep)) as [c|]; [|by intros []].
  apply wp_bind. destruct (ep_Exec (pr_Source ep)) as [x|].
  - eapply wp_mono; [apply Dump.Capture_wp|]. intros log3 [[[key n] useful] [e|]]; [done|].
    rewrite E. intros [H _]. destruct (H eq_refl ltac:(done)) as (data & Hs & -> & Hd). intros Hn.
    exists data. by rewrite E.
  - unfold Dump.Capture. rewrite E. cbn. lia.
Qed.

Lemma backup_data_wp pol ep w log : dumped_here pol w ->
  wp any_env (backup_data r ep w) log (fun log' a => vouches pol log' w a).
Proof.
  intros (Hcl & Hc & _). unfold backup_data. do 3 (apply wp_bind; eapply wp_mono; [apply wp_True|];
    let l := fresh "log" in let x := fresh "x" in intros l x _; try destruct x as [[? ?] ?]).
  apply wp_bind. eapply wp_mono; [by apply backup_size_wp|]. intros log3 [[[n msg] id]|e] H; cbn [wp]; [|done].
  split; [done|]. intros _. cbn [Backup.FromArtifact ah_Useful ah_ArtifactID].
  unfold Usefulness.ForWorkload. rewrite Usefulness.Evaluate_useful_iff.
  cbn [Usefulness.in_Class Usefulness.in_Files Usefulness.in_SizeBytes]. intros Hu. apply H.
  destruct (String.eqb id EmptyString); destruct Hcl as [Ec|Ec]; rewrite Ec in Hu;
    destruct Hu as [(f & Hf & _ & Hn)|[Hf Hn]]; try (by apply elem_of_nil in Hf); try done;
    try (apply list_elem_of_singleton in Hf as ->; exact Hn);
    apply Forall_inv in Hf; cbn [Usefulness.fl_Path] in Hf; by rewrite Dump.dump_sql in Hf.
Qed.

(** Every artifact is of the workload it was made for. *)
Lemma artifact_workload_by m pair w :
  returns (fun a => ah_Workload a = WKey w) (backup_by m pair w).
Proof.
  unfold backup_by. eapply returns_bind; [apply returns_True|]. by intros [art [e|]] _.
Qed.
Lemma artifact_workload_data ep w :
  returns (fun a => ah_Workload a = WKey w) (backup_data r ep w).
Proof.
  unfold backup_data. do 3 (eapply returns_bind; [apply returns_True|]; intros [[? ?] ?] _ || intros ? _).
  eapply returns_bind; [apply returns_True|]. by intros [[[n msg] id]|e] _.
Qed.
Lemma artifact_workload_auto reg pair ep w :
  returns (fun a => ah_Workload a = WKey w) (backup_auto r reg pair ep w).
Proof.
  unfold backup_auto. destruct (Dump.Command (w_Engine w)); [|apply artifact_workload_data].
  eapply returns_bind; [apply returns_True|]. intros [[[m|] cap] [e|]] _; try apply artifact_workload_data.
  case_if; [apply artifact_workload_by|apply artifact_workload_data].
Qed.
Lemma artifact_workload_graph pol pair ep w :
  returns (fun a => ah_Workload a = WKey w) (backup_graph Catalog r pol pair ep w).
Proof.
  unfold backup_graph. eapply returns_bind; [apply returns_True|]. by intros [[[[key n] u] msg]|e] _.
Qed.

(** A step adds the artifact of its workload, unless it is Stateless. *)
Lemma backup_one_wp pol pair ep reg arts w log :
  wp any_env (backup_one Catalog r pol pair ep reg arts w) log (fun log' arts' =>
    if is_stateful w then exists a, arts' = arts ++ [a] /\ vouches pol log' w a else arts' = arts).
Proof.
  unfold backup_one, is_stateful. case_bool_decide as Hc; [done|]. cbn [negb]. apply wp_bind.
  set (m := if Graph.Is w then _ else _).
  enough (wp any_env m log (fun log' a => vouches pol log' w a)) as H
    by (eapply wp_mono; [exact H|]; intros log' a Ha; cbn [wp]; eauto).
  assert (forall (m : io ev ArtifactHealth) log, returns (fun a => ah_Workload a = WKey w) m ->
    ~ dumped_here pol w -> wp any_env m log (fun log' a => vouches pol log' w a)) as Hother.
  { intros m' log' Hm Hn. eapply wp_mono; [by apply wp_returns|]. by intros log'' a Ha. }
  subst m. destruct (Graph.Is w) eqn:Eg.
  { apply Hother; [apply artifact_workload_graph|]. intros (_ & _ & ? & _); congruence. }
  destruct (decide (moverOverride (Some pol) w "backup" = EmptyString)) as [En|En].
  - rewrite En. cbn [String.eqb]. unfold backup_auto.
    destruct (Dump.Command (w_Engine w)) as [|arg args] eqn:E.
    + apply Hother; [|by intros (_ & Hd & _)].
      pose proof (artifact_workload_auto reg pair ep w) as H. unfold backup_auto in H. by rewrite E in H.
    + destruct (decide (w_Class w = ClassSQLLogical \/ w_Class w = ClassKVLogical)) as [Hl|Hl].
      * apply backup_data_wp. split_and!; [done|congruence|done|done].
      * apply Hother; [apply artifact_workload_data|]. by intros (? & _).
  - apply Hother; [|by intros (_ & _ & _ & ?)]. pose proof En as En'%String.eqb_neq. rewrite En'.
    eapply returns_bind; [apply returns_True|]. intros [[[m|] cap] [e|]] _; try done;
      try apply artifact_workload_auto. case_if; [apply artifact_workload_by|apply artifact_workload_auto].
Qed.

(** One artifact per stateful workload, each vouching for it. *)
Lemma backup_loop_wp pol pair ep reg inv log :
  wp any_env (foldM (backup_one Catalog r pol pair ep reg) [] inv) log (fun log' arts =>
    Forall2 (vouches pol log') (List.filter is_stateful inv) arts).
Proof.
  apply (wp_foldM any_env (backup_one Catalog r pol pair ep reg)
    (fun pre log' arts => Forall2 (vouches pol log') (List.filter is_stateful pre) arts) inv [] log []); [constructor|].
  intros pre w post log1 arts _ Hi. eapply wp_mono_ext; [apply backup_one_wp|]. intros ext arts' H.
  rewrite List.filter_app. cbn [List.filter].
  assert (Forall2 (vouches pol (log1 ++ ext)) (List.filter is_stateful pre) arts) as Hi'
    by (eapply Forall2_impl; [exact Hi|]; intros; by apply vouches_app).
  destruct (is_stateful w); [|by rewrite H, app_nil_r].
  destruct H as (a & -> & Ha). apply Forall2_app; [done|]. by constructor.
Qed.

(** The last artifact of the key of a sole workload is that workload's. *)
Lemma vouched_lookup pol log inv arts w a : Forall2 (vouches pol log) (List.filter is_stateful inv) arts ->
  sole inv w -> index_by ah_Workload arts !! WKey w = Some a -> vouches pol log w a.
Proof.
  intros Hf [_ Hs] (l1 & l2 & -> & Hk & _)%index_by_lookup_Some.
  apply Forall2_app_inv_r in Hf as (ws1 & ws2 & _ & Hf & E).
  apply Forall2_cons_inv_r in Hf as (w' & ws3 & Ha & _ & ->).
  assert (w' ∈ inv) as Hw'.
  { assert (w' ∈ List.filter is_stateful inv) as H by (rewrite E; set_solver).
    apply list_elem_of_In, filter_In in H as [H _]. by apply list_elem_of_In. }
  rewrite <- (Hs w' Hw'); [done|]. destruct Ha as [Ha _]. congruence.
Qed.

(** What was written is what was asked for. *)
Lemma writePolicyArtifacts_wp pol inv arts log :
  wp any_env (writePolicyArtifacts pol inv arts) log (fun log' e =>
    e = None -> arts ∈ omap artifacts_written log').
Proof.
  unfold writePolicyArtifacts. apply wp_bind.
  apply wp_retry with (I := fun _ => True); [done|]. clear log. intros log _.
  wp_call latest. destruct latest as [latest|e]; [|done]. wp_call u. wp_call e. cbn [wp]. split; [|done].
  destruct e as [e|]; [done|]. intros _. rewrite !omap_app, !elem_of_app. right. cbn.
  unfold artifacts_status. destruct (Backup.Healthy inv arts) as [ok missing].
  repeat case_if; cbn; elem.
Qed.

(** The evidence of a succeeded backup: the artifacts it wrote on the Policy,
    and behind each sole database its dump. *)
Definition backup_evidence (pol : Policy) (inv : Inventory) (log : list (event ev)) : Prop :=
  exists arts, arts ∈ omap artifacts_written log /\
    forall w, sole (inv_Workloads inv) w -> is_stateful w = true ->
      exists a, index_by ah_Workload arts !! WKey w = Some a /\ ah_Useful a = true /\
        (dumped_here pol w -> captured w (ah_ArtifactID a) log).

Lemma backup_evidence_app pol inv log ext : backup_evidence pol inv log -> backup_evidence pol inv (log ++ ext).
Proof.
  intros (arts & Ha & H). exists arts. split; [rewrite omap_app; apply elem_of_app; by left|].
  intros w Hs Hst. destruct (H w Hs Hst) as (a & Hl & Hu & Hd). exists a. split_and!; [done|done|].
  intros Hh. by apply captured_app, Hd.
Qed.

Lemma runBackup_evidence pol pair ep inv log :
  wp any_env (runBackup Catalog r pol pair ep inv) log (fun log' x => forall res, x = Ok res ->
    Restore.r_Phase res = ActionPhaseSucceeded -> backup_evidence pol inv log').
Proof.
  unfold runBackup. apply wp_bind. eapply wp_mono; [apply wp_True|]. intros log1 reg _.
  apply wp_bind. eapply wp_mono; [apply backup_loop_wp|]. intros log2 arts Harts.
  apply wp_bind. eapply wp_mono_ext; [apply writePolicyArtifacts_wp|]. intros ext [e|] Hw; [done|].
  specialize (Hw eq_refl). apply wp_bind. eapply wp_mono_ext; [apply wp_True|]. intros ext2 t _.
  cbn [wp]. intros res [= <-]. destruct (List.find awaiting arts); [done|]. intros Hp.
  destruct (backup_backed _ _ _ Hp) as [Hu _]. exists arts.
  split; [rewrite omap_app; apply elem_of_app; by left|]. intros w Hs Hst.
  assert (useful_forb : Backup.useful_forb arts (WKey w) = true).
  { apply Backup.useful_for_reflect, Hu; [apply Hs|]. unfold is_stateful in Hst. by boolify. }
  unfold Backup.useful_forb in useful_forb.
  destruct (index_by ah_Workload arts !! WKey w) as [a|] eqn:Ea; [|done]. exists a. split_and!; [done|done|].
  intros Hd. do 2 apply captured_app.
  by destruct (vouched_lookup pol log2 (inv_Workloads inv) arts w a Harts Hs Ea) as [_ H]; apply H.
Qed.
End backup.

(** ** Restore *)

Section restore.
  Context {U : Unstructured} {C : Export.Converter} {L : Library} {R : Retry} (Catalog : list Engine).
  Context (r : ActionReconciler) (pol : Policy) (pair : option ClusterPair) (ep : Pair).

(** The readiness of [w] was read on the destination in this log. *)
Definition read_ready (w : Workload) (log : list (event ev)) : Prop :=
  exists c, ep_Kube (pr_Dest ep) = Some c /\ did (Ready c w) (true, None) log.

(** Its class probe ran there and answered [p]. *)
Definition ran_probe (w : Workload) (p : ProbeResult) (log : list (event ev)) : Prop :=
  exists c x, ep_Kube (pr_Dest ep) = Some c /\ ep_Exec (pr_Dest ep) = Some x /\
    did (Probe.Run c (Some x) w) p log.

(** The object graph was found on the destination, [ok] or not. *)
Definition attested_graph (ok : bool) (msg : string) (log : list (event ev)) : Prop :=
  exists id, did (restoreClusterObjects Catalog r pair ep id) (Ok (ok, msg)) log.

Lemma read_ready_app w log ext : read_ready w log -> read_ready w (log ++ ext).
Proof. intros (c & Hc & H). exists c. split; [done|by apply did_app]. Qed.
Lemma ran_probe_app w p log ext : ran_probe w p log -> ran_probe w p (log ++ ext).
Proof. intros (c & x & Hc & Hx & H). exists c, x. split_and!; [done|done|by apply did_app]. Qed.

(** What the facts say of [w], the log bears out. *)
Definition borne_out (w : Workload) (log : list (event ev)) (f : RestoreFacts) : Prop :=
  rf_Ready f !! WKey w = Some true ->
  if bool_decide (w_Class w = ClassStateless) then read_ready w log
  else if Graph.Is w then exists msg, attested_graph true msg log /\ rf_Probes f !! WKey w = Some (mkProbe true msg)
  else read_ready w log /\
    (is_Some (ep_Exec (pr_Dest ep)) -> exists p, ran_probe w p log /\ rf_Probes f !! WKey w = Some p).

Lemma borne_out_app w log ext f : borne_out w log f -> borne_out w (log ++ ext) f.
Proof.
  intros H Hr. specialize (H Hr). destruct (bool_decide _); [by apply read_ready_app|]. destruct (Graph.Is w).
  - destruct H as (msg & (id & Hd) & Hp). exists msg. split; [|done]. exists id. by apply did_app.
  - destruct H as [Hrd Hp]. split; [by apply read_ready_app|]. intros Hx. destruct (Hp Hx) as (p & Hd & Hk).
    exists p. split; [by apply ran_probe_app|done].
Qed.

(** A step on [k] says nothing new of the readiness and probes of other keys. *)
Definition only_at (k : string) (f f' : RestoreFacts) : Prop := forall k', k' <> k ->
  rf_Ready f' !! k' = rf_Ready f !! k' /\ rf_Probes f' !! k' = rf_Probes f !! k'.

(** The same readiness and probes. *)
Definition same_facts (f f' : RestoreFacts) : Prop := rf_Ready f' = rf_Ready f /\ rf_Probes f' = rf_Probes f.

Lemma same_facts_refl f : same_facts f f. Proof. done. Qed.
Lemma same_facts_trans f g h : same_facts f g -> same_facts g h -> same_facts f h.
Proof. unfold same_facts. intuition congruence. Qed.
Lemma same_only_at k f f' : same_facts f f' -> only_at k f f'.
Proof. intros [E1 E2] k' _. by rewrite E1, E2. Qed.
Lemma only_at_trans k f g h : only_at k f g -> only_at k g h -> only_at k f h.
Proof. intros H1 H2 k' Hk. destruct (H1 k' Hk) as [<- <-]. by apply H2. Qed.

(** What a step establishes; [B], that the facts before it were borne out. *)
Context (B : Prop).
Definition step_ok (w : Workload) (f : RestoreFacts) (log' : list (event ev)) (f' : RestoreFacts) : Prop :=
  only_at (WKey w) f f' /\ (B -> borne_out w log' f').

Lemma borne_out_later w log ext f : (B -> borne_out w log f) -> B -> borne_out w (log ++ ext) f.
Proof. intros H b. by apply borne_out_app, H. Qed.

Lemma step_same w f log f' : (B -> borne_out w log f) -> same_facts f f' -> step_ok w f log f'.
Proof.
  intros Hb Hs. split; [by apply same_only_at|]. destruct Hs as [Er Ep]. unfold borne_out in *. by rewrite Er, Ep.
Qed.

Lemma step_after w f g log h : same_facts f g -> step_ok w g log h -> step_ok w f log h.
Proof. intros Hs [Ho Hb]. split; [|done]. eapply only_at_trans; [by apply same_only_at|done]. Qed.

(** [Ready] answers true only without an error. *)
Lemma Ready_true c w : returns (fun '(ready, e) => ready = true -> e = None) (Ready c w).
Proof.
  unfold Ready. repeat case_if; try (apply returns_call; intros [a|e]; done).
  eapply returns_bind; [apply returns_True|]. by intros [a|e] _.
Qed.

Lemma Ready_false c w : returns (fun '(ready, e) => match e with Some _ => ready = false | None => True end) (Ready c w).
Proof.
  unfold Ready. repeat case_if; try (apply returns_call; intros [a|e]; done).
  eapply returns_bind; [apply returns_True|]. by intros [a|e] _.
Qed.

Lemma Ready_read c w log : ep_Kube (pr_Dest ep) = Some c ->
  wp any_env (Ready c w) log (fun log' '(ready, e) => ready = true -> e = None /\ read_ready w log').
Proof.
  intros Hc. eapply wp_mono; [apply wp_and; [apply wp_did|apply wp_returns, Ready_true]|].
  intros log' [ready e] [Hd He] ->. rewrite (He eq_refl) in *. split; [done|]. by exists c.
Qed.

Lemma heal_same k w f log :
  wp any_env (heal_on_dest Catalog ep k w f) log (fun _ f' => same_facts f f').
Proof.
  unfold heal_on_dest. apply wp_bind. eapply wp_mono; [apply wp_True|]. intros log' names _. cbn [wp].
  by destruct names.
Qed.

(** Readiness noted, then the probe. *)
Lemma probed_ok c w ready f log : ep_Kube (pr_Dest ep) = Some c ->
  w_Class w <> ClassStateless -> Graph.Is w = false ->
  (ready = true -> read_ready w log) ->
  wp any_env (probe_on_dest c ep (WKey w) w ready (set_ready (WKey w) ready f)) log (fun log' f' =>
    step_ok w f log' f').
Proof.
  intros Hc Hs Hg Hr. unfold probe_on_dest.
  assert (only_at (WKey w) f (set_ready (WKey w) ready f)) as Ho
    by (intros k' Hk; cbn; by rewrite lookup_insert_ne).
  assert (rf_Ready (set_ready (WKey w) ready f) !! WKey w = Some true -> ready = true) as Htrue
    by (cbn; rewrite lookup_insert_eq; by intros [= ->]).
  destruct (ep_Exec (pr_Dest ep)) as [x|] eqn:Ex.
  - destruct ready.
    + apply wp_bind. eapply wp_mono_ext; [apply wp_did|]. intros ext p Hd. cbn [wp]. split.
      * intros k' Hk. cbn. by rewrite !lookup_insert_ne.
      * intros _ _. rewrite bool_decide_false by done. rewrite Hg. split; [by apply read_ready_app, Hr|].
        intros _. exists p. split; [by exists c, x|]. cbn. by rewrite lookup_insert_eq.
    + cbn [wp]. split; [done|]. intros _ Hk. by specialize (Htrue Hk).
  - cbn [wp]. split; [done|]. intros _ Hk. specialize (Htrue Hk).
    rewrite bool_decide_false by done. rewrite Hg. split; [by apply Hr|]. rewrite Ex. by intros [? ?].
Qed.

Lemma restore_stateless_ok w f log : w_Class w = ClassStateless -> (B -> borne_out w log f) ->
  wp any_env (restore_stateless ep (WKey w) w f) log (fun log' f' => step_ok w f log' f').
Proof.
  intros Hc Hb. unfold restore_stateless. 
  assert (forall b m log', (b = true -> read_ready w log') ->
    step_ok w f log' (set_message (WKey w) m (set_ready (WKey w) b
      (set_rehydrated (WKey w) true (set_useful (WKey w) true f))))) as Hset.
  { intros b m log' Hr. split.
    - intros k' Hk. cbn. by rewrite lookup_insert_ne.
    - intros _. unfold borne_out. cbn. rewrite lookup_insert_eq. intros [= ->].
      rewrite bool_decide_true by done. by apply Hr. }
  destruct (ep_Kube (pr_Dest ep)) as [c|] eqn:Ec; [|by apply Hset]. apply wp_bind.
  eapply wp_mono; [by apply Ready_read|]. intros log' [ready [e|]] Hr; cbn [wp]; apply Hset; [done|].
  intros ->. by apply Hr.
Qed.

Lemma restore_graph_ok w f a log : w_Class w <> ClassStateless -> Graph.Is w = true -> (B -> borne_out w log f) ->
  wp any_env (restore_graph Catalog r pair ep (WKey w) a f) log (fun log' f' => step_ok w f log' f').
Proof.
  intros Hs Hg Hb. unfold restore_graph. destruct a as [a|]; [|by apply step_same]. case_if; [|by apply step_same].
  apply wp_bind. eapply wp_mono_ext; [apply wp_did|]. intros ext [[ok msg]|e] Hd; cbn [wp].
  - assert (step_ok w f (log ++ ext) (set_probe (WKey w) (mkProbe ok msg) (set_ready (WKey w) ok
      (set_rehydrated (WKey w) true f)))) as [Ho Hb'].
    { split; [intros k' Hk; cbn; by rewrite !lookup_insert_ne|]. intros _. unfold borne_out. cbn. rewrite !lookup_insert_eq.
      intros [= ->]. rewrite bool_decide_false by done. rewrite Hg. exists msg. split; [by eexists|done]. }
    destruct ok; [by split|]. split; [exact Ho|exact Hb'].
  - apply step_same; [by apply borne_out_later|done].
Qed.

(** Programs that leave readiness and probes alone. *)
Lemma claims_same k useful w f names log :
  wp any_env (foldM (restore_claim pair ep k useful w) (f, true) names) log (fun _ st => same_facts f (fst st)).
Proof.
  apply (wp_foldM_inv any_env _ (fun _ (st : RestoreFacts * bool) => same_facts f (fst st))); [done|].
  intros n log' [g b] _ Hg. unfold restore_claim. apply wp_bind. eapply wp_mono; [apply wp_True|].
  intros log'' [[did_it healed] [e|]] _; cbn [wp]; [by destruct useful|done].
Qed.

Lemma replay_same k id w f b log :
  wp any_env (replay_dump r ep k id w f b) log (fun _ x =>
    match x with inl (f', _) => same_facts f f' | inr _ => True end).
Proof.
  unfold replay_dump. case_if; [done|]. unfold with_kube. destruct (ep_Kube (pr_Dest ep)) as [c|]; [|by intros []].
  apply wp_bind. eapply wp_mono; [apply wp_True|]. intros log1 [ready e] _. case_if; [done|].
  apply wp_bind. eapply wp_mono; [apply wp_True|]. intros log2 s _.
  apply wp_bind. eapply wp_mono; [apply wp_True|]. intros log3 [e'|] _; [done|].
  apply wp_bind. eapply wp_mono; [apply wp_True|]. by intros log4 [a|e'] _.
Qed.

Lemma restore_by_ok m name a w f log : w_Class w <> ClassStateless -> Graph.Is w = false -> (B -> borne_out w log f) ->
  wp any_env (restore_by Catalog m name pair ep (WKey w) a w f) log (fun log' f' => step_ok w f log' f').
Proof.
  intros Hs Hg Hb. unfold restore_by. apply wp_bind. eapply wp_mono_ext; [apply wp_True|].
  intros ext [e|] _; [apply step_same; [by apply borne_out_later|done]|].
  apply wp_bind. eapply wp_mono_ext; [apply heal_same|]. intros ext' g Hfg. unfold with_kube.
  destruct (ep_Kube (pr_Dest ep)) as [c|] eqn:Ec; [|by intros []].
  apply wp_bind. eapply wp_mono_ext; [by apply Ready_read|]. intros ext'' [ready e] Hr.
  eapply wp_mono; [apply probed_ok; [done..|]; intros ->; by apply Hr|].
  intros log' h Hh. eapply step_after; [exact Hfg|exact Hh].
Qed.

Lemma restore_data_ok phase a w f log : w_Class w <> ClassStateless -> Graph.Is w = false -> (B -> borne_out w log f) ->
  wp any_env (restore_data Catalog r pair ep phase (WKey w) a w f) log (fun log' x =>
    match x with inl f' => step_ok w f log' f' | inr _ => True end).
Proof.
  intros Hs Hg Hb. unfold restore_data. apply wp_bind. eapply wp_mono_ext; [apply claims_same|].
  intros ext [g rehydrated] Hfg. cbn [fst] in Hfg. apply wp_bind.
  eapply wp_mono_ext with (P := fun _ x => match x with inl (h, _) => same_facts f h | inr _ => True end).
  { case_if; [|exact Hfg]. case_if; [exact Hfg|]. eapply wp_mono; [apply replay_same|].
    intros log' [[h b]|e] Hh; [|done]. by eapply same_facts_trans. }
  intros ext1 [[h b]|e] Hfh; [|done]. apply wp_bind. eapply wp_mono_ext; [apply heal_same|].
  intros ext2 h' Hh. unfold with_kube. destruct (ep_Kube (pr_Dest ep)) as [c|] eqn:Ec; [|by intros []].
  assert (same_facts f h') as Hf by (eapply same_facts_trans; [exact Hfh|exact Hh]).
  apply wp_bind. eapply wp_mono_ext; [apply wp_and; [by apply Ready_read|apply wp_returns, Ready_false]|].
  intros ext3 [ready e] [Hr He]. apply wp_bind. destruct e as [e|].
  - rewrite He. unfold probe_on_dest. eapply wp_mono with (P := fun log' h'' => step_ok w f log' h'');
      [|by intros log' h'' Hst].
    assert (step_ok w f (((log ++ ext) ++ ext1) ++ ext2 ++ ext3) h') as H
      by (rewrite <- !app_assoc; apply step_same; [by apply borne_out_later|done]).
    rewrite app_assoc in H. by destruct (ep_Exec (pr_Dest ep)).
  - eapply wp_mono; [apply probed_ok; [done..|]; intros ->; by apply Hr|].
    intros log' h'' Hst. eapply step_after; [exact Hf|exact Hst].
Qed.

Lemma restore_one_ok phase reg f w log : (B -> borne_out w log f) ->
  wp any_env (restore_one Catalog r pol pair ep phase reg f w) log (fun log' x =>
    match x with inl f' => step_ok w f log' f' | inr _ => True end).
Proof.
  intros Hb. unfold restore_one. set (a := artifacts_by_key pol !! WKey w). cbv zeta.
  set (g := match a with Some a => set_message (WKey w) (ah_Message a) (set_useful (WKey w) (ah_Useful a) f) | None => f end).
  assert (same_facts f g) as Hg by (subst g; by destruct a).
  assert (B -> borne_out w log g) as Hbg by (destruct Hg as [E1 E2]; unfold borne_out in *; by rewrite E1, E2).
  eapply wp_mono with (P := fun log' x => match x with inl f' => step_ok w g log' f' | inr _ => True end).
  2:{ intros log' [f'|e] H; [|done]. eapply step_after; [exact Hg|exact H]. }
  clearbody g. case_bool_decide as Hc.
  { apply wp_bind. eapply wp_mono; [by apply restore_stateless_ok|]. by intros. }
  case_if; [by apply step_same|]. destruct (Graph.Is w) eqn:Eg.
  { apply wp_bind. eapply wp_mono; [by apply restore_graph_ok|]. by intros. }
  case_if; [by apply restore_data_ok|]. apply wp_bind. eapply wp_mono_ext; [apply wp_True|].
  intros ext [[[m|] cap] [e|]] _; cbn [wp];
    try (apply step_same; [by apply borne_out_later|done]);
    try (apply restore_data_ok; [done|done|by apply borne_out_later]).
  case_if; [|apply restore_data_ok; [done|done|by apply borne_out_later]].
  apply wp_bind. eapply wp_mono; [apply restore_by_ok; [done|done|by apply borne_out_later]|]. by intros.
Qed.
End restore.

Section restored.
  Context {U : Unstructured} {C : Export.Converter} {L : Library} {R : Retry} (Catalog : list Engine).
  Context (r : ActionReconciler) (pol : Policy) (pair : option ClusterPair) (ep : Pair).

(** Whatever is sole is borne out. *)
Lemma restore_loop_wp phase reg inv f log :
  (forall w, sole inv w -> borne_out Catalog r pair ep w log f) ->
  wp any_env (loopM (restore_one Catalog r pol pair ep phase reg) f inv) log (fun log' x =>
    match x with
    | inl f' => forall w, sole inv w -> borne_out Catalog r pair ep w log' f'
    | inr _ => True
    end).
Proof.
  intros H0. apply (wp_loopM_inv any_env _ (fun log' f' => forall w, sole inv w -> borne_out Catalog r pair ep w log' f'));
    [done|done|].
  intros w log1 f1 Hw H1.
  eapply wp_mono_ext; [apply (restore_one_ok Catalog r pol pair ep (sole inv w)); apply H1|].
  intros ext [f2|e]; [|done]. intros [Ho Hb] w' Hs. destruct (decide (WKey w = WKey w')) as [E|Hne].
  - assert (w = w') as -> by by apply Hs. by apply Hb.
  - specialize (borne_out_app Catalog r pair ep w' log1 ext f1 (H1 w' Hs)).
    destruct (Ho (WKey w')) as [E1 E2]; [congruence|]. unfold borne_out. by rewrite E1, E2.
Qed.

(** What a Restore that succeeded saw of a workload, in its own pass: the
    destination Ready, and unless it is Stateless its class probe, which
    passed; of the object graph, its attestation. *)
Definition restored (w : Workload) (log : list (event ev)) : Prop :=
  if bool_decide (w_Class w = ClassStateless) then read_ready ep w log
  else if Graph.Is w then exists msg, attested_graph Catalog r pair ep true msg log
  else read_ready ep w log /\
    (is_Some (ep_Exec (pr_Dest ep)) -> exists p, pr_OK p = true /\ ran_probe ep w p log).

(** A status that passed is of a workload that was. *)
Lemma borne_out_restored st w inv log f dry t :
  borne_out Catalog r pair ep w log f ->
  let s := Restore.apply_one (restore_facts inv dry t f) (Restore.seed_one (index_by ws_Key (as_Workloads st)) w) in
  passed s -> Skipped s = true \/ restored w log.
Proof.
  intros Hb. cbv zeta. set (facts := restore_facts inv dry t f).
  destruct (Restore.facts_workload_key st facts w) as [Ek Ec]. cbv zeta in Ek, Ec.
  intros [Hs|[Hr Hp]]; [by left|right].
  rewrite (Restore.apply_one_ready facts _ (rf_Ready f) eq_refl) in Hr. unfold map_get in Hr.
  assert (rf_Ready f !! WKey w = Some true) as Hk.
  { cbn [Restore.seed_one ws_Key] in Hr. destruct (rf_Ready f !! WKey w) as [[]|]; done. }
  specialize (Hb Hk). unfold restored. case_bool_decide as Hc; [done|]. destruct (Graph.Is w).
  - destruct Hb as (msg & Hd & _). by exists msg.
  - destruct Hb as [Hrd Hpr]. split; [done|]. intros Hx. destruct (Hpr Hx) as (p & Hd & Hkp). exists p.
    split; [|done]. rewrite Ec in Hp. destruct Hp as [Hp|Hp]; [done|].
    by rewrite (Restore.apply_one_probe facts (Restore.seed_one _ w) (rf_Probes f) p eq_refl Hkp Hc) in Hp.
Qed.

(** The evidence of a Restore that newly succeeded. *)
Definition restore_evidence (inv : Inventory) (log : list (event ev)) (ws : list WorkloadActionStatus) : Prop :=
  (forall w, sole (inv_Workloads inv) w -> exists s, s ∈ ws /\ ws_Key s = WKey w /\
     (Skipped s = true \/ restored w log)) /\
  (exists w s, w ∈ inv_Workloads inv /\ s ∈ ws /\ ws_Key s = WKey w /\ Skipped s = false).

Lemma restored_app w log ext : restored w log -> restored w (log ++ ext).
Proof.
  unfold restored. case_bool_decide; [apply read_ready_app|]. destruct (Graph.Is w).
  - intros (msg & id & Hd). exists msg, id. by apply did_app.
  - intros [Hr Hp]. split; [by apply read_ready_app|]. intros Hx. destruct (Hp Hx) as (p & Ho & Hd).
    exists p. split; [done|by apply ran_probe_app].
Qed.

Lemma restore_evidence_app inv log ext ws : restore_evidence inv log ws -> restore_evidence inv (log ++ ext) ws.
Proof.
  intros [H H']. split; [|done]. intros w Hs. destruct (H w Hs) as (s & Hin & Hk & [?|Hr]); exists s;
    split_and!; try done; [by left|right; by apply restored_app].
Qed.

(** Without an inventory nothing can succeed: what was Ready is forgotten. *)
Lemma no_inventory st facts : Restore.f_Inventory facts = [] -> Restore.f_Ready facts = Some ∅ ->
  ~ completable (Restore.facts_workloads st facts).
Proof.
  unfold Restore.facts_workloads, Restore.seedWorkloads, Restore.applyFacts. intros -> Er [Hp (s & Hs & Hk)].
  rewrite Forall_forall in Hp. destruct (Hp s Hs) as [?|[Hr _]]; [congruence|].
  apply list_elem_of_fmap in Hs as (s0 & -> & _). by rewrite (Restore.apply_one_ready facts s0 ∅ Er) in Hr.
Qed.

Lemma runRestore_evidence act inv log : spec_DryRun (act_Spec act) = false ->
  as_Phase (act_Status act) <> ActionPhaseSucceeded ->
  wp any_env (runRestore Catalog r act pol pair ep inv) log (fun log' x => forall res, x = Ok res ->
    Restore.r_Phase res = ActionPhaseSucceeded -> restore_evidence inv log' (Restore.r_Workloads res)).
Proof.
  intros Hd Hst. unfold runRestore. apply wp_bind. eapply wp_mono; [apply wp_True|]. intros log1 t _.
  apply wp_bind. eapply wp_mono; [apply wp_True|]. intros log2 reg _. apply wp_bind.
  eapply wp_mono; [apply wp_returns with (P := fun stop => match stop with
    Some x => Restore.r_Phase x <> ActionPhaseSucceeded | None => True end)|].
  { unfold apply_manifests. case_if; [|done]. eapply returns_bind; [apply returns_True|]. intros out _.
    eapply returns_bind; [apply returns_True|]. intros [e|] _; [|done]. cbn. by case_if. }
  intros log3 [x|] Hx; [by intros res [= ->]|]. apply wp_bind.
  eapply wp_mono with (P := fun log' x => match x with
    | inl f => (inv_Workloads inv = [] -> rf_Ready f = ∅) /\
        forall w, sole (inv_Workloads inv) w -> borne_out Catalog r pair ep w log' f
    | inr _ => True end).
  { destruct (inv_Workloads inv) as [|w0 ws] eqn:Ei; [split; [done|]; by intros w [Hw%elem_of_nil _]|].
    eapply wp_mono; [by apply restore_loop_wp|]. by intros log' [f|e] H. }
  intros log4 [f|e] Hf; [|done]. destruct Hf as [H0 Hf].
  unfold advance_restore. set (facts := restore_facts inv _ t f).
  destruct (Restore.Advance (act_Status act) facts) as [x|] eqn:EA; [|by intros []]. cbn [wp].
  intros res [= <-] Hp. destruct (Restore.Advance_fresh _ _ _ EA Hp Hst Hd) as [Ew [Hall (s & Hs & Hsk)]].
  rewrite Forall_forall in Hall.
  destruct (decide (inv_Workloads inv = [])) as [Ei|Ei].
  { destruct (no_inventory (act_Status act) facts); [done| |split; [by apply Forall_forall|by exists s]].
    subst facts. cbn. by rewrite (H0 Ei). }
  assert (Restore.f_Inventory facts <> []) as Ei' by done.
  unfold restore_evidence. rewrite Ew. split.
  - intros w Hw. eexists. split; [apply Restore.elem_of_facts_workloads; [done|]; exists w; split; [apply Hw|reflexivity]|].
    split; [by apply Restore.facts_workload_key|]. apply borne_out_restored; [by apply Hf|]. apply Hall.
    apply Restore.elem_of_facts_workloads; [done|]. exists w. split; [apply Hw|done].
  - pose proof Hs as (w & Hw & Es)%Restore.elem_of_facts_workloads; [|done]. exists w, s. split_and!; [done|done| |done].
    rewrite Es. by apply Restore.facts_workload_key.
Qed.
End restored.
