(* ===== verification/CutoverEvidence.v ===== *)
(** * What a cutover's stages rest on, in the calls of their pass

    Cutover.v says that no stage is skipped, in terms of the facts a pass
    collects; here are the calls that established them: the source read at
    zero, the replica's lag, the promotion, the traffic hook's answer, and the
    readiness and probes of the destination. *)

From Stdlib Require Import ZArith Lia.
From S2P Require Import Prelude GoStrings Effects ObjectStore Api GoTime Json Kube Unstructured Classify Movers.
From S2P Require Import Workloads ActionPhase Clusters Retry ActionFacts ActionRun Evidence.
From S2P Require Restore Cutover Probe Graph Postgres Volsync Traffic Export.

(** The stateful workloads of an inventory that are not the object graph. *)
Definition moved (inv : Inventory) (w : Workload) : Prop := w ∈ Stateful inv /\ Graph.Is w = false.

Lemma elem_of_Stateful inv w : w ∈ Stateful inv <-> w ∈ inv_Workloads inv /\ w_Class w <> ClassStateless.
Proof.
  unfold Stateful, is_stateful. rewrite !list_elem_of_In, filter_In, negb_true_iff, bool_decide_eq_false. tauto.
Qed.

Section cutover.
  Context {U : Unstructured} {L : Library} (Catalog : list Engine).
  Context (r : ActionReconciler) (pol : Policy) (pair : option ClusterPair) (ep : Pair).

(** ** The facts of a workload *)

(** What the facts say of [w], the log bears out. *)
Definition cut_borne_out (w : Workload) (log : list (event ev)) (f : CutoverFacts) : Prop :=
  cf_Ready f !! WKey w = Some true ->
  if Graph.Is w then exists msg, did (syncClusterObjectsLive Catalog r pol pair ep) (Ok (true, msg)) log /\
    cf_Probes f !! WKey w = Some (mkProbe true msg)
  else read_ready ep w log /\
    (is_Some (ep_Exec (pr_Dest ep)) -> exists p, ran_probe ep w p log /\ cf_Probes f !! WKey w = Some p).

Lemma cut_borne_out_app w log ext f : cut_borne_out w log f -> cut_borne_out w (log ++ ext) f.
Proof.
  intros H Hr. specialize (H Hr). destruct (Graph.Is w).
  - destruct H as (msg & Hd & Hp). exists msg. split; [by apply did_app|done].
  - destruct H as [Hrd Hp]. split; [by apply read_ready_app|]. intros Hx. destruct (Hp Hx) as (p & Hd & Hk).
    exists p. split; [by apply ran_probe_app|done].
Qed.

(** The lag and the promotion the facts vouch for. *)
Definition lag_read (log : list (event ev)) (w : Workload) : Prop := did (lag_zero pair ep w) true log.
Definition was_promoted (reg : Registry) (log : list (event ev)) (w : Workload) : Prop :=
  did (promote pol ep reg w) true log.

(** One workload: its facts are new, the others' kept. *)
Definition cut_step (phase : ActionPhase) (reg : Registry) (w : Workload) (f : CutoverFacts)
    (log : list (event ev)) (f' : CutoverFacts) : Prop :=
  cut_borne_out w log f' /\
  (forall k, k <> WKey w -> cf_Ready f' !! k = cf_Ready f !! k /\ cf_Probes f' !! k = cf_Probes f !! k) /\
  (cf_LagZero f' = true -> cf_LagZero f = true /\ (Graph.Is w = false -> lag_read log w)) /\
  (cf_Promoted f' = true -> cf_Promoted f = true /\
     (Graph.Is w = false -> phase = ActionPhasePromoting -> was_promoted reg log w)).

Lemma cutover_one_step phase reg f w log :
  wp any_env (cutover_one Catalog r pol pair ep phase reg f w) log (fun log' f' => cut_step phase reg w f log' f').
Proof.
  unfold cutover_one. destruct (Graph.Is w) eqn:Eg.
  - apply wp_bind. eapply wp_mono; [apply wp_did|]. intros log1 [[ok msg]|e] Hd; cbn [wp].
    + split_and!; [|intros k Hk; cbn; by rewrite !lookup_insert_ne|by intros Hx; split; [|rewrite Eg]..].
      intros Hr. rewrite Eg. cbn in Hr |- *. rewrite lookup_insert_eq in Hr. injection Hr as ->. exists msg.
      by rewrite lookup_insert_eq.
    + split_and!; [|intros k Hk; cbn; by rewrite !lookup_insert_ne|by intros Hx; split; [|rewrite Eg]..].
      intros Hr. cbn in Hr. by rewrite lookup_insert_eq in Hr.
  - apply wp_bind. eapply wp_mono; [apply wp_True|]. intros log1 _ _.
    apply wp_bind. eapply wp_mono; [apply wp_did|]. intros log2 lag Hl.
    apply wp_bind. eapply wp_mono_ext with (P := fun l b => b = true -> phase = ActionPhasePromoting -> was_promoted reg l w).
    { case_bool_decide as Hp; [|by intros _ ?]. eapply wp_mono; [apply wp_did|]. by intros l b Hb ->. }
    intros ext promoted Hp. unfold with_kube. destruct (ep_Kube (pr_Dest ep)) as [c|] eqn:Ec; [|by intros []].
    apply wp_bind. eapply wp_mono_ext; [apply wp_True|]. intros ext2 _ _.
    apply wp_bind. eapply wp_mono_ext; [by apply (Ready_read ep)|]. intros ext3 [ready e] Hr.
    assert (forall l f', l = ((log2 ++ ext) ++ ext2) ++ ext3 \/ (exists ext4, l = (((log2 ++ ext) ++ ext2) ++ ext3) ++ ext4) ->
      cf_Ready f' = <[WKey w := ready]> (cf_Ready f) ->
      (forall k, k <> WKey w -> cf_Probes f' !! k = cf_Probes f !! k) ->
      cf_LagZero f' = cf_LagZero f && lag -> cf_Promoted f' = cf_Promoted f && promoted ->
      (ready = true -> is_Some (ep_Exec (pr_Dest ep)) -> exists p, ran_probe ep w p l /\ cf_Probes f' !! WKey w = Some p) ->
      cut_step phase reg w f l f') as Hstep.
    { intros l f' El E1 E2 E3 E4 Hpr. assert (exists ext4, l = (((log2 ++ ext) ++ ext2) ++ ext3) ++ ext4) as [ext4 ->]
        by (destruct El as [->|?]; [exists []; by rewrite app_nil_r|done]).
      split_and!.
      - intros Hrd. rewrite Eg. rewrite E1, lookup_insert_eq in Hrd. injection Hrd as ->. split; [|by apply Hpr].
        apply read_ready_app. by apply Hr.
      - intros k Hk. rewrite E1, E2 by done. by rewrite lookup_insert_ne.
      - rewrite E3. intros [H1 ->]%andb_true_iff. split; [done|]. intros _. by do 4 apply did_app.
      - rewrite E4. intros [H1 ->]%andb_true_iff. split; [done|]. intros _ Hph. do 3 apply did_app. by apply Hp. }
    destruct (ep_Exec (pr_Dest ep)) as [x|] eqn:Ex.
    + destruct ready.
      * apply wp_bind. eapply wp_mono_ext; [apply wp_did|]. intros ext4 p Hd. cbn [wp].
        apply Hstep; [by right; exists ext4|done|intros k Hk; cbn; by rewrite lookup_insert_ne|done|done|].
        intros _ _. exists p. split; [by exists c, x|]. cbn. by rewrite lookup_insert_eq.
      * cbn [wp]. apply Hstep; [by left|done..].
    + cbn [wp]. apply Hstep; [by left|done|done|done|done|]. intros _ [? ?]. done.
Qed.

(** All of them. *)
Definition cut_loop (phase : ActionPhase) (reg : Registry) (all pre : list Workload) (log : list (event ev))
    (f : CutoverFacts) : Prop :=
  (forall w, sole all w -> w ∈ pre -> cut_borne_out w log f) /\
  (forall k, is_Some (cf_Ready f !! k) -> exists w, w ∈ pre /\ WKey w = k) /\
  (cf_LagZero f = true -> forall w, w ∈ pre -> Graph.Is w = false -> lag_read log w) /\
  (cf_Promoted f = true -> phase = ActionPhasePromoting -> forall w, w ∈ pre -> Graph.Is w = false -> was_promoted reg log w).

Lemma cutover_loop_evidence phase reg all log :
  wp any_env (foldM (cutover_one Catalog r pol pair ep phase reg) (mkCutoverFacts ∅ ∅ true true) all) log
    (fun log' f => cut_loop phase reg all all log' f).
Proof.
  apply (wp_foldM any_env _ (fun pre log f => cut_loop phase reg all pre log f) all []).
  - split_and!; [by intros w _ ?%elem_of_nil| |by intros _ w ?%elem_of_nil|by intros _ _ w ?%elem_of_nil].
    intros k [b Hb]. cbn in Hb. by rewrite lookup_empty in Hb.
  - intros pre w post log1 f E (H1 & H2 & H3 & H4). cbn [app] in E.
    eapply wp_mono_ext; [apply cutover_one_step|]. intros ext f' (Hb & Ho & Hl & Hp). split_and!.
    + intros w' Hs Hw'. destruct (decide (WKey w' = WKey w)) as [Ek|Hne].
      * destruct Hs as [_ Hs]. rewrite <- (Hs w) by (done || (rewrite E; set_solver)). exact Hb.
      * apply elem_of_app in Hw' as [Hw'|Hw'%list_elem_of_singleton]; [|by subst].
        specialize (H1 w' Hs Hw'). apply (cut_borne_out_app w' _ ext) in H1. destruct (Ho _ Hne) as [E1 E2].
        unfold cut_borne_out in *. by rewrite E1, E2.
    + intros k Hk. destruct (decide (k = WKey w)) as [->|Hne]; [exists w; split; [set_solver|done]|].
      destruct (Ho k Hne) as [E1 _]. rewrite E1 in Hk. destruct (H2 k Hk) as (w' & Hw' & <-). exists w'. set_solver.
    + intros Hf w' Hw' Hg. destruct (Hl Hf) as [Hf' Hw].
      apply elem_of_app in Hw' as [Hw'|Hw'%list_elem_of_singleton]; [|subst; by apply Hw].
      apply did_app. by apply H3.
    + intros Hf Hph w' Hw' Hg. destruct (Hp Hf) as [Hf' Hw].
      apply elem_of_app in Hw' as [Hw'|Hw'%list_elem_of_singleton]; [|subst; by apply Hw].
      apply did_app. by apply H4.
Qed.

(** Every workload but the object graph was read at zero on the source. *)
Definition at_zero (log : list (event ev)) (w : Workload) : Prop :=
  exists c, ep_Kube (pr_Source ep) = Some c /\ did (ScaledToZero c w) true log.

Lemma all_frozen_evidence inv log :
  wp any_env (all_frozen ep inv) log (fun log' b => b = true -> forall w, moved inv w -> at_zero log' w).
Proof.
  unfold all_frozen. eapply wp_mono; [apply (wp_foldM any_env _
    (fun pre log b => b = true -> forall w, w ∈ pre -> Graph.Is w = false -> at_zero log w) (Stateful inv) [])|].
  - by intros _ w ?%elem_of_nil.
  - intros pre w post log1 b _ Hpre. destruct (Graph.Is w) eqn:Eg.
    + cbn [wp]. intros Hb w' [Hw'| ->%list_elem_of_singleton]%elem_of_app Hg; [by apply Hpre|congruence].
    + unfold with_kube. destruct (ep_Kube (pr_Source ep)) as [c|] eqn:Ec; [|by intros []]. apply wp_bind.
      eapply wp_mono_ext; [apply wp_did|]. intros ext z Hd. cbn [wp]. intros [Hb ->]%andb_true_iff.
      intros w' [Hw'| ->%list_elem_of_singleton]%elem_of_app Hg; [|by exists c].
      destruct (Hpre Hb w' Hw' Hg) as (c' & Hc & Hz). exists c'. split; [congruence|by apply did_app].
  - intros log' b H Hb w [Hw Hg]. by apply H.
Qed.

(** ** The stages *)

(** What a Cutover that succeeds saw of a workload, in its own pass. *)
Definition cut_over (w : Workload) (log : list (event ev)) : Prop :=
  if Graph.Is w then exists msg, did (syncClusterObjectsLive Catalog r pol pair ep) (Ok (true, msg)) log
  else read_ready ep w log /\
    (is_Some (ep_Exec (pr_Dest ep)) -> exists p, pr_OK p = true /\ ran_probe ep w p log).

(** The calls behind a step of the machine from [p] to [p']. *)
Definition stage_evidence (inv : Inventory) (p p' : ActionPhase) (log : list (event ev)) : Prop :=
  match p, p' with
  | ActionPhaseQuiescing, ActionPhaseCatchingUp => forall w, moved inv w -> at_zero log w
  | ActionPhaseCatchingUp, ActionPhasePromoting => forall w, moved inv w -> lag_read log w
  | ActionPhasePromoting, ActionPhaseSwitching =>
      exists reg, did (registry Catalog r pair ep) reg log /\ forall w, moved inv w -> was_promoted reg log w
  | ActionPhaseSwitching, ActionPhaseWaitingReady =>
      did (Traffic.Switch (traffic_hook pol) (traffic_event "switch" pol pair)) None log
  | (ActionPhaseWaitingReady | ActionPhaseHealing | ActionPhaseAttesting), ActionPhaseSucceeded =>
      forall w, sole (inv_Workloads inv) w -> w_Class w <> ClassStateless /\ cut_over w log
  | _, _ => True
  end.

Lemma lag_app log ext w : lag_read log w -> lag_read (log ++ ext) w.
Proof. apply did_app. Qed.

(** The facts a run hands the machine, with their calls. *)
Record founded_facts (inv : Inventory) (p : ActionPhase) (log : list (event ev)) (facts : Cutover.Facts) : Prop := {
  ff_inventory : Cutover.f_Inventory facts = inv_Workloads inv;
  ff_frozen : p = ActionPhaseQuiescing -> Cutover.f_Frozen facts = true -> forall w, moved inv w -> at_zero log w;
  ff_lag : Cutover.f_LagZero facts = true -> forall w, moved inv w -> lag_read log w;
  ff_promoted : Cutover.f_Promoted facts = true -> p = ActionPhasePromoting ->
    exists reg, did (registry Catalog r pair ep) reg log /\ forall w, moved inv w -> was_promoted reg log w;
  ff_switched : Cutover.f_Switched facts = true ->
    did (Traffic.Switch (traffic_hook pol) (traffic_event "switch" pol pair)) None log;
  ff_ready : exists ready probes, Cutover.f_Ready facts = Some ready /\ Cutover.f_Probes facts = Some probes /\
    forall w, sole (inv_Workloads inv) w -> ready !! WKey w = Some true ->
      w_Class w <> ClassStateless /\ (if Graph.Is w
        then exists msg, did (syncClusterObjectsLive Catalog r pol pair ep) (Ok (true, msg)) log
        else read_ready ep w log /\ (is_Some (ep_Exec (pr_Dest ep)) ->
          exists p, ran_probe ep w p log /\ probes !! WKey w = Some p)) }.

Lemma founded_stage inv p log st facts : as_Phase st = p -> founded_facts inv p log facts ->
  stage_evidence inv p (Restore.r_Phase (Cutover.Advance st facts)) log.
Proof.
  intros Hp [Hi Hfr Hl Hpr Hsw (ready & probes & Er & Ep & Hr)].
  assert (r_done : Restore.r_Phase (Cutover.finish (Cutover.seed (as_Workloads st) facts) (Cutover.f_Now facts)) =
    ActionPhaseSucceeded -> forall w, sole (inv_Workloads inv) w -> w_Class w <> ClassStateless /\ cut_over w log).
  { intros H%Cutover.finish_probed w Hw. rewrite Forall_forall in H.
    set (byKey := index_by ws_Key (as_Workloads st)).
    destruct (H (Cutover.seed_one byKey facts w)) as [H1 H2].
    { unfold Cutover.seed. rewrite Hi. destruct Hw as [Hw _]. destruct (inv_Workloads inv); [by apply elem_of_nil in Hw|].
      apply list_elem_of_In, in_map. by apply list_elem_of_In. }
    rewrite (Cutover.seed_one_ready _ _ _ ready Er) in H1. unfold map_get in H1.
    assert (ready !! WKey w = Some true) as Hk by (by destruct (ready !! WKey w) as [[]|]).
    destruct (Hr w Hw Hk) as [Hc Hb]. split; [done|]. unfold cut_over. destruct (Graph.Is w); [done|].
    destruct Hb as [Hrd Hpb]. split; [done|]. intros Hx. destruct (Hpb Hx) as (q & Hq & Hkq). exists q. split; [|done].
    rewrite Cutover.seed_one_class in H2. destruct H2 as [H2|H2]; [done|].
    by rewrite (Cutover.seed_one_probe _ _ _ probes q Ep Hkq) in H2 by (by left). }
  assert (Cutover.stage p = 5 -> Restore.r_Phase (Cutover.Advance st facts) = ActionPhaseSucceeded ->
    forall w, sole (inv_Workloads inv) w -> w_Class w <> ClassStateless /\ cut_over w log) as Hdone.
  { intros H5. unfold Cutover.Advance. rewrite Hp.
    destruct p; try done; cbn; destruct (Cutover.f_Rollback facts); cbn; try done; exact r_done. }
  clear r_done. pose proof (Cutover.Advance_next st facts) as Hn. rewrite Hp in Hn.
  revert Hn Hdone. generalize (Restore.r_Phase (Cutover.Advance st facts)). intros p' Hn Hdone.
  destruct Hn as [[-> _]|Hn]; [by destruct p|].
  destruct p as [| | | | | | | | | | | | | |[|a s]]; try done; cbn [Cutover.next_phase] in Hn;
    destruct Hn as [->|Hn]; try exact I; destruct_and?; subst p'; try exact I; cbn [stage_evidence]; auto.
Qed.

(** A run advances the machine on such facts. *)
Lemma runCutover_founded act inv log :
  wp any_env (runCutover Catalog r act pol pair ep inv) log (fun log' x => exists facts,
    x = Ok (Cutover.Advance (act_Status act) facts) /\ Cutover.f_DryRun facts = spec_DryRun (act_Spec act) /\
    founded_facts inv (as_Phase (act_Status act)) log' facts).
Proof.
  unfold runCutover. set (p := as_Phase (act_Status act)).
  apply wp_bind. eapply wp_mono; [apply wp_True|]. intros log1 t _.
  apply wp_bind. eapply wp_mono; [apply wp_did|]. intros log2 reg Hreg. cbn beta in Hreg.
  apply wp_bind. eapply wp_mono_ext; [apply cutover_loop_evidence|]. intros ext1 f (Hb & Hk & Hl & Hp).
  apply wp_bind. eapply wp_mono_ext with (P := fun l b => p = ActionPhaseQuiescing -> b = true ->
    forall w, moved inv w -> at_zero l w).
  { case_bool_decide as Hq; [|by intros ?]. eapply wp_mono; [apply all_frozen_evidence|]. by intros l b H _. }
  intros ext2 frozen Hf.
  apply wp_bind. eapply wp_mono_ext with (P := fun l b => b = true ->
    did (Traffic.Switch (traffic_hook pol) (traffic_event "switch" pol pair)) None l).
  { case_bool_decide as Hq; [|done]. apply wp_bind. eapply wp_mono; [apply wp_did|].
    intros l [e|] H; [done|by intros _]. }
  intros ext3 switched Hsw.
  apply wp_bind. eapply wp_mono_ext; [apply wp_True|]. intros ext4 _ _. cbn [wp].
  eexists. split_and!; [reflexivity|done|]. constructor; cbn.
  - done.
  - intros Hq [_ H]%andb_true_iff w Hw. destruct (Hf Hq H w Hw) as (c & Hc & Hz). exists c.
    split; [done|by do 2 apply did_app].
  - intros [_ H]%andb_true_iff w [Hw Hg]. unfold lag_read. do 3 apply did_app. by apply Hl.
  - intros [_ H]%andb_true_iff Hph. exists reg. split; [by do 4 apply did_app|].
    intros w [Hw Hg]. unfold was_promoted. do 3 apply did_app. by apply Hp.
  - intros H. apply did_app. by apply Hsw.
  - do 2 eexists. split_and!; [done|done|]. intros w Hs Hrd.
    destruct (Hk (WKey w)) as (w' & Hw' & Ek); [by eexists|].
    apply elem_of_Stateful in Hw' as [Hin Hc]. destruct Hs as [Hw Hsole]. pose proof (Hsole w' Hin Ek) as ->.
    split; [done|]. assert (cut_borne_out w ((((log2 ++ ext1) ++ ext2) ++ ext3) ++ ext4) f) as Hbo.
    { do 3 apply cut_borne_out_app. apply Hb; [|by apply elem_of_Stateful]. split; [by apply elem_of_Stateful|].
      intros v [Hv _]%elem_of_Stateful Ev. by apply Hsole. }
    specialize (Hbo Hrd). destruct (Graph.Is w); [|done]. destruct Hbo as (msg & Hd & _). by exists msg.
Qed.

(** The evidence of a Cutover that newly succeeded. *)
Definition cutover_evidence (inv : Inventory) (log : list (event ev)) : Prop :=
  forall w, sole (inv_Workloads inv) w -> w_Class w <> ClassStateless /\ cut_over w log.

Lemma cutover_evidence_app inv log ext : cutover_evidence inv log -> cutover_evidence inv (log ++ ext).
Proof.
  intros H w Hw. destruct (H w Hw) as [Hc Ho]. split; [done|]. unfold cut_over in *. destruct (Graph.Is w).
  - destruct Ho as (msg & Hd). exists msg. by apply did_app.
  - destruct Ho as [Hr Hp]. split; [by apply read_ready_app|]. intros Hx. destruct (Hp Hx) as (q & Hq & Hd).
    exists q. split; [done|by apply ran_probe_app].
Qed.

Lemma runCutover_evidence act inv log : spec_DryRun (act_Spec act) = false ->
  as_Phase (act_Status act) <> ActionPhaseSucceeded ->
  wp any_env (runCutover Catalog r act pol pair ep inv) log (fun log' x => forall res, x = Ok res ->
    Restore.r_Phase res = ActionPhaseSucceeded -> cutover_evidence inv log').
Proof.
  intros Hd Hst. eapply wp_mono; [apply runCutover_founded|]. intros log' x (facts & -> & Hdry & Hf) res [= <-] Hp.
  pose proof (founded_stage inv _ log' (act_Status act) facts eq_refl Hf) as He. rewrite Hp in He. clear Hf.
  pose proof (Cutover.Advance_next (act_Status act) facts) as Hn. rewrite Hp in Hn. rewrite Hd in Hdry.
  destruct (as_Phase (act_Status act)) as [| | | | | | | | | | | | | |[|a s]]; cbn in Hn, He;
    first [exact He | exfalso; clear -Hst Hdry Hn; repeat (destruct Hn as [Hn|Hn]); destruct_and?; congruence].
Qed.
End cutover.

(** ** Properties *)

(** C7: each stage of a cutover rests on calls of the pass that left it. For every
    answer of the clusters, the movers and the network: a pass goes from
    quiescing to catching up only if it read every stateful workload at zero
    on the source (the object graph aside); from there to promoting only if it
    saw the lag of each to be zero; to switching only if it promoted each, with a
    registry it read; to waiting only if the traffic hook accepted; and to
    Succeeded only if it read each workload, alone with its key, Ready on the
    destination and its probe passed there when commands can be run (the object
    graph: was found there) - in this very pass, whatever older statuses said. *)
Theorem cutover_stages {U : Unstructured} {L : Library} Catalog r act pol pair ep inv :
  always (runCutover Catalog r act pol pair ep inv) (fun log x => exists res, x = Ok res /\
    stage_evidence Catalog r pol pair ep inv (as_Phase (act_Status act)) (Restore.r_Phase res) log).
Proof.
  eapply wp_mono; [apply runCutover_founded|]. intros log x (facts & -> & _ & Hf).
  eexists. split; [done|]. by apply founded_stage.
Qed.
