(* ===== verification/PassEvidence.v ===== *)
(** * The evidence of a whole pass of the Action reconciler

    Evidence.v relates the result of a run to the calls it made. Here the same
    of [Reconcile]: a Backup, a Restore or a Cutover is only ever marked Succeeded in a
    pass whose log holds the evidence, for the inventory this pass walked, on
    the clusters it resolved, under the Policy it read. *)

From Stdlib Require Import ZArith Lia.
From S2P Require Import Prelude GoStrings Effects ObjectStore Api GoTime Json Kube Unstructured Classify Movers.
From S2P Require Import Workloads ActionPhase Clusters Retry PolicyController ActionFacts ActionRun OffHub ActionLife.
From S2P Require Import ActionController Evidence CutoverEvidence.
From S2P Require Backup Restore Graph Export Probe Dump.

Section pass.
  Context {U : Unstructured} {C : Export.Converter} {L : Library} {R : Retry} (Catalog : list Engine).
  Context (r : ActionReconciler) (Hr : OffHubReconciler r).

(** What a pass over [act] read before it ran: the Policy, the pair, the
    clusters, and the inventory of the source. *)
Record scene (act : Action) (log : list (event ev)) (pol : Policy) (cp : option ClusterPair) (ep : Pair)
    (inv : Inventory) : Prop := {
  sc_policy : mkEvent (hubGetPolicy (act_Namespace act) (spec_PolicyRef (act_Spec act))) (Ok pol) ∈ log;
  sc_pair : did (loadPair pol) (Ok cp) log;
  sc_clusters : exists ep0, did (endpoints r cp) (Ok ep0) log /\ fill_endpoints r cp ep0 = Ok ep;
  sc_inventory : exists c inv0, ep_Kube (pr_Source ep) = Some c /\
    did (Walk Catalog c (Namespaces (ps_SelectorNamespaces (pol_Spec pol)) (pol_Namespace pol))) (Ok inv0) log /\
    inv = withClusterObjects (Some pol) inv0 }.

Lemma scene_app act log ext pol cp ep inv : scene act log pol cp ep inv -> scene act (log ++ ext) pol cp ep inv.
Proof.
  intros [Hp Hc (ep0 & He & Hf) (c & inv0 & Hk & Hw & ->)]. constructor.
  - apply elem_of_app. by left.
  - by apply did_app.
  - exists ep0. split; [by apply did_app|done].
  - exists c, inv0. split_and!; [done|by apply did_app|done].
Qed.

(** The evidence a success of [act] with workloads [ws] needs. *)
Definition evidence (act : Action) (pol : Policy) (cp : option ClusterPair) (ep : Pair) (inv : Inventory)
    (ws : list WorkloadActionStatus) (log : list (event ev)) : Prop :=
  match spec_Type (act_Spec act) with
  | ActionBackup => backup_evidence pol inv log
  | ActionRestore => spec_DryRun (act_Spec act) = false -> restore_evidence Catalog r cp ep inv log ws
  | ActionCutover => spec_DryRun (act_Spec act) = false -> cutover_evidence Catalog r pol cp ep inv log
  | _ => True
  end.

Lemma evidence_app act pol cp ep inv ws log ext :
  evidence act pol cp ep inv ws log -> evidence act pol cp ep inv ws (log ++ ext).
Proof.
  unfold evidence. destruct (spec_Type (act_Spec act)); try done.
  - apply backup_evidence_app.
  - intros H Hd. by apply restore_evidence_app, H.
  - intros H Hd. by apply cutover_evidence_app, H.
Qed.

(** Every success written so far has its evidence. *)
Definition founded (act : Action) (log : list (event ev)) : Prop := forall e a,
  e ∈ log -> status_written e = Some a -> as_Phase (act_Status a) = ActionPhaseSucceeded ->
  exists pol cp ep inv, scene act log pol cp ep inv /\
    evidence act pol cp ep inv (as_Workloads (act_Status a)) log.

Lemma founded_snoc act log e : founded act log ->
  (forall a, status_written e = Some a -> as_Phase (act_Status a) = ActionPhaseSucceeded ->
     exists pol cp ep inv, scene act log pol cp ep inv /\
       evidence act pol cp ep inv (as_Workloads (act_Status a)) log) ->
  founded act (log ++ [e]).
Proof.
  intros Hl He e' a Hin Ha Hp.
  assert (exists pol cp ep inv, scene act log pol cp ep inv /\
    evidence act pol cp ep inv (as_Workloads (act_Status a)) log) as (pol & cp & ep & inv & Hs & Hev).
  { apply elem_of_app in Hin as [Hin| ->%list_elem_of_singleton]; [by apply (Hl e')|by apply He]. }
  exists pol, cp, ep, inv. split; [by apply scene_app|by apply evidence_app].
Qed.

(** Programs that write no status keep it so. *)
Lemma founded_only act {A} (m : io ev A) log :
  only (fun X (e : ev X) => status_write e = false) m -> founded act log ->
  wp any_env m log (fun log' _ => founded act log').
Proof.
  intros Hm Hl. apply (wp_only _ (founded act) m log Hm); [|done].
  intros l X e x He Hl'. apply founded_snoc; [done|]. intros a Ha. unfold status_written in Ha. cbn in *. by destruct e.
Qed.

Lemma founded_off act {A} (m : io ev A) log : off_hub m -> founded act log ->
  wp any_env m log (fun log' _ => founded act log').
Proof. intros Hm. apply founded_only. eapply only_mono; [|exact Hm]. intros X e. by destruct e. Qed.

(** Writing a status that has its evidence, or is no success. *)
Lemma writeStatus_founded act act' log : founded act log ->
  (as_Phase (act_Status act') = ActionPhaseSucceeded -> exists pol cp ep inv, scene act log pol cp ep inv /\
     evidence act pol cp ep inv (as_Workloads (act_Status act')) log) ->
  wp any_env (writeStatus act') log (fun log' _ => founded act log').
Proof.
  intros Hl Hev.
  set (I := fun log' : list (event ev) => founded act log' /\
    (as_Phase (act_Status act') = ActionPhaseSucceeded -> exists pol cp ep inv, scene act log' pol cp ep inv /\
     evidence act pol cp ep inv (as_Workloads (act_Status act')) log')).
  assert (forall l e, I l -> (forall a, status_written e = Some a -> act_Status a = act_Status act') ->
    I (l ++ [e])) as Hsnoc.
  { intros l e [H1 H2] He. split.
    - apply founded_snoc; [done|]. intros a Ha Hp. rewrite (He a Ha) in Hp |- *. by apply H2.
    - intros Hp. destruct (H2 Hp) as (pol & cp & ep & inv & Hs & He'). exists pol, cp, ep, inv.
      split; [by apply scene_app|by apply evidence_app]. }
  apply wp_retry with (I := I); [done|]. intros l HI. wp_call latest.
  destruct latest as [latest|e]; [|split; [by apply Hsnoc|intros; by apply Hsnoc]].
  wp_call rv. cbn [wp]. match goal with |- founded _ ?x /\ _ => assert (I x) as [? ?] end; [|by split].
  apply Hsnoc; [by apply Hsnoc|]. by intros a [= <-].
Qed.

Lemma fail_founded act act' msg log : founded act log ->
  wp any_env (fail r act' msg) log (fun log' _ => founded act log').
Proof.
  intros Hl. unfold fail. apply wp_bind. eapply wp_mono; [apply founded_off; [apply (off_now r Hr)|exact Hl]|].
  intros log1 t Hl1. apply wp_bind. eapply wp_mono; [apply writeStatus_founded; [exact Hl1|done]|]. by intros.
Qed.

(** The Actions that are over once they Succeeded. *)
Definition fresh_type (act : Action) : Prop :=
  spec_Type (act_Spec act) = ActionRestore \/ spec_Type (act_Spec act) = ActionCutover.

(** The run of a pass, with its evidence. *)
Lemma run_type_evidence act pol cp ep inv m log : run_type Catalog r act pol cp ep inv = Some m ->
  (fresh_type act -> as_Phase (act_Status act) <> ActionPhaseSucceeded) ->
  wp any_env m log (fun log' x => forall res, x = Ok res -> Restore.r_Phase res = ActionPhaseSucceeded ->
    evidence act pol cp ep inv (Restore.r_Workloads res) log').
Proof.
  unfold run_type, evidence, fresh_type. destruct (spec_Type (act_Spec act)); intros [= <-] Hst;
    try (eapply wp_mono; [apply wp_True|]; done).
  - apply runBackup_evidence.
  - destruct (spec_DryRun (act_Spec act)) eqn:Hd; [eapply wp_mono; [apply wp_True|]; done|].
    eapply wp_mono; [by apply runRestore_evidence; [|apply Hst; left]|]. intros log' x H res Hx Hp _. by apply H.
  - destruct (spec_DryRun (act_Spec act)) eqn:Hd; [eapply wp_mono; [apply wp_True|]; done|].
    eapply wp_mono; [by apply runCutover_evidence; [|apply Hst; right]|]. intros log' x H res Hx Hp _. by eapply H.
Qed.

(** The Action a pass goes on with is the one read, but for its status. *)
Definition going_on (act0 act : Action) : Prop := held act0 act /\
  (fresh_type act0 -> as_Phase (act_Status act) <> ActionPhaseSucceeded).

Lemma evidence_held act0 act pol cp ep inv ws log : held act0 act ->
  evidence act pol cp ep inv ws log -> evidence act0 pol cp ep inv ws log.
Proof. intros (_ & _ & E). unfold evidence. by rewrite E. Qed.

Lemma run_action_founded act0 act pol cp ep inv log : going_on act0 act -> founded act0 log ->
  scene act0 log pol cp ep inv ->
  wp any_env (run_action Catalog r act pol cp ep inv) log (fun log' _ => founded act0 log').
Proof.
  intros [Hh Hst] Hl Hs. pose proof Hh as (_ & _ & Hspec). unfold run_action. apply wp_bind.
  eapply wp_mono_ext with (P := fun log' _ => founded act0 log').
  { unfold started. destruct (as_StartTime _); [done|]. apply founded_off; [apply (off_now r Hr)|done]. }
  intros ext t Hl1. set (act1 := with_act_status _ act).
  destruct (run_type Catalog r act1 pol cp ep inv) as [m|] eqn:Em; [|by apply fail_founded].
  assert (fresh_type act1 -> as_Phase (act_Status act1) <> ActionPhaseSucceeded) as Hst1
    by (unfold fresh_type in *; cbn; rewrite Hspec; exact Hst).
  apply wp_bind. eapply wp_mono_ext; [apply wp_and; [apply founded_only; [by eapply run_type_only|exact Hl1]|
    by eapply run_type_evidence]|]. intros ext2 [x|e] [Hl2 Hev]; [|done].
  unfold record. apply wp_bind.
  eapply wp_mono_ext with (P := fun log' _ => founded act0 log').
  { case_if; [|exact Hl2]. apply founded_off; [apply (off_now r Hr)|exact Hl2]. }
  intros ext3 t' Hl3. apply wp_bind. eapply wp_mono; [apply writeStatus_founded; [exact Hl3|]|].
  2:{ intros log' [y|e] Hl4; [|done]. case_if; [|exact Hl4]. wp_call u. by apply founded_snoc. }
  cbn. intros Hp. exists pol, cp, ep, inv. split; [by do 3 apply scene_app|]. apply evidence_app.
  eapply evidence_held; [|by apply Hev]. exact Hh.
Qed.

Lemma prepared_founded act0 act pol log : going_on act0 act -> founded act0 log ->
  mkEvent (hubGetPolicy (act_Namespace act0) (spec_PolicyRef (act_Spec act0))) (Ok pol) ∈ log ->
  wp any_env (prepared Catalog r act pol) log (fun log' _ => founded act0 log').
Proof.
  intros Ha Hl Hp. unfold prepared. apply wp_bind.
  eapply wp_mono_ext; [apply wp_and; [apply founded_off; [|exact Hl]|apply wp_did]|]; [unfold loadPair; off|].
  intros ext1 [cp|e] [Hl1 Hd1]; [|by apply fail_founded]. apply wp_bind.
  eapply wp_mono_ext; [apply wp_and; [apply founded_off; [by apply off_endpoints|exact Hl1]|apply wp_did]|].
  intros ext2 [ep0|e] [Hl2 Hd2]; [|done]. destruct (fill_endpoints r cp ep0) as [ep|e] eqn:Ef; [|done].
  unfold with_kube. destruct (ep_Kube (pr_Source ep)) as [c|] eqn:Ec; [|by intros []]. apply wp_bind.
  eapply wp_mono_ext; [apply wp_and; [apply founded_off; [apply off_Walk|exact Hl2]|apply wp_did]|].
  intros ext3 [inv|e] [Hl3 Hd3]; [|done]. apply run_action_founded; [done|exact Hl3|]. constructor.
  - rewrite <- !app_assoc. apply elem_of_app. by left.
  - by do 2 apply did_app.
  - exists ep0. split; [by apply did_app|done].
  - by exists c, inv.
Qed.

Lemma mark_pending_founded act0 act log : going_on act0 act -> founded act0 log ->
  wp any_env (mark_pending act) log (fun log' x => founded act0 log' /\
    match x with Ok act' => going_on act0 act' | Err _ => True end).
Proof.
  intros [(H1 & H2 & H3) Hst] Hl. unfold mark_pending. case_if; [|done].
  apply wp_and; [by apply writeStatus_founded|]. apply wp_retry with (I := fun _ => True); [done|].
  intros l _. wp_call latest. destruct latest as [latest|e]; [|done]. wp_call rv.
  destruct rv as [rv|e]; cbn; by split_and!.
Qed.
End pass.

(** ** Properties *)

Section properties.
  Context {U : Unstructured} {C : Export.Converter} {L : Library} {R : Retry} (Catalog : list Engine).
  Context (r : ActionReconciler).

(** C6: a success has its evidence in the calls of its own pass. For every answer
    of the hub, the clusters, the stores and the network, and for each workload
    alone with its key in the inventory the pass walked: when the pass marks a
    Backup Succeeded, a stateful one has a useful artifact among those this pass
    wrote on the Policy, and for a SQL or key-value database Portage dumps
    itself, this pass ran its dump command, got at least 64 KiB, and stored
    exactly these bytes under the artifact's identifier; when it marks a Restore
    that is no dry run Succeeded, at least one workload of the inventory was not
    skipped, and of each that was not this pass read, if it is Stateless, that it
    is Ready on the destination (the code probes none of those), if it is the
    object graph, that it is attested there, and otherwise that it is Ready
    there and, when the destination has an exec client, that its class probe
    passed, whatever older statuses said; when it marks a Cutover that is no dry
    run Succeeded, it is not Stateless, and was read Ready on the destination in
    this pass and, with an exec client there, its class probe run and passed (the
    object graph: attested there). *)
Theorem Reconcile_evidence ns name : OffHubReconciler r ->
  always (Reconcile Catalog r ns name) (fun log _ => forall e a, e ∈ log -> status_written e = Some a ->
    as_Phase (act_Status a) = ActionPhaseSucceeded ->
    exists act pol cp ep inv, head log = Some (mkEvent (hubGetAction ns name) (Ok act)) /\
      scene Catalog r act log pol cp ep inv /\
      evidence Catalog r act pol cp ep inv (as_Workloads (act_Status a)) log).
Proof.
  intros Hr. unfold always, Reconcile. wp_call act. set (e0 := mkEvent (hubGetAction ns name) act).
  assert (forall e a, e ∈ [e0] -> status_written e = Some a -> False) as H0
    by (intros e a ->%list_elem_of_singleton; done).
  destruct act as [act|e]; [|intros e' a He Ha; by destruct (H0 e' a)].
  destruct (resume act) as [st|] eqn:Hst; [|intros e' a He Ha; by destruct (H0 e' a)].
  assert (founded Catalog r act [e0]) as Hl by (intros e' a He Ha'; by destruct (H0 e' a)).
  assert (going_on act (with_act_status st act)) as Hg.
  { split; [done|]. intros Ht. unfold resume in Hst. cbn.
    destruct Ht as [Ht|Ht]; rewrite Ht in Hst; cbn in Hst;
    destruct (as_Phase (act_Status act)) eqn:Ep; try case_if_in Hst; try done; injection Hst as <-; try done; congruence. }
  eapply wp_mono_ext with (P := fun log _ => founded Catalog r act log).
  2:{ intros ext x Hlog e' a He Ha' Hp. destruct (Hlog e' a He Ha' Hp) as (pol & cp & ep & inv & Hs & Hev).
      by exists act, pol, cp, ep, inv. }
  destruct (acr_Kube r); [|exact Hl]. case_if; [by apply fail_founded|]. wp_call pol.
  set (e1 := mkEvent (hubGetPolicy _ _) pol).
  assert (founded Catalog r act ([e0] ++ [e1])) as Hl1 by by apply founded_snoc.
  destruct pol as [pol|e]; [|by apply fail_founded]. apply wp_bind.
  eapply wp_mono_ext; [by apply mark_pending_founded|].
  intros ext [act'|e] [Hl2 Hx]; [|done]. apply prepared_founded; [done|done|exact Hl2|].
  apply elem_of_app. left. apply elem_of_app. right. by left.
Qed.
End properties.

Lemma Reconcile_evidence_witness :
  OffHubReconciler hub /\ always (Reconcile (U := plain) (C := some_converter) (L := some_library)
    (R := default_retry) builtin_catalog hub "shop" "backup-1") (fun log _ => forall e a, e ∈ log ->
    status_written e = Some a -> as_Phase (act_Status a) = ActionPhaseSucceeded ->
    exists act pol cp ep inv, head log = Some (mkEvent (hubGetAction "shop" "backup-1") (Ok act)) /\
      scene builtin_catalog hub act log pol cp ep inv /\
      evidence (L := some_library) builtin_catalog hub act pol cp ep inv (as_Workloads (act_Status a)) log).
Proof.
  split; [apply hub_off|].
  exact (Reconcile_evidence (U := plain) (C := some_converter) (L := some_library) (R := default_retry)
    builtin_catalog hub "shop" "backup-1" hub_off).
Defined.
