(* ===== verification/Liveness.v ===== *)
(** * A Backup gets through

    When the clusters, the store and the hub do their part, a run of a Backup
    ends in success: nothing panics and no wait is left. The environment may
    still answer everything else as it likes. *)

From Stdlib Require Import ZArith Lia.
From S2P Require Import Prelude GoStrings Effects ObjectStore Api GoTime Json Kube Unstructured Classify Movers.
From S2P Require Import Workloads ActionPhase Clusters Retry ActionFacts ActionRun OffHub ActionLife Evidence.
From S2P Require Metrics Backup Restore Usefulness Probe Dump Snapshots Postgres Graph Export Cli.

(** ** An environment that does its part for the workloads [ws] on the clusters
    [up] *)

Section environment.
  Context (ws : list Workload) (up : kube -> Prop).

(** A Ready pod of [w]. *)
Definition has_ready_pod (pods : list Pod) (w : Workload) : Prop :=
  exists p, p ∈ pods /\ isPodReady p = true /\ podOwnedBy p {[w_Name w]} = true.

(** The commands Portage runs in the pods of [w]: dump, replay, probe, promotion. *)
Definition runs_in (w : Workload) (cmd : list string) : Prop :=
  cmd = Dump.Command (w_Engine w) \/ cmd = Dump.RestoreCommand (w_Engine w) \/
  cmd = Probe.pb_Command (Probe.Default w) \/ cmd = Postgres.PromoteCmd.

(** Every listing of pods shows each workload Ready; these commands end well; the
    store and the hub accept what is written. *)
Definition good {X} (e : ev X) : X -> Prop :=
  match e in ev X return X -> Prop with
  | kList c k ns => match k return res (list (kobj k)) -> Prop with
      | KPod => fun x => exists pods : list Pod, x = Ok pods /\
          (up c -> forall w, w ∈ ws -> w_Namespace w = ns -> has_ready_pod pods w)
      | KReplicaSet => fun x => exists l : list ReplicaSet, x = Ok l
      | _ => fun _ => True
      end
  | exec _ _ _ _ cmd _ => fun x => (exists w, w ∈ ws /\ runs_in w cmd) -> snd x = None
  | storePut _ _ _ => fun x => x = None
  | hubGetPolicy _ _ => fun x => exists p, x = Ok p
  | hubUpdatePolicyStatus _ => fun x => x = None
  | _ => fun _ => True
  end.

(** A pod and a dump there can be. *)
Definition ready_pod (w : Workload) : Pod :=
  mkPod (mkMeta "pod" (w_Namespace w) None None [mkOwner EmptyString EmptyString (w_Name w)] "" "" 0 [] JNull)
    (mkPodSpec None "" None [] [] None [] [] []) "Running" [mkCond "Ready" "True"].
Definition some_dump : string := Cli.blanks (64 * 1024).

Lemma some_dump_length : (64 * 1024 <= str_len some_dump)%Z.
Proof. unfold str_len, some_dump. rewrite Cli.length_blanks. lia. Qed.

Definition some_policy : Policy :=
  mkPolicy "" "" 0 (mkPolicySpec "" [] (mkBackupSpec false "" false "") (mkReplicateSpec false "" "")
    (mkRestoreSpec false false "") (mkCutoverSpec "" "") (mkRendererSpec RendererSanitize "" None)
    (mkClusterObjectsSpec false None [] []) ∅) (mkPolicyStatus PolicyPending "" [] [] false "" 0).

(** Every call but a panic has a good answer. *)
Definition panicless {X} (e : ev X) : bool := match e with panic _ => false | _ => true end.

Lemma panicless_answerable X (e : ev X) : panicless e = true -> exists x, good e x.
Proof.
  intros Hp. destruct e; try discriminate Hp; cbn;
    try first [by exists (Err (errorf "")) | by exists None | by exists ([], None) | by exists 0%Z | by exists 0
              | by exists EmptyString | by exists [] | by exists tt | by exists (EmptyString, None)].
  - destruct k; try (by exists (Err (errorf ""))).
    + exists (Ok (List.map ready_pod ws)). eexists. split; [done|]. intros _ w Hw _. exists (ready_pod w). split_and!.
      * apply list_elem_of_In, in_map. by apply list_elem_of_In.
      * done.
      * cbn. rewrite bool_decide_true by set_solver. done.
    + exists (Ok []). by eexists.
  - exists (mkExecResult some_dump EmptyString, None). done.
  - exists (Ok some_policy). by eexists.
Qed.

(** ** Any environment that gives good answers

    [S] is what it remembers. *)

Record helpful {S : Type} (env : forall X, S -> ev X -> X -> S -> Prop) : Prop := {
  hp_good X s (e : ev X) x s' : env X s e x s' -> good e x;
  hp_answers X s (e : ev X) : panicless e = true -> exists x s', env X s e x s' }.

Section helped.
  Context {S : Type} (env : forall X, S -> ev X -> X -> S -> Prop) (Henv : helpful env).

Lemma live_panicless {A} (m : io ev A) s :
  only (fun X (e : ev X) => panicless e = true) m -> live env m s (fun _ _ => True).
Proof.
  revert s. induction m as [a|X e k IH]; intros s; cbn [only live]; [done|]. intros [He Hk]. split.
  - by apply (hp_answers _ Henv).
  - intros x s' _. by apply IH.
Qed.

Lemma live_call {X A} (e : ev X) (k : X -> io ev A) s Q : panicless e = true ->
  (forall x s', env X s e x s' -> good e x -> live env (k x) s' Q) ->
  live env (let* x := trigger e in k x) s Q.
Proof.
  intros He Hk. split; [by apply (hp_answers _ Henv)|]. intros x s' Hx.
  apply Hk; [done|]. by apply (hp_good _ Henv) in Hx.
Qed.

(** A Ready pod is listed, and found. *)
Lemma ListPods_live c w s : up c -> w ∈ ws ->
  live env (ListPods c w) s (fun _ x => exists pods p, x = Ok pods /\ p ∈ pods /\ isPodReady p = true).
Proof.
  intros Hup Hw. unfold ListPods. apply live_call; [done|].
  intros x s1 _ (pods & -> & Hp). destruct (Hp Hup w Hw eq_refl) as (p & Hin & Hr & Ho).
  assert (forall owners : gset string, {[w_Name w]} ⊆ owners ->
    p ∈ List.filter (fun p => podOwnedBy p owners) pods) as Hfind.
  { intros owners Hsub. apply list_elem_of_In, filter_In. split; [by apply list_elem_of_In|].
    unfold podOwnedBy in *. apply existsb_exists in Ho as (o & Hino & Hon). apply existsb_exists. exists o.
    split; [done|]. apply bool_decide_eq_true in Hon. apply bool_decide_eq_true. set_solver. }
  case_if; [|eexists _, p; split_and!; [done|by apply Hfind|done]].
  apply live_call; [done|]. intros y s2 _ (l & ->). cbn [live].
  eexists _, p. split_and!; [done|apply Hfind|done]. clear.
  assert (forall (l : list ReplicaSet) (o : gset string), o ⊆ fold_left (fun owners rs =>
    if ownedBy rs "Deployment" (w_Name w) then {[om_Name (rs_Meta rs)]} ∪ owners else owners) l o) as H.
  { intros l0. induction l0 as [|rs l0 IH]; intros o; [reflexivity|]. cbn. etrans; [|apply IH]. case_if; set_solver. }
  apply H.
Qed.

Lemma FirstReadyPod_live c w s : up c -> w ∈ ws ->
  live env (FirstReadyPod c w) s (fun _ x => exists p, x = Ok p).
Proof.
  intros Hup Hw. unfold FirstReadyPod. apply live_bind. eapply live_mono; [by apply ListPods_live|].
  intros s1 x (pods & p & -> & Hin & Hr). destruct (List.find isPodReady pods) as [q|] eqn:Ef; [by eexists|]. exfalso.
  assert (isPodReady p = false) as E; [|congruence]. eapply find_none; [exact Ef|]. by apply list_elem_of_In.
Qed.

(** An object that shows its workload Ready. *)
Definition shows_ready (k : kind) : res (kobj k) -> Prop :=
  match k return res (kobj k) -> Prop with
  | KStatefulSet => fun y => exists o : StatefulSet, y = Ok o /\ ready_of (sts_Replicas o) (sts_ReadyReplicas o) = true
  | KDeployment => fun y => exists o : Deployment, y = Ok o /\ ready_of (dep_Replicas o) (dep_ReadyReplicas o) = true
  | KDaemonSet => fun y => exists o : DaemonSet, y = Ok o /\ (1 <=? ds_NumberReady o)%Z = true
  | _ => fun _ => True
  end.

Lemma Ready_live c w s : (forall s k ns n y s', env _ s (kGet c k ns n) y s' -> shows_ready k y) ->
  up c -> w ∈ ws -> live env (Ready c w) s (fun _ y => y = (true, None)).
Proof.
  intros Hr Hup Hw. unfold Ready. repeat case_if.
  - apply live_call; [done|]. intros y s1 Hy _. destruct (Hr _ KStatefulSet _ _ _ _ Hy) as (o & -> & Ho). cbn [live]. by rewrite Ho.
  - apply live_call; [done|]. intros y s1 Hy _. destruct (Hr _ KDeployment _ _ _ _ Hy) as (o & -> & Ho). cbn [live]. by rewrite Ho.
  - apply live_call; [done|]. intros y s1 Hy _. destruct (Hr _ KDaemonSet _ _ _ _ Hy) as (o & -> & Ho). cbn [live]. by rewrite Ho.
  - apply live_bind. eapply live_mono; [by apply ListPods_live|].
    intros s1 y (pods & p & -> & Hin & Hp). cbn [live]. f_equal. apply existsb_exists. exists p.
    split; [by apply list_elem_of_In|done].
Qed.

Lemma Run_live c x w s : up c -> w ∈ ws -> Graph.Is w = false ->
  live env (Probe.Run c (Some x) w) s (fun _ p => pr_OK p = true).
Proof.
  intros Hup Hw Hg. unfold Probe.Run. apply orb_false_iff in Hg as [Hg _]. rewrite Hg.
  assert (exists w', w' ∈ ws /\ runs_in w' (Probe.pb_Command (Probe.Default w))) as Hc by (exists w; unfold runs_in; tauto).
  destruct (Probe.pb_Command (Probe.Default w)) as [|a l]; [done|]. apply live_bind.
  eapply live_mono; [by apply FirstReadyPod_live|]. intros s1 y ([p container] & ->).
  apply live_call; [done|]. intros [o e] s2 _ He. specialize (He Hc). cbn in He. by subst e.
Qed.

(** A dump of a workload has 64 KiB or more. *)
Definition dumps {X} (e : ev X) : X -> Prop :=
  match e in ev X return X -> Prop with
  | exec _ _ _ _ cmd _ => fun x => (exists w, w ∈ ws /\ cmd = Dump.Command (w_Engine w)) ->
      (64 * 1024 <= str_len (ex_Stdout (fst x)))%Z
  | _ => fun _ => True
  end.

Context (Hlarge : forall X s (e : ev X) x s', env X s e x s' -> dumps e x).

(** The dump is taken, stored and large enough. *)
Lemma Capture_live c x st w t s : up c -> w ∈ ws -> Dump.Command (w_Engine w) <> [] ->
  live env (Dump.Capture c (Some x) (Some st) w t) s (fun _ '(_, n, _, e) =>
    e = None /\ (64 * 1024 <= n)%Z).
Proof.
  intros Hup Hw Hc. unfold Dump.Capture.
  assert (exists w', w' ∈ ws /\ runs_in w' (Dump.Command (w_Engine w))) as Hrun by (exists w; unfold runs_in; tauto).
  assert (exists w', w' ∈ ws /\ Dump.Command (w_Engine w) = Dump.Command (w_Engine w')) as Hcmd by by exists w.
  destruct (Dump.Command (w_Engine w)) as [|arg args]; [done|].
  apply live_bind. eapply live_mono; [by apply FirstReadyPod_live|]. intros s1 y [[p container] ->].
  apply live_call; [done|]. intros [r e] s2 Hx He. apply Hlarge in Hx. specialize (Hx Hcmd). specialize (He Hrun).
  cbn in He, Hx. subst e. apply live_call; [done|]. intros e s3 _ ->. by split.
Qed.

(** ** The Backup *)

Section backup.
  Context {U : Unstructured} {L : Library} {R : Retry} (Catalog : list Engine).
  Context (r : ActionReconciler) (pol : Policy) (pair : option ClusterPair) (ep : Pair).
  Context (c : kube) (x : execer) (Hup : up c).

(** The real clock, and a source to run commands on. *)
Context (Hnow : acr_Now r = None).
Context (Hkube : ep_Kube (pr_Source ep) = Some c) (Hexec : ep_Exec (pr_Source ep) = Some x).

Lemma live_now s Q : (forall t s', Q s' t) -> live env (now_of r) s Q.
Proof. intros H. unfold now_of. rewrite Hnow. apply live_call; [done|]. intros t s' _ _. apply H. Qed.

Lemma registry_live s : live env (registry Catalog r pair ep) s (fun _ _ => True).
Proof. apply live_panicless. off. Qed.

Lemma backup_size_live w s : w ∈ ws -> Dump.Command (w_Engine w) <> [] ->
  live env (backup_size r ep w) s (fun _ y => exists n msg id, y = Ok (n, msg, id) /\ (64 * 1024 <= n)%Z).
Proof.
  intros Hw Hc. unfold backup_size. rewrite Hexec, Hkube. cbn [with_kube].
  destruct (Dump.Command (w_Engine w)) as [|arg args] eqn:E; [done|]. rewrite <- E in Hc.
  apply live_bind. eapply live_mono; [apply live_panicless; off|]. intros s0 st _.
  apply live_bind, live_now. intros t s1. apply live_bind. eapply live_mono; [by apply Capture_live|].
  intros s2 [[[key n] useful] e] [-> Hn]. cbn [live]. by eexists n, _, key.
Qed.

(** A verdict that lets the Backup through. *)
Definition through (w : Workload) (a : ArtifactHealth) : Prop :=
  ah_Workload a = WKey w /\ ah_Useful a = true /\ awaiting a = false /\
  ah_Message a <> EmptyString /\ HasPrefix (ah_Message a) "skipped:" = false.

Lemma dump_judged w n id ready has :
  w_Class w = ClassSQLLogical \/ w_Class w = ClassKVLogical -> (64 * 1024 <= n)%Z ->
  let files := if String.eqb id EmptyString then [] else [Usefulness.mkFile "dump.sql" n] in
  let a := Usefulness.ForWorkload w (Usefulness.mkInput (ClassOther EmptyString) EmptyString n files ready has) in
  forall msg, through w (Backup.FromArtifact w (art_Useful a) (art_SizeBytes a)
    (if String.eqb (art_Message a) EmptyString then msg else art_Message a) id).
Proof.
  intros Hcl Hn files a msg.
  assert (Usefulness.logical (mkArtifact EmptyString EmptyString n false EmptyString)
    (Usefulness.mkInput (w_Class w) (w_Engine w) n files ready has) = a) as <-.
  { subst a files. unfold Usefulness.ForWorkload, Usefulness.Evaluate. cbn [Usefulness.in_Class Usefulness.in_Files Usefulness.in_SizeBytes].
    assert ((n =? 0)%Z = false) as -> by (apply Z.eqb_neq; lia).
    destruct (String.eqb id EmptyString); by destruct Hcl as [-> | ->]. }
  unfold Usefulness.logical, Usefulness.MinLogicalBytes. cbn [Usefulness.in_Files art_SizeBytes].
  subst files. assert ((64 * 1024 <=? n)%Z = true) as E by (by apply Z.leb_le).
  destruct (String.eqb id EmptyString); cbn -[Z.leb Usefulness.looksLikeDump];
    rewrite ?Dump.dump_sql; cbn -[Z.leb]; rewrite E; by split_and!.
Qed.

Lemma backup_data_live w s : w ∈ ws -> dumped_here pol w ->
  live env (backup_data r ep w) s (fun _ a => through w a).
Proof.
  intros Hw (Hcl & Hc & _). unfold backup_data. apply live_bind, live_now. intros t s1.
  apply live_bind. eapply live_mono; [apply live_panicless; off|]. intros s2 y _.
  apply live_bind. eapply live_mono; [apply live_panicless; off|]. intros s3 [[ready snap] err] _.
  apply live_bind. eapply live_mono; [by apply backup_size_live|]. intros s4 ? (n & msg & id & -> & Hn).
  cbn [live]. by apply dump_judged.
Qed.

Lemma backup_one_live reg arts w s : w ∈ ws -> dumped_here pol w ->
  live env (backup_one Catalog r pol pair ep reg arts w) s (fun _ arts' =>
    exists a, arts' = arts ++ [a] /\ through w a).
Proof.
  intros Hw Hd. pose proof Hd as (Hcl & Hc & Hg & Hm). unfold backup_one.
  rewrite bool_decide_eq_false_2 by (destruct Hcl as [-> | ->]; done). rewrite Hg, Hm. cbn [String.eqb].
  apply live_bind. unfold backup_auto. destruct (Dump.Command (w_Engine w)) as [|arg args] eqn:E; [done|].
  eapply live_mono; [by apply backup_data_live|]. intros s' a Ha. by exists a.
Qed.

(** What the hub accepted is the Policy it last answered, with the artifacts. *)
Definition wrote (okp : Policy -> Prop) (inv : Inventory) (arts : list ArtifactHealth) (s : S) : Prop :=
  exists latest s0, okp latest /\ env _ s0 (hubUpdatePolicyStatus
    (with_policy_status (artifacts_status inv arts (pol_Status latest)) latest)) None s.

Lemma writePolicyArtifacts_live okp inv arts s :
  (forall s ns n p s', env _ s (hubGetPolicy ns n) (Ok p) s' -> okp p) ->
  live env (writePolicyArtifacts pol inv arts) s (fun s' e => e = None /\ wrote okp inv arts s').
Proof.
  intros Hread. unfold writePolicyArtifacts. apply live_bind. apply live_retry. apply live_call; [done|].
  intros y s1 Hy (latest & ->). apply Hread in Hy.
  apply live_bind. eapply live_mono; [apply live_panicless; off|]. intros s2 _ _.
  apply live_call; [done|]. intros e s3 He ->. exists tt. split; [done|]. split; [done|]. by exists latest, s2.
Qed.

Lemma backup_loop_live reg inv s :
  (forall w, w ∈ inv -> w ∈ ws) ->
  (forall w, w ∈ inv -> w_Class w = ClassStateless \/ dumped_here pol w) ->
  live env (foldM (backup_one Catalog r pol pair ep reg) [] inv) s (fun _ arts =>
    Forall2 through (List.filter is_stateful inv) arts).
Proof.
  intros Hws Hd. apply (live_foldM env (backup_one Catalog r pol pair ep reg)
    (fun pre _ arts => Forall2 through (List.filter is_stateful pre) arts) inv [] s []); [constructor|].
  intros pre w post s1 arts E Hi. cbn [app] in E. assert (w ∈ inv) as Hw by (rewrite E; set_solver).
  rewrite List.filter_app. cbn [List.filter]. destruct (Hd w Hw) as [Hc|Hh].
  - unfold backup_one, is_stateful. rewrite Hc. rewrite bool_decide_eq_true_2 by done. cbn. by rewrite app_nil_r.
  - eapply live_mono; [by apply backup_one_live; auto|]. intros s2 arts' (a & -> & Ha).
    replace (is_stateful w) with true
      by (unfold is_stateful; symmetry; apply negb_true_iff, bool_decide_eq_false_2; by destruct Hh as [[-> | ->] _]).
    apply Forall2_app; [done|]. by constructor.
Qed.

(** Every stateful workload has such a verdict. *)
Lemma through_lookup inv arts w : Forall2 through (List.filter is_stateful inv) arts ->
  w ∈ inv -> w_Class w <> ClassStateless ->
  exists w' a, index_by ah_Workload arts !! WKey w = Some a /\ through w' a.
Proof.
  intros Hf Hw Hc. destruct (index_by ah_Workload arts !! WKey w) as [a|] eqn:E.
  - apply index_by_lookup_Some in E as (l1 & l2 & E & _). rewrite E in Hf.
    apply Forall2_app_inv_r in Hf as (ws1 & ws2 & _ & Hf & _).
    apply Forall2_cons_inv_r in Hf as (w' & ws3 & Ha & _). by exists w', a.
  - exfalso. apply index_by_lookup_None in E.
    assert (w ∈ List.filter is_stateful inv) as Hin.
    { apply list_elem_of_In, filter_In. split; [by apply list_elem_of_In|].
      unfold is_stateful. by apply negb_true_iff, bool_decide_eq_false_2. }
    apply list_elem_of_lookup in Hin as [i Hi]. destruct (Forall2_lookup_l _ _ _ _ _ Hf Hi) as (a & Ha & Hk & _).
    rewrite Forall_forall in E. by apply (E a (list_elem_of_lookup_2 _ _ _ Ha)).
Qed.

(** Verdicts like these are a healthy backup. *)
Lemma through_healthy inv arts : Forall2 through (List.filter is_stateful inv) arts ->
  fst (Backup.Healthy (mkInventory [] inv) arts) = true /\ List.find awaiting arts = None.
Proof.
  intros Hf. split.
  - apply Backup.Healthy_true. cbn. intros w Hw Hc. apply Backup.useful_for_reflect. unfold Backup.useful_forb.
    destruct (through_lookup inv arts w Hf Hw Hc) as (w' & a & -> & _ & Hu & _). exact Hu.
  - destruct (List.find awaiting arts) as [a|] eqn:E; [|done]. apply find_some in E as [Hin Ha].
    apply list_elem_of_In, list_elem_of_lookup in Hin as [i Hi].
    destruct (Forall2_lookup_r _ _ _ _ _ Hf Hi) as (w & _ & _ & _ & Hn & _). congruence.
Qed.
End backup.
End helped.
End environment.

(** A Backup of workloads that are Stateless or databases Portage dumps itself
    gets through in one run: it neither panics nor waits, and is Succeeded. *)
Lemma runBackup_live {U : Unstructured} {L : Library} {R : Retry} {S : Type}
    (env : forall X, S -> ev X -> X -> S -> Prop) (Catalog : list Engine) r pol pair ep c x inv s okp :
  helpful (inv_Workloads inv) (eq c) env -> (forall X s (e : ev X) y s', env X s e y s' -> dumps (inv_Workloads inv) e y) ->
  acr_Now r = None ->
  ep_Kube (pr_Source ep) = Some c -> ep_Exec (pr_Source ep) = Some x ->
  (forall w, w ∈ inv_Workloads inv -> w_Class w = ClassStateless \/ dumped_here pol w) ->
  (forall s ns n p s', env _ s (hubGetPolicy ns n) (Ok p) s' -> okp p) ->
  live env (runBackup Catalog r pol pair ep inv) s (fun s' y =>
    (exists res, y = Ok res /\ Restore.r_Phase res = ActionPhaseSucceeded /\ Restore.r_Terminal res = true) /\
    exists arts s1 t, Forall2 through (List.filter is_stateful (inv_Workloads inv)) arts /\
      wrote env okp inv arts s1 /\ env _ s1 now t s').
Proof.
  intros Henv Hlarge Hnow Hk Hx Hd Hread. unfold runBackup. apply live_bind. eapply live_mono; [by eapply registry_live|].
  intros s1 reg _. apply live_bind. eapply live_mono; [by eapply backup_loop_live; eauto|].
  intros s2 arts Harts. pose proof Harts as [Hh Hf]%through_healthy.
  apply live_bind. eapply live_mono; [by eapply writePolicyArtifacts_live|].
  intros s3 e [-> Hw]. apply live_bind. unfold now_of. rewrite Hnow. split; [by apply (hp_answers _ _ _ Henv)|].
  intros t s4 Ht. cbn [live]. rewrite Hf. split; [|by exists arts, s3, t]. eexists. split; [done|].
  unfold Backup.Advance. cbn [Backup.f_Inventory Backup.f_Artifacts].
  destruct (Backup.Healthy _ arts) as [ok missing]. cbn in Hh. by subst ok.
Qed.
