(* ===== verification/PassLiveness.v ===== *)
(** * A Backup Action completes

    The end-to-end statement of a Backup: the process main starts, an Action and
    a Policy on the hub, a cluster that answers. One pass of the reconciler
    leaves the Action Succeeded. *)

From Stdlib Require Import ZArith Lia.
From S2P Require Import Prelude GoStrings Effects Api GoTime Json Kube Unstructured Classify Movers.
From S2P Require Import Workloads Clusters CloudAuth Retry PolicyController ActionFacts ActionRun OffHub ActionController.
From S2P Require Import Evidence Setup Liveness.
From S2P Require Metrics Backup Restore Graph Export.

(** ** What the cluster lists *)

Record listing := mkListing {
  ls_StatefulSets : string -> list StatefulSet;
  ls_Deployments : string -> list Deployment;
  ls_DaemonSets : string -> list DaemonSet;
  ls_PVCs : string -> list PVC }.

Section walk.
  Context (Catalog : list Engine) (ls : listing).

Definition walked_ns (st : walk_state) (ns : string) : walk_state :=
  fold_left (add_orphan ns) (ls_PVCs ls ns)
    (fold_left (fun st d => add_workload ns st (of_ds Catalog ns d)) (ls_DaemonSets ls ns)
      (fold_left (fun st d => add_workload ns st (of_dep Catalog ns d)) (ls_Deployments ls ns)
        (fold_left (fun st s => add_workload ns st (of_sts Catalog ns s)) (ls_StatefulSets ls ns) st))).

Definition walked (nss : list string) : list Workload :=
  isort workload_leb (fst (fold_left walked_ns nss ([], ∅))).
End walk.

(** ** The environment of the passes

    The hub keeps the Action, and the Policy whose status it accepted last; the
    source cluster remembers the workloads that were scaled to zero; its listings
    are [ls]; the Policies read satisfy [pol_ok] (others may write them); the
    calls satisfy what more is asked, [more]; the rest as in Liveness.v. *)

Record hub := mkHubObjects {
  hb_Action : Action; hb_Policy : Policy; hb_Scaled : gset (string * string * string) }.

Section pass.
  Context {U : Unstructured} {C : Export.Converter} {L : Library} {R : Retry} {K : Cloud} (Catalog : list Engine).
  Context (defaultNew : restcfg -> res (option kube * option dyn * option execer)).
  Context (k : kube) (d : dyn) (x : execer) (cfg : restcfg).
  Context (ls : listing) (nss : list string) (pol_ok : Policy -> Prop).
  Context (up : kube -> Prop) (more : hub -> forall X, ev X -> X -> Prop).

Abbreviation r := (action_reconciler defaultNew k d x cfg).
Abbreviation ws := (walked Catalog ls nss).
Abbreviation inv := (mkInventory nss ws).

Definition answer_ok (s : hub) {X} (e : ev X) (y : X) : Prop :=
  good ws up e y /\ more s X e y /\
  match e in ev X return X -> Prop with
  | kList c kd ns => match kd return res (list (kobj kd)) -> Prop with
      | KStatefulSet => fun y => c = k -> y = Ok (ls_StatefulSets ls ns)
      | KDeployment => fun y => c = k -> y = Ok (ls_Deployments ls ns)
      | KDaemonSet => fun y => c = k -> y = Ok (ls_DaemonSets ls ns)
      | KPVC => fun y => c = k -> y = Ok (ls_PVCs ls ns)
      | _ => fun _ => True
      end
  | hubGetPolicy _ _ => fun y => exists p, y = Ok p /\ pol_ok p
  | _ => fun _ => True
  end y.

(** An update of the replicas of a workload on the source. *)
Definition note_scale (kind ns name : string) (n : option Z) (s : hub) : hub :=
  mkHubObjects (hb_Action s) (hb_Policy s)
    (if is_zero n then {[(kind, ns, name)]} ∪ hb_Scaled s else hb_Scaled s ∖ {[(kind, ns, name)]}).

(** The Action is read as it is stored; a status and the annotations written
    are stored, under a new version. *)
Definition hub_keeps {X} (s : hub) (e : ev X) : X -> hub -> Prop :=
  match e in ev X return X -> hub -> Prop with
  | hubGetAction _ _ => fun y s' => y = Ok (hb_Action s) /\ s' = s
  | hubUpdateActionStatus a => fun y s' => exists v, y = Ok v /\
      s' = mkHubObjects (with_act_version v (with_act_status (act_Status a) (hb_Action s))) (hb_Policy s) (hb_Scaled s)
  | hubUpdateAction a => fun y s' => exists v, y = Ok v /\
      s' = mkHubObjects (with_act_version v (with_act_annotations (act_Annotations a) (hb_Action s))) (hb_Policy s) (hb_Scaled s)
  | hubUpdatePolicyStatus p => fun _ s' => s' = mkHubObjects (hb_Action s) p (hb_Scaled s)
  | kUpdate c kd ns o => match kd return kobj kd -> option err -> hub -> Prop with
      | KStatefulSet => fun o y s' => s' = if bool_decide (c = k) && negb (is_set y)
          then note_scale "StatefulSet" ns (om_Name (sts_Meta o)) (sts_Replicas o) s else s
      | KDeployment => fun o y s' => s' = if bool_decide (c = k) && negb (is_set y)
          then note_scale "Deployment" ns (om_Name (dep_Meta o)) (dep_Replicas o) s else s
      | _ => fun _ _ s' => s' = s
      end o
  | _ => fun _ s' => s' = s
  end.

Definition pass_env (X : Type) (s : hub) (e : ev X) (y : X) (s' : hub) : Prop :=
  answer_ok s e y /\ hub_keeps s e y s'.

(** What more is asked can be had, and is not asked of the hub. *)
Definition obtainable : Prop := (exists p, pol_ok p) /\
  (forall s X (e : ev X), match e with
     | kList _ _ _ | hubGetAction _ _ | hubUpdateActionStatus _ | hubUpdateAction _ | hubGetPolicy _ _ =>
         forall y, more s X e y
     | _ => True
     end) /\
  forall s X (e : ev X), panicless e = true -> exists y, good ws up e y /\ more s X e y.

Context (Hobt : obtainable).

Lemma pass_helpful : helpful ws up pass_env.
Proof.
  destruct Hobt as ([p0 Hp0] & Hfree & Hans). constructor; [by intros X s e y s' [[H _] _]|].
  intros X s e He. destruct (Hans s X e He) as (y & Hy & Hm). specialize (Hfree s X e).
  unfold pass_env, answer_ok. destruct e; try (eexists y, _; by split_and!).
  - destruct k0; try (exists y, s; by split_and!); eexists _, s; (split_and!; [exact I|apply Hfree|intros _; reflexivity|reflexivity]).
  - destruct k0; (eexists y, _; split_and!; [exact Hy|exact Hm|exact I|reflexivity]).
  - exists (Ok (hb_Action s)), s. by split_and!.
  - eexists (Ok EmptyString), _. split_and!; [done|done|done|by eexists].
  - eexists (Ok EmptyString), _. split_and!; [done|done|done|by eexists].
  - exists (Ok p0), s. split_and!; [by exists p0|done|by exists p0|done].
Qed.

(** An update of a cluster changes nothing of the hub's. *)
Lemma keeps_update c kd ns (o : kobj kd) s y s' :
  hub_keeps s (kUpdate c kd ns o) y s' -> hb_Action s' = hb_Action s /\ hb_Policy s' = hb_Policy s.
Proof. destruct kd; cbn; intros ->; by repeat case_if. Qed.

(** No call changes what the Action is for. *)
Lemma pass_spec {A} (m : io ev A) s :
  wp pass_env m s (fun s' _ => act_Spec (hb_Action s') = act_Spec (hb_Action s)).
Proof.
  revert s. induction m as [a|X e f IH]; intros s; cbn [wp]; [done|]. intros y s' [_ Hk].
  eapply wp_mono; [apply IH|]. cbn. intros s'' a ->. clear -Hk.
  destruct e; try (by apply keeps_update in Hk as [-> _]); cbn in Hk; try by subst.
  - by destruct Hk as [_ ->].
  - by destruct Hk as (v & _ & ->).
  - by destruct Hk as (v & _ & ->).
Qed.

(** What writes no Policy leaves it. *)
Definition policyless {X} (e : ev X) : bool := match e with hubUpdatePolicyStatus _ => false | _ => true end.

Lemma pass_policy {A} (m : io ev A) s : only (fun X (e : ev X) => policyless e = true) m ->
  wp pass_env m s (fun s' _ => hb_Policy s' = hb_Policy s).
Proof.
  revert s. induction m as [a|X e f IH]; intros s; cbn [wp only]; [done|]. intros [He Hf] y s' [_ Hk].
  eapply wp_mono; [by apply IH|]. cbn. intros s'' a ->. clear -Hk He.
  destruct e; try (by apply keeps_update in Hk as [_ ->]); cbn in Hk; try done; try by subst.
  - by destruct Hk as [_ ->].
  - by destruct Hk as (v & _ & ->).
  - by destruct Hk as (v & _ & ->).
Qed.

Lemma live_spec {A} (m : io ev A) s Q : live pass_env m s Q ->
  live pass_env m s (fun s' a => act_Spec (hb_Action s') = act_Spec (hb_Action s) /\ Q s' a).
Proof.
  intros H. eapply live_mono; [apply live_and_wp; [exact H|apply pass_spec]|]. intros s' a [? ?]. by split.
Qed.

(** The walk finds what is listed. *)
Lemma walk_ns_live st ns s :
  live pass_env (walk_ns Catalog k st ns) s (fun _ y => y = inl (walked_ns Catalog ls st ns)).
Proof.
  unfold walk_ns. do 4 (apply (live_call ws up _ pass_helpful); [done|];
    intros y ? [(_ & _ & Hy) _] _; specialize (Hy eq_refl) as ->). done.
Qed.

Lemma Walk_live s : live pass_env (Walk Catalog k nss) s (fun _ y => y = Ok inv).
Proof.
  unfold Walk. apply live_bind. eapply live_mono.
  - apply (live_loopM pass_env (walk_ns Catalog k)
      (fun pre _ st => st = fold_left (walked_ns Catalog ls) pre ([], ∅)) nss [] s); [done|].
    intros pre ns post s' st _ ->. eapply live_mono; [apply walk_ns_live|]. intros s'' y ->.
    eexists. split; [done|]. by rewrite fold_left_app.
  - intros s' y (st & -> & ->). unfold walked. cbn [app]. by destruct (fold_left _ nss _) as [l claimed].
Qed.

(** A status write is stored at the first attempt. *)
Lemma writeStatus_live act s :
  live pass_env (writeStatus act) s (fun s' y => exists v, y = Ok (with_act_version v act) /\
    hb_Action s' = with_act_version v (with_act_status (act_Status act) (hb_Action s))).
Proof.
  unfold writeStatus. apply live_retry. apply (live_call ws up _ pass_helpful); [done|]. intros y s1 [_ [-> ->]] _.
  apply (live_call ws up _ pass_helpful); [done|]. intros z s2 [_ (v & -> & ->)] _. cbn [live res_map].
  eexists. split; [done|]. by exists v.
Qed.

(** The destination an attestation names. *)
Definition dest_of (pair : option ClusterPair) (ep : Pair) : option string :=
  match pair with Some _ => Some (ep_Name (pr_Dest ep)) | None => None end.

Lemma record_live act pair ep start res s :
  live pass_env (record r act pair ep start res) s (fun s' y => exists now,
    act_Status (hb_Action s') =
      Restore.record_result start now (dest_of pair ep) (act_Generation act) (act_Status act) res /\
    y = (if Restore.r_Terminal res then done_result else mkResult (Restore.r_RequeueAfter res) None)).
Proof.
  unfold record. apply live_bind. eapply live_mono; [apply (live_panicless ws up _ pass_helpful); off|].
  intros s1 t _. apply live_bind. eapply live_mono; [apply writeStatus_live|].
  intros s2 y (v & -> & Hs). destruct (Restore.r_Terminal res) eqn:Et; [|exists t; by rewrite Hs].
  apply (live_call ws up _ pass_helpful); [done|]. intros [] s3 [_ Hk] _. cbn in Hk. subst s3. exists t. by rewrite Hs.
Qed.

Lemma record_policyless act pair ep start res :
  only (fun X (e : ev X) => policyless e = true) (record r act pair ep start res).
Proof.
  unfold record. apply only_bind; [off|]. intros t. apply only_bind; [|off].
  unfold writeStatus. apply only_retry. off.
Qed.

(** The status a pass starts from. *)
Definition pending (st : ActionStatus) : ActionStatus :=
  if bool_decide (as_Phase st = PhaseOther EmptyString)
  then Restore.with_phase ActionPhasePending "pending" (as_CompletionTime st) st else st.

(** A Policy without a ClusterPair or cluster objects, over [nss]. *)
Definition here (p : Policy) : Prop :=
  ps_ClusterPair (pol_Spec p) = EmptyString /\ co_Enabled (ps_ClusterObjects (pol_Spec p)) = false /\
  Namespaces (ps_SelectorNamespaces (pol_Spec p)) (pol_Namespace p) = nss.

Definition here_pair : Pair :=
  mkPair (Local "local" (Some k) (Some d) (Some x) (Some cfg)) (Local "local" (Some k) (Some d) (Some x) (Some cfg)).

(** Every pass over an Action that is not over comes to the preparation of its
    run. *)
Lemma Reconcile_prepares ns name st s Q :
  resume (hb_Action s) = Some st -> spec_PolicyRef (act_Spec (hb_Action s)) <> EmptyString ->
  (forall act pol s', act_Spec act = act_Spec (hb_Action s) -> act_Status act = pending st ->
     act_Spec (hb_Action s') = act_Spec (hb_Action s) ->
     pol_ok pol -> live pass_env (prepared Catalog r act pol) s' Q) ->
  live pass_env (Reconcile Catalog r ns name) s Q.
Proof.
  intros Hr Hp Hrun. unfold Reconcile. apply (live_call ws up _ pass_helpful); [done|]. intros y s1 [_ [-> ->]] _.
  rewrite Hr. cbn [acr_Kube action_reconciler act_Spec with_act_status act_Namespace].
  apply String.eqb_neq in Hp. rewrite Hp. apply (live_call ws up _ pass_helpful); [done|].
  intros z s2 [(_ & _ & pol & -> & Hpol) Hk] _. cbn in Hk. subst s2.
  apply live_bind. eapply live_mono with (P := fun s' y => exists act, y = Ok act /\
    act_Spec act = act_Spec (hb_Action s) /\ act_Status act = pending st /\
    act_Spec (hb_Action s') = act_Spec (hb_Action s)).
  { unfold mark_pending, pending. cbn [act_Status with_act_status]. case_bool_decide as Hb; [|by eexists].
    eapply live_mono; [apply live_spec, writeStatus_live|]. intros s' y [Hs (v & -> & _)]. by eexists. }
  intros s1 y (act & -> & Ea & Es & Eh). by apply Hrun.
Qed.

(** For a Policy of this cluster it comes to its run. *)
Lemma Reconcile_runs ns name st s Q :
  resume (hb_Action s) = Some st -> spec_PolicyRef (act_Spec (hb_Action s)) <> EmptyString -> (forall p, pol_ok p -> here p) ->
  (forall act pol s', act_Spec act = act_Spec (hb_Action s) -> act_Status act = pending st ->
     act_Spec (hb_Action s') = act_Spec (hb_Action s) ->
     pol_ok pol -> live pass_env (run_action Catalog r act pol None here_pair inv) s' Q) ->
  live pass_env (Reconcile Catalog r ns name) s Q.
Proof.
  intros Hr Hp Hh Hrun. eapply Reconcile_prepares; [exact Hr|exact Hp|]. intros act pol s1 Ea Es Eh Hpol.
  destruct (Hh pol Hpol) as (Hcp & Hco & Hns).
  unfold prepared, loadPair. rewrite Hcp. cbn -[Walk run_action]. rewrite Hns. apply live_bind.
  eapply live_mono; [apply live_spec, Walk_live|]. intros s2 y [E2 ->]. cbn [withClusterObjects].
  rewrite Hco. cbn [negb]. apply Hrun; [done|done|congruence|done].
Qed.

(** The run, and its result recorded. *)
Lemma run_action_live act pol pair ep s m (P : Restore.Result -> Prop) (W : Policy -> Prop) :
  (forall st, run_type Catalog r (with_act_status st act) pol pair ep inv = Some (m st)) ->
  (forall t s', live pass_env (m (with_start t (act_Status act))) s'
     (fun s'' y => (exists res, y = Ok res /\ P res) /\ W (hb_Policy s''))) ->
  live pass_env (run_action Catalog r act pol pair ep inv) s (fun s' y =>
    act_Spec (hb_Action s') = act_Spec (hb_Action s) /\ W (hb_Policy s') /\
    exists start now res, P res /\ act_Status (hb_Action s') =
      Restore.record_result start now (dest_of pair ep) (act_Generation act) (with_start start (act_Status act)) res /\
    y = (if Restore.r_Terminal res then done_result else mkResult (Restore.r_RequeueAfter res) None)).
Proof.
  intros Ht Hm. apply live_spec. unfold run_action. apply live_bind. eapply live_mono; [apply (live_panicless ws up _ pass_helpful); off|].
  intros s1 t _. rewrite Ht. apply live_bind. eapply live_mono; [apply Hm|]. intros s2 y [(res & -> & HP) HW].
  eapply live_mono; [apply live_and_wp; [apply record_live|apply pass_policy, record_policyless]|].
  intros s3 z [(now & Hs & Hz) Hpol]. cbn in Hpol. rewrite Hpol. split; [done|]. by exists t, now, res.
Qed.

(** Passes one after the other, as the work queue makes them. *)
Fixpoint passes (n : nat) (ns name : string) : io ev unit :=
  match n with
  | O => Ret tt
  | S n => let* _ := Reconcile Catalog r ns name in passes n ns name
  end.

(** When each takes the Action a pass nearer, they take it there. *)
Lemma passes_live (env : forall X, hub -> ev X -> X -> hub -> Prop) (away : nat -> Action -> Prop) ns name :
  (forall n h, away (S n) (hb_Action h) -> live env (Reconcile Catalog r ns name) h
     (fun h' _ => act_Spec (hb_Action h') = act_Spec (hb_Action h) /\ away n (hb_Action h'))) ->
  forall n h, away n (hb_Action h) -> live env (passes n ns name) h
    (fun h' _ => act_Spec (hb_Action h') = act_Spec (hb_Action h) /\ away 0 (hb_Action h')).
Proof.
  intros Hpass n. induction n as [|n IH]; intros h Ha; cbn [passes]; [done|].
  apply live_bind. eapply live_mono; [by apply Hpass|]. intros s1 y [E Ha1].
  eapply live_mono; [by apply IH|]. intros s2 u [E2 Ha2]. split; [congruence|done].
Qed.
End pass.

(** ** A Backup *)

Section backup.
  Context {U : Unstructured} {C : Export.Converter} {L : Library} {R : Retry} {K : Cloud} (Catalog : list Engine).
  Context (ls : listing) (nss : list string).

(** A Policy of this cluster, over the namespaces [nss], whose workloads are
    Stateless or databases Portage dumps itself. *)
Definition covers (p : Policy) : Prop := here nss p /\
  forall w, w ∈ walked Catalog ls nss -> w_Class w = ClassStateless \/ dumped_here p w.

(** The dumps of the workloads have 64 KiB or more. *)
Definition large (_ : hub) X (e : ev X) (y : X) : Prop := dumps (walked Catalog ls nss) e y.

Definition backup_env (k : kube) := pass_env Catalog k ls nss covers (eq k) large.

Lemma backup_obtainable k p : covers p -> obtainable Catalog ls nss covers (eq k) large.
Proof.
  intros Hp. split_and!; [by exists p|by intros s X []|]. intros s X e He.
  destruct (panicless_answerable (walked Catalog ls nss) (eq k) X e He) as [y Hy].
  destruct e; try (by exists y). exists (mkExecResult some_dump EmptyString, None). split; [done|].
  intros _. exact some_dump_length.
Qed.
End backup.

(** A workload whose artifact the Policy holds, and which Portage restores
    itself. *)
Definition restorable (pol : Policy) (w : Workload) : Prop :=
  w_Class w = ClassStateless \/
  (Graph.Is w = false /\ moverOverride (Some pol) w "restore" = EmptyString /\
   exists a, artifacts_by_key pol !! WKey w = Some a /\ ah_Useful a = true /\
     ah_Message a <> EmptyString /\ HasPrefix (ah_Message a) "skipped:" = false).

(** A Policy of this cluster over [nss] with a useful artifact for every
    stateful workload. *)
Definition restores (Catalog : list Engine) (ls : listing) (nss : list string) (p : Policy) : Prop :=
  here nss p /\ forall w, w ∈ walked Catalog ls nss -> restorable p w.

(** Useful verdicts written on such a Policy make it one to restore from. *)
Lemma wrote_restores Catalog ls nss latest arts :
  covers Catalog ls nss latest ->
  (forall w, w ∈ walked Catalog ls nss -> moverOverride (Some latest) w "restore" = EmptyString) ->
  Forall2 through (List.filter is_stateful (walked Catalog ls nss)) arts ->
  restores Catalog ls nss (with_policy_status
    (artifacts_status (mkInventory nss (walked Catalog ls nss)) arts (pol_Status latest)) latest).
Proof.
  intros [Hh Hc] Hm Hf. split; [exact Hh|]. intros w Hw. destruct (Hc w Hw) as [?|(Hcl & _ & Hg & _)]; [by left|right].
  split; [done|]. split; [by apply Hm|].
  assert (w_Class w <> ClassStateless) as Hs by (by destruct Hcl as [-> | ->]).
  destruct (through_lookup _ arts w Hf Hw Hs) as (w' & a & Ha & _ & Hu & _ & Hn & Hp). exists a.
  split_and!; [|done..]. rewrite <- Ha. unfold artifacts_by_key, artifacts_status. cbn [pol_Status with_policy_status].
  destruct (Backup.Healthy _ arts) as [ok missing]. by repeat case_if.
Qed.


(** A namespace with one Postgres and its claim. *)
Definition postgres : StatefulSet :=
  mkSts (new_meta "pg" "shop" None None) (Some 1%Z) None
    (mkPodSpec None "" None [] [] None [] [mkContainer "pg" "postgres:16" None [] [] []] []) ["data"] 1 JNull.
Definition claim : PVC :=
  mkPVC (new_meta "data-pg-0" "shop" None None) ["ReadWriteOnce"] "1Gi" None "" None None None "Bound" JNull.
Definition one_postgres : listing := mkListing (fun _ => [postgres]) (fun _ => []) (fun _ => []) (fun _ => [claim]).

Definition new_backup : Action :=
  mkAction "backup-1" "shop" ∅ ∅ "1" 1 (mkActionSpec ActionBackup "policy" "" "" false false) zero_ActionStatus.
Definition shop_policy : Policy :=
  mkPolicy "policy" "shop" 1 (pol_Spec some_policy) (pol_Status some_policy).

