(* ===== verification/RestoreLiveness.v ===== *)
(** * A Restore Action completes

    The end-to-end statement of a Restore: the process main starts, an Action, a
    Policy with useful artifacts, a cluster that takes the manifests and brings
    the workloads up. Every pass of the reconciler takes the Action on, and
    three are enough. *)

From Stdlib Require Import ZArith Lia.
From S2P Require Import Prelude GoStrings Effects ObjectStore Api GoTime Json Kube Unstructured Classify Movers.
From S2P Require Import Workloads Clusters CloudAuth Retry PolicyController ActionFacts ActionRun OffHub ActionController.
From S2P Require Import Setup Liveness PassLiveness.
From S2P Require Backup Restore Usefulness Probe Dump Snapshots Graph Export Render Heal.

(** ** A cluster that takes the manifests and brings the workloads up *)

(** Claims are Bound, controllers Ready, other objects there; a creation is
    accepted or the object already exists, an update accepted; a dump is found. *)
Definition brings_up (X : Type) (e : ev X) : X -> Prop :=
  match e in ev X return X -> Prop with
  | kGet _ k _ _ => match k return res (kobj k) -> Prop with
      | KPVC => fun y => exists p : PVC, y = Ok p /\ pvc_Phase p = "Bound"%string
      | KStatefulSet => fun y => exists o : StatefulSet, y = Ok o /\ ready_of (sts_Replicas o) (sts_ReadyReplicas o) = true
      | KDeployment => fun y => exists o : Deployment, y = Ok o /\ ready_of (dep_Replicas o) (dep_ReadyReplicas o) = true
      | KDaemonSet => fun y => exists o : DaemonSet, y = Ok o /\ (1 <=? ds_NumberReady o)%Z = true
      | KConfigMap => fun y => exists o : ConfigMap, y = Ok o
      | KSecret => fun y => exists o : Secret, y = Ok o
      | _ => fun _ => True
      end
  | kCreate _ _ _ _ => fun y => y = None \/ IsAlreadyExists y = true
  | kUpdate _ _ _ _ => fun y => y = None
  | storeGet _ _ => fun y => exists data, y = Ok data
  | _ => fun _ => True
  end.

(** What is asked of runtime.DefaultUnstructuredConverter: it converts back what
    it made of a live object, once the sanitizer has dropped or mapped some of
    its fields. It may refuse anything else. *)
Definition converts_back {U : Unstructured} {C : Export.Converter} (Catalog : list Engine) : Prop :=
  forall k o m opt, Export.exported_kind k -> Export.toUnstructured k o = Ok m ->
    Export.convertible (Render.transformed Catalog opt m).

(** The built-in renderer. *)
Definition renders_here (p : Policy) : Prop :=
  match rd_Kind (ps_Renderer (pol_Spec p)) with RendererGit | RendererWebhook => False | _ => True end.

Lemma renders_sanitized p opt : renders_here p -> Render.For (Some p) opt = Render.RSanitize opt.
Proof. unfold renders_here, Render.For. by destruct (rd_Kind _). Qed.

Section run.
  Context {U : Unstructured} {C : Export.Converter} {L : Library} {R : Retry} (Catalog : list Engine).
  Context {S : Type} (env : forall X, S -> ev X -> X -> S -> Prop).
  Context (ws : list Workload) (on : kube -> Prop) (Henv : helpful ws on env).
  Context (Hup : forall X s (e : ev X) y s', env X s e y s' -> brings_up X e y).
  Context (Hput : forall s a y s', env _ s (hubUpdateAction a) y s' -> exists v, y = Ok v).
  Context (Hread : forall s ns n y s', env _ s (hubGetAction ns n) y s' -> exists a, y = Ok a).
  Context (Hconv : converts_back Catalog).

Lemma up_call {X A} (e : ev X) (k : X -> io ev A) s Q : panicless e = true ->
  (forall y s', brings_up X e y -> good ws on e y -> live env (k y) s' Q) ->
  live env (let* y := trigger e in k y) s Q.
Proof. intros He Hk. apply (live_call ws on _ Henv); [done|]. intros y s' Hy. by apply Hk, (Hup _ _ _ _ _ Hy). Qed.

(** ** The manifests are applied *)

Definition applied_one (y : option err) : Prop := y = None \/ IsAlreadyExists y = true.

Lemma typed_one_live c o s : Export.convertible o ->
  live env (Export.typed_one c o) s (fun _ y => y = None).
Proof.
  intros Ho. unfold Export.typed_one. apply live_bind. eapply live_mono with (P := fun _ y => applied_one y).
  2:{ intros s' y [-> | Hy]; cbn [live]; [done|by rewrite Hy]. }
  assert (forall k (merge : kobj k -> kobj k -> kobj k) (v : kobj k) s,
    (forall c ns n s y s', env _ s (kGet c k ns n) y s' -> exists o, y = Ok o) ->
    live env (Export.create_or_update c k merge v) s (fun _ y => applied_one y)) as Hcu.
  { intros k merge v s1 Hg. unfold Export.create_or_update. apply up_call; [done|]. intros e s2 He _.
    destruct He as [-> | He]; [by left|]. rewrite He. apply (live_call ws on _ Henv); [done|]. intros y s3 Hy _.
    destruct (Hg _ _ _ _ _ _ Hy) as [cur ->]. eapply live_mono with (P := fun _ y => y = None); [|by left].
    split; [by apply (hp_answers _ _ _ Henv)|]. intros z s4 Hz. exact (Hup _ _ _ _ _ Hz). }
  unfold Export.createTyped. destruct (Export.typed_kind (GetKind o)) as [k|] eqn:Ek; [|by left].
  destruct (Ho k Ek) as [v Hv].
  assert (forall f : kobj k -> io ev (option err), (forall v s, live env (f v) s (fun _ y => applied_one y)) ->
    forall s, live env (Export.converted k o f) s (fun _ y => applied_one y)) as Hc.
  { intros f Hf s1. unfold Export.converted. rewrite Hv. apply Hf. }
  destruct k; try (by left); apply Hc; clear v Hv; intros v s1.
  all: try (apply Hcu; intros c' ns n s2 y s3 Hy; apply Hup in Hy; cbn in Hy; naive_solver).
  - unfold Export.create_claim. apply up_call; [done|]. intros y s2 (p & -> & _) _. by left.
  - split; [by apply (hp_answers _ _ _ Henv)|]. intros y s2 Hy. exact (Hup _ _ _ _ _ Hy).
Qed.

Lemma Typed_live c objs s : Forall Export.convertible objs ->
  live env (Export.Typed (Some c) objs) s (fun _ y => y = None).
Proof.
  intros Ho. assert (Forall Export.convertible (Export.sorted objs)) as Hs
    by (unfold Export.sorted; eapply Permutation_Forall; [symmetry; apply isort_Permutation|done]).
  unfold Export.Typed, Export.all_of. apply live_bind. eapply live_mono.
  - apply (live_loopM env _ (fun _ _ _ => True) (Export.sorted objs) [] s tt I).
    intros pre o post s1 t E _. apply live_bind. eapply live_mono; [apply typed_one_live|].
    { rewrite Forall_forall in Hs. apply Hs. rewrite <- (app_nil_l (Export.sorted objs)), E. set_solver. }
    intros s2 y ->. by exists tt.
  - by intros s1 y (t & -> & _).
Qed.

Context (r : ActionReconciler) (pair : option ClusterPair) (ep : Pair) (k0 k : kube) (x : execer).
Context (Hnow : acr_Now r = None) (Hsrc : ep_Kube (pr_Source ep) = Some k0).
Context (Hdst : ep_Kube (pr_Dest ep) = Some k) (Hon : on k) (Hexec : ep_Exec (pr_Dest ep) = Some x).

(** What the built-in renderer makes of the workloads converts. *)
Lemma render_one_live pol out w s : renders_here pol -> Forall Export.convertible out ->
  live env (render_one Catalog pol pair ep out w) s (fun _ out => Forall Export.convertible out).
Proof.
  intros Hb Ho. unfold render_one. case_if; [done|]. rewrite Hsrc. cbn [with_kube]. apply live_bind.
  eapply live_mono; [apply live_and_wp; [apply (live_panicless ws on _ Henv); off
                                        |apply wp_returns, (Export.export_Workload_exports k0 w)]|].
  intros s1 objs [_ Hobjs]. destruct objs as [objs|e]; [|done]. rewrite (renders_sanitized _ _ Hb).
  cbn [Render.Render live bind]. apply Forall_app. split; [done|]. unfold Render.Sanitize.
  apply Forall_fmap. eapply Forall_impl; [by apply Hobjs|].
  intros m (kd & o & Hk & Hm). exact (Hconv kd o m _ Hk Hm).
Qed.

Lemma apply_manifests_live act pol inv s : renders_here pol ->
  live env (apply_manifests Catalog act pol pair ep inv) s (fun _ y => y = None).
Proof.
  intros Hb. unfold apply_manifests. case_if; [|done]. apply live_bind. eapply live_mono.
  { apply (live_foldM env _ (fun _ _ out => Forall Export.convertible out) (inv_Workloads inv) [] s []); [by constructor|].
    intros pre w post s1 out _ Ho. by apply render_one_live. }
  intros s1 rendered Ho. rewrite Hdst. apply live_bind. eapply live_mono; [by apply Typed_live|]. by intros s2 y ->.
Qed.

(** ** A workload comes up *)

Lemma Ready_up_live w s : w ∈ ws -> live env (Ready k w) s (fun _ y => y = (true, None)).
Proof.
  intros Hw. apply (Ready_live ws on env Henv); [|done|done]. intros s0 kd ns n y s' Hy. apply Hup in Hy. by destruct kd.
Qed.

Lemma Run_up_live w s : w ∈ ws -> Graph.Is w = false ->
  live env (Probe.Run k (Some x) w) s (fun _ p => pr_OK p = true).
Proof. by apply (Run_live ws on env Henv). Qed.

Lemma Apply_live w st id s : w ∈ ws ->
  live env (Dump.Apply k (Some x) (Some st) w id) s (fun _ e => e = None).
Proof.
  intros Hw. unfold Dump.Apply.
  assert (exists w', w' ∈ ws /\ runs_in w' (Dump.RestoreCommand (w_Engine w))) as Hrun by (exists w; unfold runs_in; tauto).
  destruct (Dump.RestoreCommand (w_Engine w)) as [|a l]; [done|]. case_if; [done|].
  apply up_call; [done|]. intros y s1 (data & ->) _. apply live_bind.
  eapply live_mono; [by apply (FirstReadyPod_live ws on env Henv)|]. intros s2 y ([p c] & ->).
  apply up_call; [done|]. intros [o e] s3 _ He. specialize (He Hrun). cbn in He. by subst e.
Qed.

Lemma rememberDumpApplied_live act key s :
  live env (rememberDumpApplied act key) s (fun _ y => exists a, y = Ok a).
Proof.
  unfold rememberDumpApplied. apply live_retry. apply (live_call ws on _ Henv); [done|]. intros y s1 Hy _.
  destruct (Hread _ _ _ _ _ Hy) as [latest ->]. case_if; [by repeat eexists|].
  apply (live_call ws on _ Henv); [done|]. intros z s2 Hz _. destruct (Hput _ _ _ _ Hz) as [v ->]. by repeat eexists.
Qed.

(** ** What a step over a workload establishes *)

(** Restored under the key, with a message that is no skip; probed. *)
Definition up_at (key : string) (f : RestoreFacts) : Prop :=
  rf_Useful f !! key = Some true /\ rf_Rehydrated f !! key = Some true /\ rf_Ready f !! key = Some true /\
  exists m, rf_Message f !! key = Some m /\ m <> EmptyString /\ HasPrefix m "skipped:" = false.
Definition probed_at (key : string) (f : RestoreFacts) : Prop :=
  exists p, rf_Probes f !! key = Some p /\ pr_OK p = true.
Definition done_with (f : RestoreFacts) (w : Workload) : Prop :=
  up_at (WKey w) f /\ (w_Class w <> ClassStateless -> probed_at (WKey w) f).

(** The facts under another key are the same; a probe that passed stays. *)
Definition elsewhere_same (key : string) (f f' : RestoreFacts) : Prop :=
  (forall key', key' <> key -> rf_Useful f' !! key' = rf_Useful f !! key' /\
     rf_Rehydrated f' !! key' = rf_Rehydrated f !! key' /\ rf_Ready f' !! key' = rf_Ready f !! key' /\
     rf_Message f' !! key' = rf_Message f !! key' /\ rf_Probes f' !! key' = rf_Probes f !! key') /\
  (probed_at key f -> probed_at key f').

Lemma done_with_kept f f' w w' : done_with f w' -> done_with f' w -> elsewhere_same (WKey w) f f' -> done_with f' w'.
Proof.
  intros [Hu Hp] [Hu' Hp'] [Hs Hk]. destruct (decide (WKey w' = WKey w)) as [E|Hne].
  - split; rewrite E; [done|]. intros Hc. apply Hk. rewrite <- E. by apply Hp.
  - destruct (Hs _ Hne) as (E1 & E2 & E3 & E4 & E5). unfold done_with, up_at, probed_at in *.
    by rewrite E1, E2, E3, E4, E5.
Qed.

(** The same but for what was healed and the Action. *)
Definition only_healed (f f' : RestoreFacts) : Prop :=
  rf_Useful f' = rf_Useful f /\ rf_Rehydrated f' = rf_Rehydrated f /\ rf_Ready f' = rf_Ready f /\
  rf_Message f' = rf_Message f /\ rf_Probes f' = rf_Probes f.

Lemma only_healed_trans f g h : only_healed f g -> only_healed g h -> only_healed f h.
Proof. unfold only_healed. intuition congruence. Qed.

Lemma claims_live key w f s :
  live env (foldM (restore_claim pair ep key true w) (f, true) (w_PVCNames w)) s
    (fun _ '(f', b) => only_healed f f' /\ b = true).
Proof.
  eapply live_mono; [apply (live_foldM env _ (fun _ _ st => only_healed f (fst st) /\ snd st = true) _ [] s (f, true))|].
  - done.
  - intros pre name post s1 [g b] _ [Hg Hb]. cbn in Hg, Hb. subst b. unfold restore_claim.
    rewrite Hdst. unfold Snapshots.EnsurePVCFromSnapshot. case_if; [cbn; split; [|done]; by eapply only_healed_trans|].
    apply up_call; [done|]. intros y s2 (p & -> & ->) _. cbn. split; [|done]. by eapply only_healed_trans.
  - intros s' [f' b] [H1 H2]. by split.
Qed.

Lemma replay_live key id w f s : w ∈ ws ->
  live env (replay_dump r ep key id w f true) s (fun _ y => exists f', y = inl (f', true) /\ only_healed f f').
Proof.
  intros Hw. unfold replay_dump. case_if; [by exists f|]. rewrite Hdst. cbn [with_kube].
  apply live_bind. eapply live_mono; [by apply Ready_up_live|]. intros s1 y ->. cbn [negb].
  apply live_bind. eapply live_mono; [apply (live_panicless ws on _ Henv); off|]. intros s2 st _.
  rewrite Hexec. apply live_bind. eapply live_mono; [by apply Apply_live|]. intros s3 e ->.
  apply live_bind. eapply live_mono; [apply rememberDumpApplied_live|]. intros s4 y (a & ->). cbn [live].
  by eexists.
Qed.

Lemma heal_live key w f s :
  live env (heal_on_dest Catalog ep key w f) s (fun _ f' => only_healed f f').
Proof.
  unfold heal_on_dest. apply live_bind. eapply live_mono; [apply (live_panicless ws on _ Henv); off|].
  intros s1 names _. cbn [live]. by destruct names.
Qed.


(** The workload of a useful artifact, claims to probe. *)
Lemma restore_data_live phase a w f s : w ∈ ws -> Graph.Is w = false -> ah_Useful a = true ->
  live env (restore_data Catalog r pair ep phase (WKey w) (Some a) w f) s (fun _ y => exists f' p, y = inl f' /\
    pr_OK p = true /\ only_healed (set_probe (WKey w) p (set_ready (WKey w) true (set_rehydrated (WKey w) true f))) f').
Proof.
  intros Hw Hg Ha. unfold restore_data. cbv zeta. rewrite Ha. apply live_bind.
  eapply live_mono; [apply claims_live|]. intros s1 [f1 b] [H1 ->]. apply live_bind.
  eapply live_mono with (P := fun _ y => exists f2, y = inl (f2, true) /\ only_healed f f2).
  { case_if; [case_if; [by exists f1|]|].
    - eapply live_mono; [by apply replay_live|]. intros s2 y (f2 & -> & H2). exists f2.
      split; [done|]. by eapply only_healed_trans.
    - exists f1. split; [|done]. by destruct (w_PVCNames w). }
  intros s2 y (f2 & -> & H2). apply live_bind. eapply live_mono; [apply heal_live|]. intros s3 f3 H3.
  rewrite Hdst. cbn [with_kube]. apply live_bind. eapply live_mono; [by apply Ready_up_live|]. intros s4 y ->.
  unfold probe_on_dest. rewrite Hexec. apply live_bind, live_bind. eapply live_mono; [by apply Run_up_live|].
  intros s5 p Hp. cbn [live]. eexists _, p. split_and!; [done|done|].
  unfold only_healed in *. cbn in *. destruct H3 as (-> & -> & -> & -> & ->), H2 as (-> & -> & -> & -> & ->). done.
Qed.

Lemma restore_one_live pol phase reg f w s : w ∈ ws -> restorable pol w ->
  live env (restore_one Catalog r pol pair ep phase reg f w) s (fun _ y => exists f', y = inl f' /\
    done_with f' w /\ elsewhere_same (WKey w) f f').
Proof.
  intros Hw Hres. unfold restore_one. cbv zeta. case_bool_decide as Hc.
  - apply live_bind. unfold restore_stateless. rewrite Hdst. apply live_bind.
    eapply live_mono; [by apply Ready_up_live|]. intros s1 y ->. cbn [live]. eexists. split; [done|]. split.
    + split; [|done]. unfold up_at. cbn. rewrite !lookup_insert_eq. split_and!; [done..|]. by eexists.
    + split.
      * intros key Hk. cbn. destruct (artifacts_by_key pol !! WKey w); cbn; by rewrite !lookup_insert_ne by done.
      * unfold probed_at. cbn. by destruct (artifacts_by_key pol !! WKey w).
  - destruct Hres as [?|(Hg & Hm & a & Ea & Hu & Hne & Hsk)]; [done|]. rewrite Ea, Hu.
    replace (map_get false (rf_Useful (set_message (WKey w) (ah_Message a) (set_useful (WKey w) true f))) (WKey w))
      with true by (unfold map_get; cbn; by rewrite lookup_insert_eq).
    cbn [negb]. rewrite Hg, Hm. cbn [String.eqb]. eapply live_mono; [by apply restore_data_live|].
    intros s1 y (f' & p & -> & Hp & E1 & E2 & E3 & E4 & E5). exists f'. split; [done|]. split.
    + split; [|intros _; exists p; by rewrite E5; cbn; rewrite lookup_insert_eq].
      unfold up_at. rewrite E1, E2, E3, E4. cbn. rewrite !lookup_insert_eq. split_and!; [done..|]. by eexists.
    + split.
      * intros key Hk. rewrite E1, E2, E3, E4, E5. cbn. by rewrite !lookup_insert_ne by done.
      * intros _. exists p. by rewrite E5; cbn; rewrite lookup_insert_eq.
Qed.

Lemma restore_loop_live pol phase reg act inv s :
  (forall w, w ∈ inv -> w ∈ ws /\ restorable pol w) ->
  live env (loopM (restore_one Catalog r pol pair ep phase reg) (no_facts act) inv) s
    (fun _ y => exists f, y = inl f /\ forall w, w ∈ inv -> done_with f w).
Proof.
  intros Hinv. apply (live_loopM env _ (fun pre _ f => forall w, w ∈ pre -> done_with f w) inv [] s (no_facts act)).
  - by intros w Hw%elem_of_nil.
  - intros pre w post s1 f E Hf. cbn [app] in E. destruct (Hinv w) as [Hw Hr]; [rewrite E; set_solver|].
    eapply live_mono; [by apply restore_one_live|]. intros s2 y (f' & -> & Hd & Hs). exists f'. split; [done|].
    intros w' [Hw'|Hw']%elem_of_app; [eapply done_with_kept; [by apply Hf|done|done]|].
    by apply list_elem_of_singleton in Hw' as ->.
Qed.

(** Workloads done with are good facts. *)
Lemma done_good inv f t : inv_Workloads inv <> [] -> (forall w, w ∈ inv_Workloads inv -> done_with f w) ->
  Restore.good_facts (restore_facts inv false t f).
Proof.
  intros Hne Hf. constructor; [done|done| | |]; cbn.
  - intros w Hw. destruct (Hf w Hw) as [(_ & _ & Hr & _) _]. eauto.
  - intros w Hw Hc. destruct (Hf w Hw) as [(Hu & Hr & _) Hp]. split_and!; [done|done|].
    destruct (Hp Hc) as (p & Hk & Ho). eauto 6.
  - destruct (inv_Workloads inv) as [|w l] eqn:E; [done|]. assert (w ∈ w :: l) as Hw by elem.
    destruct (Hf w Hw) as [(_ & _ & _ & m & Hm & Hn & Hs) _]. eauto 8.
Qed.

Lemma runRestore_live act pol inv s : renders_here pol -> spec_DryRun (act_Spec act) = false -> inv_Workloads inv <> [] ->
  (forall w, w ∈ inv_Workloads inv -> w ∈ ws /\ restorable pol w) ->
  live env (runRestore Catalog r act pol pair ep inv) s (fun _ y =>
    exists res, y = Ok res /\ exists facts, Restore.good_facts facts /\
      Restore.Advance (act_Status act) facts = Some res).
Proof.
  intros Hb Hd Hne Hinv. unfold runRestore. apply live_bind, (live_now ws on env Henv r Hnow). intros t s1.
  apply live_bind. eapply live_mono; [by apply (registry_live ws on env Henv)|]. intros s2 reg _.
  apply live_bind. eapply live_mono; [by apply apply_manifests_live|]. intros s3 stop ->.
  apply live_bind. eapply live_mono; [by apply restore_loop_live|]. intros s4 y (f & -> & Hf).
  rewrite Hd. pose proof (done_good inv f t Hne Hf) as Hg. unfold advance_restore.
  destruct (Restore.Advance (act_Status act) (restore_facts inv false t f)) as [res|] eqn:E.
  - exists res. split; [done|]. exists (restore_facts inv false t f). by split.
  - exfalso. by apply Restore.restore_panics in E as (_ & E & _).
Qed.
End run.

(** ** The passes *)

(** The passes an Action is away from Succeeded, by the phase one starts from. *)
Definition remaining (p : ActionPhase) : nat :=
  match p with
  | ActionPhaseSucceeded => 0
  | ActionPhaseRehydrating | ActionPhaseApplying | ActionPhaseWaitingReady | ActionPhaseHealing
  | ActionPhaseAttesting => 1
  | PhaseOther "" | ActionPhasePending | ActionPhasePreflight | ActionPhaseQuiescing => 2
  | _ => 3
  end.

Lemma remaining_le p : remaining p <= 3.
Proof. destruct p as [| | | | | | | | | | | | | |[|? s]]; cbn; lia. Qed.

(** With good facts a pass that is not at a terminal phase is nearer. *)
Lemma good_progress st facts res : Restore.good_facts facts -> ~ Restore.terminal (as_Phase st) ->
  Restore.Advance st facts = Some res ->
  (remaining (Restore.r_Phase res) < remaining (as_Phase st)) /\ ~ (Restore.r_Phase res = ActionPhaseFailed) /\
  (Restore.r_Phase res = ActionPhaseSucceeded -> Restore.r_Terminal res = true).
Proof.
  intros Hg Ht HA. pose proof (Restore.good_attests st facts Hg) as H1. pose proof (Restore.good_rehydrates st facts Hg) as H2.
  unfold Restore.terminal in Ht.
  destruct (as_Phase st) as [| | | | | | | | | | | | | |[|a s]] eqn:Ep; try (exfalso; tauto);
    try (destruct H1 as (r & E & Hp & HT); [elem|]; rewrite HA in E; injection E as <-; rewrite Hp;
         cbn; split_and!; [lia|done|done]);
    try (destruct H2 as (r & E & Hp); [elem|]; rewrite HA in E; injection E as <-; rewrite Hp;
         cbn; split_and!; [lia|done|done]).
  all: unfold Restore.Advance in HA; rewrite Ep in HA; cbn in HA; injection HA as <-; cbn; split_and!; [lia|done|done].
Qed.

(** An object of every kind, Ready. *)
Definition some_object (k : kind) : kobj k :=
  let m := new_meta "" "" None None in
  let t := sts_Template postgres in
  match k with
  | KPVC => claim | KStatefulSet => postgres | KDeployment => mkDep m (Some 1%Z) t 1 JNull
  | KDaemonSet => mkDs m t 1 JNull | KPod => mkPod m t "" [] | KReplicaSet => mkRs m | KNode => mkNode m []
  | KJob => mkJob m t None 0 0 | KNamespace => mkNs m | KSecret => mkSecret m "" None
  | KConfigMap => mkCM m None | KService => mkSvc m "" None []
  end.

Section restore.
  Context {U : Unstructured} {C : Export.Converter} {L : Library} {R : Retry} {K : Cloud} (Catalog : list Engine).
  Context (defaultNew : restcfg -> res (option kube * option dyn * option execer)).
  Context (k : kube) (d : dyn) (x : execer) (cfg : restcfg) (ls : listing) (nss : list string).

(** The Policies of the passes: useful artifacts, the built-in renderer. *)
Definition restores_here (p : Policy) : Prop := restores Catalog ls nss p /\ renders_here p.

Definition restore_env := pass_env Catalog k ls nss restores_here (eq k) (fun _ => brings_up).

(** A Restore to be done. *)
Definition to_restore (act : Action) : Prop :=
  spec_Type (act_Spec act) = ActionRestore /\ spec_DryRun (act_Spec act) = false /\
  spec_PolicyRef (act_Spec act) <> EmptyString.

(** At most [n] passes away from a Succeeded status. *)
Definition away (n : nat) (act : Action) : Prop := to_restore act /\
  ((as_Phase (act_Status act) = ActionPhaseSucceeded /\ is_Some (as_CompletionTime (act_Status act))) \/
   exists st, resume act = Some st /\ remaining (as_Phase st) <= n).

Context (Hconv : converts_back Catalog).
Context (Hls : walked Catalog ls nss <> []) (p0 : Policy) (Hp0 : restores_here p0).

Abbreviation r := (action_reconciler defaultNew k d x cfg).
Abbreviation ws := (walked Catalog ls nss).

Lemma restore_obtainable : obtainable Catalog ls nss restores_here (eq k) (fun _ => brings_up).
Proof.
  split_and!; [by exists p0|by intros s X []|]. intros s X e He.
  destruct (panicless_answerable ws (eq k) X e He) as [y Hy].
  destruct e; try (exists y; by split).
  - destruct k0; try (exists y; by split); exists (Ok (some_object _)); (split; [done|by eexists]).
  - exists None. split; [done|by left].
  - exists None. by split.
  - exists (Ok EmptyString). split; [done|by eexists].
Qed.

(** A Restore that is not over starts from a phase that is not terminal. *)
Lemma pending_going act st : spec_Type (act_Spec act) = ActionRestore -> resume act = Some st ->
  ~ Restore.terminal (as_Phase (pending st)) /\ remaining (as_Phase (pending st)) = remaining (as_Phase st).
Proof.
  intros Hty Hr. unfold pending. case_bool_decide as E; [cbn; rewrite E; split; [by intros [?|[?|?]]|done]|].
  split; [|done]. unfold resume in Hr. rewrite Hty in Hr.
  destruct (as_Phase (act_Status act)) eqn:Ep; cbn in Hr; try done;
    try (injection Hr as <-; rewrite Ep; by intros [?|[?|?]]).
  destruct (restoreRetryable _); cbn in Hr; [|done]. injection Hr as <-. cbn. by intros [?|[?|?]].
Qed.

(** One pass. *)
Lemma pass_progress ns name h n : away (S n) (hb_Action h) ->
  live restore_env (Reconcile Catalog r ns name) h (fun h' _ =>
    act_Spec (hb_Action h') = act_Spec (hb_Action h) /\ away n (hb_Action h')).
Proof.
  intros [Ht Hs]. pose proof Ht as (Hty & Hdry & Href). pose proof restore_obtainable as Ho.
  destruct Hs as [[Hp Hc]|(st & Hr & Hn)].
  { unfold Reconcile. apply (live_call ws (eq k) _ (pass_helpful _ _ _ _ _ _ _ Ho)); [done|]. intros y s' [_ [-> ->]] _.
    unfold resume. rewrite Hp, Hty. cbn. split; [done|]. split; [done|]. by left. }
  destruct (pending_going _ _ Hty Hr) as [Hnt Hrem].
  eapply Reconcile_runs; [exact Ho|exact Hr|exact Href|by intros p [[H _] _]|]. intros a pol s Ea Es Eh [[_ Hres] Hb].
  eapply live_mono.
  - apply (run_action_live Catalog defaultNew k d x cfg ls nss restores_here (eq k) (fun _ => brings_up) Ho) with
      (m := fun st => runRestore Catalog r (with_act_status st a) pol None (here_pair k d x cfg) (mkInventory nss ws))
      (P := fun res => remaining (Restore.r_Phase res) < remaining (as_Phase st) /\
         ~ (Restore.r_Phase res = ActionPhaseFailed) /\
         (Restore.r_Phase res = ActionPhaseSucceeded -> Restore.r_Terminal res = true)) (W := fun _ => True).
    + intros st'. unfold run_type. cbn [act_Spec with_act_status]. by rewrite Ea, Hty.
    + intros t s'. eapply live_mono.
      * eapply (runRestore_live Catalog _ ws (eq k) (pass_helpful _ _ _ _ _ _ _ Ho)).
        -- by intros X s1 e y s2 [(_ & Hm & _) _].
        -- intros s1 a1 y s2 [_ (v & -> & _)]. by exists v.
        -- intros s1 ns1 n1 y s2 [_ [-> _]]. by eexists.
        -- exact Hconv.
        -- done.
        -- done.
        -- done.
        -- done.
        -- done.
        -- exact Hb.
        -- cbn. by rewrite Ea.
        -- done.
        -- intros w Hw. split; [exact Hw|by apply Hres].
      * intros s2 y (res & -> & facts & Hg & HA). split; [|done]. exists res. split; [done|].
        cbn [act_Status with_act_status] in HA. rewrite <- Hrem.
        replace (as_Phase (pending st)) with (as_Phase (with_start t (act_Status a))) by (by rewrite Es).
        eapply good_progress; [exact Hg| |exact HA]. by rewrite Es.
  - intros s' y (Hs & _ & start & now & res & (Hlt & Hnf & HT) & Hst & _).
    assert (act_Spec (hb_Action s') = act_Spec (hb_Action h)) as Hspec by congruence. split; [done|].
    split; [unfold to_restore; by rewrite Hspec|]. rewrite Hst. cbn. rewrite <- Hrem in *.
    destruct (decide (Restore.r_Phase res = ActionPhaseSucceeded)) as [E|Hne].
    + left. rewrite E, (HT E). by split.
    + right. exists (act_Status (hb_Action s')). unfold resume. rewrite Hst. cbn. split; [|lia].
      pose proof (remaining_le (as_Phase (pending st))) as Hle.
      destruct (Restore.r_Phase res); try done. cbn in Hlt. lia.
Qed.

Lemma away_done act : away 0 act ->
  as_Phase (act_Status act) = ActionPhaseSucceeded /\ is_Some (as_CompletionTime (act_Status act)).
Proof.
  intros [(Ht & _) [?|(st & Hr & Hn)]]; [done|]. exfalso. unfold resume in Hr. rewrite Ht in Hr.
  destruct (as_Phase (act_Status act)) as [| | | | | | | | | | | | | |p] eqn:E; cbn in Hr; try done;
    try (injection Hr as <-; rewrite E in Hn; cbn in Hn; try lia; destruct p as [|? p]; lia).
  destruct (restoreRetryable _); [|done]. injection Hr as <-. cbn in Hn. lia.
Qed.
End restore.


(** ** A witness *)

(** A converter that keeps the name, and refuses a manifest whose name is not a
    string. *)
Definition named_manifest {U : Unstructured} (k : kind) (o : kobj k) : obj :=
  [("metadata", JObj [("name", JStr (om_Name (kmeta o)))])]%string.
Definition name_converter : Export.Converter.
Proof.
  refine {|
    Export.FromUnstructured := fun k m =>
      match lookup_path (JObj m) (keys ["metadata"; "name"]%string) with
      | Some (JStr _) => Ok (some_object k)
      | _ => Err (errorf "cannot restore struct from metadata.name")
      end;
    Export.ToUnstructured := fun k o => Ok (named_manifest (U := plain) k o) |}.
  intros k m e. repeat case_match; intros [=]; by subst.
Defined.

Lemma name_converter_back :
  converts_back (U := plain) (C := name_converter) builtin_catalog /\
  Export.FromUnstructured (Converter := name_converter) KSecret [] =
    Err (errorf "cannot restore struct from metadata.name").
Proof.
  split; [|reflexivity]. intros k o m opt _ [= <-] k' _. exists (some_object k').
  cbn [Export.FromUnstructured name_converter].
  enough (shape <$> lookup_path (JObj (Render.transformed (U := plain) builtin_catalog opt
    (SetKind (SetAPIVersion (named_manifest k o) (fst (Export.type_meta k))) (snd (Export.type_meta k)))))
    (keys ["metadata"; "name"]%string) = Some (JStr (om_Name (kmeta o)))) as E by (by rewrite (Transform.shape_str _ _ E)).
  unfold Render.transformed. rewrite Transform.Object_kept; [|reflexivity|].
  - unfold SetKind, SetAPIVersion. by rewrite !SetNested_other.
  - intros w Hw Hin. repeat (apply elem_of_cons in Hw as [->|Hw]); set_solver.
Qed.

Definition dumped_policy : Policy :=
  mkPolicy "policy" "shop" 1 (pol_Spec some_policy)
    (mkPolicyStatus PolicyHealthy "" [] [mkArtifactHealth (WKey (of_sts builtin_catalog "shop" postgres)) true 65536
       "shop/pg/1" None "logical dump dump.sql"] true "" 1).
Definition new_restore : Action :=
  mkAction "restore-1" "shop" ∅ ∅ "1" 1 (mkActionSpec ActionRestore "policy" "" "" false false) zero_ActionStatus.

