(* ===== verification/CutoverLiveness.v ===== *)
(** * What a Cutover Action waits for, and that it completes

    Two statements about the same run. For some inventories a cutover never
    leaves a phase, whatever the clusters answer: a Stateless workload keeps it
    from Succeeded, and a stateful one that cannot be scaled keeps it
    quiescing. For the others, on clusters that do their part, the passes of
    the reconciler take the Action from any status that is not over to
    Succeeded: the pair is resolved, the source scaled to zero, the replica
    promoted, the traffic switched, the destination probed. *)

From Stdlib Require Import ZArith Lia.
From S2P Require Import Prelude GoStrings Effects ObjectStore Api GoTime Json Kube Unstructured Classify Movers.
From S2P Require Import Workloads ActionPhase Clusters CloudAuth Retry PolicyController ActionFacts ActionRun OffHub.
From S2P Require Import CutoverEvidence CutoverPass ActionController Setup Liveness PassLiveness.
From S2P Require Restore Cutover Probe Graph Export Postgres Volsync Traffic.

(** ** What keeps a cutover waiting *)

(** A Stateless workload, told from the stateful ones by its key. *)
Definition stateless_only (inv : list Workload) (w : Workload) : Prop :=
  w ∈ inv /\ w_Class w = ClassStateless /\
  forall w', w' ∈ inv -> w_Class w' <> ClassStateless -> WKey w' <> WKey w.

(** A stateful workload that [Scale] does not know: a claim no controller
    mounts, or a DaemonSet. *)
Definition unscalable (inv : list Workload) (w : Workload) : Prop :=
  w ∈ inv /\ w_Class w <> ClassStateless /\ Graph.Is w = false /\
  w_Kind w <> "StatefulSet"%string /\ w_Kind w <> "Deployment"%string.

Section blocked.
  Context {U : Unstructured} {L : Library} (Catalog : list Engine) (r : ActionReconciler).

(** A pass over a workload says of it whether it is Ready, and of no other. *)
Lemma cutover_one_readies pol pair ep phase reg f w :
  returns (fun f' => exists b, cf_Ready f' = <[WKey w := b]> (cf_Ready f))
    (cutover_one Catalog r pol pair ep phase reg f w).
Proof.
  unfold cutover_one. case_if.
  - eapply returns_bind; [apply returns_True|]. intros [[ok msg]|e] _; cbn; by eexists.
  - do 3 (eapply returns_bind; [apply returns_True|]; intros ? _).
    unfold with_kube. destruct (ep_Kube (pr_Dest ep)) as [c|]; [|by intros []].
    eapply returns_bind; [apply returns_True|]. intros _ _.
    eapply returns_bind; [apply returns_True|]. intros [ready e] _.
    destruct (ep_Exec (pr_Dest ep)); [|cbn; by eexists].
    destruct ready; [|cbn; by eexists]. eapply returns_bind; [apply returns_True|]. intros p _. cbn. by eexists.
Qed.

Lemma cutover_loop_readies pol pair ep phase reg l f :
  returns (fun f' => forall k, is_Some (cf_Ready f' !! k) -> is_Some (cf_Ready f !! k) \/ exists w, w ∈ l /\ WKey w = k)
    (foldM (cutover_one Catalog r pol pair ep phase reg) f l).
Proof.
  apply (wp_foldM_inv _ _ (fun _ f' => forall k, is_Some (cf_Ready f' !! k) ->
    is_Some (cf_Ready f !! k) \/ exists w, w ∈ l /\ WKey w = k)); [by left|].
  intros w [] f' Hw Hf. eapply wp_mono; [by apply wp_returns, cutover_one_readies|].
  intros _ f'' (b & ->) k. destruct (decide (WKey w = k)) as [<-|Hne]; [right; by exists w|].
  rewrite lookup_insert_ne by done. apply Hf.
Qed.

(** One workload that is not seen scaled to zero, and the source is not frozen. *)
Lemma unscalable_unfrozen ep inv w : unscalable (inv_Workloads inv) w ->
  returns (fun b => b = false) (all_frozen ep inv).
Proof.
  intros (Hw & Hc & Hg & Hs & Hd). unfold all_frozen. assert (w ∈ Stateful inv) as Hin by by apply elem_of_Stateful.
  pose proof (wp_foldM (fun _ _ _ _ _ => True) (fun frozen w =>
    if Graph.Is w then Ret frozen
    else with_kube (ep_Kube (pr_Source ep)) (fun c => let* z := ScaledToZero c w in Ret (frozen && z)))
    (fun pre _ b => w ∈ pre -> b = false) (Stateful inv) [] tt true) as H.
  eapply wp_mono; [apply H|].
  - by intros ?%elem_of_nil.
  - intros pre v post [] b _ Hb. destruct (Graph.Is v) eqn:Ev.
    + cbn. intros [?|Heq%list_elem_of_singleton]%elem_of_app; [auto|]. subst. congruence.
    + unfold with_kube. destruct (ep_Kube (pr_Source ep)) as [c|]; [|by intros []].
      destruct (decide (v = w)) as [->|Hne].
      * unfold ScaledToZero. apply String.eqb_neq in Hs as ->, Hd as ->. cbn. intros _. apply andb_false_r.
      * apply wp_bind. eapply wp_mono; [apply wp_trivial|]. intros ? z _. cbn.
        intros [?|?%list_elem_of_singleton]%elem_of_app; [by rewrite Hb|by subst].
  - intros ? b Hb. by apply Hb.
Qed.

(** The facts of a pass, and what the machine makes of them. *)
Lemma runCutover_returns act pol pair ep inv :
  returns (fun x => exists facts, x = Ok (Cutover.Advance (act_Status act) facts) /\
    Cutover.f_Inventory facts = inv_Workloads inv /\
    Cutover.f_DryRun facts = spec_DryRun (act_Spec act) /\ Cutover.f_Rollback facts = spec_Rollback (act_Spec act) /\
    (forall w, stateless_only (inv_Workloads inv) w -> exists m, Cutover.f_Ready facts = Some m /\ m !! WKey w = None) /\
    (forall w, unscalable (inv_Workloads inv) w -> as_Phase (act_Status act) = ActionPhaseQuiescing ->
       Cutover.f_Frozen facts = false)) (runCutover Catalog r act pol pair ep inv).
Proof.
  unfold runCutover. do 2 (eapply returns_bind; [apply returns_True|]; intros ? _).
  eapply returns_bind; [apply cutover_loop_readies|]. intros f Hf.
  eapply returns_bind with (P := fun b => forall w, unscalable (inv_Workloads inv) w ->
    as_Phase (act_Status act) = ActionPhaseQuiescing -> b = false).
  { case_bool_decide as Hp; [|by intros w _ ?]. apply returns_forall. intros w. apply returns_forall. intros Hw.
    eapply wp_mono; [by eapply unscalable_unfrozen|]. by intros _ b ->. }
  intros frozen Hfr. eapply returns_bind; [apply returns_True|]. intros switched _.
  eapply returns_bind; [apply returns_True|]. intros _ _. cbn. eexists. split; [reflexivity|].
  cbn. split_and!; [done|done|done| |].
  - intros w (Hw & Hc & Hk). exists (cf_Ready f). split; [done|]. apply eq_None_not_Some. intros Hs.
    destruct (Hf _ Hs) as [[b Hb]|(w' & Hw' & Hk')]; [cbn in Hb; by rewrite lookup_empty in Hb|].
    apply elem_of_Stateful in Hw' as [Hin Hc']. by apply (Hk w').
  - intros w Hw Hq. rewrite (Hfr w Hw Hq). apply andb_false_r.
Qed.
End blocked.

(** A workload the facts do not say to be Ready holds the machine up. *)
Lemma unready_waits st facts w m : Cutover.f_DryRun facts = false -> w ∈ Cutover.f_Inventory facts ->
  Cutover.f_Ready facts = Some m -> m !! WKey w = None ->
  as_Phase st <> ActionPhaseSucceeded -> Restore.r_Phase (Cutover.Advance st facts) <> ActionPhaseSucceeded.
Proof.
  intros Hd Hw Hm Hk Hp Hs. destruct (Cutover.terminal (as_Phase st)) eqn:Ht.
  - unfold Cutover.terminal in Ht. destruct (as_Phase st) as [| | | | | | | | | | | | | |[|? s]] eqn:E; try done.
    all: revert Hs; unfold Cutover.Advance; rewrite E; cbn; by destruct (Cutover.f_Rollback facts).
  - destruct (Cutover.Advance_attests st facts Ht Hs) as [Hd'|(_ & Hr & _)]; [congruence|]. revert Hr.
    rewrite Cutover.Advance_workloads by done.
    unfold Cutover.seed. destruct (Cutover.f_Inventory facts) as [|w0 l] eqn:El; [by apply elem_of_nil in Hw|].
    rewrite Forall_forall. intros Hr. specialize (Hr (Cutover.seed_one (index_by ws_Key (as_Workloads st)) facts w)).
    rewrite (Cutover.seed_one_ready _ _ _ m) in Hr by done. unfold map_get in Hr. rewrite Hk in Hr.
    assert (false = true); [|done]. apply Hr. apply list_elem_of_In, in_map. by apply list_elem_of_In.
Qed.

(** C9: two inventories a cutover waits on for ever. For every answer of the
    clusters, the movers and the network, and whatever earlier passes recorded:
    with a Stateless workload in the inventory (whose key no stateful one has)
    no pass takes a cutover that is not a dry run to Succeeded, since the
    readiness of Stateless workloads is never read; and with a stateful workload
    that is neither a StatefulSet nor a Deployment (a claim no controller mounts,
    a DaemonSet) a quiescing cutover without a rollback goes on quiescing, since
    such a workload never counts as scaled to zero. *)
Theorem cutover_waits {U : Unstructured} {L : Library} Catalog r act pol pair ep inv :
  spec_DryRun (act_Spec act) = false ->
  always (runCutover Catalog r act pol pair ep inv) (fun _ x => exists res, x = Ok res /\
    ((exists w, stateless_only (inv_Workloads inv) w) -> as_Phase (act_Status act) <> ActionPhaseSucceeded ->
       Restore.r_Phase res <> ActionPhaseSucceeded) /\
    ((exists w, unscalable (inv_Workloads inv) w) -> as_Phase (act_Status act) = ActionPhaseQuiescing ->
       spec_Rollback (act_Spec act) = false -> Restore.r_Phase res = ActionPhaseQuiescing)).
Proof.
  intros Hd. eapply wp_mono; [apply wp_returns, runCutover_returns|].
  intros log x (facts & -> & Hi & Hdry & Hrb & Hr & Hf). eexists. split; [done|]. split.
  - intros [w Hw] Hp. destruct (Hr w Hw) as (m & Hm & Hk). rewrite Hd in Hdry.
    eapply unready_waits; [done|rewrite Hi; by destruct Hw|done..].
  - intros [w Hw] Hp Hn. specialize (Hf w Hw Hp). unfold Cutover.Advance. rewrite Hp, Hrb, Hn, Hf. done.
Qed.

(** ** What makes the machine advance *)

(** The facts of a pass in phase [p] over workloads that are all Ready and
    probed. *)
Record good_cut (p : ActionPhase) (facts : Cutover.Facts) : Prop := {
  gc_inventory : Cutover.f_Inventory facts <> [];
  gc_dry : Cutover.f_DryRun facts = false;
  gc_rollback : Cutover.f_Rollback facts = false;
  gc_frozen : p = ActionPhaseQuiescing -> Cutover.f_Frozen facts = true;
  gc_lag : p = ActionPhaseCatchingUp -> Cutover.f_LagZero facts = true;
  gc_promoted : p = ActionPhasePromoting -> Cutover.f_Promoted facts = true;
  gc_switched : p = ActionPhaseSwitching -> Cutover.f_Switched facts = true;
  gc_workloads : exists ready probes, Cutover.f_Ready facts = Some ready /\ Cutover.f_Probes facts = Some probes /\
    forall w, w ∈ Cutover.f_Inventory facts ->
      ready !! WKey w = Some true /\ exists pr, probes !! WKey w = Some pr /\ pr_OK pr = true }.

Definition unskipped (ws : list WorkloadActionStatus) : Prop := Forall (fun w => Skipped w = false) ws.

Lemma finish_completes ws now : ws <> [] -> unskipped ws ->
  Forall (fun w => ws_Ready w = true /\ ws_ProbeOK w = true) ws ->
  Restore.r_Phase (Cutover.finish ws now) = ActionPhaseSucceeded /\ Restore.r_Terminal (Cutover.finish ws now) = true.
Proof.
  intros Hne Hs Hr. unfold Cutover.finish.
  assert (Cutover.hold_up ws = None) as ->.
  { clear -Hr. induction Hr as [|w ws [H1 H2] _ IH]; [done|]. cbn. rewrite H1, H2. cbn. by rewrite andb_false_r. }
  assert (fst (CanSucceed ws) = true) as Hc; [|by destruct (CanSucceed ws) as [ok reason]; cbn in Hc; subst ok].
  apply CanSucceed_iff. split.
  - eapply Forall_impl; [exact Hr|]. intros w [H1 H2]. right. auto.
  - destruct ws as [|w ws]; [done|]. exists w. split; [left|]. by inversion Hs.
Qed.

(** The workloads a pass records were not skipped, when none was before. *)
Lemma seed_unskipped ws facts : unskipped ws -> unskipped (Cutover.seed ws facts).
Proof.
  intros H. unfold Cutover.seed. destruct (Cutover.f_Inventory facts) as [|w0 l]; [done|]. apply Forall_forall.
  intros st (w & <- & _)%list_elem_of_In%in_map_iff. by apply Cutover.seed_one_skipped.
Qed.

Lemma seed_good p ws facts : good_cut p facts -> Cutover.seed ws facts <> [] /\
  Forall (fun w => ws_Ready w = true /\ ws_ProbeOK w = true) (Cutover.seed ws facts).
Proof.
  intros Hg. destruct (gc_workloads _ _ Hg) as (ready & probes & Hr & Hp & Hw). pose proof (gc_inventory _ _ Hg) as Hi.
  unfold Cutover.seed. destruct (Cutover.f_Inventory facts) as [|w0 l] eqn:E; [done|]. split; [done|].
  apply Forall_forall. intros st (w & <- & Hin)%list_elem_of_In%in_map_iff. apply list_elem_of_In in Hin.
  destruct (Hw w Hin) as (H1 & pr & H2 & H3). split.
  - rewrite (Cutover.seed_one_ready _ _ _ ready) by done. unfold map_get. by rewrite H1.
  - rewrite <- H3. eapply Cutover.seed_one_probe; [done|done|by right].
Qed.

(** The passes a cutover is away from Succeeded, by the phase one starts from. *)
Definition cut_remaining (p : ActionPhase) : nat :=
  match p with
  | ActionPhaseSucceeded => 0
  | ActionPhaseWaitingReady | ActionPhaseHealing | ActionPhaseAttesting => 1
  | ActionPhaseSwitching => 2
  | ActionPhasePromoting => 3
  | ActionPhaseCatchingUp => 4
  | ActionPhaseQuiescing => 5
  | PhaseOther "" | ActionPhasePending | ActionPhasePreflight => 6
  | _ => 7
  end.

Lemma cut_remaining_le p : cut_remaining p <= 7.
Proof. destruct p as [| | | | | | | | | | | | | |[|? s]]; cbn; lia. Qed.

Lemma good_cut_progress st facts : good_cut (as_Phase st) facts -> Cutover.terminal (as_Phase st) = false ->
  unskipped (as_Workloads st) ->
  (cut_remaining (Restore.r_Phase (Cutover.Advance st facts)) < cut_remaining (as_Phase st)) /\
  (Restore.r_Phase (Cutover.Advance st facts) = ActionPhaseSucceeded ->
   Restore.r_Terminal (Cutover.Advance st facts) = true).
Proof.
  intros Hg Ht Hs. destruct (seed_good _ (as_Workloads st) _ Hg) as [Hne Hall].
  destruct (finish_completes _ (Cutover.f_Now facts) Hne (seed_unskipped _ facts Hs) Hall) as [Hf1 Hf2].
  pose proof (gc_dry _ _ Hg) as Hd. pose proof (gc_rollback _ _ Hg) as Hrb. pose proof (gc_frozen _ _ Hg) as H1.
  pose proof (gc_lag _ _ Hg) as H2. pose proof (gc_promoted _ _ Hg) as H3. pose proof (gc_switched _ _ Hg) as H4.
  unfold Cutover.Advance, Cutover.terminal in *. clear Hg Hne Hall.
  destruct (as_Phase st) as [| | | | | | | | | | | | | |[|a s]]; try done; cbn;
    rewrite ?Hrb, ?Hd; cbn; rewrite ?H1, ?H2, ?H3, ?H4 by done; cbn; rewrite ?Hf1, ?Hf2; cbn; split; (lia || done).
Qed.

(** ** Two clusters that do their part *)

(** The pair: a source of this cluster, a destination with a kubeconfig. *)
Record site := mkSite {
  si_k : kube; si_d : dyn; si_x : execer; si_cfg : restcfg;
  si_k2 : kube; si_d2 : dyn; si_x2 : execer; si_cfg2 : restcfg; si_ref : SecretKeyRef; si_raw : string }.

Definition pairs (si : site) (p : ClusterPair) : Prop :=
  HasRemoteAuth (cps_Source (cp_Spec p)) = false /\ AuthMethods (cps_Destination (cp_Spec p)) = 1%Z /\
  cr_KubeconfigSecret (cps_Destination (cp_Spec p)) = Some (si_ref si).

(** The namespace the kubeconfig's Secret is read in. *)
Definition kubeconfig_ns (ref : SecretKeyRef) : string :=
  or_default (or_default (skr_Namespace ref) "portage-system") "portage-system".

(** The workload [n] of the source was scaled to zero. *)
Definition kept_zero (h : hub) (kind ns n : string) (replicas : option Z) : Prop :=
  (kind, ns, n) ∈ hb_Scaled h -> is_zero replicas = true.

(** The source answers with its workloads, at zero once they were scaled to it,
    and with the kubeconfig; the destination's are Ready; updates are accepted; a
    replica that tells its lag has none, the copies of VolSync are complete; the
    traffic hook is answered 2xx; the hub has the pair, and no mover plugins. *)
Definition cuts_over {U : Unstructured} (si : site) (h : hub) (X : Type) (e : ev X) : X -> Prop :=
  match e in ev X return X -> Prop with
  | kGet c kd ns n => match kd return res (kobj kd) -> Prop with
      | KStatefulSet => fun y => (c = si_k si -> exists o : StatefulSet, y = Ok o /\ om_Name (sts_Meta o) = n /\
                                    kept_zero h "StatefulSet" ns n (sts_Replicas o)) /\
                                 (c = si_k2 si -> shows_ready KStatefulSet y)
      | KDeployment => fun y => (c = si_k si -> exists o : Deployment, y = Ok o /\ om_Name (dep_Meta o) = n /\
                                    kept_zero h "Deployment" ns n (dep_Replicas o)) /\
                                (c = si_k2 si -> shows_ready KDeployment y)
      | KDaemonSet => fun y => c = si_k2 si -> shows_ready KDaemonSet y
      | KSecret => fun y => c = si_k si -> ns = kubeconfig_ns (si_ref si) -> n = skr_Name (si_ref si) ->
          exists o : Secret, y = Ok o /\ data_get (sec_Data o) (or_default (skr_Key (si_ref si)) "kubeconfig") = Some (si_raw si)
      | _ => fun _ => True
      end
  | kUpdate _ _ _ _ => fun y => y = None
  | exec _ _ _ _ cmd _ => fun y => cmd = Postgres.ReplicaLagCmd -> snd y = None ->
      (Postgres.Sscanf_d (TrimSpace (ex_Stdout (fst y))) <= 0)%Z
  | dGet _ _ _ _ => fun y => exists o, y = Ok o /\ Volsync.lastSyncTime o <> EmptyString
  | httpNewRequest _ => fun y => y = None
  | httpPost _ _ _ => fun y => exists code status decoded, y = Ok (code, status, decoded) /\ (200 <= code <= 299)%Z
  | hubListPlugins => fun y => forall l, y = Ok l -> plugin_movers l = []
  | hubGetPair _ => fun y => exists p, y = Ok p /\ pairs si p
  | _ => fun _ => True
  end.

(** A workload a cutover takes along. *)
Definition movable (w : Workload) : Prop :=
  w_Class w <> ClassStateless /\ Graph.Is w = false /\
  (w_Kind w = "StatefulSet"%string \/ w_Kind w = "Deployment"%string).

(** A Policy over [nss] with a ClusterPair and without cluster objects. *)
Definition across (nss : list string) (p : Policy) : Prop :=
  ps_ClusterPair (pol_Spec p) <> EmptyString /\ co_Enabled (ps_ClusterObjects (pol_Spec p)) = false /\
  Namespaces (ps_SelectorNamespaces (pol_Spec p)) (pol_Namespace p) = nss.

(** The clients of the pair. *)
Record reached (si : site) (ep : Pair) : Prop := {
  re_source : ep_Kube (pr_Source ep) = Some (si_k si);
  re_source_dyn : ep_Dynamic (pr_Source ep) = Some (si_d si);
  re_dest : ep_Kube (pr_Dest ep) = Some (si_k2 si);
  re_dest_dyn : ep_Dynamic (pr_Dest ep) = Some (si_d2 si);
  re_dest_exec : ep_Exec (pr_Dest ep) = Some (si_x2 si) }.

Section cutover.
  Context {U : Unstructured} {C : Export.Converter} {L : Library} {R : Retry} {K : Cloud} (Catalog : list Engine).
  Context (defaultNew : restcfg -> res (option kube * option dyn * option execer)).
  Context (si : site) (ls : listing) (nss : list string).

Abbreviation k := (si_k si).
Abbreviation k2 := (si_k2 si).
Abbreviation r := (action_reconciler defaultNew k (si_d si) (si_x si) (si_cfg si)).
Abbreviation ws := (walked Catalog ls nss).
Abbreviation inv := (mkInventory nss ws).

Definition cutover_env := pass_env Catalog k ls nss (across nss) (eq k2) (cuts_over si).

(** The kubeconfig leads to the other cluster. *)
Context (Hapart : k2 <> k) (Hraw : RESTConfigFromKubeConfig (si_raw si) = Ok (si_cfg2 si)).
Context (Hnew : defaultNew (si_cfg2 si) = Ok (Some k2, Some (si_d2 si), Some (si_x2 si))).
Context (p0 : Policy) (Hp0 : across nss p0).

Lemma cutover_obtainable : obtainable Catalog ls nss (across nss) (eq k2) (cuts_over si).
Proof.
  split_and!; [by exists p0|by intros s X []|]. intros s X e He.
  destruct (panicless_answerable ws (eq k2) X e He) as [y Hy].
  destruct e; try (exists y; by split).
  - rename k into kd. pose (zero := Some (if bool_decide (c = si_k si) then 0%Z else 1%Z)).
    assert (c = si_k si -> zero = Some 0%Z) as Hz by (intros ->; unfold zero; by rewrite bool_decide_eq_true_2).
    assert (c = si_k2 si -> zero = Some 1%Z) as Ho by (intros ->; unfold zero; by rewrite bool_decide_eq_false_2).
    destruct kd; try (exists y; by split).
    + exists (Ok (mkSts (new_meta name "" None None) zero None (sts_Template postgres) [] 1 JNull)). split; [done|].
      split; intros Hc; eexists; (split; [reflexivity|]); cbn; [split; [done|]; intros _; by rewrite Hz|by rewrite Ho].
    + exists (Ok (mkDep (new_meta name "" None None) zero (sts_Template postgres) 1 JNull)). split; [done|].
      split; intros Hc; eexists; (split; [reflexivity|]); cbn; [split; [done|]; intros _; by rewrite Hz|by rewrite Ho].
    + exists (Ok (mkDs (new_meta name "" None None) (sts_Template postgres) 1 JNull)). split; [done|]. intros _. by eexists.
    + exists (Ok (mkSecret (new_meta name "" None None) "" (Some {[or_default (skr_Key (si_ref si)) "kubeconfig" := si_raw si]}))).
      split; [done|]. intros _ _ _. eexists. split; [done|]. cbn. by rewrite lookup_singleton_eq.
  - exists None. by split.
  - exists (Ok [("status", JObj [("lastSyncTime", JStr "t")])]%string). split; [done|]. eexists. split; [done|].
    unfold Volsync.lastSyncTime. by rewrite NestedString_law.
  - exists (mkExecResult EmptyString EmptyString, None). split; [done|]. intros _ _. vm_compute. discriminate.
  - exists None. by split.
  - exists (Ok (200%Z, EmptyString, Err (errorf ""))). split; [done|]. do 3 eexists. split; [done|lia].
  - eexists (Ok (mkClusterPair "" 1 (mkClusterPairSpec (mkClusterRef "" EmptyString None None None None None)
      (mkClusterRef "" EmptyString (Some (si_ref si)) None None None None) TransportObjectStore None None None)
      (mkClusterPairStatus ClusterPairReady EmptyString true true 1))). split; [done|]. by eexists.
  - exists (Ok []). split; [done|]. by intros l [= <-].
Qed.

Let Henv : helpful ws (eq k2) cutover_env := pass_helpful Catalog k ls nss _ _ _ cutover_obtainable.

(** A call, with what the environment says of its answer. *)
Lemma cut_call {X A} (e : ev X) (f : X -> io ev A) s Q : panicless e = true ->
  (forall y s', cuts_over si s X e y -> hub_keeps k s e y s' -> live cutover_env (f y) s' Q) ->
  live cutover_env (let* y := trigger e in f y) s Q.
Proof. intros He Hf. apply (live_call ws (eq k2) _ Henv); [done|]. intros y s' [(_ & Hm & _) Hk] _. by apply Hf. Qed.

Lemma endpoints_live p s : pairs si p -> live cutover_env (ActionFacts.endpoints r (Some p)) s
  (fun _ y => exists ep, y = Ok ep /\ reached si ep /\ ep_Name (pr_Dest ep) = cr_Name (cps_Destination (cp_Spec p))).
Proof.
  intros (Hs & Hd & Href). unfold ActionFacts.endpoints. cbn [acr_Resolve action_reconciler].
  unfold resolve, Clusters.Resolve. apply live_bind, live_bind. unfold Clusters.endpoints at 1. rewrite Hs. cbn [negb live].
  apply live_bind. assert (HasRemoteAuth (cps_Destination (cp_Spec p)) = true) as Hr by (unfold HasRemoteAuth; by rewrite Hd).
  unfold Clusters.endpoints. rewrite Hr. cbn [negb]. apply live_bind. unfold restConfig. rewrite Hd, Href. cbn [Z.ltb Z.compare Pos.compare Pos.compare_cont].
  unfold kubeconfigREST, secretBytes. apply live_bind, live_bind. cbn [rs_Secrets resolver]. apply cut_call; [done|].
  intros y s1 Hy _. destruct (Hy eq_refl eq_refl eq_refl) as (o & -> & Ho). cbn [live]. rewrite Ho, Hraw. cbn [rs_NewForCfg default].
  change (default defaultNew _) with defaultNew. rewrite Hnew. cbn [live].
  unfold dest_remote. rewrite Hr.
  destruct (String.eqb (cr_Name (cps_Source (cp_Spec p))) EmptyString); cbn;
    (rewrite bool_decide_eq_false_2 by congruence); cbn; eexists; (split; [done|]); by split.
Qed.

(** The preparation comes to the run, on the clusters of the pair. *)
Lemma prepared_live act pol s Q : across nss pol ->
  (forall p ep s', pairs si p -> reached si ep -> act_Spec (hb_Action s') = act_Spec (hb_Action s) ->
     live cutover_env (run_action Catalog r act pol (Some p) ep inv) s' Q) ->
  live cutover_env (prepared Catalog r act pol) s Q.
Proof.
  intros (Hcp & Hco & Hns) Hrun. unfold prepared, loadPair. apply String.eqb_neq in Hcp. rewrite Hcp.
  apply live_bind, cut_call; [done|]. intros y s1 (p & -> & Hp) Hk1. cbn in Hk1. subst s1. cbn [live].
  apply live_bind. eapply live_mono; [by apply live_spec, endpoints_live|]. intros s2 y [E (ep & -> & Hr & _)].
  unfold fill_endpoints. rewrite (re_source _ _ Hr), (re_dest _ _ Hr), Hns. cbn [with_kube].
  unfold with_kube. rewrite (re_source _ _ Hr). apply live_bind.
  eapply live_mono; [apply live_spec, (Walk_live Catalog k ls nss _ _ _ cutover_obtainable)|]. intros s3 y [E3 ->].
  cbn [withClusterObjects]. rewrite Hco. cbn [negb]. apply Hrun; [done|done|congruence].
Qed.

(** ** The run *)

Section run.
  Context (p : ClusterPair) (ep : Pair) (phase : ActionPhase) (Hep : reached si ep).

Abbreviation A := (acts r phase false ep).

(** Without a rollback, what was scaled to zero stays so. *)
Lemma acts_scaled {B} (m : io ev B) s : only A m -> wp cutover_env m s (fun s' _ => hb_Scaled s ⊆ hb_Scaled s').
Proof.
  revert s. induction m as [b|X e f IH]; intros s; cbn [wp only]; [done|]. intros [He Hf] y s' [_ Hk].
  eapply wp_mono; [by apply IH|]. cbn. intros s'' b Hs. etrans; [|exact Hs]. clear -Hk He Hep Hapart.
  destruct e; try (cbn in Hk; by subst).
  - assert (forall kind ns name n, (on_source ep c /\ before_freeze phase = true /\ n = Some 0%Z \/ on_source ep c /\ false = true \/
        on_dest ep c /\ serving phase = true /\ n = Some 1%Z) ->
      hb_Scaled s ⊆ hb_Scaled (if bool_decide (c = si_k si) && negb (is_set y) then note_scale kind ns name n s else s)) as H.
    { intros kind ns' name n [(_ & _ & ->)|[[_ ?]|(Hd & _)]]; [case_if; cbn; set_solver|done|].
      unfold on_dest in Hd. rewrite (re_dest _ _ Hep) in Hd. injection Hd as <-. by rewrite bool_decide_eq_false_2. }
    destruct k; cbn in Hk, He; subst s'; try done; by apply H.
  - by destruct Hk as [_ ->].
Qed.

(** Scaling is accepted; on the source, to zero, it is kept. *)
Definition scaled_down (s : hub) (w : Workload) : Prop := (w_Kind w, w_Namespace w, w_Name w) ∈ hb_Scaled s.

Lemma Scale_live c w n s : c = k \/ c = k2 -> movable w ->
  live cutover_env (Scale c w n) s (fun s' e => e = None /\ (c = k -> n = 0%Z -> scaled_down s' w)).
Proof.
  intros Hc (_ & _ & Hkind). unfold Scale, scaled_down.
  assert (forall o : StatefulSet, w_Kind w = "StatefulSet"%string -> (c = k -> om_Name (sts_Meta o) = w_Name w) ->
    live cutover_env (trigger (kUpdate c KStatefulSet (w_Namespace w) (scale_sts n o))) s
      (fun s' e => e = None /\ (c = k -> n = 0%Z -> (w_Kind w, w_Namespace w, w_Name w) ∈ hb_Scaled s'))) as Hsts.
  { intros o Hk Hn. apply (cut_call _ (fun e => Ret e)); [done|]. intros y s' Hy Hs'. cbn in Hy, Hs'. subst y s'.
    split; [done|]. intros -> ->. rewrite bool_decide_eq_true_2 by done. cbn. rewrite Hk, Hn by done. set_solver. }
  assert (forall o : Deployment, w_Kind w = "Deployment"%string -> (c = k -> om_Name (dep_Meta o) = w_Name w) ->
    live cutover_env (trigger (kUpdate c KDeployment (w_Namespace w) (scale_dep n o))) s
      (fun s' e => e = None /\ (c = k -> n = 0%Z -> (w_Kind w, w_Namespace w, w_Name w) ∈ hb_Scaled s'))) as Hdep.
  { intros o Hk Hn. apply (cut_call _ (fun e => Ret e)); [done|]. intros y s' Hy Hs'. cbn in Hy, Hs'. subst y s'.
    split; [done|]. intros -> ->. rewrite bool_decide_eq_true_2 by done. cbn. rewrite Hk, Hn by done. set_solver. }
  case_if; [boolify|]; [|case_if; [boolify|destruct Hkind; boolify; congruence]]; apply cut_call; try done;
    intros y s' [H1 H2] Hs'; cbn in Hs'; subst s'; destruct Hc as [-> | ->].
  - destruct (H1 eq_refl) as (o & -> & Hn & _). by apply Hsts.
  - destruct (H2 eq_refl) as (o & -> & _). apply Hsts; [done|]. by intros ?.
  - destruct (H1 eq_refl) as (o & -> & Hn & _). by apply Hdep.
  - destruct (H2 eq_refl) as (o & -> & _). apply Hdep; [done|]. by intros ?.
Qed.

Lemma ScaledToZero_live w s : movable w -> scaled_down s w ->
  live cutover_env (ScaledToZero k w) s (fun s' z => z = true /\ s' = s).
Proof.
  intros (_ & _ & Hkind) Hd. unfold ScaledToZero, scaled_down in *.
  case_if; [boolify|]; [|case_if; [boolify|destruct Hkind; boolify; congruence]]; apply cut_call; try done;
    intros y s' [H1 _] Hs'; cbn in Hs'; subst s'; destruct (H1 eq_refl) as (o & -> & _ & Hz); cbn [live];
    (split; [|done]); apply Hz; congruence.
Qed.

(** *** The replica *)

Lemma synced_live dc gvr ns n s : live cutover_env (Volsync.synced (Some dc) gvr ns n) s (fun _ b => b = true).
Proof.
  apply cut_call; [done|]. intros y s1 (o & -> & Ho) _. apply String.eqb_neq in Ho.
  cbn [live]. by rewrite Ho.
Qed.

Lemma lag_live w s : w ∈ ws -> live cutover_env (lag_zero (Some p) ep w) s (fun _ b => b = true).
Proof.
  intros Hw. assert (forall s, live cutover_env (Volsync.LagZero (volsync_reader (Some p) ep) w) s (fun _ b => b = true)) as Hvs.
  { intros s0. unfold Volsync.LagZero, Volsync.destDyn. cbn [volsync_reader Volsync.vs_Dynamic Volsync.vs_DestDynamic].
    rewrite (re_source_dyn _ _ Hep), (re_dest_dyn _ _ Hep).
    apply live_bind. eapply live_mono; [apply synced_live|]. intros s1 b ->.
    apply live_bind. eapply live_mono; [apply synced_live|]. by intros s2 b ->. }
  unfold lag_zero, Postgres.LagSeconds, Postgres.destKube, postgres_mover.
  cbn [Postgres.pg_Exec Postgres.pg_Dest Postgres.pg_Kube]. rewrite (re_dest_exec _ _ Hep), (re_dest _ _ Hep).
  apply live_bind, live_bind. eapply live_mono; [by apply (FirstReadyPod_live ws (eq k2) _ Henv)|].
  intros s1 y ([pod container] & ->). apply cut_call; [done|]. intros [o [e|]] s2 Hy _; cbn [live]; [by apply Hvs|].
  specialize (Hy eq_refl eq_refl). cbn in Hy. cbn [live]. apply negb_true_iff, Z.ltb_ge. exact Hy.
Qed.

(** The movers of a registry without plugins. *)
Definition built_in (m : Mover) : Prop :=
  m = Postgres.mover (postgres_mover ep) \/ exists v, m = Volsync.mover Catalog url_Parse v.

Lemma built_in_registry_live s :
  live cutover_env (registry Catalog r (Some p) ep) s (fun _ reg => Forall built_in reg).
Proof.
  unfold registry. apply live_bind. eapply live_mono; [apply (live_panicless ws (eq k2) _ Henv); off|]. intros s1 creds _.
  apply live_bind. eapply live_mono; [apply (live_panicless ws (eq k2) _ Henv); off|]. intros s2 snap _.
  apply cut_call; [done|]. intros schedule s3 _ _. unfold registerPlugins. cbn [acr_Client action_reconciler negb].
  set (reg := if bool_decide _ then _ else _).
  assert (Forall built_in reg) as Hreg.
  { subst reg. case_bool_decide; unfold Registry.Register, NewRegistry; cbn [app];
      repeat (apply Forall_cons; split); try apply Forall_nil_2; unfold built_in; eauto. }
  clearbody reg. apply cut_call; [done|]. intros y s4 Hl _. destruct y as [l|e]; cbn [live]; [|done].
  by rewrite (Hl l eq_refl).
Qed.

Lemma Postgres_Promote_live w s : w ∈ ws -> movable w ->
  live cutover_env (Postgres.Promote (postgres_mover ep) w) s (fun _ e => e = None).
Proof.
  intros Hw Hm. unfold Postgres.Promote, Postgres.destKube. cbn [postgres_mover Postgres.pg_Exec Postgres.pg_Dest].
  rewrite (re_dest_exec _ _ Hep), (re_dest _ _ Hep). apply live_bind.
  eapply live_mono; [apply Scale_live; [by right|done]|]. intros s1 e [-> _]. apply live_bind.
  eapply live_mono; [by apply (FirstReadyPod_live ws (eq k2) _ Henv)|]. intros s2 y ([pod container] & ->).
  apply (live_call ws (eq k2) _ Henv); [done|]. intros [o e] s3 _ He. cbn [live]. apply He. exists w. unfold runs_in. tauto.
Qed.

Lemma built_in_selected reg w name : Forall built_in reg ->
  exists m cap e, Registry.Select reg w name = Ret (m, cap, e) /\ (forall m', m = Some m' -> built_in m').
Proof.
  intros Hreg.
  assert (forall m, built_in m -> exists cap, mv_Discover m w = Ret (cap, None)) as Hdisc.
  { intros m [->|[v ->]]; by eexists. }
  unfold Registry.Select. case_if.
  - destruct (Registry.Get reg name) as [m|] eqn:E; [|by do 3 eexists].
    unfold Registry.Get in E. apply find_Some_elem in E as [Hm _]. rewrite Forall_forall in Hreg.
    destruct (Hdisc m (Hreg m Hm)) as [cap ->]. do 3 eexists. split; [reflexivity|]. intros m' [= <-]. by apply Hreg.
  - induction Hreg as [|m reg Hm _ IH]; cbn [Registry.select_first]; [by do 3 eexists|]. case_if; [exact IH|].
    destruct (Hdisc m Hm) as [cap ->]. cbn. case_if; [|exact IH]. do 3 eexists. split; [reflexivity|]. by intros m' [= <-].
Qed.

Lemma promote_live pol reg w s : w ∈ ws -> movable w -> Forall built_in reg ->
  live cutover_env (promote pol ep reg w) s (fun _ b => b = true).
Proof.
  intros Hw Hm Hreg. unfold promote.
  destruct (built_in_selected reg w (moverOverride (Some pol) w "replicate") Hreg) as (m & cap & e & -> & Hb). cbn [bind].
  assert (forall b : bool, live cutover_env (if b
      then let* e := Postgres.Promote (postgres_mover ep) w in Ret (match e with Some _ => false | None => true end)
      else with_kube (ep_Kube (pr_Dest ep)) (fun c => let* _ := Scale c w 1 in Ret true)) s (fun _ b => b = true)) as Hfall.
  { intros []; [|rewrite (re_dest _ _ Hep); cbn [with_kube]]; apply live_bind.
    - eapply live_mono; [by apply Postgres_Promote_live|]. by intros s1 ? ->.
    - eapply live_mono; [apply Scale_live; [by right|done]|]. done. }
  destruct m as [m|]; [|apply Hfall]. case_if; [|apply Hfall]. apply live_bind.
  destruct (Hb m eq_refl) as [->|[v ->]]; cbn [mv_Promote Postgres.mover Volsync.mover]; [|done].
  eapply live_mono; [by apply Postgres_Promote_live|]. by intros s1 ? ->.
Qed.

(** *** A workload, the freeze, the traffic *)

(** What a pass finds of a workload. *)
Definition cut_done (f : CutoverFacts) (w : Workload) : Prop :=
  cf_Ready f !! WKey w = Some true /\ exists pr, cf_Probes f !! WKey w = Some pr /\ pr_OK pr = true.
Definition cut_fine (f : CutoverFacts) : Prop := cf_LagZero f = true /\ cf_Promoted f = true.

(** A step that leaves at zero what was scaled to zero. *)
Definition steady (s s' : hub) : Prop := phase = ActionPhaseQuiescing -> hb_Scaled s ⊆ hb_Scaled s'.

Lemma steady_refl s : steady s s.
Proof. by intros _. Qed.

Lemma steady_other s s' : phase <> ActionPhaseQuiescing -> steady s s'.
Proof. by intros ? ?. Qed.

Lemma live_steady {B} (m : io ev B) s P : live cutover_env m s P -> only A m ->
  live cutover_env m s (fun s' b => steady s s' /\ P s' b).
Proof.
  intros Hm Ha. eapply live_mono; [apply live_and_wp; [exact Hm|by apply acts_scaled]|].
  intros s' b [HP Hs]. split; [by intros _|done].
Qed.

Lemma freeze_live w s : movable w ->
  live cutover_env (if before_freeze phase then with_kube (ep_Kube (pr_Source ep)) (fun c => let* _ := Scale c w 0 in Ret tt)
    else Ret tt) s (fun s' _ => steady s s' /\ (phase = ActionPhaseQuiescing -> scaled_down s' w)).
Proof.
  intros Hm. destruct (before_freeze phase) eqn:Hb; [|split; [apply steady_refl|by intros ->]].
  rewrite (re_source _ _ Hep). cbn [with_kube]. apply live_bind.
  eapply live_mono; [apply live_steady; [apply Scale_live; [by left|done]|]|].
  - apply acts_Scale. left. split_and!; [exact (re_source _ _ Hep)|done|done].
  - intros s1 e (Hs & _ & Hd). cbn [live]. split; [done|]. intros _. by apply Hd.
Qed.

(** One workload. *)
Lemma cutover_one_live pol reg f w s : w ∈ ws -> movable w -> Forall built_in reg -> cut_fine f ->
  live cutover_env (cutover_one Catalog r pol (Some p) ep phase reg f w) s (fun s' f' =>
    cut_fine f' /\ cut_done f' w /\ (forall w', cut_done f w' -> cut_done f' w') /\
    steady s s' /\ (phase = ActionPhaseQuiescing -> scaled_down s' w)).
Proof.
  intros Hw Hm Hreg [Hl Hpr]. pose proof Hm as (_ & Hg & _). unfold cutover_one. rewrite Hg. apply live_bind.
  eapply live_mono; [by apply freeze_live|]. intros s1 _ [H1 Hd]. apply live_bind.
  eapply live_mono; [apply live_steady; [by apply lag_live|apply acts_lag]|]. intros s2 lag [H2 ->]. apply live_bind.
  eapply live_mono with (P := fun s' b => steady s2 s' /\ b = true).
  { case_bool_decide as Hp; [|split; [apply steady_refl|done]].
    eapply live_mono; [by apply promote_live|]. intros s' b ->. split; [by apply steady_other; rewrite Hp|done]. }
  intros s3 promoted [H3 ->]. rewrite (re_dest _ _ Hep). cbn [with_kube]. apply live_bind.
  eapply live_mono with (P := fun s' _ => steady s3 s').
  { destruct (_ || _) eqn:Hp; [|apply steady_refl]. apply live_bind.
    eapply live_mono; [apply Scale_live; [by right|done]|]. intros s' e _. apply steady_other. intros ->. done. }
  intros s4 _ H4. apply live_bind. eapply live_mono; [apply live_steady; [|apply acts_Ready]|].
  { apply (Ready_live ws (eq k2) _ Henv); [|done|done]. intros s5 kd ns n y s' [(_ & Hy & _) _]. cbn in Hy.
    destruct kd; try done; [by apply (proj2 Hy)|by apply (proj2 Hy)|by apply Hy]. }
  intros s5 y [H5 ->]. rewrite (re_dest_exec _ _ Hep). apply live_bind.
  eapply live_mono; [apply live_steady; [by apply (Run_live ws (eq k2) _ Henv)|apply acts_Run, (re_dest_exec _ _ Hep)]|].
  intros s6 pr [H6 Hok]. cbn [live]. split; [by unfold cut_fine; cbn; rewrite Hl, Hpr|].
  assert (forall w', WKey w' = WKey w \/ cut_done f w' -> cut_done (cutover_probe (WKey w) pr (cutover_ready (WKey w) true
    (cutover_promoted true (cutover_lag true f)))) w') as Hdone.
  { intros w' Hw'. unfold cut_done. cbn. destruct (decide (WKey w' = WKey w)) as [-> | Hne].
    - rewrite !lookup_insert_eq. split; [done|]. by exists pr.
    - rewrite !lookup_insert_ne by done. by destruct Hw'. }
  split_and!; [by apply Hdone; left|by intros; apply Hdone; right| |].
  - intros Hq. etrans; [by apply H1|]. etrans; [by apply H2|]. etrans; [by apply H3|]. etrans; [by apply H4|].
    etrans; [by apply H5|by apply H6].
  - intros Hq. unfold scaled_down. apply (H6 Hq), (H5 Hq), (H4 Hq), (H3 Hq), (H2 Hq). by apply Hd.
Qed.

Lemma cutover_loop_live pol reg l s : (forall w, w ∈ l -> w ∈ ws /\ movable w) -> Forall built_in reg ->
  live cutover_env (foldM (cutover_one Catalog r pol (Some p) ep phase reg) (mkCutoverFacts ∅ ∅ true true) l) s (fun s' f =>
    cut_fine f /\ forall w, w ∈ l -> cut_done f w /\ (phase = ActionPhaseQuiescing -> scaled_down s' w)).
Proof.
  intros Hl Hreg. apply (live_foldM cutover_env _ (fun pre s' f => cut_fine f /\ forall w, w ∈ pre ->
    cut_done f w /\ (phase = ActionPhaseQuiescing -> scaled_down s' w)) l [] s); [split; [done|by intros w ?%elem_of_nil]|].
  intros pre w post s1 f E [Hf Hpre]. cbn [app] in E. destruct (Hl w) as [Hw Hm]; [rewrite E; set_solver|].
  eapply live_mono; [by apply cutover_one_live|]. intros s2 f' (Hf' & Hd & Hkeep & Hs & Hz). split; [done|].
  intros w' [Hw'|Hw']%elem_of_app.
  - destruct (Hpre w' Hw') as [H1 H2]. split; [by apply Hkeep|]. intros Hq. by apply (Hs Hq), H2.
  - by apply list_elem_of_singleton in Hw' as ->.
Qed.

Lemma all_frozen_live nss' l s : (forall w, w ∈ l -> movable w /\ scaled_down s w) ->
  live cutover_env (all_frozen ep (mkInventory nss' l)) s (fun _ b => b = true).
Proof.
  intros Hl. unfold all_frozen, Stateful. cbn [inv_Workloads].
  apply (live_mono cutover_env _ _ (fun s' b => b = true /\ s' = s)); [|by intros s' b [? _]].
  apply (live_foldM cutover_env _ (fun _ s' b => b = true /\ s' = s) (List.filter is_stateful l) [] s true); [done|].
  intros pre w post s1 b E [-> ->]. cbn [app] in E.
  assert (w ∈ l) as Hw.
  { apply list_elem_of_In. apply (proj1 (filter_In is_stateful w l)). rewrite E. apply in_elt. }
  destruct (Hl w Hw) as [Hm Hd]. pose proof Hm as (_ & Hg & _). rewrite Hg, (re_source _ _ Hep). cbn [with_kube].
  apply live_bind. eapply live_mono; [by apply ScaledToZero_live|]. by intros s' z [-> ->].
Qed.

Lemma Switch_live pol e s : live cutover_env (Traffic.Switch (traffic_hook pol) e) s (fun _ y => y = None).
Proof.
  unfold traffic_hook. case_if; [done|]. cbn [Traffic.Switch]. unfold Traffic.post. rewrite Heqb.
  apply cut_call; [done|]. intros y s1 -> _. apply cut_call; [done|].
  intros y s2 (code & status & decoded & -> & Hc) _. cbn [live].
  destruct (Z.ltb_spec code 200), (Z.ltb_spec 299 code); cbn; (lia || done).
Qed.
End run.

Context (Hws : ws <> []) (Hmove : forall w, w ∈ ws -> movable w).

(** The run gives the machine what its phase waits for. *)
Lemma runCutover_live act pol p ep s : reached si ep ->
  spec_DryRun (act_Spec act) = false -> spec_Rollback (act_Spec act) = false ->
  live cutover_env (runCutover Catalog r act pol (Some p) ep inv) s (fun _ y => exists facts,
    y = Ok (Cutover.Advance (act_Status act) facts) /\ good_cut (as_Phase (act_Status act)) facts).
Proof.
  intros Hep Hd Hr. unfold runCutover. apply live_bind, (live_now ws (eq k2) _ Henv r eq_refl). intros t s1.
  apply live_bind. eapply live_mono; [by apply built_in_registry_live|]. intros s2 reg Hreg.
  assert (forall w, w ∈ Stateful inv -> w ∈ ws /\ movable w) as Hst
    by (intros w [Hw _]%elem_of_Stateful; split; [exact Hw|by apply Hmove]).
  apply live_bind. eapply live_mono; [by apply cutover_loop_live|]. intros s3 f [[Hl Hp] Hf].
  apply live_bind. eapply live_mono with (P := fun _ b => as_Phase (act_Status act) = ActionPhaseQuiescing -> b = true).
  { case_bool_decide as Hq; [|by intros ?]. eapply live_mono; [apply all_frozen_live; [done|]|by intros s4 b -> _].
    intros w Hw. split; [by apply Hmove|]. apply Hf; [|done]. apply elem_of_Stateful. split; [done|]. by apply Hmove. }
  intros s4 frozen Hfr. apply live_bind.
  eapply live_mono with (P := fun _ b => as_Phase (act_Status act) = ActionPhaseSwitching -> b = true).
  { case_bool_decide as Hq; [|by intros ?]. apply live_bind. eapply live_mono; [apply Switch_live|]. by intros s5 e ->. }
  intros s5 switched Hsw. rewrite Hr. cbn [bind live]. eexists. split; [reflexivity|]. rewrite Hl, Hp, Hd.
  constructor; cbn; [done|done|done|by intros Hq; rewrite Hq, Hfr|by intros ->|by intros ->|done|].
  do 2 eexists. split_and!; [done|done|]. intros w Hw. apply Hf, elem_of_Stateful. split; [exact Hw|by apply Hmove].
Qed.

(** ** The passes *)

(** A Cutover to be done. *)
Definition to_cut (act : Action) : Prop :=
  spec_Type (act_Spec act) = ActionCutover /\ spec_DryRun (act_Spec act) = false /\
  spec_Rollback (act_Spec act) = false /\ spec_PolicyRef (act_Spec act) <> EmptyString.

(** At most [n] passes away from a Succeeded status. *)
Definition cut_away (n : nat) (act : Action) : Prop := to_cut act /\
  ((as_Phase (act_Status act) = ActionPhaseSucceeded /\ is_Some (as_CompletionTime (act_Status act))) \/
   (is_Some (resume act) /\ unskipped (as_Workloads (act_Status act)) /\ cut_remaining (as_Phase (act_Status act)) <= n)).

(** A Cutover that is not over goes on where it stands. *)
Lemma resume_cut act st : spec_Type (act_Spec act) = ActionCutover -> resume act = Some st ->
  st = act_Status act /\ Cutover.terminal (as_Phase st) = false.
Proof.
  intros Ht Hr. unfold resume in Hr. rewrite Ht in Hr.
  destruct (as_Phase (act_Status act)) eqn:Ep; cbn in Hr; try done; injection Hr as <-; by rewrite Ep.
Qed.

Lemma resume_going act : spec_Type (act_Spec act) = ActionCutover ->
  Cutover.terminal (as_Phase (act_Status act)) = false -> is_Some (resume act).
Proof.
  intros Ht Hn. unfold resume. destruct (as_Phase (act_Status act)); try done; by eexists.
Qed.

Lemma pending_cut st : Cutover.terminal (as_Phase st) = false ->
  cut_remaining (as_Phase (pending st)) = cut_remaining (as_Phase st) /\
  Cutover.terminal (as_Phase (pending st)) = false /\ as_Workloads (pending st) = as_Workloads st.
Proof. intros Ht. unfold pending. case_bool_decide as E; [rewrite E; by split_and!|done]. Qed.

(** One pass. *)
Lemma cut_progress ns name h n : cut_away (S n) (hb_Action h) ->
  live cutover_env (Reconcile Catalog r ns name) h (fun h' _ =>
    act_Spec (hb_Action h') = act_Spec (hb_Action h) /\ cut_away n (hb_Action h')).
Proof.
  intros [Ht Hs]. pose proof Ht as (Hty & Hdry & Hrb & Href).
  destruct Hs as [[Hp Hc]|([st Hr] & Hu & Hn)].
  { unfold Reconcile. apply (live_call ws (eq k2) _ Henv); [done|]. intros y s' [_ [-> ->]] _.
    unfold resume. rewrite Hp, Hty. cbn. split; [done|]. split; [done|]. by left. }
  destruct (resume_cut _ _ Hty Hr) as [-> Hnt]. destruct (pending_cut _ Hnt) as (Hrem & Hnt' & Hws').
  eapply Reconcile_prepares; [exact cutover_obtainable|exact Hr|exact Href|]. intros a pol s Ea Es Eh Hpol.
  eapply prepared_live; [exact Hpol|]. intros p ep s' Hpair Hep Es'.
  eapply live_mono.
  - apply (run_action_live Catalog defaultNew k (si_d si) (si_x si) (si_cfg si) ls nss _ _ _ cutover_obtainable) with
      (m := fun st => runCutover Catalog r (with_act_status st a) pol (Some p) ep inv)
      (P := fun res => cut_remaining (Restore.r_Phase res) < cut_remaining (as_Phase (act_Status (hb_Action h))) /\
         (Restore.r_Phase res = ActionPhaseSucceeded -> Restore.r_Terminal res = true) /\
         unskipped (Restore.r_Workloads res)) (W := fun _ => True).
    + intros st'. unfold run_type. cbn [act_Spec with_act_status]. by rewrite Ea, Hty.
    + intros t s2. eapply live_mono; [apply (runCutover_live _ pol p ep s2 Hep); cbn; by rewrite Ea|].
      intros s3 y (facts & -> & Hg). split; [|done]. eexists. split; [done|]. cbn [act_Status with_act_status] in *.
      rewrite Es in *. rewrite <- Hrem. destruct (good_cut_progress (with_start t (pending (act_Status (hb_Action h)))) facts)
        as [Hlt Hterm]; [exact Hg|exact Hnt'|cbn; by rewrite Hws'|].
      split_and!; [exact Hlt|exact Hterm|]. rewrite Cutover.Advance_workloads. apply seed_unskipped. cbn. by rewrite Hws'.
  - intros s2 y (Hspec & _ & start & now & res & (Hlt & HT & Hun) & Hst & _).
    assert (act_Spec (hb_Action s2) = act_Spec (hb_Action h)) as E by congruence. split; [done|].
    split; [unfold to_cut; by rewrite E|]. rewrite Hst. cbn.
    destruct (decide (Restore.r_Phase res = ActionPhaseSucceeded)) as [Hp|Hne].
    + left. rewrite Hp, (HT Hp). by split.
    + right. split; [|split; [exact Hun|lia]]. apply resume_going; [by rewrite E|]. rewrite Hst. cbn.
      pose proof (cut_remaining_le (as_Phase (act_Status (hb_Action h)))) as Hle.
      destruct (Restore.r_Phase res) as [| | | | | | | | | | | | | |[|? ?]]; try done; cbn in Hlt; lia.
Qed.

Lemma cut_away_done act : cut_away 0 act ->
  as_Phase (act_Status act) = ActionPhaseSucceeded /\ is_Some (as_CompletionTime (act_Status act)).
Proof.
  intros [(Ht & _) [?|([st Hr] & _ & Hn)]]; [done|]. exfalso.
  destruct (resume_cut _ _ Ht Hr) as [-> Hnt].
  destruct (as_Phase (act_Status act)) as [| | | | | | | | | | | | | |[|? ?]]; try done; cbn in Hn; lia.
Qed.
End cutover.


(** ** Witnesses *)

(** A cluster on the other side, and the Policy and the Action. *)
Definition west_ref : SecretKeyRef := mkSecretKeyRef "west" "kubeconfig" EmptyString.
Definition east_west : site :=
  mkSite (Kube 0) (Dyn 0) (Exec 0) (Rest 0) (Kube 1) (Dyn 1) (Exec 1) (Rest 2) west_ref "kubeconfig of west".
Definition moving_policy : Policy :=
  mkPolicy "policy" "shop" 1 (mkPolicySpec "east-west" [] (mkBackupSpec false "" false "") (mkReplicateSpec false "" "")
    (mkRestoreSpec false false "") (mkCutoverSpec "" "") (mkRendererSpec RendererSanitize "" None)
    (mkClusterObjectsSpec false None [] []) ∅) (pol_Status some_policy).
Definition new_cutover : Action :=
  mkAction "cutover-1" "shop" ∅ ∅ "1" 1 (mkActionSpec ActionCutover "policy" "" "" false false) zero_ActionStatus.


(** A Stateless Deployment beside a claim no controller mounts. *)
Definition stuck_inventory : Inventory := mkInventory ["shop"]%string
  [mkWorkload "shop" "web" "Deployment" "apps/v1" ClassStateless EmptyString [] [] false None None; orphan "shop" claim].

Definition quiescing_cutover : Action :=
  with_act_status (Restore.with_phase ActionPhaseQuiescing EmptyString None zero_ActionStatus) new_cutover.
Definition two_clusters : Pair :=
  mkPair (mkEndpoints "east" (Some (Kube 0)) None None None) (mkEndpoints "west" (Some (Kube 1)) None None None).

Lemma cutover_waits_witness :
  always (runCutover (U := plain) (L := some_library) builtin_catalog ActionController.hub quiescing_cutover
      moving_policy None two_clusters stuck_inventory)
    (fun _ x => exists res, x = Ok res /\ Restore.r_Phase res = ActionPhaseQuiescing).
Proof.
  eapply wp_mono.
  - apply (cutover_waits (U := plain) (L := some_library) builtin_catalog ActionController.hub quiescing_cutover
      moving_policy None two_clusters stuck_inventory). reflexivity.
  - intros log x (res & Hx & _ & H). exists res. split; [exact Hx|]. apply H; [|reflexivity|reflexivity].
    exists (orphan "shop" claim). split_and!; [right; left|discriminate|reflexivity|discriminate|discriminate].
Defined.
